(** * OBBTree: build, skip computation and stackless query

    A shallow embedding of [hoomd/hpmc/OBBTree.h] (class
    [hpmc::detail::OBBTree<node_capacity>]) and proofs about the arena
    layout produced by [buildTree], the stackless [query], and the
    behaviour of the build on allocation failure and on degenerate input.

    Conventions.
    - [unsigned int] is a [Z] in [[0, 2^32)]; every arithmetic operation of
      the source is followed by [u32], its wrap-around.
    - The node arena [m_nodes] is the list of the [m_num_nodes] records
      that are in use; the slots of the allocation above [m_num_nodes]
      hold indeterminate data and are not represented.  The size of the
      allocation is [m_node_capacity].
    - The caller's arrays [obbs], [internal_coordinates] and the local
      [idx] are passed by reference through the whole recursion; they sit
      next to the tree in the machine state [St].
    - An access outside an array is undefined behaviour in the source; the
      model stops with [OutOfRange].  The exception thrown by
      [allocateNode] is [AllocationError]; the state in which it was
      thrown is kept, as it is in the source.
    - Recursion and the loops whose counter is changed in the body take
      fuel; running out of it is [OutOfFuel]. *)

From Stdlib Require Import ZArith Lia.
From stdpp Require Import base tactics option list list_numbers sorting.

Local Open Scope Z_scope.

(** ** Machine integers *)

Definition u32 (x : Z) : Z := x mod 2 ^ 32.

Definition is_u32 (x : Z) : Prop := 0 <= x < 2 ^ 32.

(** [const unsigned int OBB_INVALID_NODE = 0xffffffff;] *)
Definition OBB_INVALID_NODE : Z := 4294967295.

(** ** What the header takes from elsewhere

    [OBB.h], the vector math and the allocator are not part of the file.
    They are the fields of [Env]; [proj_negative my_obb o] is the test
    [dot(o.center - my_obb.center, transpose(my_obb.rotation).row0) < 0]
    of the partition sweep, [posix_memalign_ok c] tells whether the
    allocation of [c] node records succeeds, and [indet] is the content of
    a [particles] slot that was never written. *)

Class Env : Type := {
  OBB : Type;
  vec3 : Type;
  OverlapReal : Type;
  OBB_default : OBB;
  compute_obb : list vec3 -> OverlapReal -> OBB;
  overlap : OBB -> OBB -> bool;
  proj_negative : OBB -> OBB -> bool;
  getCorners : OBB -> list vec3;
  OverlapReal_zero : OverlapReal;
  node_capacity : Z;
  posix_memalign_ok : Z -> bool;
  indet : Z
}.

Inductive array_id : Set :=
  | A_obbs | A_idx | A_coords | A_mapping | A_nodes | A_particles.

Inductive err : Set :=
  | AllocationError
  | UnknownParticle
  | OutOfRange (a : array_id)
  | OutOfFuel.

(** Reading and writing an array at an [unsigned int] index. *)

Definition nthZ {A : Type} (l : list A) (i : Z) : option A :=
  if i <? 0 then None else l !! Z.to_nat i.

Definition updZ {A : Type} (l : list A) (i : Z) (x : A) : option (list A) :=
  match nthZ l i with
  | Some _ => Some (<[Z.to_nat i := x]> l)
  | None => None
  end.

(** [std::swap(l[a], l[b])] *)
Definition swapZ {A : Type} (l : list A) (a b : Z) : option (list A) :=
  match nthZ l a, nthZ l b with
  | Some x, Some y => Some (<[Z.to_nat b := x]> (<[Z.to_nat a := y]> l))
  | _, _ => None
  end.

(** The slice [l[start .. start+len)]. *)
Definition segZ {A : Type} (l : list A) (start len : Z) : list A :=
  take (Z.to_nat len) (drop (Z.to_nat start) l).

Section Model.
Context {env : Env}.

(** ** Data *)

Record OBBNode : Type := mkNode {
  obb : OBB;
  left : Z;
  right : Z;
  parent : Z;
  skip : Z;
  particles : list Z;
  num_particles : Z
}.

(** [OBBNode()]: the constructor sets the three links, [num_particles]
    and [skip]; the box is default constructed and [particles] is left
    as it is. *)
Definition OBBNode_default : OBBNode :=
  {| obb := OBB_default;
     left := OBB_INVALID_NODE;
     right := OBB_INVALID_NODE;
     parent := OBB_INVALID_NODE;
     skip := 0;
     particles := replicate (Z.to_nat node_capacity) indet;
     num_particles := 0 |}.

Definition set_obb (o : OBB) (n : OBBNode) : OBBNode :=
  mkNode o (left n) (right n) (parent n) (skip n) (particles n) (num_particles n).
Definition set_left (v : Z) (n : OBBNode) : OBBNode :=
  mkNode (obb n) v (right n) (parent n) (skip n) (particles n) (num_particles n).
Definition set_right (v : Z) (n : OBBNode) : OBBNode :=
  mkNode (obb n) (left n) v (parent n) (skip n) (particles n) (num_particles n).
Definition set_parent (v : Z) (n : OBBNode) : OBBNode :=
  mkNode (obb n) (left n) (right n) v (skip n) (particles n) (num_particles n).
Definition set_skip (v : Z) (n : OBBNode) : OBBNode :=
  mkNode (obb n) (left n) (right n) (parent n) v (particles n) (num_particles n).
Definition set_particles (ps : list Z) (n : OBBNode) : OBBNode :=
  mkNode (obb n) (left n) (right n) (parent n) (skip n) ps (num_particles n).
Definition set_num_particles (v : Z) (n : OBBNode) : OBBNode :=
  mkNode (obb n) (left n) (right n) (parent n) (skip n) (particles n) v.

Record OBBTree : Type := mkTree {
  m_nodes : list OBBNode;
  m_num_nodes : Z;
  m_node_capacity : Z;
  m_root : Z;
  m_mapping : list Z
}.

(** [OBBTree() : m_nodes(0), m_num_nodes(0), m_node_capacity(0), m_root(0)] *)
Definition OBBTree_new : OBBTree :=
  {| m_nodes := []; m_num_nodes := 0; m_node_capacity := 0; m_root := 0;
     m_mapping := [] |}.

Record St : Type := mkSt {
  tree : OBBTree;
  obbs : list OBB;
  idx : list Z;
  internal_coordinates : list (list vec3)
}.

Definition set_tree (t : OBBTree) (s : St) : St :=
  mkSt t (obbs s) (idx s) (internal_coordinates s).
Definition set_nodes (ns : list OBBNode) (t : OBBTree) : OBBTree :=
  mkTree ns (m_num_nodes t) (m_node_capacity t) (m_root t) (m_mapping t).

(** ** The monad: state that survives an error *)

Definition M (A : Type) : Type := St -> (err + A) * St.

Definition ret {A : Type} (a : A) : M A := fun s => (inr a, s).

Definition raise {A : Type} (e : err) : M A := fun s => (inl e, s).

Definition bind {A B : Type} (m : M A) (f : A -> M B) : M B :=
  fun s => match m s with
           | (inr a, s') => f a s'
           | (inl e, s') => (inl e, s')
           end.

Definition gets {A : Type} (f : St -> A) : M A := fun s => (inr (f s), s).

Definition modify (f : St -> St) : M unit := fun s => (inr tt, f s).

Definition lift {A : Type} (a : array_id) (o : option A) : M A :=
  match o with
  | Some x => ret x
  | None => raise (OutOfRange a)
  end.

Notation "'do' x <- m ; k" := (bind m (fun x => k))
  (at level 10, x name, m at level 100, k at level 200).

(** [for (i = lo; ...; i++) body(i)], [n] iterations. *)
Fixpoint for_upto (n : nat) (i : Z) (body : Z -> M unit) : M unit :=
  match n with
  | O => ret tt
  | S n' => do _ <- body i; for_upto n' (u32 (i + 1)) body
  end.

(** [m_nodes[k] = f(m_nodes[k])] *)
Definition write_node (k : Z) (f : OBBNode -> OBBNode) : M unit :=
  do t <- gets tree;
  do n <- lift A_nodes (nthZ (m_nodes t) k);
  modify (set_tree (set_nodes (<[Z.to_nat k := f n]> (m_nodes t)) t)).

Definition read_node (k : Z) : M OBBNode :=
  do t <- gets tree; lift A_nodes (nthZ (m_nodes t) k).

(** ** [init] *)

Definition init (N : Z) : M unit :=
  modify (fun s =>
    set_tree {| m_nodes := [];
                m_num_nodes := 0;
                m_node_capacity := m_node_capacity (tree s);
                m_root := OBB_INVALID_NODE;
                m_mapping := replicate (Z.to_nat N) OBB_INVALID_NODE |} s).

(** ** [allocateNode] *)

(** [m_new_node_capacity]: twice the capacity, sixteen when that is zero. *)
Definition new_capacity (capacity : Z) : Z :=
  let c2 := u32 (capacity * 2) in
  if c2 =? 0 then 16 else c2.

Definition allocateNode : M Z :=
  do t <- gets tree;
  do _ <- (if m_node_capacity t <=? m_num_nodes t then
             let c := new_capacity (m_node_capacity t) in
             if posix_memalign_ok c then
               (* memcpy of m_num_nodes records into the new block *)
               if negb (m_node_capacity t =? 0) && (c <? m_num_nodes t)
               then raise (OutOfRange A_nodes)
               else modify (fun s =>
                      set_tree (mkTree (m_nodes t) (m_num_nodes t) c
                                       (m_root t) (m_mapping t)) s)
             else raise AllocationError
           else ret tt);
  do t <- gets tree;
  if m_num_nodes t <? m_node_capacity t then
    do _ <- modify (set_tree (mkTree (m_nodes t ++ [OBBNode_default])
                                     (u32 (m_num_nodes t + 1))
                                     (m_node_capacity t) (m_root t)
                                     (m_mapping t)));
    do t' <- gets tree;
    ret (u32 (m_num_nodes t' - 1))
  else raise (OutOfRange A_nodes).

(** ** [buildNode] *)

(** The three [std::swap] calls of the sweep. *)
Definition swap3 (a b : Z) : M unit :=
  do s <- gets (fun s => s);
  do o <- lift A_obbs (swapZ (obbs s) a b);
  do i <- lift A_idx (swapZ (idx s) a b);
  do c <- lift A_coords (swapZ (internal_coordinates s) a b);
  modify (fun s => mkSt (tree s) o i c).

(** The partition sweep [for (i = 0; i < start_right; i++)]; the branch
    that swaps ends with [start_right--; i--;] and the loop header then
    adds one to [i] again. *)
Fixpoint sweep (fuel : nat) (my_obb : OBB) (start i start_right : Z) : M Z :=
  if start_right <=? i then ret start_right
  else match fuel with
       | O => raise OutOfFuel
       | S fuel' =>
           do s <- gets (fun s => s);
           do o <- lift A_obbs (nthZ (obbs s) (u32 (start + i)));
           if proj_negative my_obb o then
             sweep fuel' my_obb start (u32 (i + 1)) start_right
           else
             do _ <- swap3 (u32 (start + i)) (u32 (u32 (start + start_right) - 1));
             sweep fuel' my_obb start (u32 (u32 (i - 1) + 1)) (u32 (start_right - 1))
       end.

(** The two nested loops that collect the vertices of the sub-range. *)
Fixpoint gather (n : nat) (i : Z) (coords : list (list vec3)) : option (list vec3) :=
  match n with
  | O => Some []
  | S n' =>
      match nthZ coords i, gather n' (u32 (i + 1)) coords with
      | Some c, Some rest => Some (c ++ rest)
      | _, _ => None
      end
  end.

(** One iteration of the loop that fills a leaf. *)
Definition fill_leaf (new_node start i : Z) : M unit :=
  do s <- gets (fun s => s);
  do p <- lift A_idx (nthZ (idx s) (u32 (start + i)));
  do n <- read_node new_node;
  do ps <- lift A_particles (updZ (particles n) i p);
  do _ <- write_node new_node (set_particles ps);
  do s <- gets (fun s => s);
  do p' <- lift A_idx (nthZ (idx s) (u32 (start + i)));
  do mp <- lift A_mapping (updZ (m_mapping (tree s)) p' new_node);
  modify (fun s =>
    set_tree (mkTree (m_nodes (tree s)) (m_num_nodes (tree s))
                     (m_node_capacity (tree s)) (m_root (tree s)) mp) s).

(** The leaf branch: [if (len <= node_capacity) { ... return new_node; }] *)
Definition make_leaf (my_obb : OBB) (start len parent_idx : Z) : M Z :=
  do new_node <- allocateNode;
  do _ <- write_node new_node (set_obb my_obb);
  do _ <- write_node new_node (set_parent parent_idx);
  do _ <- write_node new_node (set_num_particles len);
  do _ <- for_upto (Z.to_nat len) 0 (fill_leaf new_node start);
  ret new_node.

(** The end of the internal branch: the four writes through [my_idx],
    after both children are built. *)
Definition connect (my_idx : Z) (my_obb : OBB) (parent_idx new_left new_right : Z)
    : M Z :=
  do _ <- write_node my_idx (set_obb my_obb);
  do _ <- write_node my_idx (set_parent parent_idx);
  do _ <- write_node my_idx (set_left new_left);
  do _ <- write_node my_idx (set_right new_right);
  ret my_idx.

(** The two checks after the sweep: [if (start_right == len) start_right
    = len-1; if (start_right == 0) start_right = 1;] *)
Definition guard (len start_right : Z) : Z :=
  let start_right := if start_right =? len then u32 (len - 1) else start_right in
  if start_right =? 0 then 1 else start_right.

Fixpoint buildNode (fuel : nat) (vertex_radius : OverlapReal)
    (start len parent_idx : Z) : M Z :=
  match fuel with
  | O => raise OutOfFuel
  | S fuel' =>
      do s <- gets (fun s => s);
      (* OBB my_obb = obbs[start]; *)
      do _ <- lift A_obbs (nthZ (obbs s) start);
      do merge_internal_coordinates <-
        lift A_coords (gather (Z.to_nat (u32 (start + len) - start)) start
                              (internal_coordinates s));
      let my_obb := compute_obb merge_internal_coordinates vertex_radius in
      if len <=? node_capacity then make_leaf my_obb start len parent_idx
      else
        do my_idx <- allocateNode;
        let start_left := 0 in
        let start_right := len in
        do start_right <-
          (if len =? 2 then ret start_right
           else sweep (Z.to_nat len) my_obb start 0 start_right);
        let start_right := guard len start_right in
        do new_left <- buildNode fuel' vertex_radius (u32 (start + start_left))
                         (u32 (start_right - start_left)) my_idx;
        do new_right <- buildNode fuel' vertex_radius (u32 (start + start_right))
                          (u32 (len - start_right)) my_idx;
        connect my_idx my_obb parent_idx new_left new_right
  end.

(** ** [updateSkip]

    The two recursive calls are the operands of one [+]; they write the
    skip fields of disjoint sets of nodes, the left one is taken first. *)
Fixpoint updateSkip (fuel : nat) (i : Z) : M Z :=
  match fuel with
  | O => raise OutOfFuel
  | S fuel' =>
      do n <- read_node i;
      if left n =? OBB_INVALID_NODE then ret 1
      else
        let left_idx := left n in
        let right_idx := right n in
        do l <- updateSkip fuel' left_idx;
        do r <- updateSkip fuel' right_idx;
        let skip := u32 (l + r) in
        do _ <- write_node i (set_skip skip);
        ret (u32 (skip + 1))
  end.

(** ** [buildTree] *)

Definition set_root (r : Z) : M unit :=
  modify (fun s =>
    set_tree (mkTree (m_nodes (tree s)) (m_num_nodes (tree s))
                     (m_node_capacity (tree s)) r (m_mapping (tree s))) s).

(** The body shared by the two [buildTree]: [init], the identity
    permutation in [idx], [buildNode] on the whole range and [updateSkip]
    from the root.  [buildNode] gets one unit of fuel per particle and
    one more, [updateSkip] one per node and one more. *)
Definition build_from (vertex_radius : OverlapReal) (N : Z) : M unit :=
  do _ <- init N;
  do _ <- modify (fun s => mkSt (tree s) (obbs s) (seqZ 0 N) (internal_coordinates s));
  do root <- buildNode (S (Z.to_nat N)) vertex_radius 0 N OBB_INVALID_NODE;
  do _ <- set_root root;
  do t <- gets tree;
  do _ <- updateSkip (S (Z.to_nat (m_num_nodes t))) root;
  ret tt.

(** [buildTree(obbs, internal_coordinates, vertex_radius, N)] on the tree [t]. *)
Definition buildTree (t : OBBTree) (os : list OBB) (coords : list (list vec3))
    (vertex_radius : OverlapReal) (N : Z) : (err + unit) * St :=
  build_from vertex_radius N (mkSt t os [] coords).

(** [internal_coordinates.push_back(obbs[i].getCorners())], [n] times. *)
Fixpoint corners_of (n : nat) (i : Z) (os : list OBB) : option (list (list vec3)) :=
  match n with
  | O => Some []
  | S n' =>
      match nthZ os i, corners_of n' (u32 (i + 1)) os with
      | Some o, Some rest => Some (getCorners o :: rest)
      | _, _ => None
      end
  end.

(** [buildTree(obbs, N)] on the tree [t]. *)
Definition buildTree_obbs (t : OBBTree) (os : list OBB) (N : Z) : (err + unit) * St :=
  match corners_of (Z.to_nat N) 0 os with
  | Some coords => build_from OverlapReal_zero N (mkSt t os [] coords)
  | None =>
      (inl (OutOfRange A_obbs),
       snd (init N (mkSt t os [] [])))
  end.

(** ** [query] *)

(** [isNodeLeaf], on the record of the node. *)
Definition isNodeLeaf (n : OBBNode) : bool := left n =? OBB_INVALID_NODE.

(** The inner loop of [query]: [num_particles] calls of [push_back]. *)
Definition push_particles (n : OBBNode) (hits : list Z) : option (list Z) :=
  if num_particles n <=? Z.of_nat (length (particles n))
  then Some (hits ++ take (Z.to_nat (num_particles n)) (particles n))
  else None.

Fixpoint query_loop (fuel : nat) (t : OBBTree) (q : OBB)
    (current_node_idx box_overlap_counts : Z) (hits : list Z)
    : err + (Z * list Z) :=
  if m_num_nodes t <=? current_node_idx then inr (box_overlap_counts, hits)
  else match fuel with
       | O => inl OutOfFuel
       | S fuel' =>
           match nthZ (m_nodes t) current_node_idx with
           | None => inl (OutOfRange A_nodes)
           | Some current_node =>
               let box_overlap_counts := u32 (box_overlap_counts + 1) in
               if overlap (obb current_node) q then
                 if left current_node =? OBB_INVALID_NODE then
                   match push_particles current_node hits with
                   | Some hits' =>
                       query_loop fuel' t q (u32 (current_node_idx + 1))
                                  box_overlap_counts hits'
                   | None => inl (OutOfRange A_particles)
                   end
                 else query_loop fuel' t q (u32 (current_node_idx + 1))
                                 box_overlap_counts hits
               else
                 query_loop fuel' t q
                   (u32 (u32 (current_node_idx + skip current_node) + 1))
                   box_overlap_counts hits
           end
       end.

(** [query(hits, obb)]: the count of box tests and the new [hits].  The
    sweep gets one unit of fuel per node. *)
Definition query (t : OBBTree) (hits : list Z) (q : OBB) : err + (Z * list Z) :=
  query_loop (Z.to_nat (m_num_nodes t)) t q 0 0 hits.

End Model.

(** ** Reading a built tree *)

Section Reading.
Context {env : Env}.

(** [j] lies in the subtree of [k]: it is [k] or is reached from it
    through the child links of internal nodes. *)
Inductive reach (ns : list OBBNode) : Z -> Z -> Prop :=
  | reach_self k : reach ns k k
  | reach_left k n j :
      nthZ ns k = Some n -> isNodeLeaf n = false ->
      reach ns (left n) j -> reach ns k j
  | reach_right k n j :
      nthZ ns k = Some n -> isNodeLeaf n = false ->
      reach ns (right n) j -> reach ns k j.

(** [particles[0 .. num_particles)] of a node. *)
Definition stored (n : OBBNode) : list Z :=
  take (Z.to_nat (num_particles n)) (particles n).

(** The particles of the leaf at arena index [k]; nothing for an internal
    node or outside the arena. *)
Definition leaf_particles (t : OBBTree) (k : Z) : list Z :=
  match nthZ (m_nodes t) k with
  | Some n => if isNodeLeaf n then stored n else []
  | None => []
  end.

(** The leaves' arrays, in arena order. *)
Definition all_leaf_particles (t : OBBTree) : list Z :=
  concat (map (leaf_particles t) (seqZ 0 (m_num_nodes t))).

Definition is_leaf_at (t : OBBTree) (k : Z) : Prop :=
  exists n, nthZ (m_nodes t) k = Some n /\ isNodeLeaf n = true.

(** Invariant 1 and 6 of the data model, on the arena. *)
Definition preorder_layout (t : OBBTree) : Prop :=
  forall k n, nthZ (m_nodes t) k = Some n ->
    if isNodeLeaf n then skip n = 0
    else left n = k + 1 /\ left n < right n /\
         (forall j, reach (m_nodes t) k j <-> k <= j < k + skip n + 1) /\
         k + skip n + 1 <= m_num_nodes t /\
         exists nl nr,
           nthZ (m_nodes t) (left n) = Some nl /\
           nthZ (m_nodes t) (right n) = Some nr /\
           skip n = skip nl + 1 + skip nr + 1.

(** The leaves that [query] reports for [q]: the leaf and every node above
    it pass the box test. *)
Definition visible (t : OBBTree) (q : OBB) (j : Z) : Prop :=
  is_leaf_at t j /\
  forall a n, reach (m_nodes t) a j -> nthZ (m_nodes t) a = Some n ->
              overlap (obb n) q = true.

(** The leaves whose own box passes the test, in arena order. *)
Definition overlapping_leaves (t : OBBTree) (q : OBB) : list Z :=
  List.filter (fun k => match nthZ (m_nodes t) k with
                        | Some n => isNodeLeaf n && overlap (obb n) q
                        | None => false
                        end)
              (seqZ 0 (m_num_nodes t)).

(** What a scan over the [N] particle boxes reports. *)
Definition brute_force (os : list OBB) (N : Z) (q : OBB) : list Z :=
  List.filter (fun p => match nthZ os p with
                        | Some o => overlap o q
                        | None => false
                        end)
              (seqZ 0 N).

(** Every allocated node but the first has a parent link that is set. *)
Definition parents_valid (t : OBBTree) : Prop :=
  forall k n, nthZ (m_nodes t) k = Some n -> k <> 0 ->
              parent n <> OBB_INVALID_NODE.

(** No parent link dangles: it is unset or names an older node. *)
Definition parents_older (t : OBBTree) : Prop :=
  forall k n, nthZ (m_nodes t) k = Some n ->
              parent n = OBB_INVALID_NODE \/ 0 <= parent n < k.

(** Modelled from the spec: [update] is declared in the header
    ([inline void update(unsigned int idx, const OBB& obb);]) and defined
    nowhere in the file.  Section 4.5 of the specification: it writes
    [new_obb] into [nodes[mapping[particle_idx]].obb] and fails with
    [UnknownParticle] if [mapping[particle_idx] == INVALID]; section 7
    adds the index that is out of range. *)
Definition update (t : OBBTree) (particle_idx : Z) (new_obb : OBB)
    : err + OBBTree :=
  match nthZ (m_mapping t) particle_idx with
  | None => inl UnknownParticle
  | Some k =>
      if k =? OBB_INVALID_NODE then inl UnknownParticle
      else match nthZ (m_nodes t) k with
           | None => inl (OutOfRange A_nodes)
           | Some n => inr (set_nodes (<[Z.to_nat k := set_obb new_obb n]> (m_nodes t)) t)
           end
  end.

(** ** The shape of a subtree, for the proofs *)

Inductive shape : Type :=
  | SLeaf (ps : list Z)
  | SNode (l r : shape).

Fixpoint size (T : shape) : Z :=
  match T with
  | SLeaf _ => 1
  | SNode l r => 1 + size l + size r
  end.

Fixpoint flat (T : shape) : list Z :=
  match T with
  | SLeaf ps => ps
  | SNode l r => flat l ++ flat r
  end.

(** The arena holds [T] in pre-order from slot [k] on, below parent [par]. *)
Fixpoint repr (ns : list OBBNode) (k par : Z) (T : shape) : Prop :=
  match T with
  | SLeaf ps =>
      exists n, nthZ ns k = Some n /\ isNodeLeaf n = true /\
                parent n = par /\ skip n = 0 /\ stored n = ps /\
                num_particles n <= Z.of_nat (length (particles n))
  | SNode l r =>
      exists n, nthZ ns k = Some n /\ left n = k + 1 /\
                right n = k + 1 + size l /\ parent n = par /\
                repr ns (k + 1) k l /\ repr ns (k + 1 + size l) k r
  end.

(** The skip fields of the internal nodes of [T] are set. *)
Fixpoint skips (ns : list OBBNode) (k : Z) (T : shape) : Prop :=
  match T with
  | SLeaf _ => True
  | SNode l r =>
      (exists n, nthZ ns k = Some n /\ skip n = size l + size r) /\
      skips ns (k + 1) l /\ skips ns (k + 1 + size l) r
  end.

(** [mapping] sends the particles of every leaf of [T] to that leaf. *)
Fixpoint mapped (mp : list Z) (k : Z) (T : shape) : Prop :=
  match T with
  | SLeaf ps => forall p, p ∈ ps -> nthZ mp p = Some k
  | SNode l r => mapped mp (k + 1) l /\ mapped mp (k + 1 + size l) r
  end.

(** The leaves of [T] that the sweep of [query] reports. *)
Fixpoint seen (ns : list OBBNode) (q : OBB) (k : Z) (T : shape) : list Z :=
  match nthZ ns k with
  | Some n =>
      if overlap (obb n) q then
        match T with
        | SLeaf _ => [k]
        | SNode l r => seen ns q (k + 1) l ++ seen ns q (k + 1 + size l) r
        end
      else []
  | None => []
  end.

(** The number of box tests of that sweep. *)
Fixpoint tests (ns : list OBBNode) (q : OBB) (k : Z) (T : shape) : Z :=
  match nthZ ns k with
  | Some n =>
      if overlap (obb n) q then
        match T with
        | SLeaf _ => 1
        | SNode l r => 1 + tests ns q (k + 1) l + tests ns q (k + 1 + size l) r
        end
      else 1
  | None => 0
  end.

End Reading.

(** ** A plane instance of the collaborators

    Boxes in the integer plane whose axes are the coordinate axes or the
    two diagonals.  A box is an interval on each of its two axes; in the
    diagonal frame the coordinates of [(x, y)] are [(x + y, x - y)].  The
    fit takes the frame in which the points spread most and the tight
    intervals there; the test is the separating axis test on the four
    directions. *)

Module Plane.

Record box : Type := mkBox {
  diag : bool;        (* the frame: coordinate axes or diagonals *)
  second : bool;      (* the longest axis is the second one of the frame *)
  ulo : Z; uhi : Z;
  vlo : Z; vhi : Z
}.

Definition point : Type := Z * Z.

Definition box0 : box := mkBox false false 0 0 0 0.

Definition minl (d : Z) (l : list Z) : Z := foldr Z.min d l.
Definition maxl (d : Z) (l : list Z) : Z := foldr Z.max d l.

Definition fit (pts : list point) (r : Z) : box :=
  match pts with
  | [] => box0
  | (x0, y0) :: _ =>
      let xs := map fst pts in
      let ys := map snd pts in
      let ss := map (fun p => fst p + snd p) pts in
      let ds := map (fun p => fst p - snd p) pts in
      let wx := maxl x0 xs - minl x0 xs in
      let wy := maxl y0 ys - minl y0 ys in
      let ws := maxl (x0 + y0) ss - minl (x0 + y0) ss in
      let wd := maxl (x0 - y0) ds - minl (x0 - y0) ds in
      if 2 * Z.max wx wy * Z.max wx wy <? Z.max ws wd * Z.max ws wd then
        mkBox true (ws <? wd)
              (minl (x0 + y0) ss - 2 * r) (maxl (x0 + y0) ss + 2 * r)
              (minl (x0 - y0) ds - 2 * r) (maxl (x0 - y0) ds + 2 * r)
      else
        mkBox false (wx <? wy)
              (minl x0 xs - r) (maxl x0 xs + r)
              (minl y0 ys - r) (maxl y0 ys + r)
  end.

(** Twice the extent of a box along x, y, x+y and x-y. *)
Definition spans (b : box) : list (Z * Z) :=
  if diag b then
    [ (ulo b + vlo b, uhi b + vhi b); (ulo b - vhi b, uhi b - vlo b);
      (2 * ulo b, 2 * uhi b); (2 * vlo b, 2 * vhi b) ]
  else
    [ (2 * ulo b, 2 * uhi b); (2 * vlo b, 2 * vhi b);
      (2 * (ulo b + vlo b), 2 * (uhi b + vhi b));
      (2 * (ulo b - vhi b), 2 * (uhi b - vlo b)) ].

Definition meet (i j : Z * Z) : bool := (fst i <=? snd j) && (fst j <=? snd i).
Definition within (i j : Z * Z) : bool := (fst j <=? fst i) && (snd i <=? snd j).

Fixpoint all2 (f : Z * Z -> Z * Z -> bool) (l k : list (Z * Z)) : bool :=
  match l, k with
  | i :: l', j :: k' => f i j && all2 f l' k'
  | _, _ => true
  end.

Definition boxes_overlap (a b : box) : bool := all2 meet (spans a) (spans b).

(** [a] lies within [b] along each of the four directions. *)
Definition inside (a b : box) : bool := all2 within (spans a) (spans b).

(** Four times the centre, in the plane. *)
Definition centre4 (b : box) : Z * Z :=
  if diag b then
    ((ulo b + uhi b) + (vlo b + vhi b), (ulo b + uhi b) - (vlo b + vhi b))
  else (2 * (ulo b + uhi b), 2 * (vlo b + vhi b)).

(** The coordinate of a point along the longest axis of [b]. *)
Definition along (b : box) (p : Z * Z) : Z :=
  match diag b, second b with
  | false, false => fst p
  | false, true => snd p
  | true, false => fst p + snd p
  | true, true => fst p - snd p
  end.

Definition left_of_centre (my o : box) : bool :=
  along my (centre4 o) - along my (centre4 my) <? 0.

Definition corners (b : box) : list point :=
  if diag b then
    [ ((ulo b + vlo b) / 2, (ulo b - vlo b) / 2);
      ((ulo b + vhi b) / 2, (ulo b - vhi b) / 2);
      ((uhi b + vlo b) / 2, (uhi b - vlo b) / 2);
      ((uhi b + vhi b) / 2, (uhi b - vhi b) / 2) ]
  else [ (ulo b, vlo b); (ulo b, vhi b); (uhi b, vlo b); (uhi b, vhi b) ].

(** Leaves of [cap] particles; the allocator serves at most [limit]
    records. *)
Definition plane (cap limit : Z) : Env :=
  {| OBB := box; vec3 := point; OverlapReal := Z;
     OBB_default := box0;
     compute_obb := fit;
     overlap := boxes_overlap;
     proj_negative := left_of_centre;
     getCorners := corners;
     OverlapReal_zero := 0;
     node_capacity := cap;
     posix_memalign_ok := fun c => c <=? limit;
     indet := 0 |}.

(** The square of side 2 around a point. *)
Definition cube (x y : Z) : box := mkBox false false (x - 1) (x + 1) (y - 1) (y + 1).

End Plane.


(** ** Invariants of the build *)

Section Invariants.
Context {env : Env}.

(** The arena list is the used part of an allocation of
    [m_node_capacity] records. *)
Definition arena_ok (t : OBBTree) : Prop :=
  Z.of_nat (length (m_nodes t)) = m_num_nodes t /\
  m_num_nodes t <= m_node_capacity t /\
  m_node_capacity t < 2 ^ 32.

(** The caller's arrays and [idx] cover the [N] particles, and [idx]
    lists each particle once. *)
Definition scratch_ok (N : Z) (s : St) : Prop :=
  N <= Z.of_nat (length (obbs s)) /\
  N <= Z.of_nat (length (internal_coordinates s)) /\
  idx s ≡ₚ seqZ 0 N /\
  Z.of_nat (length (m_mapping (tree s))) = N.

(** One more record in use, nothing else touched. *)
Definition allocated (s s' : St) (k : Z) : Prop :=
  k = m_num_nodes (tree s) /\
  m_nodes (tree s') = m_nodes (tree s) ++ [OBBNode_default] /\
  m_num_nodes (tree s') = k + 1 /\
  m_root (tree s') = m_root (tree s) /\
  m_mapping (tree s') = m_mapping (tree s) /\
  obbs s' = obbs s /\ idx s' = idx s /\
  internal_coordinates s' = internal_coordinates s.

(** What [buildNode] needs on entry: the sub-range lies in the arrays and
    is not empty. *)
Definition build_pre (N start len : Z) (s : St) : Prop :=
  arena_ok (tree s) /\ scratch_ok N s /\ N < 2 ^ 32 /\
  0 <= start /\ 1 <= len /\ start + len <= N /\
  1 <= node_capacity.

(** The parent handed to [buildNode] is a node in use, and no link of the
    arena dangles. *)
Definition parents_pre (par : Z) (s : St) : Prop :=
  parents_older (tree s) /\
  (par = OBB_INVALID_NODE \/ 0 <= par < m_num_nodes (tree s)).

(** What it leaves on return: a subtree in pre-order at the end of the
    arena, whose leaves hold the sub-range of [idx] as it then is. *)
Definition built (N start len par : Z) (s s' : St) (k : Z) : Prop :=
  k = m_num_nodes (tree s) /\
  arena_ok (tree s') /\ scratch_ok N s' /\
  (parents_pre par s -> parents_older (tree s')) /\
  m_root (tree s') = m_root (tree s) /\
  (exists new, m_nodes (tree s') = m_nodes (tree s) ++ new) /\
  (forall j, ~ (start <= j < start + len) -> nthZ (idx s') j = nthZ (idx s) j) /\
  (forall p, p ∉ segZ (idx s') start len ->
             nthZ (m_mapping (tree s')) p = nthZ (m_mapping (tree s)) p) /\
  exists T, repr (m_nodes (tree s')) k par T /\
            m_num_nodes (tree s') = k + size T /\
            flat T = segZ (idx s') start len /\
            mapped (m_mapping (tree s')) k T.

(** What it leaves when it does not return. *)
Definition build_failed (par : Z) (s s' : St) (e : err) : Prop :=
  (e = AllocationError \/ e = OutOfRange A_nodes) /\
  (parents_pre par s -> parents_older (tree s')) /\
  m_root (tree s') = m_root (tree s).

(** The tree that [buildTree] leaves over [N] particles. *)
Definition well_built (N : Z) (t : OBBTree) : Prop :=
  arena_ok t /\ m_root t = 0 /\
  Z.of_nat (length (m_mapping t)) = N /\
  exists T, repr (m_nodes t) 0 OBB_INVALID_NODE T /\
            skips (m_nodes t) 0 T /\
            m_num_nodes t = size T /\
            flat T ≡ₚ seqZ 0 N /\
            mapped (m_mapping t) 0 T.

(** What [buildTree] asks of its caller: [N] boxes and [N] vertex lists,
    and a leaf capacity of at least one. *)
Definition inputs_ok (t : OBBTree) (os : list OBB) (coords : list (list vec3))
    (N : Z) : Prop :=
  is_u32 (m_node_capacity t) /\
  1 <= N < 2 ^ 32 /\
  N <= Z.of_nat (length os) /\
  N <= Z.of_nat (length coords) /\
  1 <= node_capacity.

End Invariants.

(** ** Four sentences of the specification, as they are written *)

Section Stated.
Context {env : Env}.

(** Section 8, property 7, with the enclosure of invariant 2. *)
Definition stated_query_complete (encloses : OBB -> OBB -> bool)
    (t : OBBTree) (os : list OBB) (cs : list (list vec3))
    (r : OverlapReal) (N : Z) : Prop :=
  forall s',
    buildTree t os cs r N = (inr tt, s') ->
    (forall a b q, encloses b a = true -> overlap a q = true -> overlap b q = true) ->
    (forall k n j m,
       nthZ (m_nodes (tree s')) k = Some n -> isNodeLeaf n = false ->
       reach (m_nodes (tree s')) k j -> nthZ (m_nodes (tree s')) j = Some m ->
       encloses (obb n) (obb m) = true) ->
    forall q hits c hits',
      query (tree s') hits q = inr (c, hits') ->
      forall p, p ∈ brute_force os N q -> p ∈ hits'.

(** Section 8, property 6. *)
Definition stated_query_sound
    (t : OBBTree) (os : list OBB) (cs : list (list vec3))
    (r : OverlapReal) (N : Z) : Prop :=
  forall s',
    buildTree t os cs r N = (inr tt, s') ->
    forall q c hits',
      query (tree s') [] q = inr (c, hits') ->
      forall p o, p ∈ hits' -> nthZ os p = Some o -> overlap o q = true.

(** Section 4.4, the contract of [query]. *)
Definition stated_query_emission
    (t : OBBTree) (os : list OBB) (cs : list (list vec3))
    (r : OverlapReal) (N : Z) : Prop :=
  forall s',
    buildTree t os cs r N = (inr tt, s') ->
    forall q hits,
      exists c,
        query (tree s') hits q =
        inr (c, hits ++ concat (map (leaf_particles (tree s'))
                                    (overlapping_leaves (tree s') q))).

(** Section 7, the state after an allocation failure. *)
Definition stated_failure_state
    (t : OBBTree) (os : list OBB) (cs : list (list vec3))
    (r : OverlapReal) (N : Z) : Prop :=
  forall e s',
    buildTree t os cs r N = (inl e, s') ->
    e = AllocationError /\ parents_valid (tree s').

(** A test on every node of an arena, with its index. *)
Definition all_nodes (f : Z -> OBBNode -> bool) (ns : list OBBNode) : bool :=
  forallb (fun kn => f (fst kn) (snd kn))
          (zip (seqZ 0 (Z.of_nat (length ns))) ns).

End Stated.

(** ** Inputs on the plane *)

Module Demo.

Import Plane.

(** A box three times as long as it is high. *)
Definition brick (x y : Z) : box := mkBox false false (x - 3) (x + 3) (y - 1) (y + 1).

(** Seven bricks, leaves of two. *)
Definition env2 : Env := plane 2 1000.
Definition os7 : list box :=
  [brick 0 0; brick 10 0; brick 20 0; brick 30 0; brick 40 0; brick 5 50; brick 7 70].
Definition cs7 : list (list point) := map corners os7.
Abbreviation run7 := (@buildTree env2 OBBTree_new os7 cs7 0 7).

(** Five boxes at the same place, leaves of one. *)
Definition env1 : Env := plane 1 1000.
Definition os5 : list box := replicate 5 (cube 0 0).
Definition cs5 : list (list point) := map corners os5.
Definition start5 : St :=
  @mkSt env1 (@mkTree env1 [] 0 0 OBB_INVALID_NODE (replicate 5 OBB_INVALID_NODE))
        os5 (seqZ 0 5) cs5.

(** Nine boxes at the same place, and an allocator that serves the first
    block of sixteen records and nothing larger. *)
Definition env16 : Env := plane 1 16.
Definition os9 : list box := replicate 9 (cube 0 0).
Definition cs9 : list (list point) := map corners os9.
Abbreviation run9 := (@buildTree env16 OBBTree_new os9 cs9 0 9).

(** One particle whose box in [obbs] is wider than its vertices. *)
Definition os_wide : list box := [mkBox false false (-10) 10 (-10) 10].
Definition cs_wide : list (list point) := [[(0, 0)]].
Abbreviation run_wide := (@buildTree env1 OBBTree_new os_wide cs_wide 0 1).
Definition q_wide : box := cube 5 5.

(** Two bricks far apart in one leaf. *)
Definition os_far : list box := [brick 0 0; brick 100 0].
Definition cs_far : list (list point) := map corners os_far.
Abbreviation run_far := (@buildTree env2 OBBTree_new os_far cs_far 0 2).
Definition q_near : box := cube 1 1.

(** The same two bricks, leaves of one. *)
Abbreviation run_two := (@buildTree env1 OBBTree_new os_far cs_far 0 2).

(** A particle whose fitted box lies along the diagonal, below a root
    whose box lies along the x axis. *)
Definition cs_tilt : list (list point) :=
  [[(0, 0); (40, 40); (10, 30)]; [(1000, 0); (1000, 40)]].
Definition os_tilt : list box := map (fun c => fit c 0) cs_tilt.
Abbreviation run_tilt := (@buildTree env1 OBBTree_new os_tilt cs_tilt 0 2).
Definition q_tilt : box := mkBox false false (-12) (-8) 8 12.

(** No particle at all, in an array that holds a box. *)
Abbreviation run_none := (@buildTree env1 OBBTree_new [cube 0 0] [] 0 0).

End Demo.

(** ** [height] and the accessors *)

Section Height.
Context {env : Env}.

(** The loop of [height]: [while (current_node != OBB_INVALID_NODE)],
    one step up the parent links and one more on the counter. *)
Fixpoint climb (fuel : nat) (t : OBBTree) (current_node height : Z) : err + Z :=
  if current_node =? OBB_INVALID_NODE then inr height
  else match fuel with
       | O => inl OutOfFuel
       | S fuel' =>
           match nthZ (m_nodes t) current_node with
           | None => inl (OutOfRange A_nodes)
           | Some n => climb fuel' t (parent n) (u32 (height + 1))
           end
       end.

(** [height(idx)]; the [assert] on [idx] is the bound of the mapping.  The
    walk gets one unit of fuel per node. *)
Definition height (t : OBBTree) (idx : Z) : err + Z :=
  match nthZ (m_mapping t) idx with
  | None => inl (OutOfRange A_mapping)
  | Some node_idx =>
      if node_idx =? OBB_INVALID_NODE then inr 0
      else match nthZ (m_nodes t) node_idx with
           | None => inl (OutOfRange A_nodes)
           | Some n => climb (Z.to_nat (m_num_nodes t)) t (parent n) 1
           end
  end.

(** [getNumNodes], [getNodeSkip], [getNodeLeft], [getNodeNumParticles],
    [getNodeParticle], [getNodeOBB]: reads of [m_nodes[node]]. *)
Definition getNumNodes (t : OBBTree) : Z := m_num_nodes t.

Definition getNode (t : OBBTree) (node : Z) : option OBBNode := nthZ (m_nodes t) node.

Definition getNodeOBB (t : OBBTree) (node : Z) : option OBB :=
  obb <$> getNode t node.

Definition getNodeSkip (t : OBBTree) (node : Z) : option Z :=
  skip <$> getNode t node.

Definition getNodeLeft (t : OBBTree) (node : Z) : option Z :=
  left <$> getNode t node.

Definition getNodeNumParticles (t : OBBTree) (node : Z) : option Z :=
  num_particles <$> getNode t node.

Definition getNodeParticle (t : OBBTree) (node j : Z) : option Z :=
  match getNode t node with
  | Some n => nthZ (particles n) j
  | None => None
  end.

(** The nodes from the root [k] of [T] down to [j], for the proofs. *)
Fixpoint path (T : shape) (k j : Z) : list Z :=
  match T with
  | SLeaf _ => [k]
  | SNode l r =>
      k :: (if j =? k then []
            else if j <? k + 1 + size l then path l (k + 1) j
            else path r (k + 1 + size l) j)
  end.

(** ** What [updateSkip] and [query] leave alone *)

(** Two records that differ in the skip field at most, and not at all
    when they are leaves. *)
Definition skip_only (n n' : OBBNode) : Prop :=
  set_skip (skip n) n' = n /\ (isNodeLeaf n = true -> n' = n).

(** Two states that differ in the skip fields of internal nodes at most. *)
Definition skips_only (s s' : St) : Prop :=
  obbs s' = obbs s /\ idx s' = idx s /\
  internal_coordinates s' = internal_coordinates s /\
  m_num_nodes (tree s') = m_num_nodes (tree s) /\
  m_node_capacity (tree s') = m_node_capacity (tree s) /\
  m_root (tree s') = m_root (tree s) /\
  m_mapping (tree s') = m_mapping (tree s) /\
  Forall2 skip_only (m_nodes (tree s)) (m_nodes (tree s')).

(** The result of [query] with [hits] put in front of what it appended. *)
Definition prepend (hits : list Z) (res : err + (Z * list Z)) : err + (Z * list Z) :=
  match res with
  | inr (c, out) => inr (c, hits ++ out)
  | inl e => inl e
  end.

End Height.

(** ** The arrays of the build, and what a node is fitted to *)

Section Rows.
Context {env : Env}.

(** Between two states the entries of [idx], [obbs] and
    [internal_coordinates] at the positions [[lo, hi)] were moved
    together, an entry of each array at a time, the rest of the three
    arrays was left alone, and [idx] was permuted. *)
Definition lockstep (lo hi : Z) (s s' : St) : Prop :=
  idx s' ≡ₚ idx s /\
  length (obbs s') = length (obbs s) /\
  length (internal_coordinates s') = length (internal_coordinates s) /\
  (forall j, lo <= j < hi ->
     exists j', lo <= j' < hi /\
       nthZ (idx s') j = nthZ (idx s) j' /\
       nthZ (obbs s') j = nthZ (obbs s) j' /\
       nthZ (internal_coordinates s') j = nthZ (internal_coordinates s) j') /\
  (forall j, ~ (lo <= j < hi) ->
     nthZ (idx s') j = nthZ (idx s) j /\
     nthZ (obbs s') j = nthZ (obbs s) j /\
     nthZ (internal_coordinates s') j = nthZ (internal_coordinates s) j).

(** Position [j] of the arrays holds the box and the vertices that the
    caller handed in for the particle [idx[j]]. *)
Definition tagged (os0 : list OBB) (cs0 : list (list vec3)) (N : Z) (s : St) : Prop :=
  forall j, 0 <= j < N ->
    exists p, nthZ (idx s) j = Some p /\
              nthZ (obbs s) j = nthZ os0 p /\
              nthZ (internal_coordinates s) j = nthZ cs0 p.

(** [pts] are the vertices of the particles [ps], one list after the
    other. *)
Definition verts (cs0 : list (list vec3)) (ps : list Z) (pts : list vec3) : Prop :=
  exists cl, Forall2 (fun p c => nthZ cs0 p = Some c) ps cl /\ pts = concat cl.

(** The test of the sweep on the box of particle [p]: on the left of the
    centre of [b] along its first axis, or not. *)
Definition on_left (os0 : list OBB) (b : OBB) (p : Z) : Prop :=
  exists o, nthZ os0 p = Some o /\ proj_negative b o = true.

Definition on_right (os0 : list OBB) (b : OBB) (p : Z) : Prop :=
  exists o, nthZ os0 p = Some o /\ proj_negative b o = false.

(** The two sides [L] and [R] of a node with box [b]: one particle each
    when there are two; else the particles on the left and those on the
    right, unless all are on one side, and then the other side has
    borrowed one. *)
Definition split_ok (os0 : list OBB) (b : OBB) (L R : list Z) : Prop :=
  if Z.of_nat (length (L ++ R)) =? 2 then length L = 1%nat /\ length R = 1%nat
  else
    ((forall p, p ∈ L -> on_left os0 b p) /\ (forall p, p ∈ R -> on_right os0 b p)) \/
    ((forall p, p ∈ L ++ R -> on_left os0 b p) /\ length R = 1%nat) \/
    ((forall p, p ∈ L ++ R -> on_right os0 b p) /\ length L = 1%nat).

(** The records of the subtree [T] at [k] as [buildNode] leaves them. *)
Fixpoint fitted (os0 : list OBB) (cs0 : list (list vec3)) (r : OverlapReal)
    (ns : list OBBNode) (k : Z) (T : shape) : Prop :=
  match T with
  | SLeaf ps =>
      exists n pts,
        nthZ ns k = Some n /\ right n = OBB_INVALID_NODE /\
        num_particles n = Z.of_nat (length ps) /\
        1 <= num_particles n <= node_capacity /\
        Z.of_nat (length (particles n)) = node_capacity /\
        verts cs0 ps pts /\ obb n = compute_obb pts r
  | SNode l r' =>
      exists n ps pts,
        nthZ ns k = Some n /\ num_particles n = 0 /\
        node_capacity < Z.of_nat (length (flat l ++ flat r')) /\
        ps ≡ₚ flat l ++ flat r' /\
        verts cs0 ps pts /\ obb n = compute_obb pts r /\
        split_ok os0 (obb n) (flat l) (flat r') /\
        fitted os0 cs0 r ns (k + 1) l /\
        fitted os0 cs0 r ns (k + 1 + size l) r'
  end.

(** A record before [updateSkip] has seen it: no skip, and no more
    particles than the array has room for. *)
Definition unskipped (n : OBBNode) : Prop :=
  skip n = 0 /\ 0 <= num_particles n <= Z.of_nat (length (particles n)).

(** The nodes of [T] whose box the sweep of [query] tests. *)
Fixpoint visits (ns : list OBBNode) (q : OBB) (k : Z) (T : shape) : list Z :=
  match nthZ ns k with
  | Some n =>
      k :: (if overlap (obb n) q then
              match T with
              | SLeaf _ => []
              | SNode l r => visits ns q (k + 1) l ++ visits ns q (k + 1 + size l) r
              end
            else [])
  | None => []
  end.

(** The loop of [query] with a record of its box tests: the body is that
    of [query_loop], and [current_node_idx] is noted in [tested] where
    [box_overlap_counts] is incremented. *)
Fixpoint query_tested_loop (fuel : nat) (t : OBBTree) (q : OBB)
    (current_node_idx box_overlap_counts : Z) (hits tested : list Z)
    : err + (Z * list Z * list Z) :=
  if m_num_nodes t <=? current_node_idx then inr (box_overlap_counts, hits, tested)
  else match fuel with
       | O => inl OutOfFuel
       | S fuel' =>
           match nthZ (m_nodes t) current_node_idx with
           | None => inl (OutOfRange A_nodes)
           | Some current_node =>
               let box_overlap_counts := u32 (box_overlap_counts + 1) in
               let tested := tested ++ [current_node_idx] in
               if overlap (obb current_node) q then
                 if left current_node =? OBB_INVALID_NODE then
                   match push_particles current_node hits with
                   | Some hits' =>
                       query_tested_loop fuel' t q (u32 (current_node_idx + 1))
                                         box_overlap_counts hits' tested
                   | None => inl (OutOfRange A_particles)
                   end
                 else query_tested_loop fuel' t q (u32 (current_node_idx + 1))
                                        box_overlap_counts hits tested
               else
                 query_tested_loop fuel' t q
                   (u32 (u32 (current_node_idx + skip current_node) + 1))
                   box_overlap_counts hits tested
           end
       end.

(** [query(hits, obb)] with the nodes it tested, in the order of the
    tests. *)
Definition query_tested (t : OBBTree) (hits : list Z) (q : OBB)
    : err + (Z * list Z * list Z) :=
  query_tested_loop (Z.to_nat (m_num_nodes t)) t q 0 0 hits [].

(** The result without the record. *)
Definition untested (res : err + (Z * list Z * list Z)) : err + (Z * list Z) :=
  match res with
  | inl e => inl e
  | inr (c, hits, _) => inr (c, hits)
  end.

(** The particles of the leaves in the subtree of node [k], which takes
    the slots [[k, k + skip + 1)]. *)
Definition below (t : OBBTree) (k : Z) : list Z :=
  match nthZ (m_nodes t) k with
  | Some n => concat (map (leaf_particles t) (seqZ k (skip n + 1)))
  | None => []
  end.

(** The split of the internal branch, before the two checks. *)
Definition split (my_obb : OBB) (start len : Z) : M Z :=
  if len =? 2 then ret len else sweep (Z.to_nat len) my_obb start 0 len.

(** The node that [connect] writes over a default record. *)
Definition connected (my_obb : OBB) (parent_idx new_left new_right : Z) : OBBNode :=
  set_right new_right (set_left new_left (set_parent parent_idx
    (set_obb my_obb OBBNode_default))).

(** What [buildNode] writes into the record at slot [k], apart from the
    parent: a leaf with its particles, or an internal node connected to
    its two children. *)
Definition written (k : Z) (n : OBBNode) : Prop :=
  (left n = OBB_INVALID_NODE /\ right n = OBB_INVALID_NODE /\
   1 <= num_particles n <= node_capacity) \/
  (left n = k + 1 /\ k + 1 < right n /\ num_particles n = 0).

(** The arena that a build leaves when it stops: a record is as
    [allocateNode] made it (an internal node whose children are not
    built yet, with no parent written), or it is written and its parent
    is a node allocated before it. *)
Definition half_built (t : OBBTree) : Prop :=
  forall k n, nthZ (m_nodes t) k = Some n ->
    n = OBBNode_default \/ (0 <= parent n < k /\ written k n).

(** The runs of [buildNode] from a state that meets [build_pre], by the
    branch taken and the place where a run stops. *)
Inductive run_build (N : Z) (r : OverlapReal) :
    nat -> Z -> Z -> Z -> St -> (err + Z) * St -> Prop :=
  | run_leaf fuel start len par s pts out :
      build_pre N start len s -> (Z.to_nat len <= S fuel)%nat ->
      buildNode (S fuel) r start len par s = out ->
      gather (Z.to_nat len) start (internal_coordinates s) = Some pts ->
      len <= node_capacity ->
      make_leaf (compute_obb pts r) start len par s = out ->
      run_build N r (S fuel) start len par s out
  | run_full fuel start len par s pts e :
      build_pre N start len s -> (Z.to_nat len <= S fuel)%nat ->
      buildNode (S fuel) r start len par s = (inl e, s) ->
      gather (Z.to_nat len) start (internal_coordinates s) = Some pts ->
      node_capacity < len ->
      allocateNode s = (inl e, s) ->
      run_build N r (S fuel) start len par s (inl e, s)
  | run_left_stops fuel start len par s pts k s1 sr s2 e s3 :
      build_pre N start len s -> (Z.to_nat len <= S fuel)%nat ->
      buildNode (S fuel) r start len par s = (inl e, s3) ->
      gather (Z.to_nat len) start (internal_coordinates s) = Some pts ->
      node_capacity < len ->
      allocateNode s = (inr k, s1) ->
      split (compute_obb pts r) start len s1 = (inr sr, s2) ->
      run_build N r fuel start (guard len sr) k s2 (inl e, s3) ->
      run_build N r (S fuel) start len par s (inl e, s3)
  | run_right_stops fuel start len par s pts k s1 sr s2 kl s3 e s4 :
      build_pre N start len s -> (Z.to_nat len <= S fuel)%nat ->
      buildNode (S fuel) r start len par s = (inl e, s4) ->
      gather (Z.to_nat len) start (internal_coordinates s) = Some pts ->
      node_capacity < len ->
      allocateNode s = (inr k, s1) ->
      split (compute_obb pts r) start len s1 = (inr sr, s2) ->
      run_build N r fuel start (guard len sr) k s2 (inr kl, s3) ->
      run_build N r fuel (start + guard len sr) (len - guard len sr) k s3 (inl e, s4) ->
      run_build N r (S fuel) start len par s (inl e, s4)
  | run_node fuel start len par s pts k s1 sr s2 kl s3 kr s4 s' :
      build_pre N start len s -> (Z.to_nat len <= S fuel)%nat ->
      buildNode (S fuel) r start len par s = (inr k, s') ->
      gather (Z.to_nat len) start (internal_coordinates s) = Some pts ->
      node_capacity < len ->
      allocateNode s = (inr k, s1) ->
      split (compute_obb pts r) start len s1 = (inr sr, s2) ->
      run_build N r fuel start (guard len sr) k s2 (inr kl, s3) ->
      run_build N r fuel (start + guard len sr) (len - guard len sr) k s3 (inr kr, s4) ->
      nthZ (m_nodes (tree s4)) k = Some OBBNode_default ->
      s' = set_tree (set_nodes
             (<[Z.to_nat k := connected (compute_obb pts r) par kl kr]>
                (m_nodes (tree s4))) (tree s4)) s4 ->
      run_build N r (S fuel) start len par s (inr k, s').

End Rows.

(** ** More inputs on the plane *)

Module Arena.

(** The state of a tree that was never built, and of a full arena of
    [2^31] default records. *)
Definition fresh : St := @mkSt Demo.env1 OBBTree_new [] [] [].

Definition full31 : St :=
  @mkSt Demo.env1
        (@mkTree Demo.env1 (replicate (Z.to_nat (2 ^ 31)) OBBNode_default)
                 (2 ^ 31) (2 ^ 31) 0 [])
        [] [] [].

(** Seven bricks before the first sweep, and an arena with room for
    sixteen records. *)
Definition seven : St := @mkSt Demo.env2 OBBTree_new Demo.os7 (seqZ 0 7) Demo.cs7.


(** A point in a box of the plane. *)
Definition holds (b : Plane.box) (v : Plane.point) : bool :=
  if Plane.diag b then
    (Plane.ulo b <=? fst v + snd v) && (fst v + snd v <=? Plane.uhi b) &&
    (Plane.vlo b <=? fst v - snd v) && (fst v - snd v <=? Plane.vhi b)
  else
    (Plane.ulo b <=? fst v) && (fst v <=? Plane.uhi b) &&
    (Plane.vlo b <=? snd v) && (snd v <=? Plane.vhi b).

End Arena.
(** * Proofs *)

(** ** Integers and array accesses *)

Lemma u32_small x : 0 <= x < 2 ^ 32 -> u32 x = x.
Proof. intros H. unfold u32. apply Z.mod_small. exact H. Qed.

Lemma u32_range x : is_u32 (u32 x).
Proof. unfold is_u32, u32. apply Z.mod_pos_bound. lia. Qed.

Lemma nthZ_lookup {A} (l : list A) i : 0 <= i -> nthZ l i = l !! Z.to_nat i.
Proof. intros H. unfold nthZ. destruct (Z.ltb_spec i 0); [lia | reflexivity]. Qed.

Lemma nthZ_Some {A} (l : list A) i x :
  nthZ l i = Some x -> 0 <= i < Z.of_nat (length l) /\ l !! Z.to_nat i = Some x.
Proof.
  unfold nthZ. destruct (Z.ltb_spec i 0) as [Hneg | Hpos]; [discriminate |].
  intros Hx. split; [| exact Hx]. apply lookup_lt_Some in Hx. lia.
Qed.

Lemma nthZ_is_Some {A} (l : list A) i :
  0 <= i < Z.of_nat (length l) -> exists x, nthZ l i = Some x.
Proof.
  intros H. rewrite nthZ_lookup by lia.
  destruct (lookup_lt_is_Some_2 l (Z.to_nat i)) as [x Hx]; [lia |]. eauto.
Qed.

Lemma nthZ_app_l {A} (l k : list A) i x :
  nthZ l i = Some x -> nthZ (l ++ k) i = Some x.
Proof.
  intros H. apply nthZ_Some in H as [Hr H].
  rewrite nthZ_lookup by lia. apply lookup_app_l_Some. exact H.
Qed.

Lemma nthZ_app_lt {A} (l k : list A) i :
  i < Z.of_nat (length l) -> nthZ (l ++ k) i = nthZ l i.
Proof.
  intros H. unfold nthZ. destruct (Z.ltb_spec i 0); [reflexivity |].
  apply lookup_app_l. lia.
Qed.

Lemma nthZ_app_end {A} (l : list A) x :
  nthZ (l ++ [x]) (Z.of_nat (length l)) = Some x.
Proof.
  rewrite nthZ_lookup by lia. rewrite Nat2Z.id.
  rewrite lookup_app_r by lia. rewrite Nat.sub_diag. reflexivity.
Qed.

Lemma nthZ_insert_eq {A} (l : list A) i x y :
  nthZ l i = Some y -> nthZ (<[Z.to_nat i := x]> l) i = Some x.
Proof.
  intros H. apply nthZ_Some in H as [Hr H]. rewrite nthZ_lookup by lia.
  apply list_lookup_insert_eq. lia.
Qed.

Lemma nthZ_insert_ne {A} (l : list A) i j x :
  0 <= i -> i <> j -> nthZ (<[Z.to_nat i := x]> l) j = nthZ l j.
Proof.
  intros Hi Hne. unfold nthZ. destruct (Z.ltb_spec j 0); [reflexivity |].
  apply list_lookup_insert_ne. lia.
Qed.

Lemma nthZ_ext {A} (l k : list A) :
  (forall i, nthZ l i = nthZ k i) -> l = k.
Proof.
  intros H. apply list_eq. intros i. specialize (H (Z.of_nat i)).
  rewrite !nthZ_lookup in H by lia. rewrite Nat2Z.id in H. exact H.
Qed.

Lemma nthZ_elem_of {A} (l : list A) i x : nthZ l i = Some x -> x ∈ l.
Proof. intros H. apply nthZ_Some in H as [_ H]. eapply list_elem_of_lookup_2, H. Qed.

Lemma elem_of_nthZ {A} (l : list A) x : x ∈ l -> exists i, nthZ l i = Some x.
Proof.
  intros [i Hi]%list_elem_of_lookup. exists (Z.of_nat i).
  rewrite nthZ_lookup by lia. rewrite Nat2Z.id. exact Hi.
Qed.

Lemma updZ_Some {A} (l : list A) i x :
  0 <= i < Z.of_nat (length l) -> updZ l i x = Some (<[Z.to_nat i := x]> l).
Proof.
  intros H. unfold updZ. destruct (nthZ_is_Some l i H) as [y ->]. reflexivity.
Qed.

Lemma swapZ_Some {A} (l : list A) a b :
  0 <= a < Z.of_nat (length l) -> 0 <= b < Z.of_nat (length l) ->
  exists l', swapZ l a b = Some l' /\ length l' = length l /\ l' ≡ₚ l /\
             forall j, j <> a -> j <> b -> nthZ l' j = nthZ l j.
Proof.
  intros Ha Hb. unfold swapZ.
  destruct (nthZ_is_Some l a Ha) as [x Hx], (nthZ_is_Some l b Hb) as [y Hy].
  rewrite Hx, Hy. eexists. split; [reflexivity |].
  apply nthZ_Some in Hx as [_ Hx]. apply nthZ_Some in Hy as [_ Hy].
  split; [| split].
  - rewrite !length_insert. reflexivity.
  - apply Permutation_insert_swap; assumption.
  - intros j Hja Hjb. rewrite nthZ_insert_ne by lia.
    apply nthZ_insert_ne; lia.
Qed.

Lemma segZ_length {A} (l : list A) start len :
  0 <= start -> 0 <= len -> start + len <= Z.of_nat (length l) ->
  Z.of_nat (length (segZ l start len)) = len.
Proof.
  intros. unfold segZ. rewrite length_take, length_drop. lia.
Qed.

Lemma segZ_lookup {A} (l : list A) start len i :
  0 <= start -> 0 <= i < len ->
  nthZ (segZ l start len) i = nthZ l (start + i).
Proof.
  intros Hs Hi. rewrite !nthZ_lookup by lia. unfold segZ.
  rewrite lookup_take_lt by lia. rewrite lookup_drop. f_equal. lia.
Qed.

Lemma segZ_ext {A} (l k : list A) start len :
  0 <= start -> 0 <= len ->
  length l = length k ->
  (forall j, start <= j < start + len -> nthZ l j = nthZ k j) ->
  segZ l start len = segZ k start len.
Proof.
  intros Hs Hl Hlen H. apply list_eq. intros i. unfold segZ.
  destruct (decide (i < Z.to_nat len)%nat) as [Hi | Hi].
  - rewrite !lookup_take_lt by lia. rewrite !lookup_drop.
    specialize (H (start + Z.of_nat i)). rewrite !nthZ_lookup in H by lia.
    replace (Z.to_nat (start + Z.of_nat i)) with (Z.to_nat start + i)%nat in H by lia.
    apply H. lia.
  - rewrite !lookup_take_ge by lia. reflexivity.
Qed.

Lemma segZ_app {A} (l : list A) start a b :
  0 <= start -> 0 <= a -> 0 <= b ->
  segZ l start (a + b) = segZ l start a ++ segZ l (start + a) b.
Proof.
  intros. unfold segZ.
  replace (Z.to_nat (a + b)) with (Z.to_nat a + Z.to_nat b)%nat by lia.
  rewrite <- take_take_drop. f_equal.
  rewrite drop_drop. do 2 f_equal. lia.
Qed.

Lemma segZ_all {A} (l : list A) :
  segZ l 0 (Z.of_nat (length l)) = l.
Proof. unfold segZ. simpl. rewrite Nat2Z.id. apply firstn_all. Qed.

Lemma segZ_elem_of {A} (l : list A) start len x :
  0 <= start -> 0 <= len ->
  x ∈ segZ l start len ->
  exists j, start <= j < start + len /\ nthZ l j = Some x.
Proof.
  intros Hs Hl [i Hi]%list_elem_of_lookup. unfold segZ in Hi.
  apply lookup_take_Some in Hi as [Hi Hlt]. rewrite lookup_drop in Hi.
  exists (start + Z.of_nat i). split; [lia |].
  rewrite nthZ_lookup by lia.
  replace (Z.to_nat (start + Z.of_nat i)) with (Z.to_nat start + i)%nat by lia.
  exact Hi.
Qed.

Section Proofs.
Context {env : Env}.

(** ** [allocateNode] *)

Lemma allocateNode_spec s :
  arena_ok (tree s) ->
  match allocateNode s with
  | (inr k, s') => allocated s s' k /\ arena_ok (tree s')
  | (inl e, s') => s' = s /\ (e = AllocationError \/ e = OutOfRange A_nodes)
  end.
Proof.
  intros (Hlen & Hle & Hcap). unfold allocateNode, bind, gets. simpl.
  assert (Hpow : 2 ^ 32 = 4294967296) by reflexivity.
  destruct (Z.leb_spec (m_node_capacity (tree s)) (m_num_nodes (tree s))) as [Hfull | Hroom].
  - unfold new_capacity.
    set (c2 := u32 (m_node_capacity (tree s) * 2)).
    set (c := if c2 =? 0 then 16 else c2).
    destruct (posix_memalign_ok c); [| simpl; auto].
    assert (Hc2 : 0 <= c2 < 2 ^ 32) by apply u32_range.
    assert (Hc : 0 < c < 2 ^ 32).
    { unfold c. destruct (Z.eqb_spec c2 0); lia. }
    destruct (negb (m_node_capacity (tree s) =? 0) && (c <? m_num_nodes (tree s))) eqn:Hcpy;
      [simpl; auto |].
    simpl.
    assert (Hlt : m_num_nodes (tree s) < c).
    { apply andb_false_iff in Hcpy as [Hz | Hlt].
      - apply negb_false_iff, Z.eqb_eq in Hz. lia.
      - apply Z.ltb_ge in Hlt.
        assert (m_node_capacity (tree s) = m_num_nodes (tree s)) as Heq by lia.
        destruct (Z.eq_dec (m_num_nodes (tree s)) c) as [Hnc | Hnc]; [| lia].
        exfalso. unfold c, c2, u32 in Hnc. rewrite Heq in Hnc.
        destruct (Z.eqb_spec ((m_num_nodes (tree s) * 2) mod 2 ^ 32) 0) as [Hz | Hz].
        + rewrite Hnc in Hz. vm_compute in Hz. discriminate Hz.
        + destruct (Z.lt_ge_cases (m_num_nodes (tree s) * 2) (2 ^ 32)).
          * rewrite Z.mod_small in Hnc, Hz by lia. lia.
          * assert ((m_num_nodes (tree s) * 2) mod 2 ^ 32
                    = m_num_nodes (tree s) * 2 - 2 ^ 32) as Hm.
            { symmetry. apply Z.mod_unique with (q := 1); lia. }
            lia. }
    destruct (Z.ltb_spec (m_num_nodes (tree s)) c); [| lia]. simpl.
    rewrite (u32_small (m_num_nodes (tree s) + 1)) by lia.
    rewrite u32_small by lia.
    unfold allocated, arena_ok. simpl. rewrite length_app. simpl.
    repeat split; try reflexivity; try lia.
  - simpl. destruct (Z.ltb_spec (m_num_nodes (tree s)) (m_node_capacity (tree s))); [| lia].
    simpl.
    rewrite (u32_small (m_num_nodes (tree s) + 1)) by lia.
    rewrite u32_small by lia.
    unfold allocated, arena_ok. simpl. rewrite length_app. simpl.
    repeat split; try reflexivity; try lia.
Qed.

(** ** The small steps of [buildNode] *)

Lemma u32_dec_inc i : 0 <= i < 2 ^ 32 -> u32 (u32 (i - 1) + 1) = i.
Proof.
  intros H. destruct (Z.eq_dec i 0) as [-> | Hne]; [reflexivity |].
  rewrite (u32_small (i - 1)) by lia. rewrite u32_small by lia. lia.
Qed.

Lemma guard_range len sr :
  2 <= len < 2 ^ 32 -> 0 <= sr <= len -> 1 <= guard len sr <= len - 1.
Proof.
  intros Hlen Hsr. unfold guard.
  destruct (Z.eqb_spec sr len) as [-> | Hne].
  - rewrite u32_small by lia. destruct (Z.eqb_spec (len - 1) 0); lia.
  - destruct (Z.eqb_spec sr 0); lia.
Qed.

Lemma write_node_eq k f s n :
  nthZ (m_nodes (tree s)) k = Some n ->
  write_node k f s =
  (inr tt, set_tree (set_nodes (<[Z.to_nat k := f n]> (m_nodes (tree s))) (tree s)) s).
Proof. intros H. unfold write_node, bind, gets. simpl. rewrite H. reflexivity. Qed.

Lemma read_node_eq k s n :
  nthZ (m_nodes (tree s)) k = Some n -> read_node k s = (inr n, s).
Proof. intros H. unfold read_node, bind, gets. simpl. rewrite H. reflexivity. Qed.

Lemma swap3_spec t os ix cs a b :
  0 <= a -> 0 <= b ->
  a < Z.of_nat (length os) -> b < Z.of_nat (length os) ->
  a < Z.of_nat (length ix) -> b < Z.of_nat (length ix) ->
  a < Z.of_nat (length cs) -> b < Z.of_nat (length cs) ->
  exists os' ix' cs',
    swap3 a b (mkSt t os ix cs) = (inr tt, mkSt t os' ix' cs') /\
    length os' = length os /\ length cs' = length cs /\ ix' ≡ₚ ix /\
    forall j, j <> a -> j <> b -> nthZ ix' j = nthZ ix j.
Proof.
  intros Ha Hb Hao Hbo Hai Hbi Hac Hbc.
  destruct (swapZ_Some os a b) as (os' & Eo & Lo & _); [lia | lia |].
  destruct (swapZ_Some ix a b) as (ix' & Ei & Li & Pi & Fi); [lia | lia |].
  destruct (swapZ_Some cs a b) as (cs' & Ec & Lc & _); [lia | lia |].
  exists os', ix', cs'. unfold swap3, bind, gets. simpl.
  rewrite Eo. simpl. rewrite Ei. simpl. rewrite Ec. simpl. auto.
Qed.

Lemma sweep_spec my start fuel : forall i sr t os ix cs,
  0 <= start -> 0 <= i <= sr ->
  start + sr <= Z.of_nat (length os) ->
  start + sr <= Z.of_nat (length ix) ->
  start + sr <= Z.of_nat (length cs) ->
  start + sr < 2 ^ 32 ->
  (Z.to_nat (sr - i) <= fuel)%nat ->
  exists sr' os' ix' cs',
    sweep fuel my start i sr (mkSt t os ix cs) = (inr sr', mkSt t os' ix' cs') /\
    0 <= sr' <= sr /\
    length os' = length os /\ length cs' = length cs /\ ix' ≡ₚ ix /\
    forall j, ~ (start <= j < start + sr) -> nthZ ix' j = nthZ ix j.
Proof.
  induction fuel as [| fuel IH]; intros i sr t os ix cs Hs Hi Ho Hx Hc Hlt Hf.
  - assert (i = sr) as -> by lia. simpl.
    destruct (Z.leb_spec sr sr); [| lia].
    exists sr, os, ix, cs. repeat split; auto; lia.
  - simpl. destruct (Z.leb_spec sr i) as [Hdone | Hgo].
    + assert (i = sr) as -> by lia.
      exists sr, os, ix, cs. repeat split; auto; lia.
    + unfold bind at 1. unfold gets at 1. simpl.
      rewrite (u32_small (start + i)) by lia.
      destruct (nthZ_is_Some os (start + i)) as [o Eo]; [lia |].
      unfold bind at 1. rewrite Eo. simpl.
      destruct (proj_negative my o).
      * rewrite (u32_small (i + 1)) by lia.
        apply IH; lia.
      * rewrite (u32_small (start + sr)) by lia.
        rewrite (u32_small (start + sr - 1)) by lia.
        rewrite u32_dec_inc by lia.
        rewrite (u32_small (sr - 1)) by lia.
        destruct (swap3_spec t os ix cs (start + i) (start + sr - 1))
          as (os1 & ix1 & cs1 & E1 & Lo1 & Lc1 & P1 & F1); try lia.
        unfold bind at 1. rewrite E1.
        assert (length ix1 = length ix) as Lx1 by (apply Permutation_length, P1).
        destruct (IH i (sr - 1) t os1 ix1 cs1)
          as (sr' & os' & ix' & cs' & E & Hr & Lo' & Lc' & P' & F'); try lia.
        exists sr', os', ix', cs'. rewrite E.
        repeat split; try lia; try congruence.
        -- etransitivity; eassumption.
        -- intros j Hj. rewrite F' by lia. apply F1; lia.
Qed.

Lemma gather_Some (coords : list (list vec3)) n : forall i,
  0 <= i -> i + Z.of_nat n <= Z.of_nat (length coords) ->
  i + Z.of_nat n < 2 ^ 32 ->
  exists pts, gather n i coords = Some pts.
Proof.
  induction n as [| n IH]; intros i Hi Hlen Hlt; simpl.
  - eauto.
  - destruct (nthZ_is_Some coords i) as [c ->]; [lia |].
    rewrite u32_small by lia.
    destruct (IH (i + 1)) as [rest ->]; [lia | lia | lia |]. eauto.
Qed.

Lemma set_particles_same (n : OBBNode) : set_particles (particles n) n = n.
Proof. destruct n. reflexivity. Qed.

Lemma fill_leaf_step ns num cap root mp os ix cs k start i n p :
  nthZ ns k = Some n ->
  0 <= start + i < 2 ^ 32 ->
  nthZ ix (start + i) = Some p ->
  0 <= i < Z.of_nat (length (particles n)) ->
  0 <= p < Z.of_nat (length mp) ->
  fill_leaf k start i (mkSt (mkTree ns num cap root mp) os ix cs) =
  (inr tt,
   mkSt (mkTree (<[Z.to_nat k := set_particles (<[Z.to_nat i := p]> (particles n)) n]> ns)
                num cap root (<[Z.to_nat p := k]> mp)) os ix cs).
Proof.
  intros Hn Hr Hp Hi Hpm.
  unfold fill_leaf, read_node, write_node, bind, gets, lift, modify, ret. simpl.
  rewrite u32_small by lia. rewrite Hp. simpl. rewrite Hn. simpl.
  rewrite updZ_Some by lia. simpl. rewrite Hn. simpl. rewrite Hp. simpl.
  rewrite updZ_Some by lia. simpl. reflexivity.
Qed.

Lemma segZ_cons {A} (l : list A) a n x :
  0 <= a -> nthZ l a = Some x ->
  segZ l a (Z.of_nat (S n)) = x :: segZ l (a + 1) (Z.of_nat n).
Proof.
  intros Ha Hx. unfold segZ. apply nthZ_Some in Hx as [_ Hx].
  rewrite !Nat2Z.id. rewrite (drop_S _ _ _ Hx). simpl.
  replace (Z.to_nat (a + 1)) with (S (Z.to_nat a)) by lia. reflexivity.
Qed.

Lemma fill_loop num cap root os ix cs k start cnt : forall i ns mp n,
  nthZ ns k = Some n ->
  0 <= start -> 0 <= i ->
  start + i + Z.of_nat cnt <= Z.of_nat (length ix) ->
  start + i + Z.of_nat cnt < 2 ^ 32 ->
  i + Z.of_nat cnt <= Z.of_nat (length (particles n)) ->
  (forall p, p ∈ ix -> 0 <= p < Z.of_nat (length mp)) ->
  exists ps' mp',
    for_upto cnt i (fill_leaf k start) (mkSt (mkTree ns num cap root mp) os ix cs) =
    (inr tt, mkSt (mkTree (<[Z.to_nat k := set_particles ps' n]> ns) num cap root mp')
                  os ix cs) /\
    length ps' = length (particles n) /\ length mp' = length mp /\
    (forall j, i <= j < i + Z.of_nat cnt -> nthZ ps' j = nthZ ix (start + j)) /\
    (forall j, ~ (i <= j < i + Z.of_nat cnt) -> nthZ ps' j = nthZ (particles n) j) /\
    (forall q, q ∈ segZ ix (start + i) (Z.of_nat cnt) -> nthZ mp' q = Some k) /\
    (forall q, q ∉ segZ ix (start + i) (Z.of_nat cnt) -> nthZ mp' q = nthZ mp q).
Proof.
  induction cnt as [| cnt IH]; intros i ns mp n Hn Hs Hi Hix Hlt Hps Hmp.
  - exists (particles n), mp. simpl. unfold ret.
    rewrite set_particles_same.
    apply nthZ_Some in Hn as [Hk Hn]. rewrite list_insert_id by exact Hn.
    repeat split; auto; try (intros; lia).
    intros q Hq. unfold segZ in Hq. simpl in Hq. inversion Hq.
  - destruct (nthZ_is_Some ix (start + i)) as [p Hp]; [lia |].
    assert (Hpr : 0 <= p < Z.of_nat (length mp)) by (eapply Hmp, nthZ_elem_of, Hp).
    simpl. unfold bind at 1.
    erewrite fill_leaf_step; try eassumption; try lia.
    rewrite (u32_small (i + 1)) by lia.
    set (n1 := set_particles (<[Z.to_nat i := p]> (particles n)) n).
    assert (Hk : 0 <= k) by (apply nthZ_Some in Hn; lia).
    destruct (IH (i + 1) (<[Z.to_nat k := n1]> ns) (<[Z.to_nat p := k]> mp) n1)
      as (ps' & mp' & E & Lp & Lm & Hin & Hout & Min & Mout).
    + eapply nthZ_insert_eq, Hn.
    + lia.
    + lia.
    + lia.
    + lia.
    + unfold n1. simpl. rewrite length_insert. lia.
    + intros q Hq. rewrite length_insert. auto.
    + exists ps', mp'. rewrite E. rewrite list_insert_insert_eq.
      unfold n1 at 1. unfold set_particles at 1 2. simpl.
      unfold n1 in Lp, Hout. simpl in Lp, Hout. rewrite length_insert in Lp, Lm.
      split; [reflexivity |]. split; [exact Lp |]. split; [exact Lm |].
      rewrite (segZ_cons ix (start + i) cnt p) by (lia || assumption).
      replace (start + (i + 1)) with (start + i + 1) in Min, Mout by lia.
      destruct (nthZ_is_Some (particles n) i) as [y Hy]; [lia |].
      split; [| split; [| split]].
      * intros j Hj. destruct (Z.eq_dec j i) as [-> | Hne].
        -- rewrite Hout by lia. rewrite Hp. eapply nthZ_insert_eq, Hy.
        -- apply Hin. lia.
      * intros j Hj. rewrite Hout by lia. apply nthZ_insert_ne; lia.
      * intros q Hq.
        destruct (decide (q ∈ segZ ix (start + i + 1) (Z.of_nat cnt))) as [Hl | Hl].
        -- apply Min, Hl.
        -- rewrite Mout by exact Hl. apply elem_of_cons in Hq as [-> | Hq]; [| tauto].
           destruct (nthZ_is_Some mp p Hpr) as [z Hz]. eapply nthZ_insert_eq, Hz.
      * intros q Hq. apply not_elem_of_cons in Hq as [Hne Hq].
        rewrite Mout by exact Hq. apply nthZ_insert_ne; lia.
Qed.

(** ** Subtrees in the arena *)

Lemma size_pos T : 1 <= size T.
Proof. induction T; simpl; lia. Qed.

Lemma repr_range ns T : forall k par,
  repr ns k par T -> 0 <= k /\ k + size T <= Z.of_nat (length ns).
Proof.
  induction T as [ps | l IHl r IHr]; intros k par H; simpl in *.
  - destruct H as (n & Hn & _). apply nthZ_Some in Hn. lia.
  - destruct H as (n & Hn & _ & _ & _ & Hl & Hr).
    apply nthZ_Some in Hn. apply IHl in Hl. apply IHr in Hr. lia.
Qed.

Lemma repr_ext ns ns' T : forall k par,
  (forall j, k <= j < k + size T -> nthZ ns' j = nthZ ns j) ->
  repr ns k par T -> repr ns' k par T.
Proof.
  induction T as [ps | l IHl r IHr]; intros k par Hext H; simpl in *.
  - destruct H as (n & Hn & H). exists n. rewrite Hext by lia. auto.
  - destruct H as (n & Hn & Hleft & Hright & Hpar & Hl & Hr).
    pose proof (size_pos l). pose proof (size_pos r).
    exists n. rewrite Hext by lia. repeat split; auto.
    + apply IHl; [| exact Hl]. intros j Hj. apply Hext. lia.
    + apply IHr; [| exact Hr]. intros j Hj. apply Hext. lia.
Qed.

Lemma repr_app ns new T k par : repr ns k par T -> repr (ns ++ new) k par T.
Proof.
  intros H. pose proof (repr_range _ _ _ _ H) as Hr.
  eapply repr_ext; [| exact H]. intros j Hj. apply nthZ_app_lt. lia.
Qed.

Lemma repr_insert ns T k par i x :
  0 <= i -> i < k \/ k + size T <= i ->
  repr ns k par T -> repr (<[Z.to_nat i := x]> ns) k par T.
Proof.
  intros Hi Hout H. eapply repr_ext; [| exact H].
  intros j Hj. apply nthZ_insert_ne; lia.
Qed.

Lemma skips_ext ns ns' T : forall k,
  (forall j, k <= j < k + size T -> nthZ ns' j = nthZ ns j) ->
  skips ns k T -> skips ns' k T.
Proof.
  induction T as [ps | l IHl r IHr]; intros k Hext H; simpl in *; [exact I |].
  destruct H as ((n & Hn & Hs) & Hl & Hr).
  pose proof (size_pos l). pose proof (size_pos r).
  split; [| split].
  - exists n. rewrite Hext by lia. auto.
  - apply IHl; [| exact Hl]. intros j Hj. apply Hext. lia.
  - apply IHr; [| exact Hr]. intros j Hj. apply Hext. lia.
Qed.

Lemma mapped_ext mp mp' T : forall k,
  (forall p, p ∈ flat T -> nthZ mp' p = nthZ mp p) ->
  mapped mp k T -> mapped mp' k T.
Proof.
  induction T as [ps | l IHl r IHr]; intros k Hext H; simpl in *.
  - intros p Hp. rewrite Hext by exact Hp. auto.
  - destruct H as [Hl Hr]. split.
    + apply IHl; [| exact Hl]. intros p Hp. apply Hext, elem_of_app. auto.
    + apply IHr; [| exact Hr]. intros p Hp. apply Hext, elem_of_app. auto.
Qed.

Lemma insert_at_end {A} (l rest : list A) d x :
  <[length l := x]> (l ++ d :: rest) = l ++ x :: rest.
Proof.
  rewrite insert_app_r_alt by lia. rewrite Nat.sub_diag. reflexivity.
Qed.

Lemma parents_older_app t t' :
  m_nodes t' = m_nodes t ++ [OBBNode_default] ->
  parents_older t -> parents_older t'.
Proof.
  intros Hn Hp k n Hk. rewrite Hn in Hk.
  destruct (Z.lt_ge_cases k (Z.of_nat (length (m_nodes t)))) as [Hlt | Hge].
  - rewrite nthZ_app_lt in Hk by lia. eapply Hp, Hk.
  - apply nthZ_Some in Hk as [Hr Hk]. rewrite length_app in Hr. simpl in Hr.
    rewrite lookup_app_r in Hk by lia.
    replace (Z.to_nat k - length (m_nodes t))%nat with 0%nat in Hk by lia.
    simpl in Hk. injection Hk as <-. left. reflexivity.
Qed.

Lemma parents_older_insert t t' i x :
  0 <= i ->
  m_nodes t' = <[Z.to_nat i := x]> (m_nodes t) ->
  parent x = OBB_INVALID_NODE \/ 0 <= parent x < i ->
  parents_older t -> parents_older t'.
Proof.
  intros Hi Hn Hx Hp k n Hk. rewrite Hn in Hk.
  destruct (Z.eq_dec i k) as [-> | Hne].
  - apply nthZ_Some in Hk as [Hr Hk]. rewrite length_insert in Hr.
    rewrite list_lookup_insert_eq in Hk by lia. injection Hk as <-. exact Hx.
  - rewrite nthZ_insert_ne in Hk by lia. eapply Hp, Hk.
Qed.

Lemma take_eq_segZ {A} (ps ix : list A) start len :
  0 <= start -> 0 <= len ->
  len <= Z.of_nat (length ps) ->
  (forall j, 0 <= j < len -> nthZ ps j = nthZ ix (start + j)) ->
  take (Z.to_nat len) ps = segZ ix start len.
Proof.
  intros Hs Hl Hps H. apply list_eq. intros i. unfold segZ.
  destruct (decide (i < Z.to_nat len)%nat) as [Hi | Hi].
  - rewrite !lookup_take_lt by lia. rewrite lookup_drop.
    specialize (H (Z.of_nat i)). rewrite !nthZ_lookup in H by lia.
    rewrite Nat2Z.id in H.
    replace (Z.to_nat (start + Z.of_nat i)) with (Z.to_nat start + i)%nat in H by lia.
    apply H. lia.
  - rewrite !lookup_take_ge by lia. reflexivity.
Qed.

Lemma segZ_disjoint (l : list Z) a la b lb x :
  NoDup l -> 0 <= a -> 0 <= la -> a + la <= b -> 0 <= lb ->
  x ∈ segZ l a la -> x ∉ segZ l b lb.
Proof.
  intros Hnd Ha Hla Hab Hlb H1 H2.
  apply segZ_elem_of in H1 as (i & Hi & Ei); [| lia | lia].
  apply segZ_elem_of in H2 as (j & Hj & Ej); [| lia | lia].
  apply nthZ_Some in Ei as [_ Ei]. apply nthZ_Some in Ej as [_ Ej].
  pose proof (NoDup_lookup _ _ _ _ Hnd Ei Ej). lia.
Qed.

Lemma scratch_idx_range N s p :
  scratch_ok N s -> p ∈ idx s -> 0 <= p < Z.of_nat (length (m_mapping (tree s))).
Proof.
  intros (_ & _ & Hp & Hm) Hin. rewrite Hp in Hin.
  apply elem_of_seqZ in Hin. lia.
Qed.

Lemma scratch_idx_length N s :
  0 <= N -> scratch_ok N s -> Z.of_nat (length (idx s)) = N.
Proof.
  intros HN (_ & _ & Hp & _). rewrite (Permutation_length Hp), length_seqZ. lia.
Qed.

Lemma scratch_idx_NoDup N s : scratch_ok N s -> NoDup (idx s).
Proof. intros (_ & _ & Hp & _). rewrite Hp. apply NoDup_seqZ. Qed.

(** ** The leaf branch *)

Lemma make_leaf_spec N start len par my s :
  build_pre N start len s -> len <= node_capacity ->
  match make_leaf my start len par s with
  | (inr k, s') => built N start len par s s' k
  | (inl e, s') => build_failed par s s' e
  end.
Proof.
  intros (Harena & Hscr & HN & Hstart & Hlen & Hend & Hcap) Hleaf.
  unfold make_leaf. unfold bind at 1.
  pose proof (allocateNode_spec s Harena) as Ha.
  destruct (allocateNode s) as [[e | k] s1].
  { destruct Ha as [-> He]. split; [exact He |]. split; [intros [Hp _]; exact Hp | reflexivity]. }
  destruct Ha as (Hal & Harena1).
  pose proof (scratch_idx_length N s ltac:(lia) Hscr) as Hixlen.
  pose proof (scratch_idx_NoDup N s Hscr) as Hnd.
  pose proof (fun p => scratch_idx_range N s p Hscr) as Hrange.
  destruct s as [[ns num cap root mp] os ix cs].
  destruct s1 as [[ns1 num1 cap1 root1 mp1] os1 ix1 cs1].
  destruct Hal as (Hk & Hns1 & Hnum1 & Hroot1 & Hmp1 & Hos1 & Hix1 & Hcs1).
  simpl in *. subst ns1 num1 root1 mp1 os1 ix1 cs1.
  destruct Harena as (Hl & Hle & Hc). simpl in Hl, Hle, Hc.
  assert (Hkn : k = Z.of_nat (length ns)) by lia.
  assert (Hd : nthZ (ns ++ [OBBNode_default]) k = Some OBBNode_default).
  { rewrite Hkn. apply nthZ_app_end. }
  unfold bind at 1. erewrite write_node_eq by (simpl; exact Hd). simpl.
  unfold bind at 1. erewrite write_node_eq by (simpl; eapply nthZ_insert_eq, Hd). simpl.
  rewrite list_insert_insert_eq.
  unfold bind at 1. erewrite write_node_eq by (simpl; eapply nthZ_insert_eq, Hd). simpl.
  rewrite list_insert_insert_eq.
  unfold set_tree, set_nodes. simpl.
  set (n0 := set_num_particles len (set_parent par (set_obb my OBBNode_default))).
  destruct (fill_loop (k + 1) cap1 root os ix cs k start (Z.to_nat len) 0
              (<[Z.to_nat k := n0]> (ns ++ [OBBNode_default])) mp n0)
    as (ps' & mp' & E & Lp & Lm & Hin & Hout & Min & Mout).
  - eapply nthZ_insert_eq, Hd.
  - lia.
  - lia.
  - lia.
  - lia.
  - unfold n0. simpl. rewrite length_replicate. lia.
  - exact Hrange.
  - unfold bind at 1. rewrite E. unfold ret.
    rewrite list_insert_insert_eq.
    replace (Z.to_nat k) with (length ns) by lia. rewrite insert_at_end.
    rewrite Z2Nat.id in Min, Mout, Hin by lia.
    replace (start + 0) with start in Min, Mout by lia.
    assert (Hst : stored (set_particles ps' n0) = segZ ix start len).
    { unfold stored. simpl. apply take_eq_segZ; try lia.
      - rewrite Lp. unfold n0. simpl. rewrite length_replicate. lia.
      - intros j Hj. apply Hin. lia. }
    unfold built. simpl.
    split; [lia |].
    split. { unfold arena_ok. simpl. rewrite length_app. simpl.
             destruct Harena1 as (H1 & H2 & H3). simpl in H1, H2, H3.
             rewrite length_app in H1. simpl in H1. lia. }
    split. { destruct Hscr as (H1 & H2 & H3 & H4). unfold scratch_ok. simpl in *.
             repeat split; auto. lia. }
    split. { intros [Hpar Hparent] j n Hj. simpl in Hj, Hparent.
             destruct (Z.lt_ge_cases j (Z.of_nat (length ns))) as [Hlt | Hge].
             - rewrite nthZ_app_lt in Hj by lia. eapply Hpar. simpl. exact Hj.
             - apply nthZ_Some in Hj as [Hr Hj]. rewrite length_app in Hr. simpl in Hr.
               rewrite lookup_app_r in Hj by lia.
               replace (Z.to_nat j - length ns)%nat with 0%nat in Hj by lia.
               simpl in Hj. injection Hj as <-. simpl.
               destruct Hparent as [-> | Hp]; [left; reflexivity | right; lia]. }
    split; [reflexivity |].
    split; [eexists; reflexivity |].
    split; [reflexivity |].
    split; [exact Mout |].
    exists (SLeaf (segZ ix start len)). simpl.
    split; [| split; [lia | split; [reflexivity | exact Min]]].
    exists (set_particles ps' n0).
    split. { rewrite Hkn. apply nthZ_app_end. }
    repeat split; auto.
    simpl. rewrite Lp. unfold n0. simpl. rewrite length_replicate. lia.
Qed.

(** ** [buildNode] *)

Lemma nthZ_insert_same {A} (l : list A) i x :
  0 <= i < Z.of_nat (length l) -> nthZ (<[Z.to_nat i := x]> l) i = Some x.
Proof.
  intros H. rewrite nthZ_lookup by lia. apply list_lookup_insert_eq. lia.
Qed.

Lemma connect_eq k my par l r s n :
  nthZ (m_nodes (tree s)) k = Some n ->
  connect k my par l r s =
  (inr k,
   set_tree (set_nodes
     (<[Z.to_nat k := set_right r (set_left l (set_parent par (set_obb my n)))]>
        (m_nodes (tree s))) (tree s)) s).
Proof.
  intros Hn. pose proof (nthZ_Some _ _ _ Hn) as [Hk _].
  destruct s as [[ns num cap root mp] os ix cs]. simpl in *.
  unfold connect, write_node, bind, gets, lift, modify, ret, set_tree, set_nodes.
  simpl. rewrite Hn. simpl.
  rewrite nthZ_insert_same by lia. simpl.
  rewrite nthZ_insert_same by (rewrite !length_insert; lia). simpl.
  rewrite nthZ_insert_same by (rewrite !length_insert; lia). simpl.
  rewrite !list_insert_insert_eq. reflexivity.
Qed.

Lemma partition_spec my start len t os ix cs :
  0 <= start -> 2 <= len ->
  start + len <= Z.of_nat (length os) ->
  start + len <= Z.of_nat (length ix) ->
  start + len <= Z.of_nat (length cs) ->
  start + len < 2 ^ 32 ->
  exists sr' os' ix' cs',
    (if len =? 2 then ret len else sweep (Z.to_nat len) my start 0 len)
      (mkSt t os ix cs) = (inr sr', mkSt t os' ix' cs') /\
    0 <= sr' <= len /\
    length os' = length os /\ length cs' = length cs /\ ix' ≡ₚ ix /\
    forall j, ~ (start <= j < start + len) -> nthZ ix' j = nthZ ix j.
Proof.
  intros Hs Hl Ho Hx Hc Hlt. destruct (len =? 2).
  - exists len, os, ix, cs. unfold ret. repeat split; auto; lia.
  - apply sweep_spec; lia.
Qed.

Lemma buildNode_spec N r fuel : forall start len par s,
  build_pre N start len s -> (Z.to_nat len <= fuel)%nat ->
  match buildNode fuel r start len par s with
  | (inr k, s') => built N start len par s s' k
  | (inl e, s') => build_failed par s s' e
  end.
Proof.
  induction fuel as [| fuel IH]; intros start len par s Hpre Hfuel.
  { destruct Hpre as (_ & _ & _ & _ & Hlen & _). lia. }
  pose proof Hpre as (Harena & Hscr & HN & Hstart & Hlen & Hend & Hcap).
  pose proof Hscr as (Hos & Hcs & Hperm & Hmp).
  pose proof (scratch_idx_length N s ltac:(lia) Hscr) as Hixlen.
  simpl. unfold bind at 1. unfold gets at 1.
  destruct (nthZ_is_Some (obbs s) start) as [o0 Ho0]; [lia |].
  unfold bind at 1. rewrite Ho0. unfold lift at 1, ret at 1.
  rewrite (u32_small (start + len)) by lia.
  replace (start + len - start) with len by lia.
  destruct (gather_Some (internal_coordinates s) (Z.to_nat len) start) as [pts Hpts];
    [lia | lia | lia |].
  unfold bind at 1. rewrite Hpts. unfold lift at 1, ret at 1.
  set (my := compute_obb pts r).
  destruct (Z.leb_spec len node_capacity) as [Hleaf | Hint].
  { apply make_leaf_spec; assumption. }
  (* the internal branch *)
  unfold bind at 1.
  pose proof (allocateNode_spec s Harena) as Ha.
  destruct (allocateNode s) as [[e | k] s1].
  { destruct Ha as [-> He]. split; [exact He |].
    split; [intros [Hp _]; exact Hp | reflexivity]. }
  destruct Ha as (Hal & Harena1).
  destruct Hal as (Hk & Hns1 & Hnum1 & Hroot1 & Hmp1 & Hos1 & Hix1 & Hcs1).
  destruct s1 as [t1 os1 ix1 cs1]. simpl in Hns1, Hnum1, Hroot1, Hmp1, Hos1, Hix1, Hcs1, Harena1.
  subst os1 ix1 cs1.
  destruct (partition_spec my start len t1 (obbs s) (idx s) (internal_coordinates s))
    as (sr' & os2 & ix2 & cs2 & Epart & Hsr' & Los2 & Lcs2 & Pix2 & Fix2); try lia.
  unfold bind at 1. rewrite Epart.
  pose proof (guard_range len sr' ltac:(lia) Hsr') as Hg.
  set (sr := guard len sr') in *.
  rewrite (u32_small (start + 0)) by lia. replace (start + 0) with start by lia.
  rewrite (u32_small (sr - 0)) by lia. replace (sr - 0) with sr by lia.
  rewrite (u32_small (start + sr)) by lia.
  rewrite (u32_small (len - sr)) by lia.
  set (s2 := mkSt t1 os2 ix2 cs2).
  assert (Hk0 : 0 <= k).
  { destruct Harena as (Hl & _). lia. }
  assert (Hscr2 : scratch_ok N s2).
  { unfold scratch_ok, s2. simpl. rewrite Los2, Lcs2, Hmp1.
    repeat split; auto. etransitivity; eassumption. }
  assert (Hpar2 : parents_pre par s -> parents_pre k s2).
  { intros [Hpar _]. split.
    - eapply parents_older_app; [exact Hns1 | exact Hpar].
    - right. simpl. lia. }
  assert (Hpre2 : build_pre N start sr s2).
  { unfold build_pre. split; [exact Harena1 |]. split; [exact Hscr2 |].
    repeat split; auto; try lia. }
  unfold bind at 1.
  pose proof (IH start sr k s2 Hpre2 ltac:(lia)) as HL.
  destruct (buildNode fuel r start sr k s2) as [[e | kl] s3].
  { destruct HL as (He & Hp3 & Hr3). split; [exact He |]. split; [auto |].
    rewrite Hr3. simpl. exact Hroot1. }
  destruct HL as (Hkl & Harena3 & Hscr3 & Hpar3 & Hroot3 & (newL & HnewL) & Fix3 & Fmp3
                  & Tl & HreprL & HnumL & HflatL & HmapL).
  simpl in Hkl, Hroot3, HnewL, Fix3, Fmp3.
  pose proof (size_pos Tl) as HsizeL.
  assert (Hpre3 : build_pre N (start + sr) (len - sr) s3).
  { unfold build_pre. split; [exact Harena3 |]. split; [exact Hscr3 |].
    repeat split; auto; lia. }
  assert (Hpar3' : parents_pre par s -> parents_pre k s3).
  { intros Hp. split; [auto |]. right. lia. }
  unfold bind at 1.
  pose proof (IH (start + sr) (len - sr) k s3 Hpre3 ltac:(lia)) as HR.
  destruct (buildNode fuel r (start + sr) (len - sr) k s3) as [[e | kr] s4].
  { destruct HR as (He & Hp4 & Hr4). split; [exact He |]. split; [auto |].
    rewrite Hr4, Hroot3. exact Hroot1. }
  destruct HR as (Hkr & Harena4 & Hscr4 & Hpar4 & Hroot4 & (newR & HnewR) & Fix4 & Fmp4
                  & Tr & HreprR & HnumR & HflatR & HmapR).
  pose proof (size_pos Tr) as HsizeR.
  assert (Hlenns : Z.of_nat (length (m_nodes (tree s))) = k).
  { destruct Harena as (Hl & _). lia. }
  assert (Hnodes4 : m_nodes (tree s4) =
                    m_nodes (tree s) ++ OBBNode_default :: (newL ++ newR)).
  { rewrite HnewR, HnewL, Hns1. rewrite <- !app_assoc. reflexivity. }
  assert (Hd : nthZ (m_nodes (tree s4)) k = Some OBBNode_default).
  { rewrite Hnodes4, <- Hlenns. rewrite nthZ_lookup by lia. rewrite Nat2Z.id.
    rewrite lookup_app_r by lia. rewrite Nat.sub_diag. reflexivity. }
  erewrite connect_eq by exact Hd.
  set (nk := set_right kr (set_left kl (set_parent par (set_obb my OBBNode_default)))).
  pose proof (scratch_idx_length N s3 ltac:(lia) Hscr3) as Hixlen3.
  pose proof (scratch_idx_length N s4 ltac:(lia) Hscr4) as Hixlen4.
  assert (Hseg34 : segZ (idx s4) start sr = segZ (idx s3) start sr).
  { apply segZ_ext; try lia. intros j Hj. apply Fix4. lia. }
  unfold built. simpl.
  split; [exact Hk |].
  split. { destruct Harena4 as (H1 & H2 & H3). unfold arena_ok. simpl.
           rewrite length_insert. auto. }
  split. { exact Hscr4. }
  split. { intros Hp. pose proof Hp as [_ Hparent].
           eapply parents_older_insert with (t := tree s4) (i := k); auto.
           unfold nk. simpl. destruct Hparent as [-> | Hq]; [left; reflexivity | right; lia]. }
  split. { rewrite Hroot4, Hroot3. exact Hroot1. }
  split. { exists (nk :: newL ++ newR). rewrite Hnodes4.
           replace (Z.to_nat k) with (length (m_nodes (tree s))) by lia.
           apply insert_at_end. }
  split. { intros j Hj. rewrite Fix4 by lia. rewrite Fix3 by lia. apply Fix2. lia. }
  split. { intros p Hp.
           replace len with (sr + (len - sr)) in Hp by lia.
           rewrite segZ_app in Hp by lia. apply not_elem_of_app in Hp as [Hp1 Hp2].
           rewrite Fmp4 by exact Hp2. rewrite Hseg34 in Hp1.
           rewrite Fmp3 by exact Hp1. simpl. rewrite Hmp1. reflexivity. }
  exists (SNode Tl Tr). simpl.
  assert (Hkl' : kl = k + 1) by lia.
  assert (Hkr' : kr = k + 1 + size Tl) by lia.
  split.
  { exists nk. split; [eapply nthZ_insert_eq, Hd |].
    unfold nk. simpl. repeat split; auto.
    - apply repr_insert; [lia | lia |]. rewrite HnewR. apply repr_app.
      rewrite <- Hkl'. exact HreprL.
    - apply repr_insert; [lia | lia |]. rewrite <- Hkr'. exact HreprR. }
  split; [lia |].
  split.
  { rewrite HflatL, HflatR, <- Hseg34.
    rewrite <- segZ_app by lia. f_equal. lia. }
  split.
  { rewrite <- Hkl'. eapply mapped_ext; [| exact HmapL].
    intros p Hp. apply Fmp4. rewrite HflatL, <- Hseg34 in Hp.
    eapply segZ_disjoint; [| | | | | exact Hp]; try lia.
    eapply scratch_idx_NoDup, Hscr4. }
  rewrite <- Hkr'. exact HmapR.
Qed.

(** ** [updateSkip] *)

Lemma set_skip_fields v (n : OBBNode) :
  left (set_skip v n) = left n /\ right (set_skip v n) = right n /\
  parent (set_skip v n) = parent n /\ skip (set_skip v n) = v /\
  obb (set_skip v n) = obb n /\ stored (set_skip v n) = stored n.
Proof. destruct n. repeat split. Qed.

Lemma updateSkip_spec num cap root mp os ix cs T : forall fuel k par ns,
  repr ns k par T ->
  Z.of_nat (length ns) < 2 ^ 32 ->
  (Z.to_nat (size T) <= fuel)%nat ->
  exists ns',
    updateSkip fuel k (mkSt (mkTree ns num cap root mp) os ix cs) =
    (inr (size T), mkSt (mkTree ns' num cap root mp) os ix cs) /\
    length ns' = length ns /\
    (forall j, ~ (k <= j < k + size T) -> nthZ ns' j = nthZ ns j) /\
    (forall j n, nthZ ns j = Some n ->
       exists n', nthZ ns' j = Some n' /\ obb n' = obb n) /\
    repr ns' k par T /\ skips ns' k T.
Proof.
  induction T as [ps | l IHl r IHr]; intros fuel k par ns Hrepr Hlen Hfuel.
  - destruct fuel as [| fuel]; [simpl in Hfuel; lia |].
    simpl in Hrepr. destruct Hrepr as (n & Hn & Hleaf & Hrest).
    exists ns. simpl. unfold bind at 1. erewrite read_node_eq by exact Hn.
    unfold isNodeLeaf in Hleaf. rewrite Hleaf. unfold ret.
    repeat split; eauto.
  - pose proof (size_pos l) as Hsl. pose proof (size_pos r) as Hsr.
    pose proof (repr_range _ _ _ _ Hrepr) as [Hk0 Hkend]. simpl in Hkend.
    destruct fuel as [| fuel]; [simpl in Hfuel; lia |].
    simpl in Hrepr. destruct Hrepr as (n & Hn & Hleft & Hright & Hpar & Hl & Hr).
    simpl in Hfuel.
    simpl. unfold bind at 1. erewrite read_node_eq by exact Hn.
    assert (Hnl : (left n =? OBB_INVALID_NODE) = false).
    { apply Z.eqb_neq. unfold OBB_INVALID_NODE. lia. }
    rewrite Hnl, Hleft, Hright.
    destruct (IHl fuel (k + 1) k ns Hl Hlen ltac:(lia))
      as (ns1 & E1 & L1 & F1 & O1 & R1 & S1).
    unfold bind at 1. rewrite E1.
    assert (Hr1 : repr ns1 (k + 1 + size l) k r).
    { eapply repr_ext; [| exact Hr]. intros j Hj. apply F1. lia. }
    destruct (IHr fuel (k + 1 + size l) k ns1 Hr1 ltac:(lia) ltac:(lia))
      as (ns2 & E2 & L2 & F2 & O2 & R2 & S2).
    unfold bind at 1. rewrite E2.
    assert (Hn2 : nthZ ns2 k = Some n).
    { rewrite F2 by lia. rewrite F1 by lia. exact Hn. }
    unfold bind at 1. erewrite write_node_eq by exact Hn2.
    unfold ret, set_tree, set_nodes. simpl.
    rewrite (u32_small (size l + size r)) by lia.
    rewrite u32_small by lia.
    exists (<[Z.to_nat k := set_skip (size l + size r) n]> ns2).
    replace (size l + size r + 1) with (1 + size l + size r) by lia.
    split; [reflexivity |].
    split; [rewrite length_insert; lia |].
    split.
    { intros j Hj. rewrite nthZ_insert_ne by lia. rewrite F2 by lia. apply F1. lia. }
    split.
    { intros j m Hm. destruct (O1 j m Hm) as (m1 & Hm1 & Ho1).
      destruct (O2 j m1 Hm1) as (m2 & Hm2 & Ho2).
      destruct (Z.eq_dec k j) as [<- | Hne].
      - exists (set_skip (size l + size r) n). split; [eapply nthZ_insert_eq, Hn2 |].
        rewrite Hn2 in Hm2. injection Hm2 as <-.
        destruct n; simpl in *. congruence.
      - exists m2. rewrite nthZ_insert_ne by lia. split; [exact Hm2 | congruence]. }
    split.
    { exists (set_skip (size l + size r) n).
      split; [eapply nthZ_insert_eq, Hn2 |].
      destruct (set_skip_fields (size l + size r) n) as (-> & -> & -> & _).
      repeat split; auto.
      - apply repr_insert; [lia | lia |].
        eapply repr_ext; [| exact R1]. intros j Hj. apply F2. lia.
      - apply repr_insert; [lia | lia |]. exact R2. }
    split; [| split].
    + exists (set_skip (size l + size r) n).
      split; [eapply nthZ_insert_eq, Hn2 | reflexivity].
    + eapply skips_ext; [| exact S1]. intros j Hj.
      rewrite nthZ_insert_ne by lia. apply F2. lia.
    + eapply skips_ext; [| exact S2]. intros j Hj.
      apply nthZ_insert_ne; lia.
Qed.

(** ** [buildTree] *)

Local Opaque updateSkip buildNode.

Lemma build_from_spec r N s0 :
  is_u32 (m_node_capacity (tree s0)) ->
  1 <= N < 2 ^ 32 ->
  N <= Z.of_nat (length (obbs s0)) ->
  N <= Z.of_nat (length (internal_coordinates s0)) ->
  1 <= node_capacity ->
  match build_from r N s0 with
  | (inr _, s') => well_built N (tree s')
  | (inl e, s') =>
      (e = AllocationError \/ e = OutOfRange A_nodes) /\
      parents_older (tree s') /\ m_root (tree s') = OBB_INVALID_NODE
  end.
Proof.
  intros Hcap HN Hos Hcs Hnc. unfold build_from.
  unfold bind at 1, init, modify at 1. unfold bind at 1, modify at 1.
  set (s1 := mkSt _ _ _ _).
  assert (Hpre : build_pre N 0 N s1).
  { unfold build_pre, s1, arena_ok, scratch_ok, set_tree. simpl.
    rewrite length_replicate. unfold is_u32 in Hcap.
    repeat split; auto; try lia. }
  assert (Hpp : parents_pre OBB_INVALID_NODE s1).
  { split; [| left; reflexivity]. intros k n Hk. unfold s1, set_tree in Hk. simpl in Hk.
    apply nthZ_Some in Hk as [Hr _]. simpl in Hr. lia. }
  pose proof (buildNode_spec N r (S (Z.to_nat N)) 0 N OBB_INVALID_NODE s1 Hpre ltac:(lia)) as Hb.
  unfold bind at 1.
  destruct (buildNode (S (Z.to_nat N)) r 0 N OBB_INVALID_NODE s1) as [[e | k] s2].
  { destruct Hb as (He & Hp & Hr). split; [exact He |]. split; [auto |].
    rewrite Hr. reflexivity. }
  destruct Hb as (Hk & Harena2 & Hscr2 & _ & _ & _ & _ & _ & T & Hrepr & Hnum & Hflat & Hmap).
  unfold s1 in Hk. simpl in Hk. subst k.
  pose proof (scratch_idx_length N s2 ltac:(lia) Hscr2) as Hixlen.
  destruct Hscr2 as (_ & _ & Hperm & Hmplen).
  destruct s2 as [[ns num cap root mp] os ix cs]. simpl in *.
  unfold bind at 1, set_root, modify at 1, set_tree. simpl.
  unfold bind at 1, gets at 1. simpl.
  destruct Harena2 as (Hl & Hle & Hc). simpl in Hl, Hle, Hc.
  destruct (updateSkip_spec num cap 0 mp os ix cs T (S (Z.to_nat num)) 0
              OBB_INVALID_NODE ns Hrepr ltac:(lia) ltac:(lia))
    as (ns' & E & L' & _ & _ & R' & S').
  unfold bind at 1. rewrite E. unfold ret.
  unfold well_built, arena_ok. simpl.
  repeat split; auto; try lia.
  exists T. repeat split; auto.
  rewrite Hflat. rewrite <- Hixlen at 1. rewrite segZ_all. exact Hperm.
Qed.

Local Transparent updateSkip buildNode.

(** ** The layout of a built tree *)

Lemma repr_sub ns T : forall a par k,
  repr ns a par T -> skips ns a T -> a <= k < a + size T ->
  exists par' T', repr ns k par' T' /\ skips ns k T' /\ k + size T' <= a + size T /\
                  forall mp, mapped mp a T -> mapped mp k T'.
Proof.
  induction T as [ps | l IHl r IHr]; intros a par k Hrepr Hskips Hk.
  - simpl in Hk. assert (k = a) as -> by lia. exists par, (SLeaf ps). auto with zarith.
  - destruct (Z.eq_dec k a) as [-> | Hne].
    { exists par, (SNode l r). auto with zarith. }
    simpl in Hrepr, Hskips, Hk.
    destruct Hrepr as (n & Hn & _ & _ & _ & Hl & Hr).
    destruct Hskips as (_ & Sl & Sr).
    destruct (Z.lt_ge_cases k (a + 1 + size l)) as [Hlt | Hge].
    + destruct (IHl (a + 1) a k Hl Sl ltac:(lia)) as (par' & T' & H1 & H2 & H3 & H4).
      exists par', T'. simpl. repeat split; auto.
      * pose proof (size_pos r). lia.
      * intros mp [Hm _]. auto.
    + destruct (IHr (a + 1 + size l) a k Hr Sr ltac:(lia)) as (par' & T' & H1 & H2 & H3 & H4).
      exists par', T'. simpl. repeat split; auto.
      * lia.
      * intros mp [_ Hm]. auto.
Qed.

Lemma reach_range ns k j :
  reach ns k j ->
  forall par T, repr ns k par T -> Z.of_nat (length ns) < 2 ^ 32 ->
  k <= j < k + size T.
Proof.
  induction 1 as [k | k n j Hn Hleaf Hreach IH | k n j Hn Hleaf Hreach IH];
    intros par T Hrepr Hlen.
  - pose proof (size_pos T). lia.
  - destruct T as [ps | l r]; simpl in Hrepr.
    + destruct Hrepr as (n' & Hn' & Hl' & _). congruence.
    + destruct Hrepr as (n' & Hn' & Hleft & _ & _ & Hl & Hr).
      assert (n' = n) as -> by congruence. rewrite Hleft in IH.
      specialize (IH _ _ Hl Hlen). simpl. pose proof (size_pos r). lia.
  - destruct T as [ps | l r]; simpl in Hrepr.
    + destruct Hrepr as (n' & Hn' & Hl' & _). congruence.
    + destruct Hrepr as (n' & Hn' & _ & Hright & _ & Hl & Hr).
      assert (n' = n) as -> by congruence. rewrite Hright in IH.
      specialize (IH _ _ Hr Hlen). simpl. pose proof (size_pos l). lia.
Qed.

Lemma internal_not_leaf ns k n :
  nthZ ns k = Some n -> left n = k + 1 ->
  k + 1 < Z.of_nat (length ns) -> Z.of_nat (length ns) < 2 ^ 32 ->
  isNodeLeaf n = false.
Proof.
  intros Hn Hleft Hk Hlen. unfold isNodeLeaf. apply Z.eqb_neq.
  unfold OBB_INVALID_NODE. lia.
Qed.

Lemma range_reach ns T : forall k par j,
  repr ns k par T -> Z.of_nat (length ns) < 2 ^ 32 ->
  k <= j < k + size T -> reach ns k j.
Proof.
  induction T as [ps | l IHl r IHr]; intros k par j Hrepr Hlen Hj.
  - simpl in Hj. assert (j = k) as -> by lia. constructor.
  - destruct (Z.eq_dec j k) as [-> | Hne]; [constructor |].
    pose proof (repr_range _ _ _ _ Hrepr) as [Hk0 Hend].
    simpl in Hrepr, Hj, Hend. destruct Hrepr as (n & Hn & Hleft & Hright & _ & Hl & Hr).
    pose proof (size_pos l). pose proof (size_pos r).
    assert (Hnl : isNodeLeaf n = false) by (eapply internal_not_leaf; eauto; lia).
    destruct (Z.lt_ge_cases j (k + 1 + size l)) as [Hlt | Hge].
    + eapply reach_left; [exact Hn | exact Hnl |]. rewrite Hleft.
      eapply IHl; eauto. lia.
    + eapply reach_right; [exact Hn | exact Hnl |]. rewrite Hright.
      eapply IHr; eauto. lia.
Qed.

(** The node at the root of a represented subtree. *)
Lemma repr_root ns k par T n :
  repr ns k par T -> skips ns k T -> Z.of_nat (length ns) < 2 ^ 32 ->
  nthZ ns k = Some n ->
  skip n = size T - 1 /\
  match T with
  | SLeaf ps => isNodeLeaf n = true /\ stored n = ps
  | SNode l r =>
      isNodeLeaf n = false /\ left n = k + 1 /\ right n = k + 1 + size l
  end.
Proof.
  intros Hrepr Hskips Hlen Hn.
  pose proof (repr_range _ _ _ _ Hrepr) as [Hk0 Hend].
  destruct T as [ps | l r]; simpl in *.
  - destruct Hrepr as (n' & Hn' & Hleaf & _ & Hskip & Hst & _).
    assert (n' = n) as -> by congruence. auto with zarith.
  - destruct Hrepr as (n' & Hn' & Hleft & Hright & _ & Hl & Hr).
    assert (n' = n) as -> by congruence.
    destruct Hskips as ((n' & Hn'' & Hskip) & _).
    assert (n' = n) as -> by congruence.
    pose proof (size_pos l). pose proof (size_pos r).
    split; [lia |]. split; [| auto].
    eapply internal_not_leaf; eauto. lia.
Qed.

Lemma well_built_layout N t : well_built N t -> preorder_layout t.
Proof.
  intros ((Hl & Hle & Hc) & _ & _ & T & Hrepr & Hskips & Hnum & _) k n Hn.
  assert (Hlen : Z.of_nat (length (m_nodes t)) < 2 ^ 32) by lia.
  pose proof (nthZ_Some _ _ _ Hn) as [Hk _].
  destruct (repr_sub _ _ _ _ k Hrepr Hskips ltac:(lia)) as (par' & T' & R' & S' & Hend & _).
  destruct (repr_root _ _ _ _ _ R' S' Hlen Hn) as [Hskip Hroot].
  destruct T' as [ps | l r].
  - destruct Hroot as [-> _]. simpl in Hskip. lia.
  - destruct Hroot as (-> & Hleft & Hright).
    pose proof (size_pos l). pose proof (size_pos r).
    pose proof R' as Rk.
    simpl in Hskip, Hend, R', S'.
    destruct R' as (_ & _ & _ & _ & _ & Rl & Rr). destruct S' as (_ & Sl & Sr).
    split; [exact Hleft |]. split; [lia |].
    split.
    { intros j. split.
      - intros Hreach.
        pose proof (reach_range _ _ _ Hreach _ _ Rk Hlen) as Hr. simpl in Hr. lia.
      - intros Hj. eapply range_reach with (T := SNode l r) (par := par'); eauto.
        simpl. lia. }
    split; [lia |].
    pose proof (repr_range _ _ _ _ Rl) as [_ Hel].
    pose proof (repr_range _ _ _ _ Rr) as [_ Her].
    destruct (nthZ_is_Some (m_nodes t) (k + 1)) as [nl Hnl]; [lia |].
    destruct (nthZ_is_Some (m_nodes t) (k + 1 + size l)) as [nr Hnr]; [lia |].
    exists nl, nr. rewrite Hleft, Hright. split; [exact Hnl |]. split; [exact Hnr |].
    destruct (repr_root _ _ _ _ _ Rl Sl Hlen Hnl) as [-> _].
    destruct (repr_root _ _ _ _ _ Rr Sr Hlen Hnr) as [-> _]. lia.
Qed.

(** ** Coverage and the reverse mapping *)

Lemma leaf_particles_flat t T : forall k par,
  repr (m_nodes t) k par T -> skips (m_nodes t) k T ->
  Z.of_nat (length (m_nodes t)) < 2 ^ 32 ->
  concat (map (leaf_particles t) (seqZ k (size T))) = flat T.
Proof.
  induction T as [ps | l IHl r IHr]; intros k par Hrepr Hskips Hlen.
  - simpl in Hrepr. destruct Hrepr as (n & Hn & Hleaf & _ & _ & Hst & _).
    cbn [size flat]. rewrite seqZ_cons by lia. rewrite seqZ_nil by lia. simpl.
    unfold leaf_particles. rewrite Hn, Hleaf, app_nil_r. exact Hst.
  - pose proof (size_pos l). pose proof (size_pos r).
    destruct (repr_range _ _ _ _ Hrepr) as [Hk0 _].
    destruct (nthZ_is_Some (m_nodes t) k) as [n Hn].
    { pose proof (repr_range _ _ _ _ Hrepr). simpl in *. lia. }
    destruct (repr_root _ _ _ _ _ Hrepr Hskips Hlen Hn) as (_ & Hnl & _).
    simpl in Hrepr, Hskips. destruct Hrepr as (_ & _ & _ & _ & _ & Rl & Rr).
    destruct Hskips as (_ & Sl & Sr).
    cbn [size flat]. rewrite seqZ_cons by lia.
    replace (Z.pred (1 + size l + size r)) with (size l + size r) by lia.
    rewrite seqZ_app by lia. simpl. rewrite map_app, concat_app.
    replace (Z.succ k) with (k + 1) by lia.
    rewrite (IHl _ _ Rl Sl Hlen), (IHr _ _ Rr Sr Hlen).
    unfold leaf_particles at 1. rewrite Hn, Hnl. reflexivity.
Qed.

Lemma well_built_particles N t :
  well_built N t -> all_leaf_particles t ≡ₚ seqZ 0 N.
Proof.
  intros ((Hl & Hle & Hc) & _ & _ & T & Hrepr & Hskips & Hnum & Hperm & _).
  unfold all_leaf_particles. rewrite Hnum.
  erewrite leaf_particles_flat; eauto. lia.
Qed.

Lemma well_built_mapping N t k p :
  well_built N t -> p ∈ leaf_particles t k -> nthZ (m_mapping t) p = Some k.
Proof.
  intros ((Hl & Hle & Hc) & _ & _ & T & Hrepr & Hskips & Hnum & _ & Hmap) Hp.
  assert (Hlen : Z.of_nat (length (m_nodes t)) < 2 ^ 32) by lia.
  unfold leaf_particles in Hp.
  destruct (nthZ (m_nodes t) k) as [n |] eqn:Hn; [| inversion Hp].
  destruct (isNodeLeaf n) eqn:Hleaf; [| inversion Hp].
  pose proof (nthZ_Some _ _ _ Hn) as [Hk _].
  destruct (repr_sub _ _ _ _ k Hrepr Hskips ltac:(lia)) as (par' & T' & R' & S' & _ & M').
  specialize (M' _ Hmap).
  destruct (repr_root _ _ _ _ _ R' S' Hlen Hn) as [_ Hroot].
  destruct T' as [ps | l r].
  - destruct Hroot as [_ <-]. simpl in M'. auto.
  - destruct Hroot as [Hf _]. congruence.
Qed.

(** ** [query] on a built tree *)

Lemma tests_le ns q T : forall k, 0 <= tests ns q k T <= size T.
Proof.
  induction T as [ps | l IHl r IHr]; intros k; simpl.
  - destruct (nthZ ns k) as [n |]; [destruct (overlap (obb n) q) |]; lia.
  - pose proof (size_pos l). pose proof (size_pos r).
    specialize (IHl (k + 1)). specialize (IHr (k + 1 + size l)).
    destruct (nthZ ns k) as [n |]; [destruct (overlap (obb n) q) |]; lia.
Qed.

Lemma query_loop_done fuel t q k c hits :
  m_num_nodes t <= k -> query_loop fuel t q k c hits = inr (c, hits).
Proof.
  intros H. destruct fuel; simpl; destruct (Z.leb_spec (m_num_nodes t) k); auto; lia.
Qed.

Lemma query_sub t q T : forall fuel k par c hits,
  repr (m_nodes t) k par T -> skips (m_nodes t) k T -> arena_ok t ->
  0 <= c -> c + size T < 2 ^ 32 ->
  (Z.to_nat (size T) <= fuel)%nat ->
  exists fuel',
    (fuel - Z.to_nat (size T) <= fuel')%nat /\
    query_loop fuel t q k c hits =
    query_loop fuel' t q (k + size T) (c + tests (m_nodes t) q k T)
      (hits ++ concat (map (leaf_particles t) (seen (m_nodes t) q k T))).
Proof.
  induction T as [ps | l IHl r IHr];
    intros fuel k par c hits Hrepr Hskips Harena Hc Hcs Hfuel.
  - destruct Harena as (Hl & Hle & Hcap).
    pose proof (repr_range _ _ _ _ Hrepr) as [Hk0 Hend].
    simpl in Hrepr, Hend, Hcs, Hfuel.
    destruct Hrepr as (n & Hn & Hleaf & _ & Hskip & Hst & Hnp).
    destruct fuel as [| fuel]; [lia |].
    exists fuel. split; [simpl; lia |].
    cbn [query_loop size seen tests].
    destruct (Z.leb_spec (m_num_nodes t) k); [lia |].
    rewrite Hn. rewrite (u32_small (c + 1)) by lia.
    destruct (overlap (obb n) q).
    + unfold isNodeLeaf in Hleaf. rewrite Hleaf.
      unfold push_particles. destruct (Z.leb_spec (num_particles n) (Z.of_nat (length (particles n)))); [| lia].
      rewrite (u32_small (k + 1)) by lia.
      simpl. unfold leaf_particles. rewrite Hn. unfold isNodeLeaf. rewrite Hleaf.
      rewrite app_nil_r. reflexivity.
    + rewrite Hskip. rewrite (u32_small (k + 0)) by lia.
      rewrite Z.add_0_r. rewrite (u32_small (k + 1)) by lia.
      simpl. rewrite app_nil_r. reflexivity.
  - pose proof Harena as (Hl & Hle & Hcap).
    assert (Hlen : Z.of_nat (length (m_nodes t)) < 2 ^ 32) by lia.
    pose proof (repr_range _ _ _ _ Hrepr) as [Hk0 Hend].
    pose proof (size_pos l). pose proof (size_pos r).
    destruct (nthZ_is_Some (m_nodes t) k) as [n Hn]; [simpl in Hend; lia |].
    destruct (repr_root _ _ _ _ _ Hrepr Hskips Hlen Hn) as (Hskip & Hnl & Hleft & Hright).
    simpl in Hrepr, Hskips, Hend, Hcs, Hfuel, Hskip.
    destruct Hrepr as (_ & _ & _ & _ & _ & Rl & Rr). destruct Hskips as (_ & Sl & Sr).
    destruct fuel as [| fuel]; [lia |].
    cbn [query_loop size seen tests].
    destruct (Z.leb_spec (m_num_nodes t) k); [lia |].
    rewrite Hn. rewrite (u32_small (c + 1)) by lia.
    destruct (overlap (obb n) q).
    + unfold isNodeLeaf in Hnl. rewrite Hnl. rewrite (u32_small (k + 1)) by lia.
      pose proof (tests_le (m_nodes t) q l (k + 1)) as Htl.
      destruct (IHl fuel (k + 1) k (c + 1) hits Rl Sl Harena ltac:(lia) ltac:(lia) ltac:(lia))
        as (fuel1 & Hf1 & E1).
      rewrite E1.
      destruct (IHr fuel1 (k + 1 + size l) k (c + 1 + tests (m_nodes t) q (k + 1) l)
                  (hits ++ concat (map (leaf_particles t) (seen (m_nodes t) q (k + 1) l)))
                  Rr Sr Harena ltac:(lia) ltac:(lia) ltac:(lia))
        as (fuel2 & Hf2 & E2).
      rewrite E2. exists fuel2. split; [lia |].
      rewrite map_app, concat_app, app_assoc. f_equal; lia.
    + exists fuel. split; [lia |].
      rewrite Hskip. rewrite (u32_small (k + _)) by lia.
      rewrite (u32_small (k + _ + 1)) by lia.
      simpl. rewrite app_nil_r. f_equal; lia.
Qed.

Lemma query_built N t q hits :
  well_built N t ->
  exists T, repr (m_nodes t) 0 OBB_INVALID_NODE T /\
            skips (m_nodes t) 0 T /\ m_num_nodes t = size T /\
            query t hits q =
            inr (tests (m_nodes t) q 0 T,
                 hits ++ concat (map (leaf_particles t) (seen (m_nodes t) q 0 T))).
Proof.
  intros (Harena & _ & _ & T & Hrepr & Hskips & Hnum & _).
  exists T. repeat split; auto. unfold query.
  pose proof Harena as (Hl & Hle & Hcap).
  destruct (query_sub t q T (Z.to_nat (m_num_nodes t)) 0 OBB_INVALID_NODE 0 hits
              Hrepr Hskips Harena ltac:(lia) ltac:(lia) ltac:(lia)) as (fuel' & _ & E).
  rewrite E. apply query_loop_done. lia.
Qed.

(** ** Which leaves the sweep reports *)

Lemma seen_range ns q T : forall k j, j ∈ seen ns q k T -> k <= j < k + size T.
Proof.
  induction T as [ps | l IHl r IHr]; intros k j Hj; simpl in Hj.
  - destruct (nthZ ns k) as [n |]; [destruct (overlap (obb n) q) |];
      try (inversion Hj; fail).
    apply list_elem_of_singleton in Hj. simpl. lia.
  - pose proof (size_pos l). pose proof (size_pos r).
    destruct (nthZ ns k) as [n |]; [destruct (overlap (obb n) q) |];
      try (inversion Hj; fail).
    apply elem_of_app in Hj as [Hj | Hj].
    + apply IHl in Hj. simpl. lia.
    + apply IHr in Hj. simpl. lia.
Qed.

Lemma seen_sorted ns q T : forall k, StronglySorted Z.lt (seen ns q k T).
Proof.
  induction T as [ps | l IHl r IHr]; intros k; simpl.
  - destruct (nthZ ns k) as [n |]; [destruct (overlap (obb n) q) |];
      repeat constructor.
  - destruct (nthZ ns k) as [n |]; [destruct (overlap (obb n) q) |];
      try constructor.
    apply StronglySorted_app_2; auto.
    intros x1 x2 H1 H2. apply seen_range in H1. apply seen_range in H2. lia.
Qed.

Lemma reach_leaf ns k n a :
  nthZ ns k = Some n -> isNodeLeaf n = true -> reach ns k a -> a = k.
Proof.
  intros Hn Hleaf Hr. inversion Hr; subst; auto; congruence.
Qed.

Lemma reach_inv ns k n a :
  nthZ ns k = Some n -> reach ns k a ->
  a = k \/ (isNodeLeaf n = false /\
            (reach ns (left n) a \/ reach ns (right n) a)).
Proof.
  intros Hn Hr. inversion Hr as [| k' n' a' Hn' Hl' Hr' | k' n' a' Hn' Hl' Hr']; subst.
  - left. reflexivity.
  - right. assert (n' = n) as -> by congruence. auto.
  - right. assert (n' = n) as -> by congruence. auto.
Qed.

(** A node reached from one child is not above a node in the range of the
    other child. *)
Lemma reach_within ns k par T a j :
  repr ns k par T -> skips ns k T -> Z.of_nat (length ns) < 2 ^ 32 ->
  reach ns k a -> reach ns a j ->
  forall n, nthZ ns a = Some n -> k <= j < k + size T.
Proof.
  intros Hrepr Hskips Hlen Hka Haj n Hn.
  pose proof (reach_range _ _ _ Hka _ _ Hrepr Hlen) as Ha.
  destruct (repr_sub _ _ _ _ a Hrepr Hskips Ha) as (par' & T' & R' & _ & Hend & _).
  pose proof (reach_range _ _ _ Haj _ _ R' Hlen). lia.
Qed.

Lemma seen_spec ns q T : forall k par,
  repr ns k par T -> skips ns k T -> Z.of_nat (length ns) < 2 ^ 32 ->
  forall j,
    j ∈ seen ns q k T <->
    (k <= j < k + size T /\
     (exists n, nthZ ns j = Some n /\ isNodeLeaf n = true) /\
     forall a n, reach ns k a -> reach ns a j -> nthZ ns a = Some n ->
                 overlap (obb n) q = true).
Proof.
  induction T as [ps | l IHl r IHr]; intros k par Hrepr Hskips Hlen j.
  - pose proof Hrepr as (n & Hn & Hleaf & _). simpl. rewrite Hn. split.
    + intros Hj. destruct (overlap (obb n) q) eqn:Hov; [| inversion Hj].
      apply list_elem_of_singleton in Hj as ->.
      split; [lia |]. split; [eauto |].
      intros a n' Hka _ Ha. apply (reach_leaf _ _ _ _ Hn Hleaf) in Hka. subst a.
      congruence.
    + intros (Hj & _ & Hall). assert (j = k) as -> by lia.
      rewrite (Hall k n); auto using reach_self. apply list_elem_of_singleton. reflexivity.
  - pose proof (size_pos l). pose proof (size_pos r).
    pose proof (repr_range _ _ _ _ Hrepr) as [Hk0 Hend].
    destruct (nthZ_is_Some ns k) as [n Hn]; [simpl in Hend; lia |].
    destruct (repr_root _ _ _ _ _ Hrepr Hskips Hlen Hn) as (_ & Hnl & Hleft & Hright).
    pose proof Hrepr as Hrepr0. pose proof Hskips as Hskips0.
    simpl in Hrepr, Hskips, Hend.
    destruct Hrepr as (_ & _ & _ & _ & _ & Rl & Rr). destruct Hskips as (_ & Sl & Sr).
    cbn [seen size]. rewrite Hn. split.
    + intros Hj. destruct (overlap (obb n) q) eqn:Hov; [| inversion Hj].
      apply elem_of_app in Hj as [Hj | Hj].
      * apply (IHl _ _ Rl Sl Hlen) in Hj as (Hjr & Hjl & Hall).
        split; [lia |]. split; [exact Hjl |].
        intros a n' Hka Haj Ha.
        destruct (reach_inv _ _ _ _ Hn Hka) as [-> | (_ & [Hc | Hc])].
        -- congruence.
        -- rewrite Hleft in Hc. eauto.
        -- rewrite Hright in Hc.
           pose proof (reach_within _ _ _ _ _ _ Rr Sr Hlen Hc Haj _ Ha). lia.
      * apply (IHr _ _ Rr Sr Hlen) in Hj as (Hjr & Hjl & Hall).
        split; [lia |]. split; [exact Hjl |].
        intros a n' Hka Haj Ha.
        destruct (reach_inv _ _ _ _ Hn Hka) as [-> | (_ & [Hc | Hc])].
        -- congruence.
        -- rewrite Hleft in Hc.
           pose proof (reach_within _ _ _ _ _ _ Rl Sl Hlen Hc Haj _ Ha). lia.
        -- rewrite Hright in Hc. eauto.
    + intros (Hj & (m & Hm & Hml) & Hall).
      assert (Hkj : reach ns k j).
      { eapply range_reach; eauto. }
      rewrite (Hall k n (reach_self _ _) Hkj Hn).
      assert (j <> k) by (intros ->; congruence).
      apply elem_of_app.
      destruct (Z.lt_ge_cases j (k + 1 + size l)) as [Hlt | Hge].
      * left. apply (IHl _ _ Rl Sl Hlen). split; [lia |]. split; [eauto |].
        intros a n' Hka Haj Ha. eapply Hall; [| exact Haj | exact Ha].
        apply (reach_left ns k n a Hn Hnl). rewrite Hleft. exact Hka.
      * right. apply (IHr _ _ Rr Sr Hlen). split; [lia |]. split; [eauto |].
        intros a n' Hka Haj Ha. eapply Hall; [| exact Haj | exact Ha].
        apply (reach_right ns k n a Hn Hnl). rewrite Hright. exact Hka.
Qed.

Lemma seen_visible t q T j :
  arena_ok t ->
  repr (m_nodes t) 0 OBB_INVALID_NODE T -> skips (m_nodes t) 0 T ->
  m_num_nodes t = size T ->
  j ∈ seen (m_nodes t) q 0 T <-> visible t q j.
Proof.
  intros (Hl & Hle & Hcap) Hrepr Hskips Hnum.
  assert (Hlen : Z.of_nat (length (m_nodes t)) < 2 ^ 32) by lia.
  rewrite (seen_spec _ q _ _ _ Hrepr Hskips Hlen). unfold visible, is_leaf_at. split.
  - intros (Hj & Hleaf & Hall). split; [exact Hleaf |].
    intros a n Haj Ha. eapply Hall; eauto.
    eapply range_reach; eauto. apply nthZ_Some in Ha. lia.
  - intros ((n & Hn & Hleaf) & Hall). split; [| split; [eauto |]].
    + apply nthZ_Some in Hn. lia.
    + intros a n' _ Haj Ha. eauto.
Qed.

Lemma buildTree_well_built t os cs r N s' :
  inputs_ok t os cs N ->
  buildTree t os cs r N = (inr tt, s') -> well_built N (tree s').
Proof.
  intros (Hcap & HN & Hos & Hcs & Hnc) Hrun. unfold buildTree in Hrun.
  pose proof (build_from_spec r N (mkSt t os [] cs) Hcap HN Hos Hcs Hnc) as H.
  rewrite Hrun in H. exact H.
Qed.

Lemma buildTree_failed t os cs r N e s' :
  inputs_ok t os cs N ->
  buildTree t os cs r N = (inl e, s') ->
  (e = AllocationError \/ e = OutOfRange A_nodes) /\
  parents_older (tree s') /\ m_root (tree s') = OBB_INVALID_NODE.
Proof.
  intros (Hcap & HN & Hos & Hcs & Hnc) Hrun. unfold buildTree in Hrun.
  pose proof (build_from_spec r N (mkSt t os [] cs) Hcap HN Hos Hcs Hnc) as H.
  rewrite Hrun in H. exact H.
Qed.

(** The build with the corners of the boxes as vertices is the general
    build. *)
Lemma buildTree_obbs_eq t os N cs :
  corners_of (Z.to_nat N) 0 os = Some cs ->
  buildTree_obbs t os N = buildTree t os cs OverlapReal_zero N.
Proof. intros H. unfold buildTree_obbs, buildTree. rewrite H. reflexivity. Qed.

Lemma elem_of_concat_map {A B} (f : A -> list B) (l : list A) (y : B) :
  y ∈ concat (map f l) <-> exists x, x ∈ l /\ y ∈ f x.
Proof.
  rewrite list_elem_of_In, in_concat. split.
  - intros (ys & Hys & Hy). apply in_map_iff in Hys as (x & <- & Hx).
    exists x. rewrite !list_elem_of_In. auto.
  - intros (x & Hx & Hy). exists (f x).
    apply list_elem_of_In in Hx. apply list_elem_of_In in Hy.
    split; [apply in_map, Hx | exact Hy].
Qed.

Lemma well_built_leaf_of N t p :
  well_built N t -> 0 <= p < N ->
  exists k, is_leaf_at t k /\ p ∈ leaf_particles t k.
Proof.
  intros Hwb Hp. pose proof (well_built_particles N t Hwb) as Hperm.
  assert (Hin : p ∈ all_leaf_particles t).
  { rewrite Hperm. apply elem_of_seqZ. lia. }
  unfold all_leaf_particles in Hin.
  apply elem_of_concat_map in Hin as (k & Hk & Hps).
  exists k. split; [| exact Hps].
  unfold leaf_particles in Hps. unfold is_leaf_at.
  destruct (nthZ (m_nodes t) k) as [n |]; [| inversion Hps].
  destruct (isNodeLeaf n) eqn:Hl; [| inversion Hps]. eauto.
Qed.

(** What [query] appends, and which leaves it takes it from. *)
Lemma query_appends N t q hits :
  well_built N t ->
  exists c ks,
    query t hits q = inr (c, hits ++ concat (map (leaf_particles t) ks)) /\
    StronglySorted Z.lt ks /\
    forall j, j ∈ ks <-> visible t q j.
Proof.
  intros Hwb. destruct (query_built N t q hits Hwb) as (T & Hrepr & Hskips & Hnum & E).
  destruct Hwb as (Harena & _).
  exists (tests (m_nodes t) q 0 T), (seen (m_nodes t) q 0 T).
  split; [exact E |]. split; [apply seen_sorted |].
  intros j. apply seen_visible; assumption.
Qed.

End Proofs.

(** * The properties *)

Section Properties.
Context {env : Env}.


(** C5. After a successful [buildTree] over particles [0 .. N-1] the
    leaves' particle arrays, put together, are a permutation of
    [0 .. N-1] (every particle, none twice), and [mapping[p]] is the
    index of the one leaf whose array holds [p]. *)
Theorem buildTree_coverage_mapping t os cs r N s' :
  inputs_ok t os cs N ->
  buildTree t os cs r N = (inr tt, s') ->
  all_leaf_particles (tree s') ≡ₚ seqZ 0 N /\
  forall p, 0 <= p < N ->
    exists k, nthZ (m_mapping (tree s')) p = Some k /\
              is_leaf_at (tree s') k /\
              p ∈ leaf_particles (tree s') k /\
              forall k', p ∈ leaf_particles (tree s') k' -> k' = k.
Proof.
  intros Hin Hrun. pose proof (buildTree_well_built _ _ _ _ _ _ Hin Hrun) as Hwb.
  split; [eapply well_built_particles, Hwb |].
  intros p Hp. destruct (well_built_leaf_of N _ p Hwb Hp) as (k & Hleaf & Hk).
  exists k. pose proof (well_built_mapping N _ k p Hwb Hk) as Hm.
  repeat split; auto.
  intros k' Hk'. pose proof (well_built_mapping N _ k' p Hwb Hk'). congruence.
Qed.

(** C7. [buildNode] on a sub-range of length [len >= 1] does not run out
    of fuel when it is given [len] units of it; in the internal case the
    start_right that leaves the two checks lies in [[1, len-1]] whatever
    the sweep returned, so both recursive calls get a shorter sub-range
    that is not empty; and [buildTree], which hands [N + 1] units to
    [buildNode], does not run out of fuel either.  Nothing is assumed
    about the projections. *)
Theorem buildNode_terminates N r fuel start len par s :
  build_pre N start len s ->
  (Z.to_nat len <= fuel)%nat ->
  fst (buildNode fuel r start len par s) <> inl OutOfFuel /\
  (node_capacity < len ->
   forall start_right, 0 <= start_right <= len ->
     1 <= guard len start_right <= len - 1 /\
     1 <= len - guard len start_right <= len - 1) /\
  (forall t os cs N',
     inputs_ok t os cs N' -> fst (buildTree t os cs r N') <> inl OutOfFuel).
Proof.
  intros Hpre Hfuel. split; [| split].
  - pose proof (buildNode_spec N r fuel start len par s Hpre Hfuel) as H.
    destruct (buildNode fuel r start len par s) as [[e | k] s1]; simpl.
    + destruct H as ([-> | ->] & _); discriminate.
    + discriminate.
  - intros Hint sr Hsr.
    destruct Hpre as (_ & _ & HN & Hstart & Hlen & Hend & Hcap).
    pose proof (guard_range len sr ltac:(lia) Hsr). lia.
  - intros t os cs N' Hin.
    destruct (buildTree t os cs r N') as [[e | u] s1] eqn:Hrun; simpl; [| discriminate].
    destruct (buildTree_failed _ _ _ _ _ _ _ Hin Hrun) as ([-> | ->] & _); discriminate.
Qed.

(** C10. Under the precondition of [buildNode] (a sub-range of length
    [len >= 1] inside the [N] entries of the arrays) no access to [obbs],
    [idx], [internal_coordinates], the mapping or a particle array is out
    of range.  The read of [obbs[start]] comes first, whatever [len] is:
    where [obbs] has no entry at [start] the call ends there, and so does
    [buildTree] with [N = 0] on an empty [obbs]. *)
Theorem buildNode_accesses_in_bounds N r fuel start len par s :
  build_pre N start len s ->
  (Z.to_nat len <= fuel)%nat ->
  (forall a, a <> A_nodes ->
     fst (buildNode fuel r start len par s) <> inl (OutOfRange a)) /\
  (forall len' s0, nthZ (obbs s0) start = None ->
     fst (buildNode fuel r start len' par s0) = inl (OutOfRange A_obbs)) /\
  (forall t0 cs0 r0, fst (buildTree t0 [] cs0 r0 0) = inl (OutOfRange A_obbs)).
Proof.
  intros Hpre Hfuel. split; [| split].
  - intros a Ha. pose proof (buildNode_spec N r fuel start len par s Hpre Hfuel) as H.
    destruct (buildNode fuel r start len par s) as [[e | k] s1]; simpl.
    + destruct H as ([-> | ->] & _); congruence.
    + discriminate.
  - intros len' s0 Hnone.
    destruct fuel as [| fuel].
    { destruct Hpre as (_ & _ & _ & _ & Hlen & _). lia. }
    simpl. unfold bind at 1, gets at 1. unfold bind at 1. rewrite Hnone. reflexivity.
  - intros t0 cs0 r0. reflexivity.
Qed.

(** C4, what the code does.  With [N = 0], [buildTree] enters
    [buildNode] with an empty sub-range: on an empty [obbs] the read of
    [obbs[0]] is out of range; where the array does hold a box the call
    goes on into the leaf branch and allocates a leaf without particles,
    so the tree has one node, its root is node 0 and a query makes one
    box test. *)
Theorem buildTree_zero_particles t o os cs r s' :
  is_u32 (m_node_capacity t) -> 0 <= node_capacity ->
  buildTree t (o :: os) cs r 0 = (inr tt, s') ->
  fst (buildTree t [] cs r 0) = inl (OutOfRange A_obbs) /\
  m_root (tree s') = 0 /\ m_num_nodes (tree s') = 1 /\
  forall q hits, query (tree s') hits q = inr (1, hits).
Proof.
  intros Hcap Hnc Hrun. split; [reflexivity |].
  unfold buildTree, build_from in Hrun.
  unfold bind at 1, init, modify at 1 in Hrun. unfold bind at 1, modify at 1 in Hrun.
  unfold set_tree in Hrun. cbn [tree obbs idx internal_coordinates m_node_capacity] in Hrun.
  change (S (Z.to_nat 0)) with 1%nat in Hrun.
  unfold bind at 1 in Hrun.
  cbn [buildNode] in Hrun.
  unfold bind at 1, gets at 1 in Hrun. cbn [obbs] in Hrun.
  change (nthZ (o :: os) 0) with (Some o) in Hrun.
  unfold bind at 1, lift at 1, ret at 1 in Hrun.
  change (Z.to_nat (u32 (0 + 0) - 0)) with 0%nat in Hrun.
  cbn [gather] in Hrun. unfold bind at 1, lift at 1, ret at 1 in Hrun.
  destruct (Z.leb_spec 0 node_capacity) as [_ | Hf]; [| lia].
  unfold make_leaf in Hrun. unfold bind at 1 in Hrun.
  set (s1 := mkSt _ _ _ _) in Hrun.
  assert (Harena : arena_ok (tree s1)).
  { unfold arena_ok, s1. simpl. unfold is_u32 in Hcap. lia. }
  pose proof (allocateNode_spec s1 Harena) as Ha.
  destruct (allocateNode s1) as [[e | k] s2]; [discriminate Hrun |].
  destruct Ha as ((Hk & Hns & Hnum & Hroot & Hmp & Hos & Hix & Hcs) & _).
  destruct s2 as [[ns2 num2 cap2 root2 mp2] os2 ix2 cs2].
  unfold s1 in Hk, Hns, Hnum, Hroot, Hmp, Hos, Hix, Hcs. simpl in *.
  subst k ns2 num2 root2 mp2 os2 ix2 cs2.
  unfold write_node, bind, gets, lift, modify, ret, set_tree, set_nodes, set_root in Hrun.
  simpl in Hrun. injection Hrun as <-. simpl.
  split; [reflexivity |]. split; [reflexivity |].
  intros q hits. unfold query. simpl.
  destruct (overlap (compute_obb [] r) q); simpl.
  - unfold push_particles. simpl.
    destruct (Z.leb_spec 0 (Z.of_nat (length (replicate (Z.to_nat node_capacity) indet))));
      [| lia].
    simpl. rewrite app_nil_r. reflexivity.
  - reflexivity.
Qed.

(** C2, as the code has it.  The test of [query] is on node boxes, and a
    leaf's box is fitted to the vertex lists, not taken from [obbs].
    When every internal node's box encloses the boxes of the nodes below
    it, every leaf's box encloses the boxes of the particles it stores,
    and the overlap test is monotone in enclosure, [query] appends every
    particle that a scan over the [N] boxes of [obbs] reports. *)
Theorem query_complete (encloses : OBB -> OBB -> bool) t os cs r N s' :
  inputs_ok t os cs N ->
  buildTree t os cs r N = (inr tt, s') ->
  (forall a b q, encloses b a = true -> overlap a q = true -> overlap b q = true) ->
  (forall k n j m,
     nthZ (m_nodes (tree s')) k = Some n -> isNodeLeaf n = false ->
     reach (m_nodes (tree s')) k j -> nthZ (m_nodes (tree s')) j = Some m ->
     encloses (obb n) (obb m) = true) ->
  (forall k n p o,
     nthZ (m_nodes (tree s')) k = Some n -> isNodeLeaf n = true ->
     p ∈ stored n -> nthZ os p = Some o ->
     encloses (obb n) o = true) ->
  forall q hits,
    exists c out,
      query (tree s') hits q = inr (c, hits ++ out) /\
      forall p, p ∈ brute_force os N q -> p ∈ out.
Proof.
  intros Hin Hrun Hmono Hint Hleaf q hits.
  pose proof (buildTree_well_built _ _ _ _ _ _ Hin Hrun) as Hwb.
  destruct (query_appends N _ q hits Hwb) as (c & ks & E & _ & Hks).
  exists c, (concat (map (leaf_particles (tree s')) ks)). split; [exact E |].
  intros p Hp. unfold brute_force in Hp.
  apply list_elem_of_In, filter_In in Hp as [Hp Hov].
  apply list_elem_of_In, elem_of_seqZ in Hp.
  destruct (nthZ os p) as [o |] eqn:Ho; [| discriminate].
  destruct (well_built_leaf_of N _ p Hwb ltac:(lia)) as (k & (n & Hn & Hnl) & Hk).
  apply elem_of_concat_map. exists k. split; [| exact Hk].
  apply Hks. split; [exists n; auto |].
  assert (Hov_n : overlap (obb n) q = true).
  { apply (Hmono o); [| exact Hov]. apply (Hleaf k n p o); auto.
    unfold leaf_particles in Hk. rewrite Hn, Hnl in Hk. exact Hk. }
  intros a m Hreach Ha.
  destruct (reach_inv _ _ _ _ Ha Hreach) as [Heq | (Hml & _)].
  - subst a. congruence.
  - apply (Hmono (obb n)); [| exact Hov_n]. apply (Hint a m k n); auto.
Qed.

(** C3, as the code has it.  [query] tests node boxes only: every
    particle it appends is stored in a leaf, the one [mapping] names for
    it, whose box overlaps [q].  The particle's own box is not tested. *)
Theorem query_sound_leaf t os cs r N s' :
  inputs_ok t os cs N ->
  buildTree t os cs r N = (inr tt, s') ->
  forall q hits,
    exists c out,
      query (tree s') hits q = inr (c, hits ++ out) /\
      forall p, p ∈ out ->
        exists k n, nthZ (m_mapping (tree s')) p = Some k /\
                    nthZ (m_nodes (tree s')) k = Some n /\
                    isNodeLeaf n = true /\ p ∈ stored n /\
                    overlap (obb n) q = true.
Proof.
  intros Hin Hrun q hits.
  pose proof (buildTree_well_built _ _ _ _ _ _ Hin Hrun) as Hwb.
  destruct (query_appends N _ q hits Hwb) as (c & ks & E & _ & Hks).
  exists c, (concat (map (leaf_particles (tree s')) ks)). split; [exact E |].
  intros p Hp. apply elem_of_concat_map in Hp as (k & Hk & Hp).
  apply Hks in Hk as ((n & Hn & Hnl) & Hall).
  exists k, n. split; [eapply well_built_mapping; eauto |].
  split; [exact Hn |]. split; [exact Hnl |].
  split.
  - unfold leaf_particles in Hp. rewrite Hn, Hnl in Hp. exact Hp.
  - apply (Hall k n); [constructor | exact Hn].
Qed.

(** C6, as the code has it.  [query] keeps [hits] and appends to it; what
    it appends are the particle arrays, each in stored order, of the
    leaves that pass the box test together with every node above them,
    in ascending arena index. *)
Theorem query_emission t os cs r N s' :
  inputs_ok t os cs N ->
  buildTree t os cs r N = (inr tt, s') ->
  forall q hits,
    exists c ks,
      query (tree s') hits q =
        inr (c, hits ++ concat (map (leaf_particles (tree s')) ks)) /\
      StronglySorted Z.lt ks /\
      forall j, j ∈ ks <-> visible (tree s') q j.
Proof.
  intros Hin Hrun q hits.
  pose proof (buildTree_well_built _ _ _ _ _ _ Hin Hrun) as Hwb.
  exact (query_appends N _ q hits Hwb).
Qed.

End Properties.

(** * The properties on the plane *)

Lemma all_nodes_spec `{Env} (f : Z -> OBBNode -> bool) ns :
  all_nodes f ns = true ->
  forall k n, nthZ ns k = Some n -> f k n = true.
Proof.
  unfold all_nodes. intros Hall k n Hk.
  apply nthZ_Some in Hk as [Hr Hk].
  rewrite forallb_forall in Hall.
  apply (Hall (k, n)). apply list_elem_of_In.
  apply list_elem_of_lookup. exists (Z.to_nat k).
  apply lookup_zip_with_Some. exists k, n. split; [reflexivity |].
  split; [| exact Hk].
  rewrite lookup_seqZ. lia.
Qed.

(** A run is known from its outcome; the state is what it is. *)
Lemma returned_eq {S : Type} (x : (err + unit) * S) :
  fst x = inr tt -> x = (inr tt, snd x).
Proof. destruct x as [[e | []] s]; simpl; intros H; congruence. Qed.

Lemma stopped_eq {S : Type} (x : (err + unit) * S) e :
  fst x = inl e -> x = (inl e, snd x).
Proof. destruct x as [[e' | u] s]; simpl; intros H; congruence. Qed.

Lemma plane_monotone (a b q : Plane.box) :
  Plane.inside a b = true -> Plane.boxes_overlap a q = true ->
  Plane.boxes_overlap b q = true.
Proof.
  unfold Plane.inside, Plane.boxes_overlap, Plane.spans.
  destruct (Plane.diag a), (Plane.diag b), (Plane.diag q); simpl;
    unfold Plane.within, Plane.meet; simpl;
    rewrite !andb_true_iff, !Z.leb_le; lia.
Qed.

(** Scenario S3 of the specification: two particles far apart give a
    root and two leaves, and a query at the second one reports it alone
    after three box tests. *)
Example two_particles :
  fst Demo.run_two = inr tt /\
  m_num_nodes (tree (snd Demo.run_two)) = 3 /\
  @query Demo.env1 (tree (snd Demo.run_two)) [] (Demo.brick 100 0) = inr (3, [1]).
Proof. split; [| split]; vm_compute; reflexivity. Qed.

(** Scenario S6: five coincident boxes in leaves of one; the guard splits
    them one at a time, nine nodes, and a query at that place reports
    all five. *)
Example five_coincident :
  fst (@buildTree Demo.env1 OBBTree_new Demo.os5 Demo.cs5 0 5) = inr tt /\
  m_num_nodes (tree (snd (@buildTree Demo.env1 OBBTree_new Demo.os5 Demo.cs5 0 5))) = 9 /\
  @query Demo.env1 (tree (snd (@buildTree Demo.env1 OBBTree_new Demo.os5 Demo.cs5 0 5)))
         [] (Plane.cube 0 0) = inr (9, [1; 3; 0; 2; 4]).
Proof. split; [| split]; vm_compute; reflexivity. Qed.


Lemma buildTree_coverage_mapping_witness :
  all_leaf_particles (tree (snd Demo.run7)) ≡ₚ seqZ 0 7 /\
  forall p, 0 <= p < 7 ->
    exists k, nthZ (m_mapping (tree (snd Demo.run7))) p = Some k /\
              is_leaf_at (tree (snd Demo.run7)) k /\
              p ∈ leaf_particles (tree (snd Demo.run7)) k /\
              forall k', p ∈ leaf_particles (tree (snd Demo.run7)) k' -> k' = k.
Proof.
  apply (@buildTree_coverage_mapping Demo.env2 OBBTree_new Demo.os7 Demo.cs7 0 7).
  - unfold inputs_ok, is_u32. simpl. lia.
  - exact (returned_eq Demo.run7 ltac:(vm_compute; reflexivity)).
Defined.

Lemma buildNode_terminates_witness :
  fst (@buildNode Demo.env1 5 0 0 5 OBB_INVALID_NODE Demo.start5) <> inl OutOfFuel /\
  (@node_capacity Demo.env1 < 5 ->
   forall start_right, 0 <= start_right <= 5 ->
     1 <= guard 5 start_right <= 5 - 1 /\
     1 <= 5 - guard 5 start_right <= 5 - 1) /\
  (forall t os cs N',
     @inputs_ok Demo.env1 t os cs N' ->
     fst (@buildTree Demo.env1 t os cs 0 N') <> inl OutOfFuel).
Proof.
  apply (@buildNode_terminates Demo.env1 5 0 5%nat 0 5 OBB_INVALID_NODE Demo.start5).
  - unfold build_pre, arena_ok, scratch_ok. simpl.
    repeat split; try lia; reflexivity.
  - simpl. lia.
Defined.

Lemma buildNode_accesses_in_bounds_witness :
  (forall a, a <> A_nodes ->
     fst (@buildNode Demo.env1 5 0 0 5 OBB_INVALID_NODE Demo.start5)
     <> inl (OutOfRange a)) /\
  (forall len' s0, nthZ (obbs s0) 0 = None ->
     fst (@buildNode Demo.env1 5 0 0 len' OBB_INVALID_NODE s0)
     = inl (OutOfRange A_obbs)) /\
  (forall t0 cs0 r0, fst (@buildTree Demo.env1 t0 [] cs0 r0 0) = inl (OutOfRange A_obbs)).
Proof.
  apply (@buildNode_accesses_in_bounds Demo.env1 5 0 5%nat 0 5 OBB_INVALID_NODE Demo.start5).
  - unfold build_pre, arena_ok, scratch_ok. simpl.
    repeat split; try lia; reflexivity.
  - simpl. lia.
Defined.

Lemma buildTree_zero_particles_witness :
  fst (@buildTree Demo.env1 OBBTree_new [] [] 0 0) = inl (OutOfRange A_obbs) /\
  m_root (tree (snd Demo.run_none)) = 0 /\
  m_num_nodes (tree (snd Demo.run_none)) = 1 /\
  forall q hits, query (tree (snd Demo.run_none)) hits q = inr (1, hits).
Proof.
  apply (@buildTree_zero_particles Demo.env1 OBBTree_new (Plane.cube 0 0) [] [] 0).
  - unfold is_u32. simpl. lia.
  - simpl. lia.
  - exact (returned_eq Demo.run_none ltac:(vm_compute; reflexivity)).
Defined.

Lemma query_complete_witness :
  exists c out,
    query (tree (snd Demo.run_two)) [7] Demo.q_near = inr (c, [7] ++ out) /\
    forall p, p ∈ @brute_force Demo.env1 Demo.os_far 2 Demo.q_near -> p ∈ out.
Proof.
  apply (@query_complete Demo.env1 (fun b a => Plane.inside a b)
           OBBTree_new Demo.os_far Demo.cs_far 0 2).
  - unfold inputs_ok, is_u32. simpl. lia.
  - exact (returned_eq Demo.run_two ltac:(vm_compute; reflexivity)).
  - intros a b q. apply plane_monotone.
  - intros k n j m Hk Hnl _ Hj.
    assert (Hall : @all_nodes Demo.env1
              (fun _ (n : @OBBNode Demo.env1) => isNodeLeaf n ||
                 @all_nodes Demo.env1
                   (fun _ (m : @OBBNode Demo.env1) =>
                      Plane.inside (@obb Demo.env1 m) (@obb Demo.env1 n))
                   (m_nodes (tree (snd Demo.run_two))))
              (m_nodes (tree (snd Demo.run_two))) = true)
      by (vm_compute; reflexivity).
    pose proof (all_nodes_spec _ _ Hall k n Hk) as H1. cbv beta in H1.
    rewrite Hnl in H1. rewrite orb_false_l in H1.
    exact (all_nodes_spec _ _ H1 j m Hj).
  - intros k n p o Hk Hl Hp Ho.
    assert (Hall : @all_nodes Demo.env1
              (fun _ (n : @OBBNode Demo.env1) =>
                 forallb (fun p => match @nthZ (@OBB Demo.env1) Demo.os_far p with
                                   | Some o => Plane.inside o (@obb Demo.env1 n)
                                   | None => true
                                   end) (stored n))
              (m_nodes (tree (snd Demo.run_two))) = true)
      by (vm_compute; reflexivity).
    pose proof (all_nodes_spec _ _ Hall k n Hk) as H1. cbv beta in H1.
    rewrite forallb_forall in H1. apply list_elem_of_In in Hp.
    specialize (H1 p Hp). cbv beta in H1. rewrite Ho in H1. exact H1.
Defined.

Lemma query_sound_leaf_witness :
  exists c out,
    query (tree (snd Demo.run7)) [7] (Demo.brick 6 60) = inr (c, [7] ++ out) /\
    forall p, p ∈ out ->
      exists k n, nthZ (m_mapping (tree (snd Demo.run7))) p = Some k /\
                  nthZ (m_nodes (tree (snd Demo.run7))) k = Some n /\
                  isNodeLeaf n = true /\ p ∈ stored n /\
                  @overlap Demo.env2 (obb n) (Demo.brick 6 60) = true.
Proof.
  apply (@query_sound_leaf Demo.env2 OBBTree_new Demo.os7 Demo.cs7 0 7).
  - unfold inputs_ok, is_u32. simpl. lia.
  - exact (returned_eq Demo.run7 ltac:(vm_compute; reflexivity)).
Defined.

Lemma query_emission_witness :
  exists c ks,
    query (tree (snd Demo.run7)) [7] (Demo.brick 6 60) =
      inr (c, [7] ++ concat (map (leaf_particles (tree (snd Demo.run7))) ks)) /\
    StronglySorted Z.lt ks /\
    forall j, j ∈ ks <-> @visible Demo.env2 (tree (snd Demo.run7)) (Demo.brick 6 60) j.
Proof.
  apply (@query_emission Demo.env2 OBBTree_new Demo.os7 Demo.cs7 0 7).
  - unfold inputs_ok, is_u32. simpl. lia.
  - exact (returned_eq Demo.run7 ltac:(vm_compute; reflexivity)).
Defined.

(** ** Where the four sentences fail *)

(** One particle, a box in [obbs] that is wider than its vertex: the
    scan reports it for [q_wide], [query] does not. *)
Lemma query_complete_counterexample :
  ~ @stated_query_complete Demo.env1 (fun b a => Plane.inside a b)
      OBBTree_new Demo.os_wide Demo.cs_wide 0 1.
Proof.
  intros H.
  specialize (H (snd Demo.run_wide)
                (returned_eq Demo.run_wide ltac:(vm_compute; reflexivity))
                (fun a b q => plane_monotone a b q)).
  assert (Hint : forall k n j m,
            nthZ (m_nodes (tree (snd Demo.run_wide))) k = Some n ->
            isNodeLeaf n = false ->
            reach (m_nodes (tree (snd Demo.run_wide))) k j ->
            nthZ (m_nodes (tree (snd Demo.run_wide))) j = Some m ->
            Plane.inside (obb m) (obb n) = true).
  { intros k n j m Hk Hnl _ _.
    assert (Hall : @all_nodes Demo.env1 (fun _ (n : @OBBNode Demo.env1) => isNodeLeaf n)
                     (m_nodes (tree (snd Demo.run_wide))) = true)
      by (vm_compute; reflexivity).
    pose proof (all_nodes_spec _ _ Hall k n Hk) as H1. cbv beta in H1. congruence. }
  specialize (H Hint Demo.q_wide [] 1 [] ltac:(vm_compute; reflexivity) 0).
  assert (Hin : 0 ∈ @brute_force Demo.env1 Demo.os_wide 1 Demo.q_wide).
  { vm_compute. constructor. }
  apply H in Hin. inversion Hin.
Qed.

(** Two bricks far apart in one leaf: [query] near the first reports the
    second as well, whose box does not overlap [q_near]. *)
Lemma query_sound_counterexample :
  ~ @stated_query_sound Demo.env2 OBBTree_new Demo.os_far Demo.cs_far 0 2.
Proof.
  intros H.
  specialize (H (snd Demo.run_far)
                (returned_eq Demo.run_far ltac:(vm_compute; reflexivity))
                Demo.q_near 1 [0; 1] ltac:(vm_compute; reflexivity)
                1 (Demo.brick 100 0)).
  assert (Hin : 1 ∈ [0; 1]) by (right; left).
  specialize (H Hin ltac:(reflexivity)). vm_compute in H. discriminate H.
Qed.

(** A leaf whose box passes the test below a root whose box does not:
    [query] appends nothing, the leaf's particle is left out. *)
Lemma query_emission_counterexample :
  ~ @stated_query_emission Demo.env1 OBBTree_new Demo.os_tilt Demo.cs_tilt 0 2.
Proof.
  intros H.
  destruct (H (snd Demo.run_tilt)
              (returned_eq Demo.run_tilt ltac:(vm_compute; reflexivity)) Demo.q_tilt [])
    as [c Hc].
  vm_compute in Hc. discriminate Hc.
Qed.

(** Nine coincident boxes and an allocator that fails on the second
    block: node 2 is an internal node under construction, it is not the
    first node and its parent link is still invalid. *)
Lemma failure_state_counterexample :
  ~ @stated_failure_state Demo.env16 OBBTree_new Demo.os9 Demo.cs9 0 9.
Proof.
  intros H.
  destruct (H AllocationError (snd Demo.run9)
              (stopped_eq Demo.run9 AllocationError ltac:(vm_compute; reflexivity)))
    as [_ Hv].
  unfold parents_valid in Hv.
  assert (Hn : parent <$> nthZ (m_nodes (tree (snd Demo.run9))) 2
               = Some OBB_INVALID_NODE) by (vm_compute; reflexivity).
  apply fmap_Some in Hn as (n & Hn & Hp).
  apply (Hv 2 n Hn); [lia | congruence].
Qed.

(** * More of the header *)

Section More.
Context {env : Env}.

(** ** [height] *)

Lemma path_range T : forall k j a, a ∈ path T k j -> k <= a < k + size T.
Proof.
  induction T as [ps | l IHl r IHr]; intros k j a Ha; simpl in *.
  - apply list_elem_of_singleton in Ha. lia.
  - pose proof (size_pos l). pose proof (size_pos r).
    apply elem_of_cons in Ha as [-> | Ha]; [lia |].
    destruct (j =? k); [inversion Ha |].
    destruct (j <? k + 1 + size l).
    + apply IHl in Ha. lia.
    + apply IHr in Ha. lia.
Qed.

Lemma path_sorted T : forall k j, StronglySorted Z.lt (path T k j).
Proof.
  induction T as [ps | l IHl r IHr]; intros k j; simpl.
  - repeat constructor.
  - constructor.
    + destruct (j =? k); [constructor |]. destruct (j <? k + 1 + size l); auto.
    + apply Forall_forall. intros a Ha.
      destruct (j =? k); [inversion Ha |].
      destruct (j <? k + 1 + size l); apply path_range in Ha; pose proof (size_pos l); lia.
Qed.

Lemma path_length T : forall k j, 1 <= Z.of_nat (length (path T k j)) <= size T.
Proof.
  induction T as [ps | l IHl r IHr]; intros k j; simpl.
  - lia.
  - pose proof (size_pos l). pose proof (size_pos r).
    specialize (IHl (k + 1) j). specialize (IHr (k + 1 + size l) j).
    destruct (j =? k); [simpl; lia |].
    destruct (j <? k + 1 + size l); lia.
Qed.

Lemma path_spec ns T : forall k par j,
  repr ns k par T -> skips ns k T -> Z.of_nat (length ns) < 2 ^ 32 ->
  k <= j < k + size T ->
  forall a, a ∈ path T k j <-> (k <= a < k + size T /\ reach ns a j).
Proof.
  induction T as [ps | l IHl r IHr]; intros k par j Hrepr Hskips Hlen Hj a.
  - simpl in *. rewrite list_elem_of_singleton. split.
    + intros ->. assert (j = k) as -> by lia. split; [lia | constructor].
    + intros [Ha _]. lia.
  - pose proof (size_pos l). pose proof (size_pos r).
    pose proof Hrepr as Hrepr0. pose proof Hskips as Hskips0.
    simpl in Hrepr, Hskips, Hj.
    destruct Hrepr as (n & Hn & Hleft & Hright & _ & Rl & Rr).
    destruct Hskips as (_ & Sl & Sr).
    cbn [path size]. rewrite elem_of_cons. split.
    + intros [-> | Ha].
      * split; [lia |]. eapply range_reach; eauto.
      * destruct (Z.eqb_spec j k); [inversion Ha |].
        destruct (Z.ltb_spec j (k + 1 + size l)).
        -- apply (IHl (k + 1) k j Rl Sl Hlen ltac:(lia) a) in Ha as [Hr Hre]. split; [lia | auto].
        -- apply (IHr (k + 1 + size l) k j Rr Sr Hlen ltac:(lia) a) in Ha as [Hr Hre]. split; [lia | auto].
    + intros [Ha Hre].
      destruct (Z.eq_dec a k) as [-> | Hne]; [left; reflexivity | right].
      destruct (repr_sub _ _ _ _ a Hrepr0 Hskips0 ltac:(simpl; lia))
        as (par' & T' & R' & _ & Hend & _).
      pose proof (reach_range _ _ _ Hre _ _ R' Hlen) as Hja.
      pose proof (size_pos T').
      destruct (Z.eqb_spec j k); [lia |].
      destruct (Z.lt_ge_cases a (k + 1 + size l)) as [Hal | Har].
      * destruct (repr_sub _ _ _ _ a Rl Sl ltac:(lia)) as (p2 & T2 & R2 & _ & Hend2 & _).
        pose proof (reach_range _ _ _ Hre _ _ R2 Hlen) as Hj2.
        destruct (Z.ltb_spec j (k + 1 + size l)); [| lia].
        apply (IHl (k + 1) k j Rl Sl Hlen ltac:(lia) a). split; [lia | auto].
      * destruct (Z.ltb_spec j (k + 1 + size l)); [lia |].
        apply (IHr (k + 1 + size l) k j Rr Sr Hlen ltac:(lia) a). split; [lia | auto].
Qed.

Lemma climb_sub t T : forall fuel k par j n h,
  repr (m_nodes t) k par T ->
  Z.of_nat (length (m_nodes t)) < 2 ^ 32 ->
  k <= j < k + size T ->
  nthZ (m_nodes t) j = Some n ->
  0 <= h -> h + size T <= 2 ^ 32 ->
  (length (path T k j) <= S fuel)%nat ->
  exists fuel',
    (S fuel - length (path T k j) <= fuel')%nat /\
    climb fuel t (parent n) h =
    climb fuel' t par (h + Z.of_nat (length (path T k j)) - 1).
Proof.
  induction T as [ps | l IHl r IHr]; intros fuel k par j n h Hrepr Hlen Hj Hn Hh Hhs Hfuel.
  - simpl in *. assert (j = k) as -> by lia.
    destruct Hrepr as (n' & Hn' & _ & Hpar & _). assert (n' = n) as -> by congruence.
    exists fuel. split; [lia |]. rewrite Hpar. f_equal. lia.
  - pose proof (size_pos l). pose proof (size_pos r).
    pose proof (repr_range _ _ _ _ Hrepr) as [Hk0 Hend].
    simpl in Hrepr, Hj, Hhs, Hend.
    destruct Hrepr as (nk & Hnk & Hleft & Hright & Hpar & Rl & Rr).
    cbn [path] in *.
    destruct (Z.eqb_spec j k) as [-> | Hne].
    { assert (nk = n) as -> by congruence.
      exists fuel. split; [simpl; lia |]. rewrite Hpar. f_equal. simpl. lia. }
    assert (Hstep : forall f c, 0 <= c -> c + 1 < 2 ^ 32 ->
              climb (S f) t k c = climb f t par (c + 1)).
    { intros f c Hc0 Hc1. simpl.
      destruct (Z.eqb_spec k OBB_INVALID_NODE) as [He | _].
      - unfold OBB_INVALID_NODE in He. lia.
      - rewrite Hnk, Hpar. rewrite u32_small by lia. reflexivity. }
    destruct (Z.ltb_spec j (k + 1 + size l)) as [Hjl | Hjr].
    + pose proof (path_length l (k + 1) j) as Hpl.
      simpl in Hfuel.
      destruct (IHl fuel (k + 1) k j n h Rl Hlen ltac:(lia) Hn Hh ltac:(lia) ltac:(lia))
        as (f1 & Hf1 & E1).
      destruct f1 as [| f1]; [lia |].
      exists f1. split; [simpl; lia |].
      rewrite E1, Hstep by lia. f_equal. simpl. lia.
    + pose proof (path_length r (k + 1 + size l) j) as Hpl.
      simpl in Hfuel.
      destruct (IHr fuel (k + 1 + size l) k j n h Rr Hlen ltac:(lia) Hn Hh ltac:(lia) ltac:(lia))
        as (f1 & Hf1 & E1).
      destruct f1 as [| f1]; [lia |].
      exists f1. split; [simpl; lia |].
      rewrite E1, Hstep by lia. f_equal. simpl. lia.
Qed.

Lemma climb_done fuel t h : climb fuel t OBB_INVALID_NODE h = inr h.
Proof. destruct fuel; reflexivity. Qed.

Lemma well_built_height N t p :
  well_built N t -> 0 <= p < N ->
  exists k anc,
    nthZ (m_mapping t) p = Some k /\
    p ∈ leaf_particles t k /\
    height t p = inr (Z.of_nat (length anc)) /\
    StronglySorted Z.lt anc /\
    (forall a, a ∈ anc <-> (0 <= a < m_num_nodes t /\ reach (m_nodes t) a k)) /\
    1 <= Z.of_nat (length anc) <= m_num_nodes t.
Proof.
  intros Hwb Hp.
  destruct (well_built_leaf_of N t p Hwb Hp) as (k & (n & Hn & Hleaf) & Hk).
  pose proof (well_built_mapping N t k p Hwb Hk) as Hm.
  destruct Hwb as ((Hl & Hle & Hc) & _ & _ & T & Hrepr & Hskips & Hnum & _).
  assert (Hlen : Z.of_nat (length (m_nodes t)) < 2 ^ 32) by lia.
  pose proof (nthZ_Some _ _ _ Hn) as [Hkr _].
  pose proof (path_length T 0 k) as Hpl.
  exists k, (path T 0 k).
  split; [exact Hm |]. split; [exact Hk |].
  split.
  { unfold height. rewrite Hm.
    destruct (Z.eqb_spec k OBB_INVALID_NODE) as [He | _].
    { unfold OBB_INVALID_NODE in He. lia. }
    rewrite Hn.
    destruct (Z.to_nat (m_num_nodes t)) as [| fuel] eqn:Hf; [lia |].
    destruct (climb_sub t T (S fuel) 0 OBB_INVALID_NODE k n 1 Hrepr Hlen ltac:(lia) Hn
                ltac:(lia) ltac:(lia) ltac:(lia)) as (f' & _ & E).
    rewrite E, climb_done. f_equal. lia. }
  split; [apply path_sorted |].
  split; [| lia].
  intros a. rewrite (path_spec _ _ 0 OBB_INVALID_NODE k Hrepr Hskips Hlen ltac:(lia) a). rewrite Hnum. tauto.
Qed.

(** ** Parent links *)

Lemma repr_parent ns T : forall k par j n,
  repr ns k par T -> Z.of_nat (length ns) < 2 ^ 32 ->
  k <= j < k + size T -> nthZ ns j = Some n ->
  (j = k /\ parent n = par) \/
  (k < j /\ k <= parent n < j /\
   exists m, nthZ ns (parent n) = Some m /\ isNodeLeaf m = false /\
             (left m = j \/ right m = j)).
Proof.
  induction T as [ps | l IHl r IHr]; intros k par j n Hrepr Hlen Hj Hn.
  - simpl in *. assert (j = k) as -> by lia.
    destruct Hrepr as (n' & Hn' & _ & Hpar & _). left. split; congruence.
  - pose proof (size_pos l). pose proof (size_pos r).
    pose proof (repr_range _ _ _ _ Hrepr) as [Hk0 Hend].
    simpl in Hrepr, Hj, Hend.
    destruct Hrepr as (nk & Hnk & Hleft & Hright & Hpar & Rl & Rr).
    assert (Hnl : isNodeLeaf nk = false) by (eapply internal_not_leaf; eauto; lia).
    destruct (Z.eq_dec j k) as [-> | Hne].
    { left. split; congruence. }
    right. split; [lia |].
    destruct (Z.lt_ge_cases j (k + 1 + size l)) as [Hjl | Hjr].
    + destruct (IHl (k + 1) k j n Rl Hlen ltac:(lia) Hn)
        as [[-> Hp] | (Hlt & Hr & m & Hm & Hml & Hc)].
      * rewrite Hp. split; [lia |]. exists nk. auto.
      * split; [lia |]. exists m. auto.
    + destruct (IHr (k + 1 + size l) k j n Rr Hlen ltac:(lia) Hn)
        as [[-> Hp] | (Hlt & Hr & m & Hm & Hml & Hc)].
      * rewrite Hp. split; [lia |]. exists nk. auto.
      * split; [lia |]. exists m. auto.
Qed.

Lemma well_built_parents N t j n :
  well_built N t -> nthZ (m_nodes t) j = Some n ->
  (j = 0 /\ parent n = OBB_INVALID_NODE) \/
  (0 < j /\ 0 <= parent n < j /\
   exists m, nthZ (m_nodes t) (parent n) = Some m /\ isNodeLeaf m = false /\
             (left m = j \/ right m = j)).
Proof.
  intros ((Hl & Hle & Hc) & _ & _ & T & Hrepr & _ & Hnum & _) Hn.
  pose proof (nthZ_Some _ _ _ Hn) as [Hj _].
  eapply repr_parent; eauto; lia.
Qed.

(** ** [query]: what it leaves alone, and its two extremes *)

Lemma prepend_prepend a b res : prepend a (prepend b res) = prepend (a ++ b) res.
Proof. destruct res as [e | [c out]]; simpl; [reflexivity |]. rewrite app_assoc. reflexivity. Qed.

Lemma query_loop_prepend fuel t q : forall k c hits,
  query_loop fuel t q k c hits = prepend hits (query_loop fuel t q k c []).
Proof.
  induction fuel as [| fuel IH]; intros k c hits; simpl.
  - destruct (m_num_nodes t <=? k); simpl; [rewrite app_nil_r |]; reflexivity.
  - destruct (m_num_nodes t <=? k); simpl; [rewrite app_nil_r; reflexivity |].
    destruct (nthZ (m_nodes t) k) as [n |]; [| reflexivity].
    destruct (overlap (obb n) q); [| apply IH].
    destruct (left n =? OBB_INVALID_NODE); [| apply IH].
    unfold push_particles.
    destruct (num_particles n <=? Z.of_nat (length (particles n))); [| reflexivity].
    rewrite (IH _ _ (hits ++ _)). rewrite (IH _ _ ([] ++ _)).
    rewrite prepend_prepend. simpl. reflexivity.
Qed.

Lemma seen_sublist t q T : forall k par,
  repr (m_nodes t) k par T ->
  concat (map (leaf_particles t) (seen (m_nodes t) q k T)) `sublist_of` flat T.
Proof.
  induction T as [ps | l IHl r IHr]; intros k par Hrepr; simpl in *.
  - destruct Hrepr as (n & Hn & Hleaf & _ & _ & Hst & _). rewrite Hn.
    destruct (overlap (obb n) q); simpl; [| apply sublist_nil_l].
    unfold leaf_particles. rewrite Hn, Hleaf, app_nil_r, Hst. reflexivity.
  - destruct Hrepr as (n & Hn & _ & _ & _ & Rl & Rr). rewrite Hn.
    destruct (overlap (obb n) q); simpl; [| apply sublist_nil_l].
    rewrite map_app, concat_app. apply sublist_app; eauto.
Qed.

Lemma tests_pos ns q T k par : repr ns k par T -> 1 <= tests ns q k T.
Proof.
  intros Hrepr. destruct T as [ps | l r]; simpl in *.
  - destruct Hrepr as (n & -> & _). destruct (overlap (obb n) q); lia.
  - destruct Hrepr as (n & -> & _).
    pose proof (tests_le ns q l (k + 1)). pose proof (tests_le ns q r (k + 1 + size l)).
    destruct (overlap (obb n) q); lia.
Qed.

Lemma seen_all t q T : forall k par,
  repr (m_nodes t) k par T -> skips (m_nodes t) k T ->
  Z.of_nat (length (m_nodes t)) < 2 ^ 32 ->
  (forall j n, nthZ (m_nodes t) j = Some n -> overlap (obb n) q = true) ->
  concat (map (leaf_particles t) (seen (m_nodes t) q k T)) = flat T /\
  tests (m_nodes t) q k T = size T.
Proof.
  induction T as [ps | l IHl r IHr]; intros k par Hrepr Hskips Hlen Hall; simpl in *.
  - destruct Hrepr as (n & Hn & Hleaf & _ & _ & Hst & _). rewrite Hn, (Hall _ _ Hn).
    simpl. unfold leaf_particles. rewrite Hn, Hleaf, app_nil_r. auto.
  - destruct Hrepr as (n & Hn & _ & _ & _ & Rl & Rr). destruct Hskips as (_ & Sl & Sr).
    rewrite Hn, (Hall _ _ Hn), map_app, concat_app.
    destruct (IHl _ _ Rl Sl Hlen Hall) as [-> ->].
    destruct (IHr _ _ Rr Sr Hlen Hall) as [-> ->]. auto.
Qed.

Lemma well_built_flat N t :
  well_built N t ->
  exists T, repr (m_nodes t) 0 OBB_INVALID_NODE T /\ skips (m_nodes t) 0 T /\
            m_num_nodes t = size T /\ flat T = all_leaf_particles t.
Proof.
  intros ((Hl & Hle & Hc) & _ & _ & T & Hrepr & Hskips & Hnum & _).
  exists T. repeat split; auto.
  unfold all_leaf_particles. rewrite Hnum.
  symmetry. eapply leaf_particles_flat; eauto. lia.
Qed.

Lemma repr_unique ns T : forall T' k par par',
  repr ns k par T -> repr ns k par' T' ->
  Z.of_nat (length ns) < 2 ^ 32 -> T = T'.
Proof.
  induction T as [ps | l IHl r IHr]; intros T' k par par' H H' Hlen.
  - destruct T' as [ps' | l' r']; simpl in H.
    + simpl in H'. destruct H as (n & Hn & _ & _ & _ & Hst & _).
      destruct H' as (n' & Hn' & _ & _ & _ & Hst' & _). congruence.
    + destruct H as (n & Hn & Hleaf & _).
      pose proof (repr_range _ (SNode l' r') _ _ H') as [Hk0 Hend]. simpl in Hend.
      destruct H' as (n' & Hn' & Hleft & _).
      pose proof (size_pos l'). pose proof (size_pos r').
      assert (n' = n) as -> by congruence.
      assert (isNodeLeaf n = false) by (eapply internal_not_leaf; eauto; lia).
      congruence.
  - destruct T' as [ps' | l' r'].
    + pose proof (repr_range _ _ _ _ H) as [Hk0 Hend]. simpl in Hend, H, H'.
      destruct H' as (n & Hn & Hleaf & _).
      destruct H as (n' & Hn' & Hleft & _).
      pose proof (size_pos l). pose proof (size_pos r).
      assert (n' = n) as -> by congruence.
      assert (isNodeLeaf n = false) by (eapply internal_not_leaf; eauto; lia).
      congruence.
    + simpl in *.
      destruct H as (n & Hn & Hleft & Hright & _ & Rl & Rr).
      destruct H' as (n' & Hn' & Hleft' & Hright' & _ & Rl' & Rr').
      assert (n' = n) as -> by congruence.
      assert (l = l') as <- by (eapply IHl; eauto).
      assert (r = r') as <- by (eapply IHr; eauto).
      reflexivity.
Qed.

Lemma query_built_more N t q hits :
  well_built N t ->
  exists c out,
    query t hits q = inr (c, hits ++ out) /\
    out `sublist_of` all_leaf_particles t /\
    1 <= c <= m_num_nodes t /\
    ((forall j n, nthZ (m_nodes t) j = Some n -> overlap (obb n) q = true) ->
     c = m_num_nodes t /\ out = all_leaf_particles t) /\
    (forall n, nthZ (m_nodes t) 0 = Some n -> overlap (obb n) q = false ->
     c = 1 /\ out = []).
Proof.
  intros Hwb.
  destruct (query_built N t q hits Hwb) as (T & Hrepr & Hskips & Hnum & E).
  destruct (well_built_flat N t Hwb) as (T' & Hrepr' & _ & _ & Hflat).
  destruct Hwb as ((Hl & Hle & Hc) & _).
  assert (Hlen : Z.of_nat (length (m_nodes t)) < 2 ^ 32) by lia.
  assert (T' = T) as -> by (eapply repr_unique; eauto).
  eexists _, _. split; [exact E |].
  split; [rewrite <- Hflat; eapply seen_sublist; eauto |].
  split.
  { pose proof (tests_le (m_nodes t) q T 0). pose proof (tests_pos _ q _ _ _ Hrepr). lia. }
  split.
  - intros Hall. destruct (seen_all t q T 0 _ Hrepr Hskips Hlen Hall) as [-> ->].
    split; [lia | exact Hflat].
  - intros n Hn Hov. destruct T; simpl; rewrite Hn, Hov; auto.
Qed.

(** ** [updateSkip] writes skip fields only *)

Lemma skip_only_refl (n : OBBNode) : skip_only n n.
Proof. split; [destruct n; reflexivity | auto]. Qed.

Lemma skip_only_left (n n' : OBBNode) : skip_only n n' -> left n' = left n.
Proof. intros [H _]. rewrite <- H. destruct n'; reflexivity. Qed.

Lemma skip_only_trans (a b c : OBBNode) :
  skip_only a b -> skip_only b c -> skip_only a c.
Proof.
  intros Hab Hbc. pose proof (skip_only_left _ _ Hab) as Hl.
  destruct Hab as [Hab Lab], Hbc as [Hbc Lbc]. split.
  - rewrite <- Hab at 2. rewrite <- Hbc. destruct c; reflexivity.
  - intros Ha. rewrite <- (Lab Ha). apply Lbc.
    unfold isNodeLeaf in *. rewrite Hl. exact Ha.
Qed.

Lemma skips_only_refl s : skips_only s s.
Proof.
  unfold skips_only. repeat split; auto.
  apply Forall2_same_length_lookup_2; [reflexivity |].
  intros i x y Hx Hy. assert (x = y) as -> by congruence. apply skip_only_refl.
Qed.

Lemma skips_only_trans a b c : skips_only a b -> skips_only b c -> skips_only a c.
Proof.
  intros (A1 & A2 & A3 & A4 & A5 & A6 & A7 & A8) (B1 & B2 & B3 & B4 & B5 & B6 & B7 & B8).
  unfold skips_only. repeat split; try congruence.
  apply Forall2_same_length_lookup_2.
  - rewrite (Forall2_length _ _ _ A8). apply (Forall2_length _ _ _ B8).
  - intros i x z Hx Hz.
    destruct (Forall2_lookup_l _ _ _ _ _ A8 Hx) as (y & Hy & Hxy).
    destruct (Forall2_lookup_l _ _ _ _ _ B8 Hy) as (z' & Hz' & Hyz).
    assert (z' = z) as -> by congruence.
    eapply skip_only_trans; eauto.
Qed.

Lemma updateSkip_skips_only fuel : forall i s,
  skips_only s (snd (updateSkip fuel i s)).
Proof.
  induction fuel as [| fuel IH]; intros i s; simpl.
  { apply skips_only_refl. }
  unfold bind at 1. unfold read_node, bind at 1, gets at 1.
  destruct (nthZ (m_nodes (tree s)) i) as [n |] eqn:Hn; simpl;
    [| apply skips_only_refl].
  destruct (Z.eqb_spec (left n) OBB_INVALID_NODE) as [Hleaf | Hint]; simpl;
    [apply skips_only_refl |].
  unfold bind at 1. pose proof (IH (left n) s) as H1.
  destruct (updateSkip fuel (left n) s) as [[e | l] s1]; simpl in *; [exact H1 |].
  unfold bind at 1. pose proof (IH (right n) s1) as H2.
  destruct (updateSkip fuel (right n) s1) as [[e | r] s2]; simpl in *;
    [eapply skips_only_trans; eauto |].
  assert (H12 : skips_only s s2) by (eapply skips_only_trans; eauto).
  unfold bind at 1. unfold write_node, bind at 1, gets at 1.
  unfold bind at 1.
  destruct (nthZ (m_nodes (tree s2)) i) as [m |] eqn:Hm; simpl; [| exact H12].
  eapply skips_only_trans; [exact H12 |].
  destruct H12 as (_ & _ & _ & _ & _ & _ & _ & HF).
  apply nthZ_Some in Hn as [Hi Hn]. apply nthZ_Some in Hm as [_ Hm].
  destruct (Forall2_lookup_l _ _ _ _ _ HF Hn) as (m' & Hm' & Hnm).
  assert (m' = m) as -> by congruence.
  unfold skips_only. simpl. repeat split; auto.
  rewrite <- (list_insert_id (m_nodes (tree s2)) (Z.to_nat i) m) at 1 by exact Hm.
  apply Forall2_insert.
  - apply Forall2_same_length_lookup_2; [reflexivity |].
    intros j x y Hx Hy. assert (x = y) as -> by congruence. apply skip_only_refl.
  - split; [destruct m; reflexivity |].
    intros Hl. exfalso. apply Hint. rewrite <- (skip_only_left _ _ Hnm).
    unfold isNodeLeaf in Hl. apply Z.eqb_eq in Hl. exact Hl.
Qed.

(** ** [allocateNode] *)

Lemma new_capacity_small c :
  0 <= c < 2 ^ 31 -> c < new_capacity c /\ new_capacity c < 2 ^ 32.
Proof.
  intros Hc. unfold new_capacity, u32. cbv zeta.
  assert (Hp : 2 ^ 32 = 2 * 2 ^ 31) by reflexivity.
  rewrite Z.mod_small by lia.
  destruct (Z.eqb_spec (c * 2) 0); lia.
Qed.

Lemma new_capacity_wraps c :
  2 ^ 31 <= c < 2 ^ 32 -> 0 < new_capacity c < c.
Proof.
  intros Hc. unfold new_capacity, u32. cbv zeta.
  assert (Hp : 2 ^ 32 = 2 * 2 ^ 31) by reflexivity.
  assert (E : (c * 2) mod 2 ^ 32 = c * 2 - 2 ^ 32).
  { symmetry. apply (Z.mod_unique_pos _ _ 1); lia. }
  rewrite E. destruct (Z.eqb_spec (c * 2 - 2 ^ 32) 0); lia.
Qed.

(** ** The two [buildTree] *)

Lemma corners_of_Some (os : list OBB) n : forall i,
  0 <= i -> i + Z.of_nat n <= Z.of_nat (length os) -> i + Z.of_nat n < 2 ^ 32 ->
  corners_of n i os = Some (map getCorners (take n (drop (Z.to_nat i) os))).
Proof.
  induction n as [| n IH]; intros i Hi Hn Hw; [reflexivity |].
  simpl. destruct (nthZ_is_Some os i) as [o Ho]; [lia |]. rewrite Ho.
  rewrite u32_small by lia. rewrite IH by lia.
  apply nthZ_Some in Ho as [_ Ho].
  rewrite (drop_S _ _ _ Ho). simpl.
  replace (Z.to_nat (i + 1)) with (S (Z.to_nat i)) by lia. reflexivity.
Qed.

Lemma corners_of_None (os : list OBB) n : forall i,
  0 <= i <= Z.of_nat (length os) -> Z.of_nat (length os) < i + Z.of_nat n ->
  i + Z.of_nat n < 2 ^ 32 ->
  corners_of n i os = None.
Proof.
  induction n as [| n IH]; intros i Hi Hn Hw; [lia |].
  simpl. destruct (nthZ os i) as [o |] eqn:Ho; [| reflexivity].
  apply nthZ_Some in Ho as [Hr _].
  rewrite u32_small by lia. rewrite IH by lia. reflexivity.
Qed.

(** ** The rows of the three arrays *)

Lemma swapZ_nth {A} (l l' : list A) a b :
  swapZ l a b = Some l' ->
  length l' = length l /\ l' ≡ₚ l /\
  forall j, nthZ l' j =
            if j =? b then nthZ l a else if j =? a then nthZ l b else nthZ l j.
Proof.
  unfold swapZ. destruct (nthZ l a) as [x |] eqn:Hx; [| discriminate].
  destruct (nthZ l b) as [y |] eqn:Hy; [| discriminate].
  intros [= <-]. split; [rewrite !length_insert; reflexivity |].
  pose proof (nthZ_Some _ _ _ Hx) as [Ha Hxl]. pose proof (nthZ_Some _ _ _ Hy) as [Hb Hyl].
  split; [apply Permutation_insert_swap; assumption |].
  intros j. destruct (Z.eqb_spec j b) as [-> | Hjb].
  - apply nthZ_insert_same. rewrite length_insert. lia.
  - rewrite nthZ_insert_ne by lia.
    destruct (Z.eqb_spec j a) as [-> | Hja].
    + apply nthZ_insert_same. lia.
    + apply nthZ_insert_ne; lia.
Qed.

Lemma lockstep_refl lo hi s : lockstep lo hi s s.
Proof.
  unfold lockstep. repeat split; auto.
  intros j Hj. exists j. auto.
Qed.

Lemma lockstep_same lo hi s s' :
  idx s' = idx s -> obbs s' = obbs s ->
  internal_coordinates s' = internal_coordinates s ->
  lockstep lo hi s s'.
Proof.
  intros H1 H2 H3. unfold lockstep. rewrite H1, H2, H3.
  repeat split; auto. intros j Hj. exists j. auto.
Qed.

Lemma lockstep_trans lo hi a b c :
  lockstep lo hi a b -> lockstep lo hi b c -> lockstep lo hi a c.
Proof.
  intros (A1 & A2 & A3 & Ain & Aout) (B1 & B2 & B3 & Bin & Bout).
  unfold lockstep. split; [etransitivity; eassumption |].
  split; [congruence |]. split; [congruence |].
  split.
  - intros j Hj. destruct (Bin j Hj) as (j1 & Hj1 & E1 & E2 & E3).
    destruct (Ain j1 Hj1) as (j2 & Hj2 & F1 & F2 & F3).
    exists j2. split; [exact Hj2 |]. split; [| split]; congruence.
  - intros j Hj. destruct (Bout j Hj) as (E1 & E2 & E3).
    destruct (Aout j Hj) as (F1 & F2 & F3).
    split; [| split]; congruence.
Qed.

Lemma lockstep_widen lo hi lo' hi' s s' :
  lo' <= lo -> hi <= hi' -> lockstep lo hi s s' -> lockstep lo' hi' s s'.
Proof.
  intros Hlo Hhi (A1 & A2 & A3 & Ain & Aout).
  unfold lockstep. split; [exact A1 |]. split; [exact A2 |]. split; [exact A3 |].
  split.
  - intros j Hj. destruct (decide (lo <= j < hi)) as [Hin | Hnot].
    + destruct (Ain j Hin) as (j' & Hj' & E). exists j'. split; [lia | exact E].
    + exists j. split; [lia |]. apply Aout, Hnot.
  - intros j Hj. apply Aout. lia.
Qed.

Lemma lockstep_tagged os0 cs0 N lo hi s s' :
  0 <= lo -> hi <= N ->
  lockstep lo hi s s' -> tagged os0 cs0 N s -> tagged os0 cs0 N s'.
Proof.
  intros Hlo Hhi (_ & _ & _ & Ain & Aout) Ht j Hj.
  destruct (decide (lo <= j < hi)) as [Hin | Hnot].
  - destruct (Ain j Hin) as (j' & Hj' & E1 & E2 & E3).
    destruct (Ht j' ltac:(lia)) as (p & P1 & P2 & P3).
    exists p. rewrite E1, E2, E3. auto.
  - destruct (Aout j Hnot) as (E1 & E2 & E3).
    destruct (Ht j Hj) as (p & P1 & P2 & P3).
    exists p. rewrite E1, E2, E3. auto.
Qed.

Lemma swap3_rows a b s :
  match swap3 a b s with
  | (inr _, s') =>
      tree s' = tree s /\
      idx s' ≡ₚ idx s /\
      length (obbs s') = length (obbs s) /\
      length (internal_coordinates s') = length (internal_coordinates s) /\
      forall j,
        nthZ (idx s') j =
          (if j =? b then nthZ (idx s) a
           else if j =? a then nthZ (idx s) b else nthZ (idx s) j) /\
        nthZ (obbs s') j =
          (if j =? b then nthZ (obbs s) a
           else if j =? a then nthZ (obbs s) b else nthZ (obbs s) j) /\
        nthZ (internal_coordinates s') j =
          (if j =? b then nthZ (internal_coordinates s) a
           else if j =? a then nthZ (internal_coordinates s) b
           else nthZ (internal_coordinates s) j)
  | (inl _, s') => s' = s
  end.
Proof.
  unfold swap3, bind, gets, lift, modify, ret, raise. cbv beta.
  destruct (swapZ (obbs s) a b) as [o |] eqn:Eo; [| reflexivity].
  destruct (swapZ (idx s) a b) as [i |] eqn:Ei; [| reflexivity].
  destruct (swapZ (internal_coordinates s) a b) as [c |] eqn:Ec; [| reflexivity].
  apply swapZ_nth in Eo as (Lo & _ & Fo). apply swapZ_nth in Ei as (_ & Pi & Fi).
  apply swapZ_nth in Ec as (Lc & _ & Fc). cbn [tree idx obbs internal_coordinates].
  repeat split; auto.
Qed.

(** The sweep, with what it knows about the boxes it has passed. *)
Lemma sweep_rows my start len fuel : forall i sr s,
  0 <= start -> 0 <= i <= sr -> sr <= len ->
  start + len <= Z.of_nat (length (obbs s)) ->
  start + len <= Z.of_nat (length (idx s)) ->
  start + len <= Z.of_nat (length (internal_coordinates s)) ->
  start + len < 2 ^ 32 ->
  (Z.to_nat (sr - i) <= fuel)%nat ->
  (forall j o, start <= j < start + i -> nthZ (obbs s) j = Some o ->
               proj_negative my o = true) ->
  (forall j o, start + sr <= j < start + len -> nthZ (obbs s) j = Some o ->
               proj_negative my o = false) ->
  exists sr' s',
    sweep fuel my start i sr s = (inr sr', s') /\
    i <= sr' <= sr /\ tree s' = tree s /\
    lockstep start (start + len) s s' /\
    (forall j o, start <= j < start + sr' -> nthZ (obbs s') j = Some o ->
                 proj_negative my o = true) /\
    (forall j o, start + sr' <= j < start + len -> nthZ (obbs s') j = Some o ->
                 proj_negative my o = false).
Proof.
  induction fuel as [| fuel IH]; intros i sr s Hs Hi Hsr Ho Hx Hc Hlt Hf Hneg Hpos.
  - assert (i = sr) as -> by lia. simpl.
    destruct (Z.leb_spec sr sr); [| lia].
    exists sr, s. unfold ret. split; [reflexivity |]. split; [lia |].
    split; [reflexivity |]. split; [apply lockstep_refl |]. auto.
  - simpl. destruct (Z.leb_spec sr i) as [Hdone | Hgo].
    + assert (i = sr) as -> by lia.
      exists sr, s. unfold ret. split; [reflexivity |]. split; [lia |].
      split; [reflexivity |]. split; [apply lockstep_refl |]. auto.
    + unfold bind at 1. unfold gets at 1. cbv beta.
      rewrite (u32_small (start + i)) by lia.
      destruct (nthZ_is_Some (obbs s) (start + i)) as [o Eo]; [lia |].
      unfold bind at 1. rewrite Eo. unfold lift at 1, ret at 1.
      destruct (proj_negative my o) eqn:Hproj.
      * rewrite (u32_small (i + 1)) by lia.
        destruct (IH (i + 1) sr s) as (sr' & s' & E & Hr & Hrest); try lia; auto.
        -- intros j o' Hj Ho'. destruct (Z.eq_dec j (start + i)) as [-> | Hne].
           ++ congruence.
           ++ apply (Hneg j); [lia | exact Ho'].
        -- exists sr', s'. split; [exact E |]. split; [lia | exact Hrest].
      * rewrite (u32_small (start + sr)) by lia.
        rewrite (u32_small (start + sr - 1)) by lia.
        rewrite u32_dec_inc by lia.
        rewrite (u32_small (sr - 1)) by lia.
        pose proof (swap3_rows (start + i) (start + sr - 1) s) as Hsw.
        unfold bind at 1.
        destruct (swap3 (start + i) (start + sr - 1) s) as [[e | []] s1] eqn:Esw.
        { exfalso. subst s1. revert Esw.
          unfold swap3, bind, gets, lift, modify, ret, raise. cbv beta.
          destruct (swapZ_Some (obbs s) (start + i) (start + sr - 1))
            as (o1 & -> & _); [lia | lia |].
          destruct (swapZ_Some (idx s) (start + i) (start + sr - 1))
            as (i1 & -> & _); [lia | lia |].
          destruct (swapZ_Some (internal_coordinates s) (start + i) (start + sr - 1))
            as (c1 & -> & _); [lia | lia |].
          discriminate. }
        destruct Hsw as (Ht1 & Li1 & Lo1 & Lc1 & F1).
        pose proof (Permutation_length Li1) as Ll1.
        destruct (IH i (sr - 1) s1) as (sr' & s' & E & Hr & Ht' & Hlock & Hneg' & Hpos');
          try lia.
        -- intros j o' Hj Ho'. destruct (F1 j) as (_ & Fo & _). rewrite Fo in Ho'.
           destruct (Z.eqb_spec j (start + sr - 1)); [lia |].
           destruct (Z.eqb_spec j (start + i)); [lia |].
           apply (Hneg j); [lia | exact Ho'].
        -- intros j o' Hj Ho'. destruct (F1 j) as (_ & Fo & _). rewrite Fo in Ho'.
           destruct (Z.eqb_spec j (start + sr - 1)) as [-> | Hne].
           ++ congruence.
           ++ destruct (Z.eqb_spec j (start + i)); [lia |].
              apply (Hpos j); [lia | exact Ho'].
        -- exists sr', s'. split; [exact E |]. split; [lia |].
           split; [congruence |].
           split; [| auto].
           eapply lockstep_trans; [| exact Hlock].
           unfold lockstep. split; [exact Li1 |]. split; [exact Lo1 |].
           split; [exact Lc1 |]. split.
           ++ intros j Hj. destruct (F1 j) as (Fi & Fo & Fc).
              rewrite Fi, Fo, Fc.
              destruct (Z.eqb_spec j (start + sr - 1)).
              { exists (start + i). split; [lia | auto]. }
              destruct (Z.eqb_spec j (start + i)).
              { exists (start + sr - 1). split; [lia | auto]. }
              exists j. auto.
           ++ intros j Hj. destruct (F1 j) as (Fi & Fo & Fc).
              rewrite Fi, Fo, Fc.
              destruct (Z.eqb_spec j (start + sr - 1)); [lia |].
              destruct (Z.eqb_spec j (start + i)); [lia |]. auto.
Qed.

Lemma split_rows my start len s :
  0 <= start -> 2 <= len ->
  start + len <= Z.of_nat (length (obbs s)) ->
  start + len <= Z.of_nat (length (idx s)) ->
  start + len <= Z.of_nat (length (internal_coordinates s)) ->
  start + len < 2 ^ 32 ->
  exists sr s',
    split my start len s = (inr sr, s') /\
    0 <= sr <= len /\ tree s' = tree s /\
    lockstep start (start + len) s s' /\
    (len = 2 -> sr = 2 /\ s' = s) /\
    (len <> 2 ->
     (forall j o, start <= j < start + sr -> nthZ (obbs s') j = Some o ->
                  proj_negative my o = true) /\
     (forall j o, start + sr <= j < start + len -> nthZ (obbs s') j = Some o ->
                  proj_negative my o = false)).
Proof.
  intros Hs Hl Ho Hx Hc Hlt. unfold split.
  destruct (Z.eqb_spec len 2) as [-> | Hne].
  - exists 2, s. unfold ret. split; [reflexivity |]. split; [lia |].
    split; [reflexivity |]. split; [apply lockstep_refl |].
    split; [auto | intros H; lia].
  - destruct (sweep_rows my start len (Z.to_nat len) 0 len s)
      as (sr & s' & E & Hr & Ht & Hlock & Hneg & Hpos); try lia.
    exists sr, s'. split; [exact E |]. split; [lia |].
    split; [exact Ht |]. split; [exact Hlock |].
    split; [intros H; lia | auto].
Qed.

(** ** The runs of [buildNode] *)

Lemma buildNode_runs N r fuel : forall start len par s,
  build_pre N start len s -> (Z.to_nat len <= fuel)%nat ->
  run_build N r fuel start len par s (buildNode fuel r start len par s).
Proof.
  induction fuel as [| fuel IH]; intros start len par s Hpre Hfuel.
  { destruct Hpre as (_ & _ & _ & _ & Hlen & _). lia. }
  pose proof Hpre as (Harena & Hscr & HN & Hstart & Hlen & Hend & Hcap).
  pose proof Hscr as (Hos & Hcs & Hperm & Hmp).
  pose proof (scratch_idx_length N s ltac:(lia) Hscr) as Hixlen.
  remember (buildNode (S fuel) r start len par s) as out eqn:Eout.
  pose proof Eout as E0. symmetry in E0.
  simpl in Eout. unfold bind at 1 in Eout. unfold gets at 1 in Eout.
  destruct (nthZ_is_Some (obbs s) start) as [o0 Ho0]; [lia |].
  unfold bind at 1 in Eout. rewrite Ho0 in Eout. unfold lift at 1, ret at 1 in Eout.
  rewrite (u32_small (start + len)) in Eout by lia.
  replace (start + len - start) with len in Eout by lia.
  destruct (gather_Some (internal_coordinates s) (Z.to_nat len) start) as [pts Hpts];
    [lia | lia | lia |].
  unfold bind at 1 in Eout. rewrite Hpts in Eout. unfold lift at 1, ret at 1 in Eout.
  set (my := compute_obb pts r) in *.
  destruct (Z.leb_spec len node_capacity) as [Hleaf | Hint].
  { eapply run_leaf; eauto. }
  unfold bind at 1 in Eout.
  pose proof (allocateNode_spec s Harena) as Ha.
  destruct (allocateNode s) as [[e | k] s1] eqn:Ealloc.
  { destruct Ha as [-> He]. rewrite Eout in E0 |- *. eapply run_full; eauto. }
  destruct Ha as (Hal & Harena1).
  pose proof Hal as (Hk & Hns1 & Hnum1 & Hroot1 & Hmp1 & Hos1 & Hix1 & Hcs1).
  change (if len =? 2 then ret len else sweep (Z.to_nat len) my start 0 len)
    with (split my start len) in Eout.
  destruct s1 as [t1 os1 ix1 cs1].
  simpl in Hns1, Hnum1, Hroot1, Hmp1, Hos1, Hix1, Hcs1, Harena1.
  subst os1 ix1 cs1.
  destruct (partition_spec my start len t1 (obbs s) (idx s) (internal_coordinates s))
    as (sr' & os2 & ix2 & cs2 & Epart & Hsr' & Los2 & Lcs2 & Pix2 & Fix2); try lia.
  change (if len =? 2 then ret len else sweep (Z.to_nat len) my start 0 len)
    with (split my start len) in Epart.
  unfold bind at 1 in Eout. rewrite Epart in Eout.
  pose proof (guard_range len sr' ltac:(lia) Hsr') as Hg.
  set (sr := guard len sr') in *.
  rewrite (u32_small (start + 0)) in Eout by lia.
  replace (start + 0) with start in Eout by lia.
  rewrite (u32_small (sr - 0)) in Eout by lia.
  replace (sr - 0) with sr in Eout by lia.
  rewrite (u32_small (start + sr)) in Eout by lia.
  rewrite (u32_small (len - sr)) in Eout by lia.
  set (s2 := mkSt t1 os2 ix2 cs2) in *.
  assert (Hk0 : 0 <= k).
  { destruct Harena as (Hl & _). lia. }
  assert (Hscr2 : scratch_ok N s2).
  { unfold scratch_ok, s2. simpl. rewrite Los2, Lcs2, Hmp1.
    repeat split; auto. etransitivity; eassumption. }
  assert (Hpre2 : build_pre N start sr s2).
  { unfold build_pre. split; [exact Harena1 |]. split; [exact Hscr2 |].
    repeat split; auto; try lia. }
  unfold bind at 1 in Eout.
  pose proof (IH start sr k s2 Hpre2 ltac:(lia)) as RL.
  pose proof (buildNode_spec N r fuel start sr k s2 Hpre2 ltac:(lia)) as HL.
  destruct (buildNode fuel r start sr k s2) as [[e | kl] s3] eqn:EL.
  { rewrite Eout in E0 |- *. eapply run_left_stops; eauto. }
  destruct HL as (Hkl & Harena3 & Hscr3 & Hpar3 & Hroot3 & (newL & HnewL) & Fix3 & Fmp3
                  & Tl & HreprL & HnumL & HflatL & HmapL).
  simpl in Hkl, Hroot3, HnewL, Fix3, Fmp3.
  pose proof (size_pos Tl) as HsizeL.
  assert (Hpre3 : build_pre N (start + sr) (len - sr) s3).
  { unfold build_pre. split; [exact Harena3 |]. split; [exact Hscr3 |].
    repeat split; auto; lia. }
  unfold bind at 1 in Eout.
  pose proof (IH (start + sr) (len - sr) k s3 Hpre3 ltac:(lia)) as RR.
  pose proof (buildNode_spec N r fuel (start + sr) (len - sr) k s3 Hpre3 ltac:(lia)) as HR.
  destruct (buildNode fuel r (start + sr) (len - sr) k s3) as [[e | kr] s4] eqn:ER.
  { rewrite Eout in E0 |- *. eapply run_right_stops; eauto. }
  destruct HR as (Hkr & Harena4 & Hscr4 & Hpar4 & Hroot4 & (newR & HnewR) & Fix4 & Fmp4
                  & Tr & HreprR & HnumR & HflatR & HmapR).
  assert (Hlenns : Z.of_nat (length (m_nodes (tree s))) = k).
  { destruct Harena as (Hl & _). lia. }
  assert (Hnodes4 : m_nodes (tree s4) =
                    m_nodes (tree s) ++ OBBNode_default :: (newL ++ newR)).
  { rewrite HnewR, HnewL, Hns1. rewrite <- !app_assoc. reflexivity. }
  assert (Hd : nthZ (m_nodes (tree s4)) k = Some OBBNode_default).
  { rewrite Hnodes4, <- Hlenns. rewrite nthZ_lookup by lia. rewrite Nat2Z.id.
    rewrite lookup_app_r by lia. rewrite Nat.sub_diag. reflexivity. }
  erewrite connect_eq in Eout by exact Hd.
  rewrite Eout in E0 |- *. eapply run_node; eauto.
Qed.

Lemma run_build_inv N r fuel start len par s out :
  run_build N r fuel start len par s out ->
  build_pre N start len s /\ (Z.to_nat len <= fuel)%nat /\
  buildNode fuel r start len par s = out.
Proof. intros H. destruct H; auto. Qed.

Lemma run_build_built N r fuel start len par s k s' :
  run_build N r fuel start len par s (inr k, s') -> built N start len par s s' k.
Proof.
  intros H. apply run_build_inv in H as (Hpre & Hfuel & E).
  pose proof (buildNode_spec N r fuel start len par s Hpre Hfuel) as Hs.
  rewrite E in Hs. exact Hs.
Qed.

(** The leaf branch, record by record. *)
Lemma make_leaf_eq N start len par my s :
  build_pre N start len s -> len <= node_capacity ->
  match allocateNode s with
  | (inl e, s1) => s1 = s /\ make_leaf my start len par s = (inl e, s)
  | (inr k, s1) =>
      exists ps' mp',
        make_leaf my start len par s =
        (inr k,
         mkSt (mkTree (m_nodes (tree s) ++
                       [set_particles ps'
                          (set_num_particles len
                             (set_parent par (set_obb my OBBNode_default)))])
                      (m_num_nodes (tree s1)) (m_node_capacity (tree s1))
                      (m_root (tree s)) mp')
              (obbs s) (idx s) (internal_coordinates s)) /\
        Z.of_nat (length ps') = node_capacity /\
        take (Z.to_nat len) ps' = segZ (idx s) start len /\
        (forall p, p ∉ segZ (idx s) start len ->
                   nthZ mp' p = nthZ (m_mapping (tree s)) p)
  end.
Proof.
  intros (Harena & Hscr & HN & Hstart & Hlen & Hend & Hcap) Hleaf.
  pose proof (allocateNode_spec s Harena) as Ha.
  destruct (allocateNode s) as [[e | k] s1] eqn:Ea.
  { destruct Ha as [-> He]. split; [reflexivity |].
    unfold make_leaf. unfold bind at 1. rewrite Ea. reflexivity. }
  destruct Ha as (Hal & Harena1).
  pose proof (scratch_idx_length N s ltac:(lia) Hscr) as Hixlen.
  pose proof (fun p => scratch_idx_range N s p Hscr) as Hrange.
  destruct s as [[ns num cap root mp] os ix cs].
  destruct s1 as [[ns1 num1 cap1 root1 mp1] os1 ix1 cs1].
  destruct Hal as (Hk & Hns1 & Hnum1 & Hroot1 & Hmp1 & Hos1 & Hix1 & Hcs1).
  simpl in *. subst ns1 num1 root1 mp1 os1 ix1 cs1.
  destruct Harena as (Hl & Hle & Hc). simpl in Hl, Hle, Hc.
  assert (Hkn : k = Z.of_nat (length ns)) by lia.
  assert (Hd : nthZ (ns ++ [OBBNode_default]) k = Some OBBNode_default).
  { rewrite Hkn. apply nthZ_app_end. }
  set (n0 := set_num_particles len (set_parent par (set_obb my OBBNode_default))).
  destruct (fill_loop (k + 1) cap1 root os ix cs k start (Z.to_nat len) 0
              (<[Z.to_nat k := n0]> (ns ++ [OBBNode_default])) mp n0)
    as (ps' & mp' & E & Lp & Lm & Hin & Hout & Min & Mout).
  - eapply nthZ_insert_eq, Hd.
  - lia.
  - lia.
  - lia.
  - lia.
  - unfold n0. simpl. rewrite length_replicate. lia.
  - exact Hrange.
  - assert (Lp' : Z.of_nat (length ps') = node_capacity).
    { rewrite Lp. unfold n0. simpl. rewrite length_replicate. lia. }
    exists ps', mp'. split; [| split; [exact Lp' |]].
    + unfold make_leaf. unfold bind at 1. rewrite Ea.
      unfold bind at 1. erewrite write_node_eq by (simpl; exact Hd). simpl.
      unfold bind at 1. erewrite write_node_eq by (simpl; eapply nthZ_insert_eq, Hd). simpl.
      rewrite list_insert_insert_eq.
      unfold bind at 1. erewrite write_node_eq by (simpl; eapply nthZ_insert_eq, Hd). simpl.
      rewrite list_insert_insert_eq.
      unfold set_tree, set_nodes. simpl. fold n0.
      unfold bind at 1. rewrite E. unfold ret.
      rewrite list_insert_insert_eq.
      replace (Z.to_nat k) with (length ns) by lia. rewrite insert_at_end.
      reflexivity.
    + rewrite Z2Nat.id in Hin, Mout by lia.
      replace (start + 0) with start in Mout by lia.
      split; [| exact Mout].
      apply take_eq_segZ; try lia.
      intros j Hj. apply Hin. lia.
Qed.

(** The internal branch up to the two checks. *)
Lemma internal_facts N start len my s k s1 sr s2 :
  build_pre N start len s -> node_capacity < len ->
  allocateNode s = (inr k, s1) ->
  split my start len s1 = (inr sr, s2) ->
  allocated s s1 k /\ arena_ok (tree s1) /\
  0 <= sr <= len /\ 1 <= guard len sr <= len - 1 /\
  tree s2 = tree s1 /\ lockstep start (start + len) s s2 /\
  (len = 2 -> sr = 2 /\ s2 = s1) /\
  (len <> 2 ->
   (forall j o, start <= j < start + sr -> nthZ (obbs s2) j = Some o ->
                proj_negative my o = true) /\
   (forall j o, start + sr <= j < start + len -> nthZ (obbs s2) j = Some o ->
                proj_negative my o = false)).
Proof.
  intros (Harena & Hscr & HN & Hstart & Hlen & Hend & Hcap) Hint Ea Es.
  pose proof Hscr as (Hos & Hcs & Hperm & Hmp).
  pose proof (scratch_idx_length N s ltac:(lia) Hscr) as Hixlen.
  pose proof (allocateNode_spec s Harena) as Ha. rewrite Ea in Ha.
  destruct Ha as (Hal & Harena1).
  pose proof Hal as (Hk & Hns1 & Hnum1 & Hroot1 & Hmp1 & Hos1 & Hix1 & Hcs1).
  destruct (split_rows my start len s1) as (sr0 & s20 & E & Hr & Ht & Hlock & H2 & Hn2);
    try lia.
  { rewrite Hos1. lia. }
  { rewrite Hix1. lia. }
  { rewrite Hcs1. lia. }
  rewrite Es in E. injection E as <- <-.
  split; [exact Hal |]. split; [exact Harena1 |]. split; [exact Hr |].
  split; [apply guard_range; lia |]. split; [exact Ht |].
  split; [| auto].
  eapply lockstep_trans; [| exact Hlock].
  apply lockstep_same; assumption.
Qed.

Lemma run_build_rows N r fuel start len par s out :
  run_build N r fuel start len par s out ->
  lockstep start (start + len) s (snd out) /\
  (len <= node_capacity ->
   idx (snd out) = idx s /\ obbs (snd out) = obbs s /\
   internal_coordinates (snd out) = internal_coordinates s).
Proof.
  induction 1 as
    [ fuel start len par s pts out Hpre Hfuel E0 Hpts Hleaf Eleaf
    | fuel start len par s pts e Hpre Hfuel E0 Hpts Hint Ea
    | fuel start len par s pts k s1 sr s2 e s3 Hpre Hfuel E0 Hpts Hint Ea Es RL IHL
    | fuel start len par s pts k s1 sr s2 kl s3 e s4 Hpre Hfuel E0 Hpts Hint Ea Es
        RL IHL RR IHR
    | fuel start len par s pts k s1 sr s2 kl s3 kr s4 s' Hpre Hfuel E0 Hpts Hint Ea Es
        RL IHL RR IHR Hd Hs' ].
  - clear E0.
    pose proof (make_leaf_eq N start len par (compute_obb pts r) s Hpre Hleaf) as Hm.
    assert (Hsame : idx (snd out) = idx s /\ obbs (snd out) = obbs s /\
                    internal_coordinates (snd out) = internal_coordinates s).
    { destruct (allocateNode s) as [[e | k] s1].
      - destruct Hm as [_ Hm]. rewrite Hm in Eleaf. subst out. simpl. auto.
      - destruct Hm as (ps' & mp' & Hm & _). rewrite Hm in Eleaf. subst out. simpl. auto. }
    split; [| auto]. destruct Hsame as (H1 & H2 & H3). apply lockstep_same; assumption.
  - split; [apply lockstep_refl | intros; lia].
  - split; [| intros; lia].
    destruct (internal_facts _ _ _ _ _ _ _ _ _ Hpre Hint Ea Es)
      as (_ & _ & _ & Hg & _ & Hlock & _).
    eapply lockstep_trans; [exact Hlock |].
    eapply lockstep_widen; [| | apply IHL]; lia.
  - split; [| intros; lia].
    destruct (internal_facts _ _ _ _ _ _ _ _ _ Hpre Hint Ea Es)
      as (_ & _ & _ & Hg & _ & Hlock & _).
    eapply lockstep_trans; [exact Hlock |].
    eapply lockstep_trans.
    + eapply lockstep_widen; [| | apply IHL]; lia.
    + eapply lockstep_widen; [| | apply IHR]; simpl; lia.
  - split; [| intros; lia].
    destruct (internal_facts _ _ _ _ _ _ _ _ _ Hpre Hint Ea Es)
      as (_ & _ & _ & Hg & _ & Hlock & _).
    eapply lockstep_trans; [exact Hlock |].
    eapply lockstep_trans.
    + eapply lockstep_widen; [| | apply IHL]; lia.
    + eapply lockstep_trans.
      * eapply lockstep_widen; [| | apply IHR]; simpl; lia.
      * subst s'. apply lockstep_same; reflexivity.
Qed.

(** ** The capacity of the arena during a build *)

Lemma allocateNode_room s :
  arena_ok (tree s) ->
  m_node_capacity (tree s) <= m_node_capacity (tree (snd (allocateNode s))) /\
  (m_num_nodes (tree s) < m_node_capacity (tree s) ->
   m_node_capacity (tree (snd (allocateNode s))) = m_node_capacity (tree s) /\
   exists k, fst (allocateNode s) = inr k).
Proof.
  intros Harena. pose proof (allocateNode_spec s Harena) as Hspec.
  pose proof Harena as (Hlen & Hle & Hcap).
  assert (Hroom : m_num_nodes (tree s) < m_node_capacity (tree s) ->
                  m_node_capacity (tree (snd (allocateNode s))) = m_node_capacity (tree s) /\
                  exists k, fst (allocateNode s) = inr k).
  { intros Hroom. clear Hspec.
    unfold allocateNode, bind, gets. cbv beta.
    destruct (Z.leb_spec (m_node_capacity (tree s)) (m_num_nodes (tree s))); [lia |].
    unfold ret. cbv beta.
    destruct (Z.ltb_spec (m_num_nodes (tree s)) (m_node_capacity (tree s))); [| lia].
    unfold modify, set_tree. cbn. eauto. }
  split; [| exact Hroom].
  destruct (Z.lt_ge_cases (m_num_nodes (tree s)) (m_node_capacity (tree s)))
    as [Hlt | Hfull].
  - destruct (Hroom Hlt) as [-> _]. lia.
  - destruct (allocateNode s) as [[e | k] s1]; simpl.
    + destruct Hspec as [-> _]. lia.
    + destruct Hspec as ((Hk & _ & Hnum & _) & (_ & Hle1 & _)). lia.
Qed.

Lemma run_build_capacity N r fuel start len par s out :
  run_build N r fuel start len par s out ->
  m_node_capacity (tree s) <= m_node_capacity (tree (snd out)) /\
  (forall k, fst out = inr k ->
     m_num_nodes (tree (snd out)) <= m_num_nodes (tree s) + 2 * len - 1) /\
  (m_num_nodes (tree s) + 2 * len - 1 <= m_node_capacity (tree s) ->
   m_node_capacity (tree (snd out)) = m_node_capacity (tree s) /\
   exists k, fst out = inr k).
Proof.
  induction 1 as
    [ fuel start len par s pts out Hpre Hfuel E0 Hpts Hleaf Eleaf
    | fuel start len par s pts e Hpre Hfuel E0 Hpts Hint Ea
    | fuel start len par s pts k s1 sr s2 e s3 Hpre Hfuel E0 Hpts Hint Ea Es RL IHL
    | fuel start len par s pts k s1 sr s2 kl s3 e s4 Hpre Hfuel E0 Hpts Hint Ea Es
        RL IHL RR IHR
    | fuel start len par s pts k s1 sr s2 kl s3 kr s4 s' Hpre Hfuel E0 Hpts Hint Ea Es
        RL IHL RR IHR Hd Hs' ];
    pose proof Hpre as (Harena & _ & _ & _ & Hlen & _);
    pose proof (allocateNode_room s Harena) as (Hmono & Hroom);
    pose proof (allocateNode_spec s Harena) as Hspec.
  - clear E0.
    pose proof (make_leaf_eq N start len par (compute_obb pts r) s Hpre Hleaf) as Hm.
    destruct (allocateNode s) as [[e | k] s1].
    + destruct Hm as [_ Hm]. rewrite Hm in Eleaf. subst out. simpl in *.
      split; [lia |]. split; [intros k; discriminate |].
      intros Hr. destruct (Hroom ltac:(lia)) as [_ [k Hk]]. discriminate.
    + destruct Hm as (ps' & mp' & Hm & _). rewrite Hm in Eleaf. subst out. simpl in *.
      destruct Hspec as ((Hk & _ & Hnum & _) & _).
      split; [lia |]. split; [intros _ _; lia |].
      intros Hr. destruct (Hroom ltac:(lia)) as [Hc _]. eauto.
  - rewrite Ea in Hroom. simpl in *.
    split; [lia |]. split; [intros k; discriminate |].
    intros Hr. destruct (Hroom ltac:(lia)) as [_ [k Hk]]. discriminate.
  - destruct (internal_facts _ _ _ _ _ _ _ _ _ Hpre Hint Ea Es)
      as ((Hk & _ & Hnum & _) & _ & _ & Hg & Ht & _).
    rewrite Ea in Hroom, Hmono. rewrite Ht in IHL. simpl in *.
    destruct IHL as (IL1 & IL2 & IL3).
    split; [lia |]. split; [intros k'; discriminate |].
    intros Hr. destruct (Hroom ltac:(lia)) as [Hc _].
    destruct IL3 as [_ [k' Hk']]; [lia | discriminate].
  - destruct (internal_facts _ _ _ _ _ _ _ _ _ Hpre Hint Ea Es)
      as ((Hk & _ & Hnum & _) & _ & _ & Hg & Ht & _).
    rewrite Ea in Hroom, Hmono. rewrite Ht in IHL. simpl in *.
    destruct IHL as (IL1 & IL2 & IL3). destruct IHR as (IR1 & IR2 & IR3).
    specialize (IL2 kl eq_refl).
    split; [lia |]. split; [intros k'; discriminate |].
    intros Hr. destruct (Hroom ltac:(lia)) as [Hc _].
    destruct IL3 as [Hc3 _]; [lia |].
    destruct IR3 as [_ [k' Hk']]; [lia | discriminate].
  - destruct (internal_facts _ _ _ _ _ _ _ _ _ Hpre Hint Ea Es)
      as ((Hk & _ & Hnum & _) & _ & _ & Hg & Ht & _).
    rewrite Ea in Hroom, Hmono. rewrite Ht in IHL. subst s'. simpl in *.
    destruct IHL as (IL1 & IL2 & IL3). destruct IHR as (IR1 & IR2 & IR3).
    specialize (IL2 kl eq_refl). specialize (IR2 kr eq_refl).
    split; [lia |]. split; [intros _ _; lia |].
    intros Hr. destruct (Hroom ltac:(lia)) as [Hc _].
    destruct IL3 as [Hc3 _]; [lia |].
    destruct IR3 as [Hc4 _]; [lia |].
    split; [lia | eauto].
Qed.

(** ** What a node is fitted to *)

Lemma fitted_ext os0 cs0 r ns ns' T : forall k,
  (forall j, k <= j < k + size T -> nthZ ns' j = nthZ ns j) ->
  fitted os0 cs0 r ns k T -> fitted os0 cs0 r ns' k T.
Proof.
  induction T as [ps | l IHl r' IHr]; intros k Hext H; simpl in *.
  - destruct H as (n & pts & Hn & H). exists n, pts. rewrite Hext by lia. auto.
  - destruct H as (n & ps & pts & Hn & H1 & H2 & H3 & H4 & H5 & H6 & Hl & Hr).
    pose proof (size_pos l). pose proof (size_pos r').
    exists n, ps, pts. rewrite Hext by lia.
    split; [exact Hn |]. split; [exact H1 |]. split; [exact H2 |].
    split; [exact H3 |]. split; [exact H4 |]. split; [exact H5 |].
    split; [exact H6 |]. split.
    + apply IHl; [| exact Hl]. intros j Hj. apply Hext. lia.
    + apply IHr; [| exact Hr]. intros j Hj. apply Hext. lia.
Qed.

Lemma gather_concat (coords : list (list vec3)) n : forall i pts,
  0 <= i -> i + Z.of_nat n < 2 ^ 32 ->
  gather n i coords = Some pts ->
  pts = concat (segZ coords i (Z.of_nat n)).
Proof.
  induction n as [| n IH]; intros i pts Hi Hlt H.
  - simpl in H. injection H as <-. reflexivity.
  - simpl in H. destruct (nthZ coords i) as [c |] eqn:Hc; [| discriminate].
    rewrite u32_small in H by lia.
    destruct (gather n (i + 1) coords) as [rest |] eqn:Hrest; [| discriminate].
    injection H as <-. rewrite (segZ_cons coords i n c) by (lia || assumption).
    simpl. f_equal. apply IH; [lia | lia | exact Hrest].
Qed.

Lemma tagged_verts os0 cs0 N s start len pts :
  tagged os0 cs0 N s ->
  0 <= start -> 0 <= len -> start + len <= N -> N < 2 ^ 32 ->
  N <= Z.of_nat (length (idx s)) ->
  N <= Z.of_nat (length (internal_coordinates s)) ->
  gather (Z.to_nat len) start (internal_coordinates s) = Some pts ->
  verts cs0 (segZ (idx s) start len) pts.
Proof.
  intros Ht Hs Hl Hend HN Hix Hcs Hg.
  apply gather_concat in Hg; [| lia | lia]. rewrite Z2Nat.id in Hg by lia.
  exists (segZ (internal_coordinates s) start len). split; [| exact Hg].
  apply Forall2_same_length_lookup_2.
  - apply Nat2Z.inj. rewrite !segZ_length by lia. reflexivity.
  - intros i p c Hp Hc.
    assert (Hi : (i < Z.to_nat len)%nat).
    { apply lookup_lt_Some in Hp. pose proof (segZ_length (idx s) start len). lia. }
    pose proof (segZ_lookup (idx s) start len (Z.of_nat i) ltac:(lia) ltac:(lia)) as E1.
    pose proof (segZ_lookup (internal_coordinates s) start len (Z.of_nat i)
                  ltac:(lia) ltac:(lia)) as E2.
    rewrite nthZ_lookup, Nat2Z.id in E1 by lia.
    rewrite nthZ_lookup, Nat2Z.id in E2 by lia.
    rewrite Hp in E1. rewrite Hc in E2.
    destruct (Ht (start + Z.of_nat i) ltac:(lia)) as (p' & P1 & _ & P3).
    rewrite <- E1 in P1. injection P1 as <-. rewrite <- P3. auto.
Qed.

Lemma segZ_split {A} (l : list A) start len :
  0 <= start -> 0 <= len -> start + len <= Z.of_nat (length l) ->
  l = segZ l 0 start ++ segZ l start len ++
      segZ l (start + len) (Z.of_nat (length l) - (start + len)).
Proof.
  intros Hs Hl Hend. rewrite <- (segZ_all l) at 1.
  replace (Z.of_nat (length l))
    with (start + (len + (Z.of_nat (length l) - (start + len)))) at 1 by lia.
  rewrite segZ_app by lia. rewrite Z.add_0_l. f_equal.
  apply segZ_app; lia.
Qed.

Lemma segZ_Permutation {A} (l l' : list A) start len :
  l' ≡ₚ l -> 0 <= start -> 0 <= len -> start + len <= Z.of_nat (length l) ->
  (forall j, ~ (start <= j < start + len) -> nthZ l' j = nthZ l j) ->
  segZ l' start len ≡ₚ segZ l start len.
Proof.
  intros Hp Hs Hl Hend Hout.
  pose proof (Permutation_length Hp) as Hlen.
  pose proof (segZ_split l start len Hs Hl Hend) as E.
  pose proof (segZ_split l' start len Hs Hl ltac:(lia)) as E'.
  rewrite Hlen in E'.
  assert (H0 : segZ l' 0 start = segZ l 0 start).
  { apply segZ_ext; try lia. intros j Hj. apply Hout. lia. }
  assert (H1 : segZ l' (start + len) (Z.of_nat (length l) - (start + len)) =
               segZ l (start + len) (Z.of_nat (length l) - (start + len))).
  { apply segZ_ext; try lia. intros j Hj. apply Hout. lia. }
  rewrite H0, H1 in E'. rewrite E, E' in Hp at 1.
  apply Permutation_app_inv_l in Hp. apply Permutation_app_inv_r in Hp. exact Hp.
Qed.

Lemma tagged_side os0 cs0 N s (P : OBB -> bool) (v : bool) lo hi :
  tagged os0 cs0 N s -> 0 <= lo -> hi <= N ->
  N <= Z.of_nat (length (obbs s)) ->
  (forall j o, lo <= j < hi -> nthZ (obbs s) j = Some o -> P o = v) ->
  forall j p, lo <= j < hi -> nthZ (idx s) j = Some p ->
              exists o, nthZ os0 p = Some o /\ P o = v.
Proof.
  intros Ht Hlo Hhi Hos Hside j p Hj Hp.
  destruct (Ht j ltac:(lia)) as (p' & P1 & P2 & _).
  assert (p' = p) as -> by congruence.
  destruct (nthZ_is_Some (obbs s) j) as [o Ho]; [lia |].
  exists o. split; [congruence |]. eapply Hside; eauto.
Qed.

Lemma guard_cases len sr :
  2 <= len < 2 ^ 32 -> 0 <= sr <= len ->
  (sr = len /\ guard len sr = len - 1) \/
  (sr = 0 /\ guard len sr = 1) \/
  (0 < sr < len /\ guard len sr = sr).
Proof.
  intros Hlen Hsr. unfold guard.
  destruct (Z.eqb_spec sr len) as [-> | Hne].
  - left. rewrite u32_small by lia. destruct (Z.eqb_spec (len - 1) 0); [lia | auto].
  - right. destruct (Z.eqb_spec sr 0) as [-> | Hz]; [left; auto | right; lia].
Qed.

Lemma run_build_fitted N r os0 cs0 fuel start len par s out :
  run_build N r fuel start len par s out ->
  forall k s', out = (inr k, s') ->
  tagged os0 cs0 N s ->
  exists T, repr (m_nodes (tree s')) k par T /\
            m_num_nodes (tree s') = k + size T /\
            flat T = segZ (idx s') start len /\
            fitted os0 cs0 r (m_nodes (tree s')) k T.
Proof.
  induction 1 as
    [ fuel start len par s pts out Hpre Hfuel E0 Hpts Hleaf Eleaf
    | fuel start len par s pts e Hpre Hfuel E0 Hpts Hint Ea
    | fuel start len par s pts k s1 sr s2 e s3 Hpre Hfuel E0 Hpts Hint Ea Es RL IHL
    | fuel start len par s pts k s1 sr s2 kl s3 e s4 Hpre Hfuel E0 Hpts Hint Ea Es
        RL IHL RR IHR
    | fuel start len par s pts k s1 sr s2 kl s3 kr s4 s' Hpre Hfuel E0 Hpts Hint Ea Es
        RL IHL RR IHR Hd Hs' ];
    intros k0 s0' Eo Htag; try discriminate;
    pose proof Hpre as (Harena & Hscr & HN & Hstart & Hlen & Hend & Hcap);
    pose proof Hscr as (Hos & Hcs & Hperm & Hmp);
    pose proof (scratch_idx_length N s ltac:(lia) Hscr) as Hixlen.
  - (* a leaf *)
    clear E0. subst out.
    pose proof (make_leaf_eq N start len par (compute_obb pts r) s Hpre Hleaf) as Hm.
    pose proof (allocateNode_spec s Harena) as Hspec.
    destruct (allocateNode s) as [[e | k] s1].
    { destruct Hm as [_ Hm]. rewrite Hm in Eo. discriminate. }
    destruct Hm as (ps' & mp' & Hm & Lp & Htake & _).
    rewrite Hm in Eo. injection Eo as <- <-.
    destruct Hspec as ((Hk & _ & Hnum & _) & _).
    destruct Harena as (Hl & _).
    set (n := set_particles ps'
                (set_num_particles len
                   (set_parent par (set_obb (compute_obb pts r) OBBNode_default)))).
    assert (Hn : nthZ (m_nodes (tree s) ++ [n]) k = Some n).
    { replace k with (Z.of_nat (length (m_nodes (tree s)))) by lia. apply nthZ_app_end. }
    exists (SLeaf (segZ (idx s) start len)).
    cbn [tree m_nodes m_num_nodes idx size flat repr fitted].
    split.
    { exists n. split; [exact Hn |]. split; [reflexivity |]. split; [reflexivity |].
      split; [reflexivity |]. split; [exact Htake |].
      unfold n. cbn [num_particles particles set_particles set_num_particles]. lia. }
    split; [lia |]. split; [reflexivity |].
    exists n, pts. split; [exact Hn |]. split; [reflexivity |].
    unfold n. cbn [num_particles particles set_particles set_num_particles obb set_obb
                   set_parent].
    split; [rewrite segZ_length by lia; reflexivity |].
    split; [lia |]. split; [exact Lp |].
    split; [eapply tagged_verts; eauto; lia | reflexivity].
  - (* an internal node *)
    injection Eo as <- <-.
    destruct (internal_facts _ _ _ _ _ _ _ _ _ Hpre Hint Ea Es)
      as (Hal & Harena1 & Hsr & Hg & Ht2 & Hlock2 & Hlen2 & Hside).
    pose proof (guard_cases len sr ltac:(lia) Hsr) as Hgc.
    set (g := guard len sr) in *.
    pose proof (run_build_inv _ _ _ _ _ _ _ _ RL) as (Hpre2 & _ & _).
    pose proof (run_build_inv _ _ _ _ _ _ _ _ RR) as (Hpre3 & _ & _).
    pose proof (run_build_built _ _ _ _ _ _ _ _ _ RL) as BL.
    pose proof (run_build_built _ _ _ _ _ _ _ _ _ RR) as BR.
    assert (Htag2 : tagged os0 cs0 N s2).
    { eapply lockstep_tagged; [| | exact Hlock2 | exact Htag]; lia. }
    pose proof (run_build_rows _ _ _ _ _ _ _ _ RL) as [LockL _]. simpl in LockL.
    assert (Htag3 : tagged os0 cs0 N s3).
    { eapply lockstep_tagged; [| | exact LockL | exact Htag2]; lia. }
    destruct (IHL kl s3 eq_refl Htag2) as (Tl & HreprL & HnumL & HflatL & HfitL).
    destruct (IHR kr s4 eq_refl Htag3) as (Tr & HreprR & HnumR & HflatR & HfitR).
    destruct BL as (Hkl & Harena3 & Hscr3 & _ & _ & (newL & HnewL) & Fix3 & _).
    destruct BR as (Hkr & Harena4 & Hscr4 & _ & _ & (newR & HnewR) & Fix4 & _).
    pose proof (buildNode_spec N r (S fuel) start len par s Hpre Hfuel) as BW.
    rewrite E0 in BW.
    destruct BW as (_ & Harena' & Hscr' & _ & _ & _ & FixW & _).
    destruct Hal as (Hk & Hns1 & Hnum1 & _).
    pose proof Hpre2 as (_ & Hscr2 & _).
    pose proof (size_pos Tl) as HsizeL. pose proof (size_pos Tr) as HsizeR.
    pose proof (scratch_idx_length N s2 ltac:(lia) Hscr2) as Hixlen2.
    pose proof (scratch_idx_length N s3 ltac:(lia) Hscr3) as Hixlen3.
    pose proof (scratch_idx_length N s4 ltac:(lia) Hscr4) as Hixlen4.
    assert (Hk0 : 0 <= k) by (destruct Harena as (Hl & _); lia).
    assert (Hkl' : kl = k + 1) by (rewrite Hkl, Ht2; lia).
    assert (Hkr' : kr = k + 1 + size Tl) by lia.
    assert (Hidx' : idx s' = idx s4) by (subst s'; reflexivity).
    assert (Hnodes' : m_nodes (tree s') =
                      <[Z.to_nat k := connected (compute_obb pts r) par kl kr]>
                        (m_nodes (tree s4))) by (subst s'; reflexivity).
    assert (Hnum' : m_num_nodes (tree s') = m_num_nodes (tree s4))
      by (subst s'; reflexivity).
    assert (Hseg34 : segZ (idx s4) start g = segZ (idx s3) start g).
    { apply segZ_ext; try lia. intros j Hj. apply Fix4. lia. }
    assert (Hflat : flat Tl ++ flat Tr = segZ (idx s4) start len).
    { rewrite HflatL, HflatR, <- Hseg34, <- segZ_app by lia. f_equal. lia. }
    assert (Hext : forall j, k + 1 <= j ->
              nthZ (<[Z.to_nat k := connected (compute_obb pts r) par kl kr]>
                      (m_nodes (tree s4))) j = nthZ (m_nodes (tree s4)) j).
    { intros j Hj. apply nthZ_insert_ne; lia. }
    exists (SNode Tl Tr). rewrite Hnodes', Hnum', Hidx'.
    cbn [size flat repr fitted].
    split.
    { exists (connected (compute_obb pts r) par kl kr).
      split; [eapply nthZ_insert_eq, Hd |].
      split; [exact Hkl' |]. split; [exact Hkr' |]. split; [reflexivity |]. split.
      - apply repr_insert; [lia | lia |]. rewrite HnewR. apply repr_app.
        rewrite <- Hkl'. exact HreprL.
      - apply repr_insert; [lia | lia |]. rewrite <- Hkr'. exact HreprR. }
    split; [lia |]. split; [exact Hflat |].
    exists (connected (compute_obb pts r) par kl kr), (segZ (idx s) start len), pts.
    split; [eapply nthZ_insert_eq, Hd |]. split; [reflexivity |].
    split. { rewrite Hflat, segZ_length by lia. lia. }
    split.
    { rewrite Hflat. symmetry. apply segZ_Permutation; try lia.
      - destruct Hscr4 as (_ & _ & P4 & _). rewrite P4, Hperm. reflexivity.
      - rewrite <- Hidx'. exact FixW. }
    split; [eapply tagged_verts; eauto; lia |].
    split; [reflexivity |].
    split.
    { (* the two sides *)
      change (obb (connected (compute_obb pts r) par kl kr)) with (compute_obb pts r).
      assert (HL : forall p, p ∈ flat Tl ->
                exists j, start <= j < start + g /\ nthZ (idx s2) j = Some p).
      { intros p Hp. rewrite HflatL in Hp.
        apply segZ_elem_of; [lia | lia |].
        rewrite <- (segZ_Permutation (idx s2) (idx s3) start g); auto; try lia.
        destruct Hscr3 as (_ & _ & P3 & _). destruct Hscr2 as (_ & _ & P2 & _).
        rewrite P3, P2. reflexivity. }
      assert (HR : forall p, p ∈ flat Tr ->
                exists j, start + g <= j < start + len /\ nthZ (idx s2) j = Some p).
      { intros p Hp. rewrite HflatR in Hp.
        rewrite (segZ_Permutation (idx s3) (idx s4) (start + g) (len - g)) in Hp;
          auto; try lia.
        - apply segZ_elem_of in Hp as (j & Hj & Ej); [| lia | lia].
          exists j. split; [lia |]. rewrite <- Fix3 by lia. exact Ej.
        - destruct Hscr4 as (_ & _ & P4 & _). destruct Hscr3 as (_ & _ & P3 & _).
          rewrite P4, P3. reflexivity. }
      assert (HlenL : length (flat Tl) = Z.to_nat g).
      { rewrite HflatL. apply Nat2Z.inj. rewrite segZ_length by lia. lia. }
      assert (HlenR : length (flat Tr) = Z.to_nat (len - g)).
      { rewrite HflatR. apply Nat2Z.inj. rewrite segZ_length by lia. lia. }
      unfold split_ok. rewrite length_app, HlenL, HlenR.
      destruct (Z.eqb_spec (Z.of_nat (Z.to_nat g + Z.to_nat (len - g))) 2) as [H2 | H2].
      - assert (len = 2) by lia. split; lia.
      - assert (Hne : len <> 2) by lia.
        destruct (Hside Hne) as [Hneg Hpos].
        pose proof Hpre2 as (_ & (Hos2 & _) & _).
        pose proof (tagged_side os0 cs0 N s2 (proj_negative (compute_obb pts r)) true
                      start (start + sr) Htag2 ltac:(lia) ltac:(lia) Hos2 Hneg) as Sneg.
        pose proof (tagged_side os0 cs0 N s2 (proj_negative (compute_obb pts r)) false
                      (start + sr) (start + len) Htag2 ltac:(lia) ltac:(lia) Hos2 Hpos)
          as Spos.
        destruct Hgc as [[Hs1 Hg1] | [[Hs0 Hg0] | [Hmid Hgm]]].
        + right. left. split; [| lia].
          intros p Hp. apply elem_of_app in Hp as [Hp | Hp].
          * destruct (HL p Hp) as (j & Hj & Ej). apply (Sneg j); [lia | exact Ej].
          * destruct (HR p Hp) as (j & Hj & Ej). apply (Sneg j); [lia | exact Ej].
        + right. right. split; [| lia].
          intros p Hp. apply elem_of_app in Hp as [Hp | Hp].
          * destruct (HL p Hp) as (j & Hj & Ej). apply (Spos j); [lia | exact Ej].
          * destruct (HR p Hp) as (j & Hj & Ej). apply (Spos j); [lia | exact Ej].
        + left. split.
          * intros p Hp. destruct (HL p Hp) as (j & Hj & Ej).
            apply (Sneg j); [lia | exact Ej].
          * intros p Hp. destruct (HR p Hp) as (j & Hj & Ej).
            apply (Spos j); [lia | exact Ej]. }
    split.
    + eapply fitted_ext; [| rewrite <- Hkl'; exact HfitL].
      intros j Hj. rewrite Hext by lia. rewrite HnewR.
      apply nthZ_app_lt. destruct Harena3 as (Hl3 & _). lia.
    + eapply fitted_ext; [| rewrite <- Hkr'; exact HfitR].
      intros j Hj. apply Hext. lia.
Qed.

(** ** The whole build *)

Lemma skip_only_fields (n n' : OBBNode) :
  skip_only n n' ->
  obb n' = obb n /\ left n' = left n /\ right n' = right n /\
  parent n' = parent n /\ particles n' = particles n /\
  num_particles n' = num_particles n.
Proof. intros [H _]. rewrite <- H. destruct n'. simpl. auto 7. Qed.

Lemma skip_only_nth ns ns' k n :
  Forall2 skip_only ns ns' -> nthZ ns k = Some n ->
  exists n', nthZ ns' k = Some n' /\ skip_only n n'.
Proof.
  intros HF Hn. pose proof (nthZ_Some _ _ _ Hn) as [Hk Hl].
  destruct (Forall2_lookup_l _ _ _ _ _ HF Hl) as (n' & Hn' & Hs).
  exists n'. split; [rewrite nthZ_lookup by lia; exact Hn' | exact Hs].
Qed.

Lemma fitted_skip_only os0 cs0 r ns ns' T : forall k,
  Forall2 skip_only ns ns' -> fitted os0 cs0 r ns k T -> fitted os0 cs0 r ns' k T.
Proof.
  induction T as [ps | l IHl r' IHr]; intros k HF H; simpl in *.
  - destruct H as (n & pts & Hn & H1 & H2 & H3 & H4 & H5 & H6).
    destruct (skip_only_nth _ _ _ _ HF Hn) as (n' & Hn' & Hs).
    destruct (skip_only_fields _ _ Hs) as (E0 & _ & E2 & _ & E4 & E5).
    exists n', pts. rewrite E0, E2, E4, E5. auto 8.
  - destruct H as (n & ps & pts & Hn & H1 & H2 & H3 & H4 & H5 & H6 & Hl & Hr).
    destruct (skip_only_nth _ _ _ _ HF Hn) as (n' & Hn' & Hs).
    destruct (skip_only_fields _ _ Hs) as (E0 & _ & _ & _ & _ & E5).
    exists n', ps, pts. rewrite E0, E5.
    split; [exact Hn' |]. split; [exact H1 |]. split; [exact H2 |].
    split; [exact H3 |]. split; [exact H4 |]. split; [exact H5 |].
    split; [exact H6 |]. split; auto.
Qed.

Lemma fitted_size os0 cs0 r ns T : forall k,
  fitted os0 cs0 r ns k T -> size T <= 2 * Z.of_nat (length (flat T)) - 1.
Proof.
  induction T as [ps | l IHl r' IHr]; intros k H; simpl in *.
  - destruct H as (n & pts & _ & _ & H2 & H3 & _). lia.
  - destruct H as (n & ps & pts & _ & _ & _ & _ & _ & _ & _ & Hl & Hr).
    apply IHl in Hl. apply IHr in Hr. rewrite length_app. lia.
Qed.

(** The state in which [buildNode] is called. *)
Lemma build_from_start N s0 :
  is_u32 (m_node_capacity (tree s0)) ->
  1 <= N < 2 ^ 32 ->
  N <= Z.of_nat (length (obbs s0)) ->
  N <= Z.of_nat (length (internal_coordinates s0)) ->
  1 <= node_capacity ->
  exists s1,
    s1 = mkSt (mkTree [] 0 (m_node_capacity (tree s0)) OBB_INVALID_NODE
                      (replicate (Z.to_nat N) OBB_INVALID_NODE))
              (obbs s0) (seqZ 0 N) (internal_coordinates s0) /\
    build_pre N 0 N s1 /\
    tagged (obbs s0) (internal_coordinates s0) N s1.
Proof.
  intros Hcap HN Hos Hcs Hnc. eexists. split; [reflexivity |]. split.
  - unfold build_pre, arena_ok, scratch_ok. simpl.
    rewrite length_replicate. unfold is_u32 in Hcap.
    repeat split; auto; try lia.
  - intros j Hj. exists j. simpl. split; [| auto].
    rewrite nthZ_lookup by lia. rewrite lookup_seqZ. split; [f_equal |]; lia.
Qed.

Local Opaque updateSkip buildNode.

Lemma build_from_unfold r N s0 :
  build_from r N s0 =
  match buildNode (S (Z.to_nat N)) r 0 N OBB_INVALID_NODE
          (mkSt (mkTree [] 0 (m_node_capacity (tree s0)) OBB_INVALID_NODE
                        (replicate (Z.to_nat N) OBB_INVALID_NODE))
                (obbs s0) (seqZ 0 N) (internal_coordinates s0)) with
  | (inr root, s2) =>
      match updateSkip (S (Z.to_nat (m_num_nodes (tree s2)))) root
              (snd (set_root root s2)) with
      | (inr _, s3) => (inr tt, s3)
      | (inl e, s3) => (inl e, s3)
      end
  | (inl e, s2) => (inl e, s2)
  end.
Proof.
  unfold build_from. unfold bind at 1, init, modify at 1. unfold bind at 1, modify at 1.
  unfold set_tree. cbn [tree obbs idx internal_coordinates].
  unfold bind at 1.
  destruct (buildNode _ _ _ _ _ _) as [[e | k] s2]; [reflexivity |].
  unfold bind at 1, set_root, modify at 1. unfold bind at 1, gets at 1.
  cbn [tree m_num_nodes snd]. unfold set_tree. cbn [tree m_num_nodes].
  unfold bind at 1.
  destruct (updateSkip _ _ _) as [[e | u] s3]; reflexivity.
Qed.

Lemma build_from_more r N s0 :
  is_u32 (m_node_capacity (tree s0)) ->
  1 <= N < 2 ^ 32 ->
  N <= Z.of_nat (length (obbs s0)) ->
  N <= Z.of_nat (length (internal_coordinates s0)) ->
  1 <= node_capacity ->
  lockstep 0 N (mkSt (tree s0) (obbs s0) (seqZ 0 N) (internal_coordinates s0))
           (snd (build_from r N s0)) /\
  m_node_capacity (tree s0) <= m_node_capacity (tree (snd (build_from r N s0))) /\
  (2 * N - 1 <= m_node_capacity (tree s0) ->
   fst (build_from r N s0) = inr tt /\
   m_node_capacity (tree (snd (build_from r N s0))) = m_node_capacity (tree s0)) /\
  (fst (build_from r N s0) = inr tt ->
   exists T,
     repr (m_nodes (tree (snd (build_from r N s0)))) 0 OBB_INVALID_NODE T /\
     skips (m_nodes (tree (snd (build_from r N s0)))) 0 T /\
     m_num_nodes (tree (snd (build_from r N s0))) = size T /\
     flat T = idx (snd (build_from r N s0)) /\
     fitted (obbs s0) (internal_coordinates s0) r
            (m_nodes (tree (snd (build_from r N s0)))) 0 T /\
     (N <= node_capacity -> idx (snd (build_from r N s0)) = seqZ 0 N)).
Proof.
  intros Hcap HN Hos Hcs Hnc.
  destruct (build_from_start N s0 Hcap HN Hos Hcs Hnc) as (s1 & Es1 & Hpre & Htag).
  pose proof (buildNode_runs N r (S (Z.to_nat N)) 0 N OBB_INVALID_NODE s1 Hpre ltac:(lia))
    as Hrun.
  pose proof (run_build_rows _ _ _ _ _ _ _ _ Hrun) as [Hlock Hsame].
  pose proof (run_build_capacity _ _ _ _ _ _ _ _ Hrun) as (Hmono & Hcount & Hroom).
  pose proof (run_build_fitted N r (obbs s0) (internal_coordinates s0)
                _ _ _ _ _ _ Hrun) as Hfit.
  pose proof (buildNode_spec N r (S (Z.to_nat N)) 0 N OBB_INVALID_NODE s1 Hpre ltac:(lia))
    as Hb.
  assert (Hlock0 : forall s',
            lockstep 0 (0 + N) s1 s' ->
            lockstep 0 N (mkSt (tree s0) (obbs s0) (seqZ 0 N) (internal_coordinates s0)) s').
  { intros s' H. rewrite Z.add_0_l in H. rewrite Es1 in H. exact H. }
  assert (Hcap1 : m_node_capacity (tree s1) = m_node_capacity (tree s0))
    by (rewrite Es1; reflexivity).
  assert (Hnum1 : m_num_nodes (tree s1) = 0) by (rewrite Es1; reflexivity).
  assert (Hidx1 : idx s1 = seqZ 0 N) by (rewrite Es1; reflexivity).
  pose proof (build_from_unfold r N s0) as Hunf. rewrite <- Es1 in Hunf.
  rewrite Hunf. clear Hunf.
  destruct (buildNode (S (Z.to_nat N)) r 0 N OBB_INVALID_NODE s1) as [[e | k] s2].
  { cbn [fst snd] in *. split; [auto |]. split; [lia |].
    split; [| discriminate].
    intros Hr. destruct Hroom as [_ [k Hk]]; [lia | discriminate]. }
  cbn [fst snd] in Hlock, Hsame, Hmono, Hcount, Hroom.
  destruct (Hfit k s2 eq_refl Htag) as (T & Hrepr & Hnum & Hflat & Hfitted).
  destruct Hb as (Hk & Harena2 & Hscr2 & _).
  rewrite Hnum1 in Hk. subst k.
  pose proof (scratch_idx_length N s2 ltac:(lia) Hscr2) as Hixlen.
  pose proof (updateSkip_skips_only (S (Z.to_nat (m_num_nodes (tree s2)))) 0
                (snd (set_root 0 s2))) as Hso.
  destruct Harena2 as (Hl & Hle & Hc).
  destruct (updateSkip_spec (m_num_nodes (tree s2)) (m_node_capacity (tree s2)) 0
              (m_mapping (tree s2)) (obbs s2) (idx s2) (internal_coordinates s2) T
              (S (Z.to_nat (m_num_nodes (tree s2)))) 0 OBB_INVALID_NODE
              (m_nodes (tree s2)) Hrepr ltac:(lia) ltac:(lia))
    as (ns' & E & L' & _ & _ & R' & S').
  assert (Eroot : snd (set_root 0 s2) =
                  mkSt (mkTree (m_nodes (tree s2)) (m_num_nodes (tree s2))
                               (m_node_capacity (tree s2)) 0 (m_mapping (tree s2)))
                       (obbs s2) (idx s2) (internal_coordinates s2)) by reflexivity.
  rewrite Eroot in Hso |- *. rewrite E in Hso |- *. cbn [fst snd] in Hso |- *.
  destruct Hso as (So & Si & Sc & _ & _ & _ & _ & SF).
  cbn [tree obbs idx internal_coordinates m_nodes m_num_nodes m_node_capacity] in *.
  split.
  { apply Hlock0. eapply lockstep_trans; [exact Hlock |].
    apply lockstep_same; reflexivity. }
  split; [lia |].
  split.
  { intros Hr. destruct Hroom as [Hc2 _]; [lia |]. split; [reflexivity | lia]. }
  intros _. exists T.
  split; [exact R' |]. split; [exact S' |]. split; [lia |].
  split. { rewrite Hflat. rewrite <- Hixlen at 1. apply segZ_all. }
  split. { eapply fitted_skip_only; [exact SF | exact Hfitted]. }
  intros Hle'. destruct (Hsame Hle') as (Hi & _). congruence.
Qed.

Local Transparent updateSkip buildNode.

(** ** Node by node *)

Lemma fitted_sub os0 cs0 r ns T : forall a par k,
  repr ns a par T -> skips ns a T -> fitted os0 cs0 r ns a T ->
  a <= k < a + size T ->
  exists par' T', repr ns k par' T' /\ skips ns k T' /\ fitted os0 cs0 r ns k T' /\
                  k + size T' <= a + size T.
Proof.
  induction T as [ps | l IHl r' IHr]; intros a par k Hrepr Hskips Hfit Hk.
  - simpl in Hk. assert (k = a) as -> by lia. exists par, (SLeaf ps). auto with zarith.
  - destruct (Z.eq_dec k a) as [-> | Hne].
    { exists par, (SNode l r'). auto with zarith. }
    pose proof (size_pos l). pose proof (size_pos r').
    simpl in Hrepr, Hskips, Hfit, Hk.
    destruct Hrepr as (n & Hn & _ & _ & _ & Hl & Hr).
    destruct Hskips as (_ & Sl & Sr).
    destruct Hfit as (n' & ps & pts & _ & _ & _ & _ & _ & _ & _ & Fl & Fr).
    destruct (Z.lt_ge_cases k (a + 1 + size l)) as [Hlt | Hge].
    + destruct (IHl (a + 1) a k Hl Sl Fl ltac:(lia)) as (par' & T' & H1 & H2 & H3 & H4).
      exists par', T'. simpl. repeat split; auto. lia.
    + destruct (IHr (a + 1 + size l) a k Hr Sr Fr ltac:(lia))
        as (par' & T' & H1 & H2 & H3 & H4).
      exists par', T'. simpl. repeat split; auto. lia.
Qed.

Lemma below_flat t T k par :
  repr (m_nodes t) k par T -> skips (m_nodes t) k T ->
  Z.of_nat (length (m_nodes t)) < 2 ^ 32 ->
  below t k = flat T.
Proof.
  intros Hrepr Hskips Hlen.
  assert (exists n, nthZ (m_nodes t) k = Some n) as [n Hn].
  { destruct T; simpl in Hrepr; destruct Hrepr as (n & Hn & _); eauto. }
  destruct (repr_root _ _ _ _ _ Hrepr Hskips Hlen Hn) as [Hskip _].
  unfold below. rewrite Hn. replace (skip n + 1) with (size T) by lia.
  eapply leaf_particles_flat; eauto.
Qed.

(** What the shape says about the node at [k]. *)
Lemma fitted_node os0 cs0 r t T k :
  repr (m_nodes t) 0 OBB_INVALID_NODE T -> skips (m_nodes t) 0 T ->
  fitted os0 cs0 r (m_nodes t) 0 T ->
  m_num_nodes t = size T -> Z.of_nat (length (m_nodes t)) < 2 ^ 32 ->
  0 <= k < m_num_nodes t ->
  exists n ps pts,
    nthZ (m_nodes t) k = Some n /\
    ps ≡ₚ below t k /\ (isNodeLeaf n = true -> ps = stored n) /\
    verts cs0 ps pts /\ obb n = compute_obb pts r /\
    if isNodeLeaf n
    then right n = OBB_INVALID_NODE /\ 1 <= num_particles n <= node_capacity /\
         Z.of_nat (length (particles n)) = node_capacity /\
         below t k = stored n
    else num_particles n = 0 /\
         node_capacity < Z.of_nat (length (below t k)) /\
         k < left n < right n /\ right n < m_num_nodes t /\
         below t k = below t (left n) ++ below t (right n) /\
         below t (left n) <> [] /\ below t (right n) <> [] /\
         split_ok os0 (obb n) (below t (left n)) (below t (right n)).
Proof.
  intros Hrepr Hskips Hfit Hnum Hlen Hk.
  destruct (fitted_sub os0 cs0 r _ T 0 _ k Hrepr Hskips Hfit ltac:(lia))
    as (par' & T' & R' & S' & F' & Hend).
  pose proof (below_flat t T' k par' R' S' Hlen) as Hbelow.
  destruct T' as [ps | l r'].
  - simpl in R', F'. destruct R' as (n & Hn & Hleaf & _ & _ & Hst & _).
    destruct F' as (n' & pts & Hn' & H1 & H2 & H3 & H4 & H5 & H6).
    assert (n' = n) as -> by congruence.
    exists n, ps, pts. rewrite Hleaf, Hbelow. simpl. repeat split; auto; lia.
  - pose proof (size_pos l). pose proof (size_pos r').
    pose proof R' as Rk. pose proof S' as Sk.
    simpl in R', S', F', Hend.
    destruct R' as (n & Hn & Hleft & Hright & _ & Rl & Rr).
    destruct S' as (_ & Sl & Sr).
    destruct F' as (n' & ps & pts & Hn' & H1 & H2 & H3 & H4 & H5 & H6 & Fl & Fr).
    assert (n' = n) as -> by congruence.
    pose proof (repr_range _ _ _ _ Rk) as [_ Hrange]. simpl in Hrange.
    assert (Hnl : isNodeLeaf n = false) by (eapply internal_not_leaf; eauto; lia).
    pose proof (below_flat t l (k + 1) k Rl Sl Hlen) as Bl.
    pose proof (below_flat t r' (k + 1 + size l) k Rr Sr Hlen) as Br.
    pose proof (fitted_size _ _ _ _ _ _ Fl) as Zl.
    pose proof (fitted_size _ _ _ _ _ _ Fr) as Zr.
    exists n, ps, pts. rewrite Hnl, Hbelow, Hleft, Hright, Bl, Br. simpl.
    split; [exact Hn |]. split; [exact H3 |]. split; [discriminate |].
    split; [exact H4 |]. split; [exact H5 |]. split; [exact H1 |].
    split; [exact H2 |]. split; [lia |]. split; [lia |]. split; [reflexivity |].
    split; [intros E; rewrite E in Zl; simpl in Zl; lia |].
    split; [intros E; rewrite E in Zr; simpl in Zr; lia |]. exact H6.
Qed.

Lemma buildTree_shape t os cs r N s' :
  inputs_ok t os cs N ->
  buildTree t os cs r N = (inr tt, s') ->
  exists T,
    repr (m_nodes (tree s')) 0 OBB_INVALID_NODE T /\
    skips (m_nodes (tree s')) 0 T /\
    m_num_nodes (tree s') = size T /\
    flat T = idx s' /\
    fitted os cs r (m_nodes (tree s')) 0 T /\
    (N <= node_capacity -> idx s' = seqZ 0 N) /\
    Z.of_nat (length (m_nodes (tree s'))) < 2 ^ 32 /\
    Z.of_nat (length (idx s')) = N.
Proof.
  intros Hin Hrun.
  pose proof (buildTree_well_built _ _ _ _ _ _ Hin Hrun) as ((Hl & Hle & Hc) & _).
  destruct Hin as (Hcap & HN & Hos & Hcs & Hnc). unfold buildTree in Hrun.
  destruct (build_from_more r N (mkSt t os [] cs) Hcap HN Hos Hcs Hnc)
    as ((Li & _) & _ & _ & Hok).
  rewrite Hrun in Hok, Li. cbn [fst snd obbs internal_coordinates idx] in Hok, Li.
  destruct (Hok eq_refl) as (T & H1 & H2 & H3 & H4 & H5 & H6).
  exists T. repeat split; auto; try lia.
  rewrite Li, length_seqZ. lia.
Qed.

Lemma buildTree_node t os cs r N s' k :
  inputs_ok t os cs N ->
  buildTree t os cs r N = (inr tt, s') ->
  0 <= k < m_num_nodes (tree s') ->
  exists n ps pts,
    nthZ (m_nodes (tree s')) k = Some n /\
    ps ≡ₚ below (tree s') k /\ (isNodeLeaf n = true -> ps = stored n) /\
    verts cs ps pts /\ obb n = compute_obb pts r /\
    if isNodeLeaf n
    then right n = OBB_INVALID_NODE /\ 1 <= num_particles n <= node_capacity /\
         Z.of_nat (length (particles n)) = node_capacity /\
         below (tree s') k = stored n
    else num_particles n = 0 /\
         node_capacity < Z.of_nat (length (below (tree s') k)) /\
         k < left n < right n /\ right n < m_num_nodes (tree s') /\
         below (tree s') k = below (tree s') (left n) ++ below (tree s') (right n) /\
         below (tree s') (left n) <> [] /\ below (tree s') (right n) <> [] /\
         split_ok os (obb n) (below (tree s') (left n)) (below (tree s') (right n)).
Proof.
  intros Hin Hrun Hk.
  destruct (buildTree_shape _ _ _ _ _ _ Hin Hrun)
    as (T & H1 & H2 & H3 & _ & H5 & _ & H7 & _).
  eapply fitted_node; eauto.
Qed.

(** ** The requests to the allocator *)

Lemma allocateNode_cases s :
  arena_ok (tree s) ->
  match allocateNode s with
  | (inr k, s') =>
      m_node_capacity (tree s') =
        (if m_num_nodes (tree s) <? m_node_capacity (tree s)
         then m_node_capacity (tree s)
         else new_capacity (m_node_capacity (tree s))) /\
      (m_node_capacity (tree s) <= m_num_nodes (tree s) ->
       m_node_capacity (tree s) < 2 ^ 31)
  | (inl e, s') =>
      m_node_capacity (tree s) = m_num_nodes (tree s) /\
      ((e = AllocationError /\
        posix_memalign_ok (new_capacity (m_node_capacity (tree s))) = false) \/
       (e = OutOfRange A_nodes /\ 2 ^ 31 <= m_node_capacity (tree s) /\
        posix_memalign_ok (new_capacity (m_node_capacity (tree s))) = true))
  end.
Proof.
  intros Harena. pose proof Harena as (Hlen & Hle & Hcap).
  assert (Hnum0 : 0 <= m_num_nodes (tree s)) by lia.
  unfold allocateNode, bind, gets. cbv beta.
  destruct (Z.leb_spec (m_node_capacity (tree s)) (m_num_nodes (tree s))) as [Hfull | Hroom].
  - assert (Heq : m_node_capacity (tree s) = m_num_nodes (tree s)) by lia.
    destruct (posix_memalign_ok (new_capacity (m_node_capacity (tree s)))) eqn:Hmem.
    + destruct (Z.lt_ge_cases (m_node_capacity (tree s)) (2 ^ 31)) as [Hsm | Hb].
      * pose proof (new_capacity_small (m_node_capacity (tree s)) ltac:(lia)) as Hnc.
        destruct (Z.ltb_spec (new_capacity (m_node_capacity (tree s)))
                    (m_num_nodes (tree s))); [lia |].
        rewrite andb_false_r. unfold modify, set_tree. cbv beta.
        cbn [tree m_num_nodes m_node_capacity].
        destruct (Z.ltb_spec (m_num_nodes (tree s))
                    (new_capacity (m_node_capacity (tree s)))); [| lia].
        unfold modify, gets, ret, set_tree. cbn [tree m_num_nodes m_node_capacity m_nodes].
        destruct (Z.ltb_spec (m_num_nodes (tree s)) (m_node_capacity (tree s))); [lia |].
        split; [reflexivity | intros; lia].
      * pose proof (new_capacity_wraps (m_node_capacity (tree s)) ltac:(lia)) as Hnc.
        destruct (Z.eqb_spec (m_node_capacity (tree s)) 0); [lia |].
        destruct (Z.ltb_spec (new_capacity (m_node_capacity (tree s)))
                    (m_num_nodes (tree s))); [| lia].
        unfold raise. simpl. split; [exact Heq |]. right. auto.
    + unfold raise. split; [exact Heq |]. left. auto.
  - unfold ret. cbv beta.
    destruct (Z.ltb_spec (m_num_nodes (tree s)) (m_node_capacity (tree s))) as [_ | ?]; [| lia].
    unfold modify, gets, ret, set_tree.
    cbn [tree m_num_nodes m_node_capacity m_nodes].
    split; [reflexivity | intros; lia].
Qed.

Lemma new_capacity_val c :
  0 <= c < 2 ^ 31 -> new_capacity c = if c =? 0 then 16 else 2 * c.
Proof.
  intros Hc. unfold new_capacity, u32. cbv zeta.
  assert (Hp : 2 ^ 32 = 2 * 2 ^ 31) by reflexivity.
  rewrite Z.mod_small by lia.
  destruct (Z.eqb_spec (c * 2) 0), (Z.eqb_spec c 0); lia.
Qed.

(** The arena after some allocations: as it was, or at most twice the
    records in use before the last one (sixteen at least). *)
Lemma allocateNode_grown s :
  arena_ok (tree s) ->
  m_num_nodes (tree s) <= m_num_nodes (tree (snd (allocateNode s))) /\
  (m_node_capacity (tree (snd (allocateNode s))) = m_node_capacity (tree s) \/
   m_node_capacity (tree (snd (allocateNode s))) <=
     Z.max 16 (2 * (m_num_nodes (tree (snd (allocateNode s))) - 1))).
Proof.
  intros Harena. pose proof (allocateNode_spec s Harena) as Hspec.
  pose proof (allocateNode_cases s Harena) as Hcases.
  pose proof Harena as (Hlen & Hle & Hcap).
  destruct (allocateNode s) as [[e | k] s']; cbn [snd].
  - destruct Hspec as [-> _]. split; [lia | left; reflexivity].
  - destruct Hspec as ((Hk & _ & Hnum & _) & _). destruct Hcases as (Hc & Hsmall).
    split; [lia |].
    destruct (Z.ltb_spec (m_num_nodes (tree s)) (m_node_capacity (tree s)));
      [left; exact Hc | right].
    rewrite Hc, new_capacity_val by lia.
    destruct (Z.eqb_spec (m_node_capacity (tree s)) 0); lia.
Qed.

Lemma allocateNode_returns s :
  arena_ok (tree s) ->
  m_num_nodes (tree s) < 2 ^ 31 ->
  (forall c, 0 < c <= Z.max 16 (2 * m_num_nodes (tree s)) ->
             posix_memalign_ok c = true) ->
  exists k, fst (allocateNode s) = inr k.
Proof.
  intros Harena Hnum Hok. pose proof (allocateNode_cases s Harena) as Hcases.
  pose proof Harena as (Hlen & Hle & Hcap).
  destruct (allocateNode s) as [[e | k] s']; cbn [fst]; [| eauto].
  destruct Hcases as (Heq & [[_ Hno] | (_ & Hbig & _)]); [| lia].
  rewrite Hok in Hno; [discriminate |].
  rewrite new_capacity_val by lia.
  destruct (Z.eqb_spec (m_node_capacity (tree s)) 0); lia.
Qed.

Lemma run_build_requests N r fuel start len par s out :
  run_build N r fuel start len par s out ->
  m_num_nodes (tree s) <= m_num_nodes (tree (snd out)) /\
  (m_node_capacity (tree (snd out)) = m_node_capacity (tree s) \/
   m_node_capacity (tree (snd out)) <=
     Z.max 16 (2 * (m_num_nodes (tree (snd out)) - 1))) /\
  ((forall c, 0 < c <= Z.max 16 (2 * (m_num_nodes (tree s) + 2 * len - 2)) ->
              posix_memalign_ok c = true) ->
   m_num_nodes (tree s) + 2 * len - 2 < 2 ^ 31 ->
   exists k, fst out = inr k).
Proof.
  induction 1 as
    [ fuel start len par s pts out Hpre Hfuel E0 Hpts Hleaf Eleaf
    | fuel start len par s pts e Hpre Hfuel E0 Hpts Hint Ea
    | fuel start len par s pts k s1 sr s2 e s3 Hpre Hfuel E0 Hpts Hint Ea Es RL IHL
    | fuel start len par s pts k s1 sr s2 kl s3 e s4 Hpre Hfuel E0 Hpts Hint Ea Es
        RL IHL RR IHR
    | fuel start len par s pts k s1 sr s2 kl s3 kr s4 s' Hpre Hfuel E0 Hpts Hint Ea Es
        RL IHL RR IHR Hd Hs' ];
    pose proof Hpre as (Harena & _ & _ & _ & Hlen & _ & Hnc);
    pose proof (allocateNode_grown s Harena) as (Hn1 & Hc1);
    pose proof (allocateNode_spec s Harena) as Hspec;
    assert (Hret : (forall c, 0 < c <= Z.max 16 (2 * (m_num_nodes (tree s) + 2 * len - 2)) ->
                              posix_memalign_ok c = true) ->
                   m_num_nodes (tree s) + 2 * len - 2 < 2 ^ 31 ->
                   exists k, fst (allocateNode s) = inr k)
      by (intros Hok Hsm; apply allocateNode_returns;
          [exact Harena | lia | intros c Hc; apply Hok; lia]).
  - clear E0.
    pose proof (make_leaf_eq N start len par (compute_obb pts r) s Hpre Hleaf) as Hm.
    destruct (allocateNode s) as [[e | k] s1]; cbn [fst snd] in *.
    + destruct Hm as [_ Hm]. rewrite Hm in Eleaf. subst out. cbn [fst snd].
      split; [lia |]. split; [left; reflexivity |].
      intros Hok Hsm. destruct (Hret Hok Hsm) as [k Hk]. discriminate.
    + destruct Hm as (ps' & mp' & Hm & _). rewrite Hm in Eleaf. subst out.
      cbn [fst snd tree m_num_nodes m_node_capacity].
      split; [exact Hn1 |]. split; [exact Hc1 | eauto].
  - cbn [fst snd]. split; [lia |]. split; [left; reflexivity |].
    intros Hok Hsm. destruct (Hret Hok Hsm) as [k Hk].
    rewrite Ea in Hk. discriminate.
  - destruct (internal_facts _ _ _ _ _ _ _ _ _ Hpre Hint Ea Es)
      as ((Hk & _ & Hnum & _) & _ & _ & Hg & Ht & _).
    rewrite Ea in Hn1, Hc1. rewrite Ht in IHL. cbn [fst snd] in *.
    destruct IHL as (IL1 & IL2 & IL3).
    split; [lia |]. split; [lia |].
    intros Hok Hsm. apply IL3; [| lia]. intros c Hc. apply Hok. lia.
  - destruct (internal_facts _ _ _ _ _ _ _ _ _ Hpre Hint Ea Es)
      as ((Hk & _ & Hnum & _) & _ & _ & Hg & Ht & _).
    pose proof (run_build_capacity _ _ _ _ _ _ _ _ RL) as (_ & Hcount & _).
    specialize (Hcount kl eq_refl). rewrite Ht in Hcount.
    rewrite Ea in Hn1, Hc1. rewrite Ht in IHL. cbn [fst snd] in *.
    destruct IHL as (IL1 & IL2 & IL3). destruct IHR as (IR1 & IR2 & IR3).
    split; [lia |]. split; [lia |].
    intros Hok Hsm. apply IR3; [| lia]. intros c Hc. apply Hok. lia.
  - destruct (internal_facts _ _ _ _ _ _ _ _ _ Hpre Hint Ea Es)
      as ((Hk & _ & Hnum & _) & _ & _ & Hg & Ht & _).
    rewrite Ea in Hn1, Hc1. rewrite Ht in IHL. subst s'.
    cbn [fst snd tree m_num_nodes m_node_capacity set_tree set_nodes] in *.
    destruct IHL as (IL1 & IL2 & IL3). destruct IHR as (IR1 & IR2 & IR3).
    split; [lia |]. split; [lia | eauto].
Qed.

Local Opaque updateSkip buildNode.

(** [buildTree] stops where [buildNode] stops, and else returns after
    [updateSkip] has set the skip fields. *)
Lemma build_from_cases r N s0 :
  is_u32 (m_node_capacity (tree s0)) ->
  1 <= N < 2 ^ 32 ->
  N <= Z.of_nat (length (obbs s0)) ->
  N <= Z.of_nat (length (internal_coordinates s0)) ->
  1 <= node_capacity ->
  exists s1,
    s1 = mkSt (mkTree [] 0 (m_node_capacity (tree s0)) OBB_INVALID_NODE
                      (replicate (Z.to_nat N) OBB_INVALID_NODE))
              (obbs s0) (seqZ 0 N) (internal_coordinates s0) /\
    run_build N r (S (Z.to_nat N)) 0 N OBB_INVALID_NODE s1
              (buildNode (S (Z.to_nat N)) r 0 N OBB_INVALID_NODE s1) /\
    match buildNode (S (Z.to_nat N)) r 0 N OBB_INVALID_NODE s1 with
    | (inl e, s2) => build_from r N s0 = (inl e, s2)
    | (inr k, s2) =>
        k = 0 /\
        exists s3, build_from r N s0 = (inr tt, s3) /\
                   skips_only (snd (set_root 0 s2)) s3
    end.
Proof.
  intros Hcap HN Hos Hcs Hnc.
  destruct (build_from_start N s0 Hcap HN Hos Hcs Hnc) as (s1 & Es1 & Hpre & Htag).
  exists s1. split; [exact Es1 |].
  split; [apply buildNode_runs; [exact Hpre | lia] |].
  pose proof (buildNode_spec N r (S (Z.to_nat N)) 0 N OBB_INVALID_NODE s1 Hpre ltac:(lia))
    as Hb.
  rewrite (build_from_unfold r N s0), <- Es1.
  destruct (buildNode (S (Z.to_nat N)) r 0 N OBB_INVALID_NODE s1) as [[e | k] s2];
    [reflexivity |].
  destruct Hb as (Hk & (Hl & Hle & Hc) & _ & _ & _ & _ & _ & _ & T & Hrepr & HnumT & _).
  assert (k = 0) as -> by (rewrite Hk, Es1; reflexivity).
  split; [reflexivity |].
  pose proof (updateSkip_skips_only (S (Z.to_nat (m_num_nodes (tree s2)))) 0
                (snd (set_root 0 s2))) as Hso.
  destruct (updateSkip_spec (m_num_nodes (tree s2)) (m_node_capacity (tree s2)) 0
              (m_mapping (tree s2)) (obbs s2) (idx s2) (internal_coordinates s2) T
              (S (Z.to_nat (m_num_nodes (tree s2)))) 0 OBB_INVALID_NODE
              (m_nodes (tree s2)) Hrepr ltac:(lia) ltac:(lia))
    as (ns' & E & _).
  change (snd (set_root 0 s2))
    with (mkSt (mkTree (m_nodes (tree s2)) (m_num_nodes (tree s2))
                       (m_node_capacity (tree s2)) 0 (m_mapping (tree s2)))
               (obbs s2) (idx s2) (internal_coordinates s2)) in Hso |- *.
  rewrite E in Hso |- *. eexists. split; [reflexivity | exact Hso].
Qed.

Local Transparent updateSkip buildNode.

Lemma build_from_requests r N s0 :
  is_u32 (m_node_capacity (tree s0)) ->
  1 <= N < 2 ^ 32 ->
  N <= Z.of_nat (length (obbs s0)) ->
  N <= Z.of_nat (length (internal_coordinates s0)) ->
  1 <= node_capacity ->
  (m_node_capacity (tree (snd (build_from r N s0))) = m_node_capacity (tree s0) \/
   m_node_capacity (tree (snd (build_from r N s0))) <=
     Z.max 16 (2 * (m_num_nodes (tree (snd (build_from r N s0))) - 1))) /\
  ((forall c, 0 < c <= Z.max 16 (4 * N - 4) -> posix_memalign_ok c = true) ->
   N <= 2 ^ 30 ->
   fst (build_from r N s0) = inr tt).
Proof.
  intros Hcap HN Hos Hcs Hnc.
  destruct (build_from_cases r N s0 Hcap HN Hos Hcs Hnc) as (s1 & Es1 & Hrun & Hcases).
  pose proof (run_build_requests _ _ _ _ _ _ _ _ Hrun) as (_ & Hgrown & Hret).
  assert (Hcap1 : m_node_capacity (tree s1) = m_node_capacity (tree s0))
    by (rewrite Es1; reflexivity).
  assert (Hnum1 : m_num_nodes (tree s1) = 0) by (rewrite Es1; reflexivity).
  rewrite Hcap1, Hnum1 in *.
  destruct (buildNode (S (Z.to_nat N)) r 0 N OBB_INVALID_NODE s1) as [[e | k] s2].
  - rewrite Hcases. cbn [fst snd] in *. split; [exact Hgrown |].
    intros Hok Hsm. destruct Hret as [k Hk]; [| lia | discriminate].
    intros c Hc. apply Hok. lia.
  - destruct Hcases as (-> & s3 & E & Hso). rewrite E. cbn [fst snd] in *.
    destruct Hso as (_ & _ & _ & Sn & Sc & _).
    cbn [tree m_num_nodes m_node_capacity snd set_root] in Sn, Sc.
    split; [| reflexivity].
    change (m_num_nodes (tree (snd (set_root 0 s2)))) with (m_num_nodes (tree s2)) in Sn.
    change (m_node_capacity (tree (snd (set_root 0 s2))))
      with (m_node_capacity (tree s2)) in Sc.
    rewrite Sn, Sc. exact Hgrown.
Qed.

(** ** The nodes that [query] tests *)

Lemma tests_visits ns q T : forall k,
  tests ns q k T = Z.of_nat (length (visits ns q k T)).
Proof.
  induction T as [ps | l IHl r IHr]; intros k; simpl.
  - destruct (nthZ ns k) as [n |]; [destruct (overlap (obb n) q) |]; reflexivity.
  - destruct (nthZ ns k) as [n |]; [destruct (overlap (obb n) q) |]; try reflexivity.
    rewrite IHl, IHr. simpl. rewrite length_app. lia.
Qed.

Lemma visits_range ns q T : forall k j, j ∈ visits ns q k T -> k <= j < k + size T.
Proof.
  induction T as [ps | l IHl r IHr]; intros k j Hj; simpl in Hj.
  - destruct (nthZ ns k) as [n |]; [| inversion Hj].
    destruct (overlap (obb n) q); apply list_elem_of_singleton in Hj; simpl; lia.
  - pose proof (size_pos l). pose proof (size_pos r).
    destruct (nthZ ns k) as [n |]; [| inversion Hj].
    apply elem_of_cons in Hj as [-> | Hj]; [simpl; lia |].
    destruct (overlap (obb n) q); [| inversion Hj].
    apply elem_of_app in Hj as [Hj | Hj].
    + apply IHl in Hj. simpl. lia.
    + apply IHr in Hj. simpl. lia.
Qed.

Lemma visits_sorted ns q T : forall k, StronglySorted Z.lt (visits ns q k T).
Proof.
  induction T as [ps | l IHl r IHr]; intros k; simpl.
  - destruct (nthZ ns k) as [n |]; [destruct (overlap (obb n) q) |];
      repeat constructor.
  - pose proof (size_pos l).
    destruct (nthZ ns k) as [n |]; [| constructor].
    destruct (overlap (obb n) q); [| repeat constructor].
    constructor.
    + apply StronglySorted_app_2; auto.
      intros x1 x2 H1 H2. apply visits_range in H1. apply visits_range in H2. lia.
    + apply Forall_forall. intros x Hx. apply elem_of_app in Hx as [Hx | Hx].
      * apply visits_range in Hx. lia.
      * apply visits_range in Hx. lia.
Qed.

Lemma visits_spec ns q T : forall k par,
  repr ns k par T -> skips ns k T -> Z.of_nat (length ns) < 2 ^ 32 ->
  forall j,
    j ∈ visits ns q k T <->
    (k <= j < k + size T /\
     forall a n, reach ns k a -> reach ns a j -> a <> j -> nthZ ns a = Some n ->
                 overlap (obb n) q = true).
Proof.
  induction T as [ps | l IHl r IHr]; intros k par Hrepr Hskips Hlen j.
  - pose proof Hrepr as (n & Hn & Hleaf & _). simpl. rewrite Hn. split.
    + intros Hj.
      assert (j = k) as ->
        by (destruct (overlap (obb n) q); apply list_elem_of_singleton in Hj; exact Hj).
      split; [lia |].
      intros a n' Hka _ Hne Ha. apply (reach_leaf _ _ _ _ Hn Hleaf) in Hka. congruence.
    + intros (Hj & _). assert (j = k) as -> by lia.
      destruct (overlap (obb n) q); apply list_elem_of_singleton; reflexivity.
  - pose proof (size_pos l). pose proof (size_pos r).
    pose proof (repr_range _ _ _ _ Hrepr) as [Hk0 Hend].
    destruct (nthZ_is_Some ns k) as [n Hn]; [simpl in Hend; lia |].
    destruct (repr_root _ _ _ _ _ Hrepr Hskips Hlen Hn) as (_ & Hnl & Hleft & Hright).
    pose proof Hrepr as Hrepr0. pose proof Hskips as Hskips0.
    simpl in Hrepr, Hskips, Hend.
    destruct Hrepr as (_ & _ & _ & _ & _ & Rl & Rr). destruct Hskips as (_ & Sl & Sr).
    cbn [visits size]. rewrite Hn. split.
    + intros Hj. apply elem_of_cons in Hj as [-> | Hj].
      { split; [lia |]. intros a n' Hka Hak Hne Ha.
        pose proof (reach_range _ _ _ Hka _ _ Hrepr0 Hlen) as Hr1.
        destruct (repr_sub _ _ _ _ a Hrepr0 Hskips0 Hr1) as (par' & T' & R' & _ & _ & _).
        pose proof (reach_range _ _ _ Hak _ _ R' Hlen). lia. }
      destruct (overlap (obb n) q) eqn:Hov; [| inversion Hj].
      apply elem_of_app in Hj as [Hj | Hj].
      * apply (IHl _ _ Rl Sl Hlen) in Hj as (Hjr & Hall).
        split; [lia |].
        intros a n' Hka Haj Hne Ha.
        destruct (reach_inv _ _ _ _ Hn Hka) as [-> | (_ & [Hc | Hc])].
        -- congruence.
        -- rewrite Hleft in Hc. eauto.
        -- rewrite Hright in Hc.
           pose proof (reach_within _ _ _ _ _ _ Rr Sr Hlen Hc Haj _ Ha). lia.
      * apply (IHr _ _ Rr Sr Hlen) in Hj as (Hjr & Hall).
        split; [lia |].
        intros a n' Hka Haj Hne Ha.
        destruct (reach_inv _ _ _ _ Hn Hka) as [-> | (_ & [Hc | Hc])].
        -- congruence.
        -- rewrite Hleft in Hc.
           pose proof (reach_within _ _ _ _ _ _ Rl Sl Hlen Hc Haj _ Ha). lia.
        -- rewrite Hright in Hc. eauto.
    + intros (Hj & Hall).
      destruct (Z.eq_dec j k) as [-> | Hne]; [apply elem_of_cons; auto |].
      assert (Hkj : reach ns k j) by (eapply range_reach; eauto).
      apply elem_of_cons. right.
      rewrite (Hall k n (reach_self _ _) Hkj ltac:(lia) Hn).
      apply elem_of_app.
      destruct (Z.lt_ge_cases j (k + 1 + size l)) as [Hlt | Hge].
      * left. apply (IHl _ _ Rl Sl Hlen). split; [lia |].
        intros a n' Hka Haj Hne' Ha. eapply Hall; [| exact Haj | exact Hne' | exact Ha].
        apply (reach_left ns k n a Hn Hnl). rewrite Hleft. exact Hka.
      * right. apply (IHr _ _ Rr Sr Hlen). split; [lia |].
        intros a n' Hka Haj Hne' Ha. eapply Hall; [| exact Haj | exact Hne' | exact Ha].
        apply (reach_right ns k n a Hn Hnl). rewrite Hright. exact Hka.
Qed.

(** ** The record of the box tests *)

Lemma query_tested_loop_untested t q : forall fuel k c hits tr,
  untested (query_tested_loop fuel t q k c hits tr) = query_loop fuel t q k c hits.
Proof.
  induction fuel as [| fuel IH]; intros k c hits tr; cbn [query_tested_loop query_loop].
  - destruct (m_num_nodes t <=? k); reflexivity.
  - destruct (m_num_nodes t <=? k); [reflexivity |].
    destruct (nthZ (m_nodes t) k) as [n |]; [| reflexivity].
    cbv zeta.
    destruct (overlap (obb n) q); [| apply IH].
    destruct (left n =? OBB_INVALID_NODE); [| apply IH].
    destruct (push_particles n hits); [apply IH | reflexivity].
Qed.

Lemma query_tested_untested t hits q :
  untested (query_tested t hits q) = query t hits q.
Proof. apply query_tested_loop_untested. Qed.

Lemma query_tested_loop_done fuel t q k c hits tr :
  m_num_nodes t <= k -> query_tested_loop fuel t q k c hits tr = inr (c, hits, tr).
Proof.
  intros H. destruct fuel; simpl; destruct (Z.leb_spec (m_num_nodes t) k); auto; lia.
Qed.

Lemma query_tested_sub t q T : forall fuel k par c hits tr,
  repr (m_nodes t) k par T -> skips (m_nodes t) k T -> arena_ok t ->
  0 <= c -> c + size T < 2 ^ 32 ->
  (Z.to_nat (size T) <= fuel)%nat ->
  exists fuel',
    (fuel - Z.to_nat (size T) <= fuel')%nat /\
    query_tested_loop fuel t q k c hits tr =
    query_tested_loop fuel' t q (k + size T) (c + tests (m_nodes t) q k T)
      (hits ++ concat (map (leaf_particles t) (seen (m_nodes t) q k T)))
      (tr ++ visits (m_nodes t) q k T).
Proof.
  induction T as [ps | l IHl r IHr];
    intros fuel k par c hits tr Hrepr Hskips Harena Hc Hcs Hfuel.
  - destruct Harena as (Hl & Hle & Hcap).
    pose proof (repr_range _ _ _ _ Hrepr) as [Hk0 Hend].
    simpl in Hrepr, Hend, Hcs, Hfuel.
    destruct Hrepr as (n & Hn & Hleaf & _ & Hskip & Hst & Hnp).
    destruct fuel as [| fuel]; [lia |].
    exists fuel. split; [simpl; lia |].
    cbn [query_tested_loop size seen tests visits].
    destruct (Z.leb_spec (m_num_nodes t) k); [lia |].
    rewrite Hn. cbv zeta. rewrite (u32_small (c + 1)) by lia.
    destruct (overlap (obb n) q).
    + unfold isNodeLeaf in Hleaf. rewrite Hleaf.
      unfold push_particles.
      destruct (Z.leb_spec (num_particles n) (Z.of_nat (length (particles n)))); [| lia].
      rewrite (u32_small (k + 1)) by lia.
      simpl. unfold leaf_particles. rewrite Hn. unfold isNodeLeaf. rewrite Hleaf.
      rewrite app_nil_r. reflexivity.
    + rewrite Hskip. rewrite (u32_small (k + 0)) by lia.
      rewrite Z.add_0_r. rewrite (u32_small (k + 1)) by lia.
      simpl. rewrite app_nil_r. reflexivity.
  - pose proof Harena as (Hl & Hle & Hcap).
    assert (Hlen : Z.of_nat (length (m_nodes t)) < 2 ^ 32) by lia.
    pose proof (repr_range _ _ _ _ Hrepr) as [Hk0 Hend].
    pose proof (size_pos l). pose proof (size_pos r).
    destruct (nthZ_is_Some (m_nodes t) k) as [n Hn]; [simpl in Hend; lia |].
    destruct (repr_root _ _ _ _ _ Hrepr Hskips Hlen Hn) as (Hskip & Hnl & Hleft & Hright).
    simpl in Hrepr, Hskips, Hend, Hcs, Hfuel, Hskip.
    destruct Hrepr as (_ & _ & _ & _ & _ & Rl & Rr). destruct Hskips as (_ & Sl & Sr).
    destruct fuel as [| fuel]; [lia |].
    cbn [query_tested_loop size seen tests visits].
    destruct (Z.leb_spec (m_num_nodes t) k); [lia |].
    rewrite Hn. cbv zeta. rewrite (u32_small (c + 1)) by lia.
    destruct (overlap (obb n) q).
    + unfold isNodeLeaf in Hnl. rewrite Hnl. rewrite (u32_small (k + 1)) by lia.
      pose proof (tests_le (m_nodes t) q l (k + 1)) as Htl.
      destruct (IHl fuel (k + 1) k (c + 1) hits (tr ++ [k])
                  Rl Sl Harena ltac:(lia) ltac:(lia) ltac:(lia))
        as (fuel1 & Hf1 & E1).
      rewrite E1.
      destruct (IHr fuel1 (k + 1 + size l) k (c + 1 + tests (m_nodes t) q (k + 1) l)
                  (hits ++ concat (map (leaf_particles t) (seen (m_nodes t) q (k + 1) l)))
                  ((tr ++ [k]) ++ visits (m_nodes t) q (k + 1) l)
                  Rr Sr Harena ltac:(lia) ltac:(lia) ltac:(lia))
        as (fuel2 & Hf2 & E2).
      rewrite E2. exists fuel2. split; [lia |].
      rewrite map_app, concat_app, app_assoc.
      rewrite <- !app_assoc. cbn [app]. rewrite !app_assoc.
      f_equal; lia.
    + exists fuel. split; [lia |].
      rewrite Hskip. rewrite (u32_small (k + _)) by lia.
      rewrite (u32_small (k + _ + 1)) by lia.
      simpl. rewrite app_nil_r. f_equal; lia.
Qed.

Lemma query_tested_built N t q hits :
  well_built N t ->
  exists c out vs,
    query_tested t hits q = inr (c, hits ++ out, vs) /\
    query t hits q = inr (c, hits ++ out) /\
    c = Z.of_nat (length vs) /\ StronglySorted Z.lt vs /\
    forall a, a ∈ vs <->
      (0 <= a < m_num_nodes t /\
       forall b n, reach (m_nodes t) b a -> b <> a -> nthZ (m_nodes t) b = Some n ->
                   overlap (obb n) q = true).
Proof.
  intros Hwb.
  destruct (query_built N t q hits Hwb) as (T & Hrepr & Hskips & Hnum & E).
  destruct Hwb as (Harena & _).
  pose proof Harena as (Hl & Hle & Hc).
  assert (Hlen : Z.of_nat (length (m_nodes t)) < 2 ^ 32) by lia.
  eexists _, _, (visits (m_nodes t) q 0 T).
  split.
  { unfold query_tested.
    destruct (query_tested_sub t q T (Z.to_nat (m_num_nodes t)) 0 OBB_INVALID_NODE 0 hits []
                Hrepr Hskips Harena ltac:(lia) ltac:(lia) ltac:(lia)) as (fuel' & _ & E').
    rewrite E'. apply query_tested_loop_done. lia. }
  split; [exact E |].
  split; [apply tests_visits |]. split; [apply visits_sorted |].
  intros a. rewrite (visits_spec _ q _ _ _ Hrepr Hskips Hlen). rewrite Hnum. split.
  - intros (Ha & Hall). split; [lia |].
    intros b n Hba Hne Hb. eapply Hall; eauto.
    eapply range_reach; eauto. apply nthZ_Some in Hb. lia.
  - intros (Ha & Hall). split; [lia |].
    intros b n _ Hba Hne Hb. eauto.
Qed.

Lemma ascending_NoDup (vs : list Z) : StronglySorted Z.lt vs -> NoDup vs.
Proof.
  induction 1 as [| a vs Hs IH Hall]; constructor; [| exact IH].
  intros Ha. rewrite Forall_forall in Hall. specialize (Hall a Ha). lia.
Qed.

(** ** What a call of [buildNode] leaves alone *)

Lemma lockstep_seg lo hi s s' a n p :
  lockstep lo hi s s' -> 0 <= lo -> lo <= a -> 0 <= n -> a + n <= hi ->
  p ∈ segZ (idx s') a n -> p ∈ segZ (idx s) lo (hi - lo).
Proof.
  intros (Li & _ & _ & Hin & _) Hlo Ha Hn Hhi Hp.
  apply segZ_elem_of in Hp as (j & Hj & Ej); [| lia | lia].
  destruct (Hin j ltac:(lia)) as (j' & Hj' & E & _). rewrite Ej in E.
  symmetry in E. pose proof (nthZ_Some _ _ _ E) as [Hr El].
  apply list_elem_of_lookup. exists (Z.to_nat (j' - lo)). unfold segZ.
  rewrite lookup_take_lt by lia. rewrite lookup_drop.
  replace (Z.to_nat lo + Z.to_nat (j' - lo))%nat with (Z.to_nat j') by lia. exact El.
Qed.

Lemma run_build_frame N r fuel start len par s out :
  run_build N r fuel start len par s out ->
  (exists new, m_nodes (tree (snd out)) = m_nodes (tree s) ++ new) /\
  m_root (tree (snd out)) = m_root (tree s) /\
  (forall p, p ∉ segZ (idx s) start len ->
             nthZ (m_mapping (tree (snd out))) p = nthZ (m_mapping (tree s)) p).
Proof.
  induction 1 as
    [ fuel start len par s pts out Hpre Hfuel E0 Hpts Hleaf Eleaf
    | fuel start len par s pts e Hpre Hfuel E0 Hpts Hint Ea
    | fuel start len par s pts k s1 sr s2 e s3 Hpre Hfuel E0 Hpts Hint Ea Es RL IHL
    | fuel start len par s pts k s1 sr s2 kl s3 e s4 Hpre Hfuel E0 Hpts Hint Ea Es
        RL IHL RR IHR
    | fuel start len par s pts k s1 sr s2 kl s3 kr s4 s' Hpre Hfuel E0 Hpts Hint Ea Es
        RL IHL RR IHR Hd Hs' ];
    pose proof Hpre as (Harena & _ & _ & Hstart & Hlen & _).
  - clear E0.
    pose proof (make_leaf_eq N start len par (compute_obb pts r) s Hpre Hleaf) as Hm.
    destruct (allocateNode s) as [[e | k] s1].
    + destruct Hm as [_ Hm]. rewrite Hm in Eleaf. subst out. cbn [snd].
      split; [exists []; rewrite app_nil_r; reflexivity |]. auto.
    + destruct Hm as (ps' & mp' & Hm & _ & _ & Hmap). rewrite Hm in Eleaf. subst out.
      cbn [snd tree m_nodes m_root m_mapping]. split; [eauto |]. auto.
  - cbn [snd]. split; [exists []; rewrite app_nil_r; reflexivity |]. auto.
  - destruct (internal_facts _ _ _ _ _ _ _ _ _ Hpre Hint Ea Es)
      as ((_ & Hns1 & _ & Hroot1 & Hmp1 & _) & _ & _ & Hg & Ht & Hlock & _).
    cbn [snd] in *. rewrite Ht in IHL.
    destruct IHL as ((newL & HnewL) & HrootL & HmapL).
    split; [| split].
    + exists ([OBBNode_default] ++ newL). rewrite HnewL, Hns1, app_assoc. reflexivity.
    + congruence.
    + intros p Hp. rewrite HmapL, Hmp1; [reflexivity |].
      intros Hin. apply Hp.
      replace len with (start + len - start) by lia.
      eapply lockstep_seg; [exact Hlock | | | | | exact Hin]; lia.
  - destruct (internal_facts _ _ _ _ _ _ _ _ _ Hpre Hint Ea Es)
      as ((_ & Hns1 & _ & Hroot1 & Hmp1 & _) & _ & _ & Hg & Ht & Hlock & _).
    pose proof (run_build_rows _ _ _ _ _ _ _ _ RL) as [LockL _].
    cbn [snd] in *. rewrite Ht in IHL.
    destruct IHL as ((newL & HnewL) & HrootL & HmapL).
    destruct IHR as ((newR & HnewR) & HrootR & HmapR).
    assert (Hlock3 : lockstep start (start + len) s s3).
    { eapply lockstep_trans; [exact Hlock |].
      eapply lockstep_widen; [| | exact LockL]; lia. }
    split; [| split].
    + exists ([OBBNode_default] ++ newL ++ newR).
      rewrite HnewR, HnewL, Hns1, <- !app_assoc. reflexivity.
    + congruence.
    + intros p Hp. rewrite HmapR, HmapL, Hmp1; [reflexivity | |].
      * intros Hin. apply Hp. replace len with (start + len - start) by lia.
        eapply lockstep_seg; [exact Hlock | | | | | exact Hin]; lia.
      * intros Hin. apply Hp. replace len with (start + len - start) by lia.
        eapply lockstep_seg; [exact Hlock3 | | | | | exact Hin]; lia.
  - destruct (internal_facts _ _ _ _ _ _ _ _ _ Hpre Hint Ea Es)
      as ((Hk & Hns1 & _ & Hroot1 & Hmp1 & _) & _ & _ & Hg & Ht & Hlock & _).
    pose proof (run_build_rows _ _ _ _ _ _ _ _ RL) as [LockL _].
    cbn [snd] in *. rewrite Ht in IHL.
    destruct IHL as ((newL & HnewL) & HrootL & HmapL).
    destruct IHR as ((newR & HnewR) & HrootR & HmapR).
    assert (Hlock3 : lockstep start (start + len) s s3).
    { eapply lockstep_trans; [exact Hlock |].
      eapply lockstep_widen; [| | exact LockL]; lia. }
    subst s'. cbn [tree set_tree set_nodes m_nodes m_root m_mapping].
    split; [| split].
    + exists (connected (compute_obb pts r) par kl kr :: newL ++ newR).
      rewrite HnewR, HnewL, Hns1, <- !app_assoc. cbn [app].
      destruct Harena as (Hl & _).
      replace (Z.to_nat k) with (length (m_nodes (tree s))) by lia.
      apply insert_at_end.
    + congruence.
    + intros p Hp. rewrite HmapR, HmapL, Hmp1; [reflexivity | |].
      * intros Hin. apply Hp. replace len with (start + len - start) by lia.
        eapply lockstep_seg; [exact Hlock | | | | | exact Hin]; lia.
      * intros Hin. apply Hp. replace len with (start + len - start) by lia.
        eapply lockstep_seg; [exact Hlock3 | | | | | exact Hin]; lia.
Qed.

(** ** Boxes and vertices *)

Lemma below_reach N t a k p :
  well_built N t -> reach (m_nodes t) a k ->
  p ∈ leaf_particles t k -> p ∈ below t a.
Proof.
  intros Hwb Hreach Hp. pose proof (well_built_layout N t Hwb) as Hlay.
  unfold below. destruct (nthZ (m_nodes t) a) as [n |] eqn:Hn.
  - specialize (Hlay a n Hn). apply elem_of_concat_map. exists k. split; [| exact Hp].
    apply elem_of_seqZ.
    destruct (isNodeLeaf n) eqn:Hleaf.
    + apply (reach_leaf _ _ _ _ Hn Hleaf) in Hreach. lia.
    + destruct Hlay as (_ & _ & Hrange & _). apply Hrange in Hreach. lia.
  - exfalso. inversion Hreach as [k' | k' n' j' Hn' | k' n' j' Hn']; subst;
      try congruence.
    unfold leaf_particles in Hp. rewrite Hn in Hp. inversion Hp.
Qed.

Lemma verts_elem cs0 ps pts p c v :
  verts cs0 ps pts -> p ∈ ps -> nthZ cs0 p = Some c -> v ∈ c -> v ∈ pts.
Proof.
  intros (cl & HF & ->) Hp Hc Hv.
  apply list_elem_of_lookup in Hp as [i Hi].
  destruct (Forall2_lookup_l _ _ _ _ _ HF Hi) as (c' & Hc' & E).
  assert (c' = c) as -> by congruence.
  apply list_elem_of_In, in_concat. exists c. split; apply list_elem_of_In; [| exact Hv].
  apply list_elem_of_lookup. eauto.
Qed.

Lemma buildTree_contains (contains : OBB -> vec3 -> bool) t os cs r N s' :
  (forall pts v, v ∈ pts -> contains (compute_obb pts r) v = true) ->
  inputs_ok t os cs N ->
  buildTree t os cs r N = (inr tt, s') ->
  forall k n p c v,
    nthZ (m_nodes (tree s')) k = Some n ->
    p ∈ below (tree s') k -> nthZ cs p = Some c -> v ∈ c ->
    contains (obb n) v = true.
Proof.
  intros Hfit Hin Hrun k n p c v Hn Hp Hc Hv.
  pose proof (buildTree_well_built _ _ _ _ _ _ Hin Hrun) as ((Hl & _) & _).
  pose proof (nthZ_Some _ _ _ Hn) as [Hk _].
  destruct (buildTree_node _ _ _ _ _ _ k Hin Hrun ltac:(lia))
    as (n' & ps & pts & Hn' & Hperm & _ & Hverts & Hobb & _).
  assert (n' = n) as -> by congruence.
  rewrite Hobb. apply Hfit.
  eapply verts_elem; eauto. rewrite Hperm. exact Hp.
Qed.

(** ** The arena after any outcome *)

Lemma run_build_arena N r fuel start len par s out :
  run_build N r fuel start len par s out -> arena_ok (tree (snd out)).
Proof.
  induction 1 as
    [ fuel start len par s pts out Hpre Hfuel E0 Hpts Hleaf Eleaf
    | fuel start len par s pts e Hpre Hfuel E0 Hpts Hint Ea
    | fuel start len par s pts k s1 sr s2 e s3 Hpre Hfuel E0 Hpts Hint Ea Es RL IHL
    | fuel start len par s pts k s1 sr s2 kl s3 e s4 Hpre Hfuel E0 Hpts Hint Ea Es
        RL IHL RR IHR
    | fuel start len par s pts k s1 sr s2 kl s3 kr s4 s' Hpre Hfuel E0 Hpts Hint Ea Es
        RL IHL RR IHR Hd Hs' ];
    try assumption.
  - pose proof (buildNode_spec N r (S fuel) start len par s Hpre Hfuel) as Hb.
    rewrite E0 in Hb. destruct out as [[e | k] s']; cbn [snd].
    + clear Hb E0.
      pose proof (make_leaf_eq N start len par (compute_obb pts r) s Hpre Hleaf) as Hm.
      destruct (allocateNode s) as [[e' | k] s1].
      * destruct Hm as [_ Hm]. rewrite Hm in Eleaf. injection Eleaf as _ <-.
        destruct Hpre as (Ha & _). exact Ha.
      * destruct Hm as (ps' & mp' & Hm & _). rewrite Hm in Eleaf. discriminate.
    + destruct Hb as (_ & Ha & _). exact Ha.
  - cbn [snd]. destruct Hpre as (Ha & _). exact Ha.
  - pose proof (buildNode_spec N r (S fuel) start len par s Hpre Hfuel) as Hb.
    rewrite E0 in Hb. destruct Hb as (_ & Ha & _). exact Ha.
Qed.

Lemma build_from_again r N s0 :
  is_u32 (m_node_capacity (tree s0)) ->
  1 <= N < 2 ^ 32 ->
  N <= Z.of_nat (length (obbs s0)) ->
  N <= Z.of_nat (length (internal_coordinates s0)) ->
  1 <= node_capacity ->
  is_u32 (m_node_capacity (tree (snd (build_from r N s0)))) /\
  N <= Z.of_nat (length (obbs (snd (build_from r N s0)))) /\
  N <= Z.of_nat (length (internal_coordinates (snd (build_from r N s0)))).
Proof.
  intros Hcap HN Hos Hcs Hnc.
  destruct (build_from_more r N s0 Hcap HN Hos Hcs Hnc)
    as ((_ & Lo & Lc & _) & Hmono & _).
  cbn [obbs internal_coordinates] in Lo, Lc.
  split; [| split; lia].
  destruct (build_from_cases r N s0 Hcap HN Hos Hcs Hnc) as (s1 & Es1 & Hrun & Hcases).
  pose proof (run_build_arena _ _ _ _ _ _ _ _ Hrun) as Ha.
  unfold is_u32 in *.
  destruct (buildNode (S (Z.to_nat N)) r 0 N OBB_INVALID_NODE s1) as [[e | k] s2].
  - rewrite Hcases in *. cbn [snd] in *. destruct Ha as (_ & _ & Hc). lia.
  - destruct Hcases as (-> & s3 & E & Hso). rewrite E in *. cbn [snd] in *.
    destruct Hso as (_ & _ & _ & _ & Sc & _).
    change (m_node_capacity (tree (snd (set_root 0 s2))))
      with (m_node_capacity (tree s2)) in Sc.
    destruct Ha as (_ & _ & Hc). lia.
Qed.

(** ** [query] on an arena without skips *)

Lemma query_scan t q : forall fuel k c hits,
  arena_ok t -> Forall unskipped (m_nodes t) ->
  0 <= k <= m_num_nodes t -> 0 <= c -> c + (m_num_nodes t - k) < 2 ^ 32 ->
  (Z.to_nat (m_num_nodes t - k) <= fuel)%nat ->
  query_loop fuel t q k c hits =
  inr (c + (m_num_nodes t - k),
       hits ++ concat (map (leaf_particles t)
                 (List.filter (fun j => match nthZ (m_nodes t) j with
                                        | Some n => isNodeLeaf n && overlap (obb n) q
                                        | None => false
                                        end)
                              (seqZ k (m_num_nodes t - k))))).
Proof.
  induction fuel as [| fuel IH]; intros k c hits Harena Hall Hk Hc Hcs Hfuel.
  - assert (k = m_num_nodes t) as -> by lia.
    rewrite query_loop_done by lia. rewrite Z.sub_diag, Z.add_0_r.
    simpl. rewrite app_nil_r. reflexivity.
  - destruct (Z.eq_dec k (m_num_nodes t)) as [-> | Hne].
    { rewrite query_loop_done by lia. rewrite Z.sub_diag, Z.add_0_r.
      simpl. rewrite app_nil_r. reflexivity. }
    pose proof Harena as (Hl & Hle & Hcap).
    destruct (nthZ_is_Some (m_nodes t) k) as [n Hn]; [lia |].
    assert (Hq : unskipped n).
    { rewrite Forall_forall in Hall. apply Hall. eapply nthZ_elem_of, Hn. }
    destruct Hq as (Hskip & Hnp0 & Hnp).
    cbn [query_loop]. destruct (Z.leb_spec (m_num_nodes t) k); [lia |].
    rewrite Hn. rewrite (u32_small (c + 1)) by lia.
    rewrite seqZ_cons by lia. cbn [List.filter]. rewrite Hn.
    replace (Z.succ k) with (k + 1) by lia.
    replace (Z.pred (m_num_nodes t - k)) with (m_num_nodes t - (k + 1)) by lia.
    unfold isNodeLeaf.
    destruct (overlap (obb n) q) eqn:Hov.
    + destruct (Z.eqb_spec (left n) OBB_INVALID_NODE) as [Hleaf | Hint].
      * unfold push_particles.
        destruct (Z.leb_spec (num_particles n) (Z.of_nat (length (particles n)))); [| lia].
        rewrite (u32_small (k + 1)) by lia.
        rewrite IH by (auto; lia). cbn [andb map concat].
        assert (Hlp : leaf_particles t k =
                      take (Z.to_nat (num_particles n)) (particles n)).
        { unfold leaf_particles. rewrite Hn. unfold isNodeLeaf.
          rewrite Hleaf, Z.eqb_refl. reflexivity. }
        rewrite Hlp, <- app_assoc.
        replace (c + 1 + (m_num_nodes t - (k + 1))) with (c + (m_num_nodes t - k)) by lia.
        reflexivity.
      * rewrite (u32_small (k + 1)) by lia.
        rewrite IH by (auto; lia). cbn [andb].
        replace (c + 1 + (m_num_nodes t - (k + 1))) with (c + (m_num_nodes t - k)) by lia.
        reflexivity.
    + rewrite Hskip. rewrite (u32_small (k + 0)) by lia. rewrite Z.add_0_r.
      rewrite (u32_small (k + 1)) by lia.
      rewrite IH by (auto; lia). rewrite andb_false_r.
      replace (c + 1 + (m_num_nodes t - (k + 1))) with (c + (m_num_nodes t - k)) by lia.
      reflexivity.
Qed.

Lemma unskipped_default : unskipped OBBNode_default.
Proof. unfold unskipped. simpl. lia. Qed.

Lemma run_build_unskipped N r fuel start len par s out :
  run_build N r fuel start len par s out ->
  Forall unskipped (m_nodes (tree s)) ->
  Forall unskipped (m_nodes (tree (snd out))).
Proof.
  induction 1 as
    [ fuel start len par s pts out Hpre Hfuel E0 Hpts Hleaf Eleaf
    | fuel start len par s pts e Hpre Hfuel E0 Hpts Hint Ea
    | fuel start len par s pts k s1 sr s2 e s3 Hpre Hfuel E0 Hpts Hint Ea Es RL IHL
    | fuel start len par s pts k s1 sr s2 kl s3 e s4 Hpre Hfuel E0 Hpts Hint Ea Es
        RL IHL RR IHR
    | fuel start len par s pts k s1 sr s2 kl s3 kr s4 s' Hpre Hfuel E0 Hpts Hint Ea Es
        RL IHL RR IHR Hd Hs' ];
    intros Hall.
  - clear E0. pose proof Hpre as (_ & _ & _ & _ & Hlen & _).
    pose proof (make_leaf_eq N start len par (compute_obb pts r) s Hpre Hleaf) as Hm.
    destruct (allocateNode s) as [[e | k] s1].
    + destruct Hm as [_ Hm]. rewrite Hm in Eleaf. subst out. exact Hall.
    + destruct Hm as (ps' & mp' & Hm & Lp & _). rewrite Hm in Eleaf. subst out.
      cbn [snd tree m_nodes]. apply Forall_app. split; [exact Hall |].
      constructor; [| constructor]. unfold unskipped. simpl. lia.
  - exact Hall.
  - destruct (internal_facts _ _ _ _ _ _ _ _ _ Hpre Hint Ea Es)
      as ((_ & Hns1 & _) & _ & _ & _ & Ht & _).
    apply IHL. rewrite Ht, Hns1. apply Forall_app. split; [exact Hall |].
    constructor; [apply unskipped_default | constructor].
  - destruct (internal_facts _ _ _ _ _ _ _ _ _ Hpre Hint Ea Es)
      as ((_ & Hns1 & _) & _ & _ & _ & Ht & _).
    apply IHR, IHL. rewrite Ht, Hns1. apply Forall_app. split; [exact Hall |].
    constructor; [apply unskipped_default | constructor].
  - destruct (internal_facts _ _ _ _ _ _ _ _ _ Hpre Hint Ea Es)
      as ((_ & Hns1 & _) & _ & _ & _ & Ht & _).
    subst s'. cbn [snd tree set_tree set_nodes m_nodes].
    apply Forall_insert.
    + apply IHR, IHL. rewrite Ht, Hns1. apply Forall_app. split; [exact Hall |].
      constructor; [apply unskipped_default | constructor].
    + unfold unskipped, connected. simpl. lia.
Qed.

Lemma build_from_stopped r N s0 e s' :
  is_u32 (m_node_capacity (tree s0)) ->
  1 <= N < 2 ^ 32 ->
  N <= Z.of_nat (length (obbs s0)) ->
  N <= Z.of_nat (length (internal_coordinates s0)) ->
  1 <= node_capacity ->
  build_from r N s0 = (inl e, s') ->
  arena_ok (tree s') /\ Forall unskipped (m_nodes (tree s')).
Proof.
  intros Hcap HN Hos Hcs Hnc Hrun.
  destruct (build_from_cases r N s0 Hcap HN Hos Hcs Hnc) as (s1 & Es1 & Hr & Hcases).
  pose proof (run_build_arena _ _ _ _ _ _ _ _ Hr) as Ha.
  pose proof (run_build_unskipped _ _ _ _ _ _ _ _ Hr) as Hu.
  destruct (buildNode (S (Z.to_nat N)) r 0 N OBB_INVALID_NODE s1) as [[e' | k] s2].
  - rewrite Hcases in Hrun. injection Hrun as _ <-. cbn [snd] in *.
    split; [exact Ha |]. apply Hu. rewrite Es1. constructor.
  - destruct Hcases as (_ & s3 & E & _). rewrite E in Hrun. discriminate.
Qed.

(** ** The records of a build that stopped *)

Lemma run_build_written N r fuel start len par s out :
  run_build N r fuel start len par s out ->
  forall j n, m_num_nodes (tree s) <= j ->
    nthZ (m_nodes (tree (snd out))) j = Some n ->
    (exists e, fst out = inl e /\ n = OBBNode_default) \/
    (exists k, fst out = inr k /\ j = m_num_nodes (tree s) /\
               parent n = par /\ written j n) \/
    (m_num_nodes (tree s) <= parent n < j /\ written j n).
Proof.
  induction 1 as
    [ fuel start len par s pts out Hpre Hfuel E0 Hpts Hleaf Eleaf
    | fuel start len par s pts e Hpre Hfuel E0 Hpts Hint Ea
    | fuel start len par s pts k s1 sr s2 e s3 Hpre Hfuel E0 Hpts Hint Ea Es RL IHL
    | fuel start len par s pts k s1 sr s2 kl s3 e s4 Hpre Hfuel E0 Hpts Hint Ea Es
        RL IHL RR IHR
    | fuel start len par s pts k s1 sr s2 kl s3 kr s4 s' Hpre Hfuel E0 Hpts Hint Ea Es
        RL IHL RR IHR Hd Hs' ];
    intros j n Hj Hn;
    pose proof Hpre as (Harena & Hscr & HN & Hstart & Hlen & Hend & Hcap);
    pose proof Harena as (Hl & Hle & Hc).
  - clear E0.
    pose proof (make_leaf_eq N start len par (compute_obb pts r) s Hpre Hleaf) as Hm.
    destruct (allocateNode s) as [[e' | k] s1].
    + destruct Hm as [_ Hm]. rewrite Hm in Eleaf. subst out. cbn [snd] in Hn.
      apply nthZ_Some in Hn as [Hr _]. lia.
    + destruct Hm as (ps' & mp' & Hm & Hps & _). rewrite Hm in Eleaf. subst out.
      cbn [snd fst] in *. simpl in Hn.
      pose proof (nthZ_Some _ _ _ Hn) as [Hr _]. rewrite length_app in Hr. simpl in Hr.
      assert (j = Z.of_nat (length (m_nodes (tree s)))) as -> by lia.
      rewrite nthZ_app_end in Hn. injection Hn as <-.
      right; left. exists k. split; [reflexivity |]. split; [lia |].
      split; [reflexivity |]. left. simpl. repeat split; try reflexivity; lia.
  - cbn [snd] in Hn. apply nthZ_Some in Hn as [Hr _]. lia.
  - destruct (internal_facts N start len (compute_obb pts r) s k s1 sr s2 Hpre Hint Ea Es)
      as (Hal & Harena1 & Hsr & Hg & Ht2 & _).
    destruct Hal as (Hk & Hns1 & Hnum1 & _).
    destruct (run_build_frame _ _ _ _ _ _ _ _ RL) as ((newL & HnL) & _).
    cbn [snd fst] in *.
    destruct (Z.eq_dec j k) as [-> | Hne].
    + left. exists e. split; [reflexivity |].
      rewrite HnL, Ht2, Hns1 in Hn.
      rewrite nthZ_app_lt in Hn by (rewrite length_app; simpl; lia).
      replace k with (Z.of_nat (length (m_nodes (tree s)))) in Hn by lia.
      rewrite nthZ_app_end in Hn. congruence.
    + destruct (IHL j n ltac:(rewrite Ht2; lia) Hn)
        as [(e' & _ & Hdef) | [(k' & Hk' & _) | (Hp & Hw)]].
      * left. eauto.
      * discriminate.
      * right; right. split; [rewrite Ht2 in Hp; lia | exact Hw].
  - destruct (internal_facts N start len (compute_obb pts r) s k s1 sr s2 Hpre Hint Ea Es)
      as (Hal & Harena1 & Hsr & Hg & Ht2 & _).
    destruct Hal as (Hk & Hns1 & Hnum1 & _).
    pose proof (run_build_built _ _ _ _ _ _ _ _ _ RL)
      as (Hkl & Harena3 & _ & _ & _ & (newL & HnL) & _ & _ & TL & _ & HnumL & _).
    pose proof (size_pos TL) as HposL.
    destruct Harena3 as (Hl3 & _).
    destruct (run_build_frame _ _ _ _ _ _ _ _ RR) as ((newR & HnR) & _).
    cbn [snd fst] in *.
    destruct (Z.eq_dec j k) as [-> | Hne].
    + left. exists e. split; [reflexivity |].
      rewrite HnR, HnL, Ht2, Hns1 in Hn.
      rewrite !nthZ_app_lt in Hn by (rewrite ?length_app; simpl; lia).
      replace k with (Z.of_nat (length (m_nodes (tree s)))) in Hn by lia.
      rewrite nthZ_app_end in Hn. congruence.
    + destruct (Z.lt_ge_cases j (m_num_nodes (tree s3))) as [Hlt | Hge].
      * rewrite HnR in Hn. rewrite nthZ_app_lt in Hn by lia.
        destruct (IHL j n ltac:(rewrite Ht2; lia) Hn)
          as [(e' & He' & _) | [(k' & _ & Hjk & Hp & Hw) | (Hp & Hw)]].
        -- discriminate.
        -- right; right. split; [rewrite Ht2 in Hjk; lia | exact Hw].
        -- right; right. split; [rewrite Ht2 in Hp; lia | exact Hw].
      * destruct (IHR j n Hge Hn)
          as [(e' & _ & Hdef) | [(k' & Hk' & _) | (Hp & Hw)]].
        -- left. eauto.
        -- discriminate.
        -- right; right. split; [rewrite Ht2 in Hkl; lia | exact Hw].
  - destruct (internal_facts N start len (compute_obb pts r) s k s1 sr s2 Hpre Hint Ea Es)
      as (Hal & Harena1 & Hsr & Hg & Ht2 & _).
    destruct Hal as (Hk & Hns1 & Hnum1 & _).
    pose proof (run_build_built _ _ _ _ _ _ _ _ _ RL)
      as (Hkl & Harena3 & _ & _ & _ & (newL & HnL) & _ & _ & TL & _ & HnumL & _).
    pose proof (run_build_built _ _ _ _ _ _ _ _ _ RR)
      as (Hkr & Harena4 & _ & _ & _ & (newR & HnR) & _ & _ & TR & _ & HnumR & _).
    pose proof (size_pos TL) as HposL. pose proof (size_pos TR) as HposR.
    destruct Harena3 as (Hl3 & _).
    subst s'. cbn [snd fst] in *. simpl in Hn.
    destruct (Z.eq_dec j k) as [-> | Hne].
    + rewrite (nthZ_insert_eq _ _ _ _ Hd) in Hn. injection Hn as <-.
      right; left. exists k. split; [reflexivity |]. split; [exact Hk |].
      split; [reflexivity |]. right. simpl.
      rewrite Ht2 in Hkl. split; [lia |]. split; [lia | reflexivity].
    + rewrite nthZ_insert_ne in Hn by lia.
      destruct (Z.lt_ge_cases j (m_num_nodes (tree s3))) as [Hlt | Hge].
      * rewrite HnR in Hn. rewrite nthZ_app_lt in Hn by lia.
        destruct (IHL j n ltac:(rewrite Ht2; lia) Hn)
          as [(e' & He' & _) | [(k' & _ & Hjk & Hp & Hw) | (Hp & Hw)]].
        -- discriminate.
        -- right; right. split; [rewrite Ht2 in Hjk; lia | exact Hw].
        -- right; right. split; [rewrite Ht2 in Hp; lia | exact Hw].
      * destruct (IHR j n Hge Hn)
          as [(e' & He' & _) | [(k' & _ & Hjk & Hp & Hw) | (Hp & Hw)]].
        -- discriminate.
        -- right; right. split; [rewrite Ht2 in Hkl; lia | exact Hw].
        -- right; right. split; [rewrite Ht2 in Hkl; lia | exact Hw].
Qed.

Lemma build_from_half_built r N s0 e s' :
  is_u32 (m_node_capacity (tree s0)) ->
  1 <= N < 2 ^ 32 ->
  N <= Z.of_nat (length (obbs s0)) ->
  N <= Z.of_nat (length (internal_coordinates s0)) ->
  1 <= node_capacity ->
  build_from r N s0 = (inl e, s') ->
  half_built (tree s').
Proof.
  intros Hcap HN Hos Hcs Hnc Hrun.
  destruct (build_from_cases r N s0 Hcap HN Hos Hcs Hnc) as (s1 & Es1 & Hr & Hcases).
  pose proof (run_build_written _ _ _ _ _ _ _ _ Hr) as Hw.
  destruct (buildNode (S (Z.to_nat N)) r 0 N OBB_INVALID_NODE s1) as [[e' | k] s2].
  - rewrite Hcases in Hrun. injection Hrun as _ <-. cbn [snd fst] in Hw.
    intros j n Hn. pose proof (nthZ_Some _ _ _ Hn) as [Hj _].
    assert (H0 : m_num_nodes (tree s1) = 0) by (rewrite Es1; reflexivity).
    destruct (Hw j n ltac:(lia) Hn) as [(e0 & _ & Hdef) | [(k' & Hk' & _) | (Hp & Hwr)]].
    + left. exact Hdef.
    + discriminate.
    + right. split; [lia | exact Hwr].
  - destruct Hcases as (_ & s3 & E & _). rewrite E in Hrun. discriminate.
Qed.

Lemma run_build_stops_full N r fuel start len par s out :
  run_build N r fuel start len par s out ->
  forall e, fst out = inl e ->
    m_node_capacity (tree (snd out)) = m_num_nodes (tree (snd out)) /\
    ((e = AllocationError /\
      posix_memalign_ok (new_capacity (m_node_capacity (tree (snd out)))) = false) \/
     (e = OutOfRange A_nodes /\ 2 ^ 31 <= m_node_capacity (tree (snd out)))).
Proof.
  induction 1 as
    [ fuel start len par s pts out Hpre Hfuel E0 Hpts Hleaf Eleaf
    | fuel start len par s pts e Hpre Hfuel E0 Hpts Hint Ea
    | fuel start len par s pts k s1 sr s2 e s3 Hpre Hfuel E0 Hpts Hint Ea Es RL IHL
    | fuel start len par s pts k s1 sr s2 kl s3 e s4 Hpre Hfuel E0 Hpts Hint Ea Es
        RL IHL RR IHR
    | fuel start len par s pts k s1 sr s2 kl s3 kr s4 s' Hpre Hfuel E0 Hpts Hint Ea Es
        RL IHL RR IHR Hd Hs' ];
    intros e0 He0; pose proof Hpre as (Harena & _).
  - clear E0.
    pose proof (make_leaf_eq N start len par (compute_obb pts r) s Hpre Hleaf) as Hm.
    pose proof (allocateNode_cases s Harena) as Hc.
    destruct (allocateNode s) as [[e' | k] s1].
    + destruct Hm as [_ Hm]. rewrite Hm in Eleaf. subst out. cbn [snd fst] in *.
      injection He0 as <-. destruct Hc as (Hfull & Hc). split; [exact Hfull | tauto].
    + destruct Hm as (ps' & mp' & Hm & _). rewrite Hm in Eleaf. subst out. discriminate.
  - pose proof (allocateNode_cases s Harena) as Hc. rewrite Ea in Hc.
    cbn [snd fst] in *. injection He0 as <-.
    destruct Hc as (Hfull & Hc). split; [exact Hfull | tauto].
  - exact (IHL e0 He0).
  - exact (IHR e0 He0).
  - discriminate.
Qed.

Lemma build_from_stops_full r N s0 e s' :
  is_u32 (m_node_capacity (tree s0)) ->
  1 <= N < 2 ^ 32 ->
  N <= Z.of_nat (length (obbs s0)) ->
  N <= Z.of_nat (length (internal_coordinates s0)) ->
  1 <= node_capacity ->
  build_from r N s0 = (inl e, s') ->
  m_node_capacity (tree s') = m_num_nodes (tree s') /\
  ((e = AllocationError /\
    posix_memalign_ok (new_capacity (m_node_capacity (tree s'))) = false) \/
   (e = OutOfRange A_nodes /\ 2 ^ 31 <= m_node_capacity (tree s'))).
Proof.
  intros Hcap HN Hos Hcs Hnc Hrun.
  destruct (build_from_cases r N s0 Hcap HN Hos Hcs Hnc) as (s1 & Es1 & Hr & Hcases).
  pose proof (run_build_stops_full _ _ _ _ _ _ _ _ Hr) as Hfull.
  destruct (buildNode (S (Z.to_nat N)) r 0 N OBB_INVALID_NODE s1) as [[e' | k] s2].
  - rewrite Hcases in Hrun. injection Hrun as <- <-. exact (Hfull e' eq_refl).
  - destruct Hcases as (_ & s3 & E & _). rewrite E in Hrun. discriminate.
Qed.

(** ** Where [mapping] points when a build stops *)

Lemma mapped_placed mp T : forall k p,
  mapped mp k T -> p ∈ flat T ->
  exists j, k <= j < k + size T /\ nthZ mp p = Some j.
Proof.
  induction T as [ps | l IHl r IHr]; intros k p Hm Hp; simpl in *.
  - exists k. split; [lia | auto].
  - pose proof (size_pos l). pose proof (size_pos r). destruct Hm as [Hml Hmr].
    apply elem_of_app in Hp as [Hp | Hp].
    + destruct (IHl _ _ Hml Hp) as (j & Hj & E). exists j. split; [lia | exact E].
    + destruct (IHr _ _ Hmr Hp) as (j & Hj & E). exists j. split; [lia | exact E].
Qed.

Lemma built_placed N start len par s s' k :
  built N start len par s s' k ->
  m_num_nodes (tree s) <= m_num_nodes (tree s') /\
  forall p j, nthZ (m_mapping (tree s')) p = Some j ->
    nthZ (m_mapping (tree s)) p = Some j \/
    m_num_nodes (tree s) <= j < m_num_nodes (tree s').
Proof.
  intros (Hk & _ & _ & _ & _ & _ & _ & Hmp & T & _ & Hnum & Hflat & Hmapped).
  pose proof (size_pos T). split; [lia |].
  intros p j Hp.
  destruct (decide (p ∈ segZ (idx s') start len)) as [Hin | Hout].
  - right. rewrite <- Hflat in Hin.
    destruct (mapped_placed _ _ _ _ Hmapped Hin) as (j' & Hj' & E).
    assert (j' = j) by congruence. lia.
  - left. rewrite <- (Hmp p Hout). exact Hp.
Qed.

Lemma run_build_placed N r fuel start len par s out :
  run_build N r fuel start len par s out ->
  m_num_nodes (tree s) <= m_num_nodes (tree (snd out)) /\
  forall p j, nthZ (m_mapping (tree (snd out))) p = Some j ->
    nthZ (m_mapping (tree s)) p = Some j \/
    m_num_nodes (tree s) <= j < m_num_nodes (tree (snd out)).
Proof.
  induction 1 as
    [ fuel start len par s pts out Hpre Hfuel E0 Hpts Hleaf Eleaf
    | fuel start len par s pts e Hpre Hfuel E0 Hpts Hint Ea
    | fuel start len par s pts k s1 sr s2 e s3 Hpre Hfuel E0 Hpts Hint Ea Es RL IHL
    | fuel start len par s pts k s1 sr s2 kl s3 e s4 Hpre Hfuel E0 Hpts Hint Ea Es
        RL IHL RR IHR
    | fuel start len par s pts k s1 sr s2 kl s3 kr s4 s' Hpre Hfuel E0 Hpts Hint Ea Es
        RL IHL RR IHR Hd Hs' ].
  - pose proof (buildNode_spec N r (S fuel) start len par s Hpre Hfuel) as Hb.
    rewrite E0 in Hb. destruct out as [[e | k] s']; cbn [snd].
    + clear Hb E0.
      pose proof (make_leaf_eq N start len par (compute_obb pts r) s Hpre Hleaf) as Hm.
      destruct (allocateNode s) as [[e' | k] s1].
      * destruct Hm as [_ Hm]. rewrite Hm in Eleaf. injection Eleaf as _ <-.
        split; [lia | auto].
      * destruct Hm as (ps' & mp' & Hm & _). rewrite Hm in Eleaf. discriminate.
    + exact (built_placed _ _ _ _ _ _ _ Hb).
  - cbn [snd]. split; [lia | auto].
  - destruct (internal_facts N start len (compute_obb pts r) s k s1 sr s2 Hpre Hint Ea Es)
      as (Hal & Harena1 & Hsr & Hg & Ht2 & _).
    destruct Hal as (Hk & Hns1 & Hnum1 & _ & Hmp1 & _).
    cbn [snd] in *. destruct IHL as [Hle IHL]. rewrite Ht2 in Hle, IHL.
    split; [lia |]. intros p j Hp.
    destruct (IHL p j Hp) as [Hsame | Hj].
    + left. rewrite <- Hmp1. exact Hsame.
    + right. lia.
  - destruct (internal_facts N start len (compute_obb pts r) s k s1 sr s2 Hpre Hint Ea Es)
      as (Hal & Harena1 & Hsr & Hg & Ht2 & _).
    destruct Hal as (Hk & Hns1 & Hnum1 & _ & Hmp1 & _).
    destruct (built_placed _ _ _ _ _ _ _ (run_build_built _ _ _ _ _ _ _ _ _ RL))
      as [HleL HpL].
    cbn [snd] in *. destruct IHR as [Hle IHR]. rewrite Ht2 in HleL, HpL.
    split; [lia |]. intros p j Hp.
    destruct (IHR p j Hp) as [Hsame | Hj]; [| right; lia].
    destruct (HpL p j Hsame) as [Hsame' | Hj]; [| right; lia].
    left. rewrite <- Hmp1. exact Hsame'.
  - pose proof (buildNode_spec N r (S fuel) start len par s Hpre Hfuel) as Hb.
    rewrite E0 in Hb. exact (built_placed _ _ _ _ _ _ _ Hb).
Qed.

Lemma build_from_placed r N s0 e s' :
  is_u32 (m_node_capacity (tree s0)) ->
  1 <= N < 2 ^ 32 ->
  N <= Z.of_nat (length (obbs s0)) ->
  N <= Z.of_nat (length (internal_coordinates s0)) ->
  1 <= node_capacity ->
  build_from r N s0 = (inl e, s') ->
  forall p j, nthZ (m_mapping (tree s')) p = Some j ->
    j = OBB_INVALID_NODE \/ 0 <= j < m_num_nodes (tree s').
Proof.
  intros Hcap HN Hos Hcs Hnc Hrun.
  destruct (build_from_cases r N s0 Hcap HN Hos Hcs Hnc) as (s1 & Es1 & Hr & Hcases).
  pose proof (run_build_placed _ _ _ _ _ _ _ _ Hr) as [_ Hpl].
  destruct (buildNode (S (Z.to_nat N)) r 0 N OBB_INVALID_NODE s1) as [[e' | k] s2].
  - rewrite Hcases in Hrun. injection Hrun as _ <-. cbn [snd] in Hpl.
    intros p j Hp.
    destruct (Hpl p j Hp) as [Hinit | Hj].
    + left. rewrite Es1 in Hinit. simpl in Hinit.
      apply nthZ_Some in Hinit as [_ Hinit].
      apply lookup_replicate in Hinit as [-> _]. reflexivity.
    + right. rewrite Es1 in Hj. simpl in Hj. lia.
  - destruct Hcases as (_ & s3 & E & _). rewrite E in Hrun. discriminate.
Qed.

Lemma segZ_inhabited {A} (l : list A) start len :
  0 <= start -> 1 <= len -> start + len <= Z.of_nat (length l) ->
  exists x, x ∈ segZ l start len.
Proof.
  intros Hs Hl Hle. pose proof (segZ_length l start len Hs ltac:(lia) Hle) as E.
  destruct (segZ l start len) as [| x xs]; [simpl in E; lia |].
  exists x. left.
Qed.

Lemma run_build_unplaced N r fuel start len par s out :
  run_build N r fuel start len par s out ->
  (forall p, p ∈ segZ (idx s) start len ->
             nthZ (m_mapping (tree s)) p = Some OBB_INVALID_NODE) ->
  forall e, fst out = inl e ->
  exists p, p ∈ segZ (idx s) start len /\
            nthZ (m_mapping (tree (snd out))) p = Some OBB_INVALID_NODE.
Proof.
  induction 1 as
    [ fuel start len par s pts out Hpre Hfuel E0 Hpts Hleaf Eleaf
    | fuel start len par s pts e Hpre Hfuel E0 Hpts Hint Ea
    | fuel start len par s pts k s1 sr s2 e s3 Hpre Hfuel E0 Hpts Hint Ea Es RL IHL
    | fuel start len par s pts k s1 sr s2 kl s3 e s4 Hpre Hfuel E0 Hpts Hint Ea Es
        RL IHL RR IHR
    | fuel start len par s pts k s1 sr s2 kl s3 kr s4 s' Hpre Hfuel E0 Hpts Hint Ea Es
        RL IHL RR IHR Hd Hs' ];
    intros Hun e0 He0;
    pose proof Hpre as (Harena & Hscr & HN & Hstart & Hlen & Hend & Hcap);
    pose proof (scratch_idx_length N s ltac:(lia) Hscr) as Hixlen.
  - clear E0.
    pose proof (make_leaf_eq N start len par (compute_obb pts r) s Hpre Hleaf) as Hm.
    destruct (allocateNode s) as [[e' | k] s1].
    + destruct Hm as [_ Hm]. rewrite Hm in Eleaf. subst out. cbn [snd].
      destruct (segZ_inhabited (idx s) start len) as [p Hp]; try lia. eauto.
    + destruct Hm as (ps' & mp' & Hm & _). rewrite Hm in Eleaf. subst out. discriminate.
  - cbn [snd]. destruct (segZ_inhabited (idx s) start len) as [p Hp]; try lia. eauto.
  - destruct (internal_facts N start len (compute_obb pts r) s k s1 sr s2 Hpre Hint Ea Es)
      as (Hal & Harena1 & Hsr & Hg & Ht2 & Hlock & _).
    destruct Hal as (Hk & Hns1 & Hnum1 & _ & Hmp1 & _).
    assert (Hback : forall p a n, start <= a -> 0 <= n -> a + n <= start + len ->
              p ∈ segZ (idx s2) a n -> p ∈ segZ (idx s) start len).
    { intros p a n Ha Hn Han Hp.
      pose proof (lockstep_seg _ _ _ _ _ _ _ Hlock Hstart Ha Hn Han Hp) as Hq.
      replace (start + len - start) with len in Hq by lia. exact Hq. }
    cbn [snd fst] in *.
    destruct (IHL ltac:(intros p Hp; rewrite Ht2, Hmp1; apply Hun;
                          apply (Hback p start (guard len sr)); [lia | lia | lia | exact Hp])
                e eq_refl) as (p & Hp & Ep).
    exists p. split; [| exact Ep].
    apply (Hback p start (guard len sr)); [lia | lia | lia | exact Hp].
  - destruct (internal_facts N start len (compute_obb pts r) s k s1 sr s2 Hpre Hint Ea Es)
      as (Hal & Harena1 & Hsr & Hg & Ht2 & Hlock & _).
    destruct Hal as (Hk & Hns1 & Hnum1 & _ & Hmp1 & _).
    assert (Hback : forall p a n, start <= a -> 0 <= n -> a + n <= start + len ->
              p ∈ segZ (idx s2) a n -> p ∈ segZ (idx s) start len).
    { intros p a n Ha Hn Han Hp.
      pose proof (lockstep_seg _ _ _ _ _ _ _ Hlock Hstart Ha Hn Han Hp) as Hq.
      replace (start + len - start) with len in Hq by lia. exact Hq. }
    pose proof (run_build_inv _ _ _ _ _ _ _ _ RL) as (HpreL & _).
    pose proof (run_build_built _ _ _ _ _ _ _ _ _ RL)
      as (Hkl & Harena3 & Hscr3 & _ & _ & _ & Hix3 & Hmp3 & _).
    destruct HpreL as (_ & Hscr2 & _).
    pose proof (scratch_idx_length N s2 ltac:(lia) Hscr2) as Hixlen2.
    pose proof (scratch_idx_length N s3 ltac:(lia) Hscr3) as Hixlen3.
    pose proof (scratch_idx_NoDup N s3 Hscr3) as Hnd3.
    assert (Hseg : segZ (idx s3) (start + guard len sr) (len - guard len sr) =
                   segZ (idx s2) (start + guard len sr) (len - guard len sr)).
    { apply segZ_ext; [lia | lia | lia |]. intros j Hj. apply Hix3. lia. }
    cbn [snd fst] in *.
    assert (Hun3 : forall p, p ∈ segZ (idx s3) (start + guard len sr) (len - guard len sr) ->
                     nthZ (m_mapping (tree s3)) p = Some OBB_INVALID_NODE).
    { intros p Hp. rewrite Hmp3.
      - rewrite Ht2, Hmp1. apply Hun. rewrite Hseg in Hp.
        apply (Hback p (start + guard len sr) (len - guard len sr)); [lia | lia | lia | exact Hp].
      - intros Hleft.
        apply (segZ_disjoint (idx s3) start (guard len sr) (start + guard len sr)
                 (len - guard len sr) p Hnd3); [lia | lia | lia | lia | exact Hleft | exact Hp]. }
    destruct (IHR Hun3 e eq_refl) as (p & Hp & Ep).
    exists p. split; [| exact Ep]. rewrite Hseg in Hp.
    apply (Hback p (start + guard len sr) (len - guard len sr)); [lia | lia | lia | exact Hp].
  - discriminate.
Qed.

Lemma build_from_unplaced r N s0 e s' :
  is_u32 (m_node_capacity (tree s0)) ->
  1 <= N < 2 ^ 32 ->
  N <= Z.of_nat (length (obbs s0)) ->
  N <= Z.of_nat (length (internal_coordinates s0)) ->
  1 <= node_capacity ->
  build_from r N s0 = (inl e, s') ->
  exists p, 0 <= p < N /\ nthZ (m_mapping (tree s')) p = Some OBB_INVALID_NODE.
Proof.
  intros Hcap HN Hos Hcs Hnc Hrun.
  destruct (build_from_cases r N s0 Hcap HN Hos Hcs Hnc) as (s1 & Es1 & Hr & Hcases).
  pose proof (run_build_unplaced _ _ _ _ _ _ _ _ Hr) as Hun.
  assert (Hseg : forall p, p ∈ segZ (idx s1) 0 N -> 0 <= p < N).
  { intros p Hp. rewrite Es1 in Hp. simpl in Hp.
    apply segZ_elem_of in Hp as (j & _ & Hj); [| lia | lia].
    apply nthZ_elem_of, elem_of_seqZ in Hj. lia. }
  destruct (buildNode (S (Z.to_nat N)) r 0 N OBB_INVALID_NODE s1) as [[e' | k] s2].
  - rewrite Hcases in Hrun. injection Hrun as _ <-. cbn [snd fst] in Hun.
    destruct (Hun ltac:(intros p Hp; apply Hseg in Hp; rewrite Es1; simpl;
                          rewrite nthZ_lookup by lia; apply lookup_replicate_2; lia)
                e' eq_refl) as (p & Hp & Ep).
    exists p. split; [exact (Hseg p Hp) | exact Ep].
  - destruct Hcases as (_ & s3 & E & _). rewrite E in Hrun. discriminate.
Qed.

(** * A build that stops, and [update] *)

(** C8, as the code has it.  When the build stops on an allocation
    failure the error leaves [buildTree], the root is still invalid, and
    no parent link of an allocated node dangles: it is invalid or it
    names a node allocated earlier.  The parent is invalid in the records
    that are still as [allocateNode] made them and in no other: the first
    node, and every internal node whose children were still being built.
    Every other record is written, a leaf with its particles or an
    internal node connected to its children, and its parent is a node
    allocated earlier.  The build stops for no other reason than the
    allocator, or an arena that has outgrown 32 bit indices: the arena it
    leaves is full, and the allocator refused the block of twice its
    capacity, or the capacity is [2^31] or more.  [allocateNode] throws
    when the allocator refuses the new block and leaves the tree as it
    was, and an error passes through every step that follows. *)
Theorem buildTree_allocation_failure t os cs r N e s' :
  inputs_ok t os cs N ->
  buildTree t os cs r N = (inl e, s') ->
  (e = AllocationError \/ e = OutOfRange A_nodes) /\
  m_root (tree s') = OBB_INVALID_NODE /\
  parents_older (tree s') /\
  half_built (tree s') /\
  (forall k n, nthZ (m_nodes (tree s')) k = Some n ->
     (parent n = OBB_INVALID_NODE <-> n = OBBNode_default) /\
     (k = 0 -> n = OBBNode_default) /\
     (n <> OBBNode_default -> 0 <= parent n < k /\ written k n)) /\
  m_node_capacity (tree s') = m_num_nodes (tree s') /\
  ((e = AllocationError /\
    posix_memalign_ok (new_capacity (m_node_capacity (tree s'))) = false) \/
   (e = OutOfRange A_nodes /\ 2 ^ 31 <= m_node_capacity (tree s'))) /\
  (forall s,
     m_node_capacity (tree s) <= m_num_nodes (tree s) ->
     posix_memalign_ok (new_capacity (m_node_capacity (tree s))) = false ->
     allocateNode s = (inl AllocationError, s)) /\
  (forall (A B : Type) (m : M A) (f : A -> M B) s0 e0 s1,
     m s0 = (inl e0, s1) -> bind m f s0 = (inl e0, s1)).
Proof.
  intros Hin Hrun.
  destruct (buildTree_failed _ _ _ _ _ _ _ Hin Hrun) as (He & Hp & Hr).
  pose proof Hin as (Hcap & HN & Hos & Hcs & Hnc).
  pose proof Hrun as Hrun'. unfold buildTree in Hrun'.
  pose proof (build_from_half_built r N (mkSt t os [] cs) e s' Hcap HN Hos Hcs Hnc Hrun') as Hhalf.
  destruct (build_from_stopped r N (mkSt t os [] cs) e s' Hcap HN Hos Hcs Hnc Hrun')
    as ((Hl & Hle & Hc) & _).
  split; [exact He |]. split; [exact Hr |]. split; [exact Hp |].
  destruct (build_from_stops_full r N (mkSt t os [] cs) e s' Hcap HN Hos Hcs Hnc Hrun')
    as (Hstop & Hcause).
  split; [exact Hhalf |]. split; [| split; [exact Hstop | split; [exact Hcause | split]]].
  - intros k n Hn. pose proof (nthZ_Some _ _ _ Hn) as [Hk _].
    destruct (Hhalf k n Hn) as [-> | (Hpar & Hw)].
    + split; [split; reflexivity |]. split; [reflexivity | congruence].
    + assert (Hne : n <> OBBNode_default).
      { intros ->. simpl in Hpar. unfold OBB_INVALID_NODE in Hpar. lia. }
      split; [| split].
      * split; [unfold OBB_INVALID_NODE; lia | contradiction].
      * lia.
      * auto.
  - intros s Hfull Hfail. unfold allocateNode, bind, gets. simpl.
    destruct (Z.leb_spec (m_node_capacity (tree s)) (m_num_nodes (tree s))); [| lia].
    rewrite Hfail. reflexivity.
  - intros A B m f s0 e0 s1 Hm. unfold bind. rewrite Hm. reflexivity.
Qed.

(** C9, against the description of [update] in the specification, on
    the tree that [buildTree] leaves, whether the build returned or
    stopped.  [update p new_obb] with [mapping[p]] valid succeeds; the
    node [mapping[p]] then holds [new_obb] and its links, skip and
    particles are as before; every other node record, the node count, the
    root and the mapping are as before.  With [mapping[p]] invalid, or
    with [p] outside of the mapping, it fails with [UnknownParticle] and
    gives no tree.  After a build that returned, each of the particles
    [0 .. N-1] has a valid entry, so that [update] fails for the indices
    outside of this range and for no other; a build that stopped leaves
    at least one of them with an invalid entry, for which [update]
    fails. *)
Theorem update_locality t os cs r N res s' new_obb :
  inputs_ok t os cs N ->
  buildTree t os cs r N = (res, s') ->
  (forall p k, nthZ (m_mapping (tree s')) p = Some k -> k <> OBB_INVALID_NODE ->
     exists t' n n',
       update (tree s') p new_obb = inr t' /\
       nthZ (m_nodes (tree s')) k = Some n /\
       nthZ (m_nodes t') k = Some n' /\
       obb n' = new_obb /\
       left n' = left n /\ right n' = right n /\ parent n' = parent n /\
       skip n' = skip n /\ particles n' = particles n /\
       num_particles n' = num_particles n /\
       (forall j, j <> k -> nthZ (m_nodes t') j = nthZ (m_nodes (tree s')) j) /\
       m_num_nodes t' = m_num_nodes (tree s') /\
       m_root t' = m_root (tree s') /\
       m_mapping t' = m_mapping (tree s')) /\
  (forall p, nthZ (m_mapping (tree s')) p = Some OBB_INVALID_NODE \/
             nthZ (m_mapping (tree s')) p = None ->
     update (tree s') p new_obb = inl UnknownParticle) /\
  (res = inr tt ->
   forall p, update (tree s') p new_obb = inl UnknownParticle <-> ~ (0 <= p < N)) /\
  (forall e, res = inl e ->
     exists p, 0 <= p < N /\
               nthZ (m_mapping (tree s')) p = Some OBB_INVALID_NODE /\
               update (tree s') p new_obb = inl UnknownParticle).
Proof.
  intros Hin Hrun.
  assert (Hfail : forall p, nthZ (m_mapping (tree s')) p = Some OBB_INVALID_NODE \/
                            nthZ (m_mapping (tree s')) p = None ->
                            update (tree s') p new_obb = inl UnknownParticle).
  { intros p [Hk | Hk]; unfold update; rewrite Hk; reflexivity. }
  assert (Hwrite : forall p k n,
            nthZ (m_mapping (tree s')) p = Some k -> k <> OBB_INVALID_NODE ->
            nthZ (m_nodes (tree s')) k = Some n ->
            exists t' n0 n',
              update (tree s') p new_obb = inr t' /\
              nthZ (m_nodes (tree s')) k = Some n0 /\
              nthZ (m_nodes t') k = Some n' /\
              obb n' = new_obb /\
              left n' = left n0 /\ right n' = right n0 /\ parent n' = parent n0 /\
              skip n' = skip n0 /\ particles n' = particles n0 /\
              num_particles n' = num_particles n0 /\
              (forall j, j <> k -> nthZ (m_nodes t') j = nthZ (m_nodes (tree s')) j) /\
              m_num_nodes t' = m_num_nodes (tree s') /\
              m_root t' = m_root (tree s') /\
              m_mapping t' = m_mapping (tree s')).
  { intros p k n Hk Hne Hn.
    pose proof (nthZ_Some _ _ _ Hn) as [Hkr _].
    unfold update. rewrite Hk.
    destruct (Z.eqb_spec k OBB_INVALID_NODE) as [Heq | _]; [contradiction |].
    rewrite Hn. eexists. exists n, (set_obb new_obb n).
    split; [reflexivity |]. simpl.
    split; [reflexivity |].
    split; [eapply nthZ_insert_eq, Hn |].
    repeat split; auto.
    intros j Hj. apply nthZ_insert_ne; lia. }
  split; [| split; [exact Hfail |]].
  - intros p k Hk Hne. destruct res as [e | []].
    + pose proof Hin as (Hcap & HN & Hos & Hcs & Hnc).
      pose proof Hrun as Hrun'. unfold buildTree in Hrun'.
      destruct (build_from_stopped r N (mkSt t os [] cs) e s' Hcap HN Hos Hcs Hnc Hrun')
        as ((Hl & Hle & Hc) & _).
      destruct (build_from_placed r N (mkSt t os [] cs) e s' Hcap HN Hos Hcs Hnc Hrun' p k Hk)
        as [Heq | Hkr]; [contradiction |].
      destruct (nthZ_is_Some (m_nodes (tree s')) k ltac:(lia)) as [n Hn].
      exact (Hwrite p k n Hk Hne Hn).
    + pose proof (buildTree_well_built _ _ _ _ _ _ Hin Hrun) as Hwb.
      pose proof (nthZ_Some _ _ _ Hk) as [Hp _].
      pose proof Hwb as (_ & _ & Hmplen & _).
      destruct (well_built_leaf_of N _ p Hwb ltac:(lia)) as (k' & (n & Hn & _) & Hk').
      pose proof (well_built_mapping N _ k' p Hwb Hk') as Hm.
      assert (k' = k) as -> by congruence.
      exact (Hwrite p k n Hk Hne Hn).
  - split.
    + intros -> p.
      pose proof (buildTree_well_built _ _ _ _ _ _ Hin Hrun) as Hwb.
      pose proof Hwb as (_ & _ & Hmplen & _).
      split.
      * intros Hu Hp.
        destruct (well_built_leaf_of N _ p Hwb Hp) as (k & (n & Hn & _) & Hk).
        pose proof (well_built_mapping N _ k p Hwb Hk) as Hm.
        pose proof (nthZ_Some _ _ _ Hn) as [Hkr _].
        pose proof Hwb as ((Hl & Hle & Hc) & _).
        destruct (Hwrite p k n Hm ltac:(unfold OBB_INVALID_NODE; lia) Hn)
          as (t' & _ & _ & E & _).
        congruence.
      * intros Hp. apply Hfail. right. unfold nthZ.
        destruct (Z.ltb_spec p 0); [reflexivity |].
        apply lookup_ge_None. lia.
    + intros e -> .
      pose proof Hin as (Hcap & HN & Hos & Hcs & Hnc).
      pose proof Hrun as Hrun'. unfold buildTree in Hrun'.
      destruct (build_from_unplaced r N (mkSt t os [] cs) e s' Hcap HN Hos Hcs Hnc Hrun')
        as (p & Hp & Ep).
      exists p. split; [exact Hp |]. split; [exact Ep |]. apply Hfail. left. exact Ep.
Qed.

(** * Further properties of the header *)

(** X1. In a built tree [height(p)] is the number of nodes on the way
    from the root to the leaf of particle [p], the leaf and the root
    included: the nodes from which the leaf is reached through child
    links.  A particle in the root has height one; no height exceeds the
    number of nodes. *)
Theorem height_counts_ancestors t os cs r N s' p :
  inputs_ok t os cs N ->
  buildTree t os cs r N = (inr tt, s') ->
  0 <= p < N ->
  exists k anc,
    nthZ (m_mapping (tree s')) p = Some k /\
    p ∈ leaf_particles (tree s') k /\
    height (tree s') p = inr (Z.of_nat (length anc)) /\
    StronglySorted Z.lt anc /\
    (forall a, a ∈ anc <->
               (0 <= a < m_num_nodes (tree s') /\ reach (m_nodes (tree s')) a k)) /\
    1 <= Z.of_nat (length anc) <= m_num_nodes (tree s').
Proof.
  intros Hin Hrun Hp.
  pose proof (buildTree_well_built _ _ _ _ _ _ Hin Hrun) as Hwb.
  exact (well_built_height N _ p Hwb Hp).
Qed.

(** X2. In a built tree the parent links mirror the child links: the
    root, at index 0, has no parent, and every other node [j] names as
    its parent an internal node of smaller index whose left or right
    child is [j]. *)
Theorem buildTree_parent_links t os cs r N s' j :
  inputs_ok t os cs N ->
  buildTree t os cs r N = (inr tt, s') ->
  0 <= j < m_num_nodes (tree s') ->
  exists n, nthZ (m_nodes (tree s')) j = Some n /\
    ((j = 0 /\ parent n = OBB_INVALID_NODE) \/
     (0 < j /\ 0 <= parent n < j /\
      exists m, nthZ (m_nodes (tree s')) (parent n) = Some m /\
                isNodeLeaf m = false /\ (left m = j \/ right m = j))).
Proof.
  intros Hin Hrun Hj.
  pose proof (buildTree_well_built _ _ _ _ _ _ Hin Hrun) as Hwb.
  pose proof Hwb as ((Hl & _) & _).
  destruct (nthZ_is_Some (m_nodes (tree s')) j) as [n Hn]; [lia |].
  exists n. split; [exact Hn |].
  exact (well_built_parents N _ j n Hwb Hn).
Qed.

(** X3. [query] reads nothing of the [hits] it is handed: on any arena,
    well formed or not, and whatever the outcome, the call with [hits] is
    the call with an empty vector with [hits] put in front. *)
Theorem query_keeps_hits t q hits :
  query t hits q = prepend hits (query t [] q).
Proof. unfold query. apply query_loop_prepend. Qed.

(** X4. On a built tree what [query] appends is a subsequence of the
    particles in leaf order: no particle is reported twice, and every
    reported index is a particle of the tree. *)
Theorem query_reports_once t os cs r N s' :
  inputs_ok t os cs N ->
  buildTree t os cs r N = (inr tt, s') ->
  forall q hits,
    exists c out,
      query (tree s') hits q = inr (c, hits ++ out) /\
      out `sublist_of` all_leaf_particles (tree s') /\
      NoDup out /\
      forall p, p ∈ out -> 0 <= p < N.
Proof.
  intros Hin Hrun q hits.
  pose proof (buildTree_well_built _ _ _ _ _ _ Hin Hrun) as Hwb.
  destruct (query_built_more N _ q hits Hwb) as (c & out & E & Hsub & _).
  pose proof (well_built_particles N _ Hwb) as Hperm.
  exists c, out. split; [exact E |]. split; [exact Hsub |].
  assert (Hnd : NoDup (all_leaf_particles (tree s'))).
  { rewrite Hperm. apply NoDup_seqZ. }
  split; [eapply sublist_NoDup; eauto |].
  intros p Hp. eapply elem_of_sublist in Hp; [| exact Hsub].
  rewrite Hperm in Hp. apply elem_of_seqZ in Hp. lia.
Qed.

(** X5. The number of box tests of [query] on a built tree lies between
    one and the number of nodes.  When the box of the root misses the
    query, one test is made and nothing is appended; when every box of
    the tree overlaps it, every node is tested and every particle is
    appended, in leaf order. *)
Theorem query_test_count t os cs r N s' :
  inputs_ok t os cs N ->
  buildTree t os cs r N = (inr tt, s') ->
  forall q hits,
    exists c out,
      query (tree s') hits q = inr (c, hits ++ out) /\
      1 <= c <= m_num_nodes (tree s') /\
      ((forall j n, nthZ (m_nodes (tree s')) j = Some n -> overlap (obb n) q = true) ->
       c = m_num_nodes (tree s') /\ out = all_leaf_particles (tree s')) /\
      (forall n, nthZ (m_nodes (tree s')) 0 = Some n -> overlap (obb n) q = false ->
       c = 1 /\ out = []).
Proof.
  intros Hin Hrun q hits.
  pose proof (buildTree_well_built _ _ _ _ _ _ Hin Hrun) as Hwb.
  destruct (query_built_more N _ q hits Hwb) as (c & out & E & _ & Hc & Hall & Hroot).
  exists c, out. auto.
Qed.

(** X6. [updateSkip] writes skip fields of internal nodes and nothing
    else: from any state, for any start node and whatever the outcome,
    the arena keeps its length, every record keeps all fields but
    [skip], a leaf keeps its record, and the counts, the root, the
    mapping and the caller's arrays are untouched. *)
Theorem updateSkip_writes_skips_only fuel i s :
  skips_only s (snd (updateSkip fuel i s)).
Proof. apply updateSkip_skips_only. Qed.

(** X7. [allocateNode] on an arena with [m_num_nodes <= m_node_capacity <
    2^32].  When it returns, the index is the old [m_num_nodes], the
    records in use before are kept, the new record is a default one, and
    the capacity is the old one if there was room and else its double
    (sixteen from zero).  When it does not return the state is as
    before, the arena was full, and either the allocator refused the
    doubled block or the capacity was at least [2^31]. *)
Theorem allocateNode_contract s :
  arena_ok (tree s) ->
  match allocateNode s with
  | (inr k, s') =>
      allocated s s' k /\ arena_ok (tree s') /\
      (forall j, 0 <= j < k ->
         nthZ (m_nodes (tree s')) j = nthZ (m_nodes (tree s)) j) /\
      nthZ (m_nodes (tree s')) k = Some OBBNode_default /\
      m_node_capacity (tree s') =
        (if m_num_nodes (tree s) <? m_node_capacity (tree s)
         then m_node_capacity (tree s)
         else new_capacity (m_node_capacity (tree s)))
  | (inl e, s') =>
      s' = s /\ m_node_capacity (tree s) = m_num_nodes (tree s) /\
      ((e = AllocationError /\
        posix_memalign_ok (new_capacity (m_node_capacity (tree s))) = false) \/
       (e = OutOfRange A_nodes /\ 2 ^ 31 <= m_node_capacity (tree s)))
  end.
Proof.
  intros Harena. pose proof (allocateNode_spec s Harena) as Hspec.
  pose proof (allocateNode_cases s Harena) as Hcases.
  pose proof Harena as (Hlen & Hle & Hcap).
  destruct (allocateNode s) as [[e | k] s'].
  - destruct Hspec as [-> _]. destruct Hcases as (Heq & He).
    split; [reflexivity |]. split; [exact Heq |]. tauto.
  - destruct Hspec as (Hal & Harena'). destruct Hcases as (Hc & _).
    split; [exact Hal |]. split; [exact Harena' |].
    destruct Hal as (Hk & Hns & _). rewrite Hk, Hns.
    split; [intros j Hj; apply nthZ_app_lt; lia |].
    split; [rewrite <- Hlen; apply nthZ_app_end | exact Hc].
Qed.

(** X8. The doubling of the capacity is done in 32 bits.  On a full arena
    of [2^31] records or more the doubled capacity is smaller than the
    number of records in use, so the copy into the new block does not
    fit: [allocateNode] never returns a node there, whatever the
    allocator answers. *)
Theorem allocateNode_capacity_wraps s :
  m_node_capacity (tree s) <= m_num_nodes (tree s) ->
  2 ^ 31 <= m_node_capacity (tree s) < 2 ^ 32 ->
  new_capacity (m_node_capacity (tree s)) < m_num_nodes (tree s) /\
  allocateNode s =
  (inl (if posix_memalign_ok (new_capacity (m_node_capacity (tree s)))
        then OutOfRange A_nodes else AllocationError), s).
Proof.
  intros Hfull Hcap.
  pose proof (new_capacity_wraps _ Hcap) as Hw.
  split; [lia |].
  unfold allocateNode, bind, gets. cbv beta.
  destruct (Z.leb_spec (m_node_capacity (tree s)) (m_num_nodes (tree s))); [| lia].
  destruct (posix_memalign_ok (new_capacity (m_node_capacity (tree s)))); [| reflexivity].
  destruct (Z.eqb_spec (m_node_capacity (tree s)) 0) as [Hz | _]; [lia |].
  destruct (Z.ltb_spec (new_capacity (m_node_capacity (tree s))) (m_num_nodes (tree s)));
    [reflexivity | lia].
Qed.

(** X9. [buildTree(obbs, N)] is [buildTree(obbs, internal_coordinates,
    0, N)] on the corner lists of the first [N] boxes, taken before any
    box is moved; with fewer than [N] boxes it reads past the end of
    [obbs]. *)
Theorem buildTree_obbs_corners t os N :
  0 <= N < 2 ^ 32 ->
  (N <= Z.of_nat (length os) ->
   buildTree_obbs t os N =
   buildTree t os (map getCorners (take (Z.to_nat N) os)) OverlapReal_zero N) /\
  (Z.of_nat (length os) < N ->
   fst (buildTree_obbs t os N) = inl (OutOfRange A_obbs)).
Proof.
  intros HN. split; intros Hlen.
  - apply buildTree_obbs_eq.
    rewrite corners_of_Some by lia. reflexivity.
  - unfold buildTree_obbs. rewrite corners_of_None by lia. reflexivity.
Qed.

(** X10. The sweep of [buildNode] over the sub-range [[start, start +
    len)], from [i = 0] and [start_right = len], ends within [len]
    iterations.  It leaves the tree alone and moves the entries of
    [obbs], [idx] and [internal_coordinates] together, inside the
    sub-range only; [idx] is permuted.  On return the boxes at
    [[start, start + start_right)] are on the left of the centre of
    [my_obb] and those at [[start + start_right, start + len)] are not. *)
Theorem sweep_partitions my start len s :
  0 <= start -> 0 <= len ->
  start + len <= Z.of_nat (length (obbs s)) ->
  start + len <= Z.of_nat (length (idx s)) ->
  start + len <= Z.of_nat (length (internal_coordinates s)) ->
  start + len < 2 ^ 32 ->
  exists sr s',
    sweep (Z.to_nat len) my start 0 len s = (inr sr, s') /\
    0 <= sr <= len /\ tree s' = tree s /\
    lockstep start (start + len) s s' /\
    (forall j o, start <= j < start + sr -> nthZ (obbs s') j = Some o ->
                 proj_negative my o = true) /\
    (forall j o, start + sr <= j < start + len -> nthZ (obbs s') j = Some o ->
                 proj_negative my o = false).
Proof.
  intros Hs Hl Ho Hx Hc Hlt.
  destruct (sweep_rows my start len (Z.to_nat len) 0 len s)
    as (sr & s' & E & Hr & Hrest); try lia.
  exists sr, s'. split; [exact E |]. split; [lia | exact Hrest].
Qed.

(** X11. [buildTree] reorders the caller's arrays and loses nothing.
    Whatever the outcome there is an order of the particles [0 .. N-1],
    each once, such that position [j < N] of [obbs] and of
    [internal_coordinates] holds the box and the vertex list that the
    caller gave for the [j]-th particle of that order; the two arrays
    keep their lengths, and their entries from [N] on are untouched.
    When [buildTree] returns, the order is the order of the particles in
    the leaves: the arrays are left sorted by leaf. *)
Theorem buildTree_rows t os cs r N res s' :
  inputs_ok t os cs N ->
  buildTree t os cs r N = (res, s') ->
  exists order,
    order ≡ₚ seqZ 0 N /\
    (res = inr tt -> order = all_leaf_particles (tree s')) /\
    length (obbs s') = length os /\
    length (internal_coordinates s') = length cs /\
    (forall j, 0 <= j < N ->
       exists p, nthZ order j = Some p /\
         nthZ (obbs s') j = nthZ os p /\
         nthZ (internal_coordinates s') j = nthZ cs p) /\
    (forall j, N <= j ->
       nthZ (obbs s') j = nthZ os j /\
       nthZ (internal_coordinates s') j = nthZ cs j).
Proof.
  intros Hin Hrun.
  assert (Hleaf : res = inr tt -> idx s' = all_leaf_particles (tree s')).
  { intros ->. destruct (buildTree_shape _ _ _ _ _ _ Hin Hrun)
      as (T & H1 & H2 & H3 & H4 & _ & _ & H7 & _).
    unfold all_leaf_particles. rewrite H3, <- H4. symmetry.
    eapply leaf_particles_flat; eauto. }
  destruct Hin as (Hcap & HN & Hos & Hcs & Hnc). unfold buildTree in Hrun.
  destruct (build_from_more r N (mkSt t os [] cs) Hcap HN Hos Hcs Hnc)
    as ((Hperm & Lo & Lc & Hinside & Hout) & _).
  rewrite Hrun in Hperm, Lo, Lc, Hinside, Hout.
  cbn [fst snd obbs internal_coordinates idx] in Hperm, Lo, Lc, Hinside, Hout.
  exists (idx s'). split; [exact Hperm |]. split; [exact Hleaf |].
  split; [exact Lo |]. split; [exact Lc |]. split.
  - intros j Hj. destruct (Hinside j Hj) as (p & Hp & Ei & Eo & Ec).
    exists p. split; [| auto].
    rewrite Ei. rewrite nthZ_lookup by lia. rewrite lookup_seqZ.
    split; [f_equal |]; lia.
  - intros j Hj. destruct (Hout j ltac:(lia)) as (_ & Eo & Ec). auto.
Qed.

(** X12. The records of a built tree.  A leaf has no right child, holds
    between one and [node_capacity] particles, and the particles below it
    are the ones it stores.  An internal node stores no particle, has
    more than [node_capacity] particles below it, and both its children
    are nodes of the tree with at least one particle below each; the
    particles below it are those below its left child followed by those
    below its right child. *)
Theorem buildTree_node_form t os cs r N s' k :
  inputs_ok t os cs N ->
  buildTree t os cs r N = (inr tt, s') ->
  0 <= k < m_num_nodes (tree s') ->
  exists n,
    nthZ (m_nodes (tree s')) k = Some n /\
    if isNodeLeaf n
    then right n = OBB_INVALID_NODE /\ 1 <= num_particles n <= node_capacity /\
         Z.of_nat (length (particles n)) = node_capacity /\
         below (tree s') k = stored n
    else num_particles n = 0 /\
         node_capacity < Z.of_nat (length (below (tree s') k)) /\
         k < left n < right n /\ right n < m_num_nodes (tree s') /\
         below (tree s') k = below (tree s') (left n) ++ below (tree s') (right n) /\
         below (tree s') (left n) <> [] /\ below (tree s') (right n) <> [].
Proof.
  intros Hin Hrun Hk.
  destruct (buildTree_node _ _ _ _ _ _ k Hin Hrun Hk)
    as (n & ps & pts & Hn & _ & _ & _ & _ & Hform).
  exists n. split; [exact Hn |].
  destruct (isNodeLeaf n); [exact Hform |].
  destruct Hform as (H1 & H2 & H3 & H4 & H5 & H6 & H7 & _). auto 8.
Qed.

(** X13. The number of nodes of a built tree is at least one and at most
    [2 N - 1], and the root is node 0.  With [N <= node_capacity] the
    tree is one leaf that stores the particles [0 .. N-1] in this order;
    with more particles the root is an internal node, whose left child is
    node 1 and whose right child is a later node, and there are at least
    three nodes. *)
Theorem buildTree_node_count t os cs r N s' :
  inputs_ok t os cs N ->
  buildTree t os cs r N = (inr tt, s') ->
  1 <= m_num_nodes (tree s') <= 2 * N - 1 /\
  (N <= node_capacity ->
   m_num_nodes (tree s') = 1 /\ leaf_particles (tree s') 0 = seqZ 0 N) /\
  (node_capacity < N -> 3 <= m_num_nodes (tree s')) /\
  m_root (tree s') = 0 /\
  exists n,
    nthZ (m_nodes (tree s')) 0 = Some n /\
    (N <= node_capacity -> isNodeLeaf n = true /\ num_particles n = N) /\
    (node_capacity < N ->
     isNodeLeaf n = false /\ left n = 1 /\
     2 <= right n < m_num_nodes (tree s') /\ num_particles n = 0).
Proof.
  intros Hin Hrun.
  pose proof (buildTree_well_built _ _ _ _ _ _ Hin Hrun) as (_ & Hroot & _).
  destruct (buildTree_shape _ _ _ _ _ _ Hin Hrun)
    as (T & Hrepr & Hskips & Hnum & Hflat & Hfit & Hsame & Hlen & Hixlen).
  pose proof (fitted_size _ _ _ _ _ _ Hfit) as Hsize.
  pose proof (size_pos T) as Hpos.
  rewrite Hflat, Hixlen in Hsize.
  split; [lia |].
  destruct T as [ps | l r'].
  - simpl in Hrepr, Hfit, Hflat, Hnum.
    destruct Hfit as (n & pts & Hn & _ & H2 & H3 & _).
    destruct Hrepr as (n' & Hn' & Hleaf & _ & _ & Hst & Hnp).
    assert (n' = n) as -> by congruence.
    assert (HN : Z.of_nat (length ps) = N) by (rewrite Hflat; exact Hixlen).
    split; [| split; [intros; lia | split; [exact Hroot |]]].
    + intros Hle. split; [exact Hnum |].
      unfold leaf_particles. rewrite Hn, Hleaf, Hst, Hflat. auto.
    + exists n. split; [exact Hn |]. split; [| intros; lia].
      intros _. split; [exact Hleaf | lia].
  - pose proof (size_pos l). pose proof (size_pos r').
    pose proof Hfit as Hfit'. simpl in Hfit, Hnum.
    destruct Hfit as (n & ps & pts & Hn & Hnp & H2 & _).
    simpl in Hflat. rewrite Hflat, Hixlen in H2.
    split; [intros; lia |]. split; [intros; lia |]. split; [exact Hroot |].
    pose proof Hrepr as Hrepr'. simpl in Hrepr'.
    destruct Hrepr' as (n' & Hn' & Hleft & Hright & _ & Rl & _).
    assert (n' = n) as -> by congruence.
    pose proof (repr_range _ _ _ _ Rl) as [_ Hend].
    exists n. split; [exact Hn |]. split; [intros; lia |].
    intros _.
    split; [eapply internal_not_leaf; eauto; lia |].
    split; [lia |]. split; [lia | exact Hnp].
Qed.

(** X14. Every box of a built tree is fitted by [compute_obb], with the
    vertex radius of the call, to the vertex lists that the caller gave
    for the particles below the node, and to nothing else: for a leaf
    the lists of the particles it stores, in stored order; for an
    internal node the lists of the particles below it, each once, in
    some order. *)
Theorem buildTree_boxes_fitted t os cs r N s' k :
  inputs_ok t os cs N ->
  buildTree t os cs r N = (inr tt, s') ->
  0 <= k < m_num_nodes (tree s') ->
  exists n ps pts,
    nthZ (m_nodes (tree s')) k = Some n /\
    ps ≡ₚ below (tree s') k /\
    (isNodeLeaf n = true -> ps = stored n) /\
    verts cs ps pts /\
    obb n = compute_obb pts r.
Proof.
  intros Hin Hrun Hk.
  destruct (buildTree_node _ _ _ _ _ _ k Hin Hrun Hk)
    as (n & ps & pts & Hn & H1 & H2 & H3 & H4 & _).
  exists n, ps, pts. auto.
Qed.

(** X15. The split of an internal node of a built tree, by the boxes the
    caller gave.  With two particles below the node each child gets one.
    With more, the particles below the left child are those whose box is
    on the left of the centre of the node's box along its first axis and
    the particles below the right child are the others; unless all are
    on one side, and then the other child is a single particle taken
    from them. *)
Theorem buildTree_median_split t os cs r N s' k :
  inputs_ok t os cs N ->
  buildTree t os cs r N = (inr tt, s') ->
  0 <= k < m_num_nodes (tree s') ->
  exists n,
    nthZ (m_nodes (tree s')) k = Some n /\
    (isNodeLeaf n = false ->
     split_ok os (obb n) (below (tree s') (left n)) (below (tree s') (right n))).
Proof.
  intros Hin Hrun Hk.
  destruct (buildTree_node _ _ _ _ _ _ k Hin Hrun Hk)
    as (n & ps & pts & Hn & _ & _ & _ & _ & Hform).
  exists n. split; [exact Hn |]. intros Hnl. rewrite Hnl in Hform.
  destruct Hform as (_ & _ & _ & _ & _ & _ & _ & H). exact H.
Qed.



(** X18. Whatever the outcome of [buildTree], the capacity of the arena
    is the one it had or at most twice the number of nodes in use less
    one, and sixteen at least: the arena grows by doubling, and only when
    it is full. *)
Theorem buildTree_arena_bound t os cs r N res s' :
  inputs_ok t os cs N ->
  buildTree t os cs r N = (res, s') ->
  m_node_capacity (tree s') = m_node_capacity t \/
  m_node_capacity (tree s') <= Z.max 16 (2 * (m_num_nodes (tree s') - 1)).
Proof.
  intros (Hcap & HN & Hos & Hcs & Hnc) Hrun. unfold buildTree in Hrun.
  destruct (build_from_requests r N (mkSt t os [] cs) Hcap HN Hos Hcs Hnc) as (Hb & _).
  rewrite Hrun in Hb. exact Hb.
Qed.

(** X19. The accessors on a built tree.  For a node index below
    [getNumNodes] every accessor reads a record of the arena; the slots
    [[node, node + getNodeSkip + 1)] lie in the arena; a node is a leaf
    exactly when [getNodeNumParticles] is at least one, and that number
    never exceeds [node_capacity]; and [getNodeParticle(node, j)] for [j]
    below [getNodeNumParticles] reads a particle of the tree whose
    [mapping] entry is [node]. *)
Theorem accessors_in_bounds t os cs r N s' k :
  inputs_ok t os cs N ->
  buildTree t os cs r N = (inr tt, s') ->
  0 <= k < getNumNodes (tree s') ->
  exists n,
    getNode (tree s') k = Some n /\
    getNodeOBB (tree s') k = Some (obb n) /\
    getNodeSkip (tree s') k = Some (skip n) /\
    getNodeLeft (tree s') k = Some (left n) /\
    getNodeNumParticles (tree s') k = Some (num_particles n) /\
    k + skip n + 1 <= getNumNodes (tree s') /\
    (isNodeLeaf n = true <-> 1 <= num_particles n) /\
    num_particles n <= node_capacity /\
    forall j, 0 <= j < num_particles n ->
      exists p, getNodeParticle (tree s') k j = Some p /\
                0 <= p < N /\ nthZ (m_mapping (tree s')) p = Some k.
Proof.
  intros Hin Hrun Hk. unfold getNumNodes in *.
  pose proof (buildTree_well_built _ _ _ _ _ _ Hin Hrun) as Hwb.
  pose proof (well_built_layout N _ Hwb) as Hlay.
  destruct (buildTree_node _ _ _ _ _ _ k Hin Hrun Hk)
    as (n & ps & pts & Hn & _ & _ & _ & _ & Hform).
  specialize (Hlay k n Hn).
  exists n. unfold getNodeOBB, getNodeSkip, getNodeLeft, getNodeNumParticles,
            getNodeParticle, getNode.
  rewrite Hn. cbn [fmap option_fmap option_map].
  split; [reflexivity |]. split; [reflexivity |]. split; [reflexivity |].
  split; [reflexivity |]. split; [reflexivity |].
  destruct (isNodeLeaf n) eqn:Hleaf.
  - destruct Hform as (_ & Hnp & Hlen & _).
    split; [lia |]. split; [split; [lia | reflexivity] |]. split; [lia |].
    intros j Hj.
    destruct (nthZ_is_Some (particles n) j) as [p Hp]; [lia |].
    exists p. split; [exact Hp |].
    assert (Hin' : p ∈ leaf_particles (tree s') k).
    { unfold leaf_particles. rewrite Hn, Hleaf. unfold stored.
      apply nthZ_Some in Hp as [_ Hp].
      apply list_elem_of_lookup. exists (Z.to_nat j).
      rewrite lookup_take_lt by lia. exact Hp. }
    pose proof (well_built_mapping N _ k p Hwb Hin') as Hm.
    split; [| exact Hm].
    destruct Hwb as (_ & _ & Hml & _). apply nthZ_Some in Hm as [Hr _]. lia.
  - destruct Hform as (Hnp & _). destruct Hlay as (_ & _ & _ & Hend & _).
    split; [exact Hend |]. split; [split; [discriminate | lia] |].
    destruct Hin as (_ & _ & _ & _ & Hnc). split; [lia |].
    intros j Hj. lia.
Qed.

(** X20. The stackless sweep of [query] tests the boxes that a descent
    from the root would test.  [query_tested] is [query] with a record of
    the nodes whose box it tests, in the order of the tests, and returns
    what [query] returns on every arena.  On a built tree the record
    holds the nodes all of whose ancestors overlap the query, each of
    them once and in ascending index, and no other node; its length is
    the count that [query] returns. *)
Theorem query_visits_as_descent t os cs r N s' q hits :
  inputs_ok t os cs N ->
  buildTree t os cs r N = (inr tt, s') ->
  (forall t0 hits0 q0, untested (query_tested t0 hits0 q0) = query t0 hits0 q0) /\
  exists c out vs,
    query_tested (tree s') hits q = inr (c, hits ++ out, vs) /\
    query (tree s') hits q = inr (c, hits ++ out) /\
    c = Z.of_nat (length vs) /\ StronglySorted Z.lt vs /\ NoDup vs /\
    forall a, a ∈ vs <->
      (0 <= a < m_num_nodes (tree s') /\
       forall b n, reach (m_nodes (tree s')) b a -> b <> a ->
                   nthZ (m_nodes (tree s')) b = Some n ->
                   overlap (obb n) q = true).
Proof.
  intros Hin Hrun.
  pose proof (buildTree_well_built _ _ _ _ _ _ Hin Hrun) as Hwb.
  split; [exact query_tested_untested |].
  destruct (query_tested_built N _ q hits Hwb) as (c & out & vs & E1 & E2 & Hc & Hs & Hv).
  exists c, out, vs. repeat (split; [assumption |]).
  split; [exact (ascending_NoDup vs Hs) | exact Hv].
Qed.

(** X21. What a call of [buildNode] on the sub-range [[start, start +
    len)] leaves alone, whether it returns or stops.  The nodes in use
    before the call keep their records, new ones are appended; the root
    index is unchanged; [obbs], [idx] and [internal_coordinates] are
    moved together inside the sub-range and are untouched outside of it,
    and not moved at all in the leaf case; and [mapping] changes for the
    particles of the sub-range only. *)
Theorem buildNode_leaves_alone N r fuel start len par s :
  build_pre N start len s -> (Z.to_nat len <= fuel)%nat ->
  (exists new, m_nodes (tree (snd (buildNode fuel r start len par s))) =
               m_nodes (tree s) ++ new) /\
  m_root (tree (snd (buildNode fuel r start len par s))) = m_root (tree s) /\
  lockstep start (start + len) s (snd (buildNode fuel r start len par s)) /\
  (forall p, p ∉ segZ (idx s) start len ->
     nthZ (m_mapping (tree (snd (buildNode fuel r start len par s)))) p =
     nthZ (m_mapping (tree s)) p) /\
  (len <= node_capacity ->
   idx (snd (buildNode fuel r start len par s)) = idx s /\
   obbs (snd (buildNode fuel r start len par s)) = obbs s /\
   internal_coordinates (snd (buildNode fuel r start len par s)) =
     internal_coordinates s).
Proof.
  intros Hpre Hfuel.
  pose proof (buildNode_runs N r fuel start len par s Hpre Hfuel) as Hrun.
  destruct (run_build_frame _ _ _ _ _ _ _ _ Hrun) as (Hnew & Hroot & Hmap).
  destruct (run_build_rows _ _ _ _ _ _ _ _ Hrun) as (Hlock & Hsame).
  auto.
Qed.

(** X22. A built tree bounds what is below each node.  When the box
    that [compute_obb] fits holds every vertex it was given, the box of
    every node holds every vertex of every particle below the node. *)
Theorem buildTree_boxes_hold (contains : OBB -> vec3 -> bool) t os cs r N s' k :
  (forall pts v, v ∈ pts -> contains (compute_obb pts r) v = true) ->
  inputs_ok t os cs N ->
  buildTree t os cs r N = (inr tt, s') ->
  0 <= k < m_num_nodes (tree s') ->
  exists n,
    nthZ (m_nodes (tree s')) k = Some n /\
    forall p c v, p ∈ below (tree s') k -> nthZ cs p = Some c -> v ∈ c ->
                  contains (obb n) v = true.
Proof.
  intros Hfit Hin Hrun Hk.
  pose proof (buildTree_well_built _ _ _ _ _ _ Hin Hrun) as ((Hl & _) & _).
  destruct (nthZ_is_Some (m_nodes (tree s')) k) as [n Hn]; [lia |].
  exists n. split; [exact Hn |].
  intros p c v. eapply buildTree_contains; eauto.
Qed.

(** X23. [query] misses no particle that has a vertex in the query box.
    When the box that [compute_obb] fits holds every vertex it was given,
    and two boxes that hold a common point overlap, [query] on a built
    tree appends every particle one of whose vertices the query box
    holds. *)
Theorem query_finds_vertices (contains : OBB -> vec3 -> bool) t os cs r N s' :
  (forall pts v, v ∈ pts -> contains (compute_obb pts r) v = true) ->
  (forall a b v, contains a v = true -> contains b v = true -> overlap a b = true) ->
  inputs_ok t os cs N ->
  buildTree t os cs r N = (inr tt, s') ->
  forall q hits,
    exists c out,
      query (tree s') hits q = inr (c, hits ++ out) /\
      forall p cp v, 0 <= p < N -> nthZ cs p = Some cp -> v ∈ cp ->
                     contains q v = true -> p ∈ out.
Proof.
  intros Hfit Hmeet Hin Hrun q hits.
  pose proof (buildTree_well_built _ _ _ _ _ _ Hin Hrun) as Hwb.
  destruct (query_appends N _ q hits Hwb) as (c & ks & E & _ & Hks).
  exists c, (concat (map (leaf_particles (tree s')) ks)). split; [exact E |].
  intros p cp v Hp Hcp Hv Hq.
  destruct (well_built_leaf_of N _ p Hwb Hp) as (k & Hleaf & Hk).
  apply elem_of_concat_map. exists k. split; [| exact Hk].
  apply Hks. split; [exact Hleaf |].
  intros a n Hreach Ha. apply (Hmeet _ _ v); [| exact Hq].
  eapply buildTree_contains; eauto.
  eapply below_reach; eauto.
Qed.

(** X24. [buildTree] can be called again.  Whatever the outcome, an
    allocation failure included, the tree and the arrays that a call
    leaves meet what [buildTree] asks of its caller for the same [N]:
    the capacity is a 32-bit number and the two arrays still hold [N]
    entries. *)
Theorem buildTree_can_be_repeated t os cs r N res s' :
  inputs_ok t os cs N ->
  buildTree t os cs r N = (res, s') ->
  inputs_ok (tree s') (obbs s') (internal_coordinates s') N.
Proof.
  intros (Hcap & HN & Hos & Hcs & Hnc) Hrun. unfold buildTree in Hrun.
  destruct (build_from_again r N (mkSt t os [] cs) Hcap HN Hos Hcs Hnc) as (H1 & H2 & H3).
  rewrite Hrun in H1, H2, H3. cbn [snd] in H1, H2, H3.
  unfold inputs_ok. auto.
Qed.

(** X25. [query] on the arena that a failed [buildTree] leaves.  No skip
    field has been set, so the sweep is a scan: it tests every node in
    use, its count is [m_num_nodes], and it appends the particles of
    every record without a left child whose box overlaps the query, in
    ascending index; a node whose children were not connected yet counts
    as such a record and stores no particle.  No access is out of
    range. *)
Theorem query_after_failure t os cs r N e s' :
  inputs_ok t os cs N ->
  buildTree t os cs r N = (inl e, s') ->
  forall q hits,
    query (tree s') hits q =
    inr (m_num_nodes (tree s'),
         hits ++ concat (map (leaf_particles (tree s'))
                             (overlapping_leaves (tree s') q))).
Proof.
  intros (Hcap & HN & Hos & Hcs & Hnc) Hrun q hits. unfold buildTree in Hrun.
  destruct (build_from_stopped r N (mkSt t os [] cs) e s' Hcap HN Hos Hcs Hnc Hrun)
    as (Ha & Hu).
  pose proof Ha as (Hl & Hle & Hc).
  unfold query, overlapping_leaves.
  rewrite (query_scan (tree s') q _ 0 0 hits Ha Hu) by lia.
  rewrite Z.sub_0_r, Z.add_0_l. reflexivity.
Qed.

End More.

(** * A build that stops, and [update], on the plane *)

(** The records that the build of nine coincident boxes leaves when the
    allocator refuses the second block: parent, left child and number of
    particles of the sixteen nodes in use. *)
Example stopped_build_records :
  map (fun n => (parent n, left n, num_particles n))
      (m_nodes (tree (snd Demo.run9))) =
  [ (OBB_INVALID_NODE, OBB_INVALID_NODE, 0); (0, OBB_INVALID_NODE, 1);
    (OBB_INVALID_NODE, OBB_INVALID_NODE, 0); (2, OBB_INVALID_NODE, 1);
    (OBB_INVALID_NODE, OBB_INVALID_NODE, 0); (4, OBB_INVALID_NODE, 1);
    (OBB_INVALID_NODE, OBB_INVALID_NODE, 0); (6, OBB_INVALID_NODE, 1);
    (OBB_INVALID_NODE, OBB_INVALID_NODE, 0); (8, OBB_INVALID_NODE, 1);
    (OBB_INVALID_NODE, OBB_INVALID_NODE, 0); (10, OBB_INVALID_NODE, 1);
    (OBB_INVALID_NODE, OBB_INVALID_NODE, 0); (12, OBB_INVALID_NODE, 1);
    (OBB_INVALID_NODE, OBB_INVALID_NODE, 0); (14, OBB_INVALID_NODE, 1) ] /\
  m_mapping (tree (snd Demo.run9)) = [9; 1; 15; 3; 11; 5; OBB_INVALID_NODE; 7; 13].
Proof. split; vm_compute; reflexivity. Qed.

Lemma buildTree_allocation_failure_witness :
  (AllocationError = AllocationError \/ AllocationError = OutOfRange A_nodes) /\
  m_root (tree (snd Demo.run9)) = OBB_INVALID_NODE /\
  parents_older (tree (snd Demo.run9)) /\
  half_built (tree (snd Demo.run9)) /\
  (forall k n, nthZ (m_nodes (tree (snd Demo.run9))) k = Some n ->
     (parent n = OBB_INVALID_NODE <-> n = OBBNode_default) /\
     (k = 0 -> n = OBBNode_default) /\
     (n <> OBBNode_default -> 0 <= parent n < k /\ written k n)) /\
  m_node_capacity (tree (snd Demo.run9)) = m_num_nodes (tree (snd Demo.run9)) /\
  ((AllocationError = AllocationError /\
    @posix_memalign_ok Demo.env16
      (new_capacity (m_node_capacity (tree (snd Demo.run9)))) = false) \/
   (AllocationError = OutOfRange A_nodes /\
    2 ^ 31 <= m_node_capacity (tree (snd Demo.run9)))) /\
  (forall s : @St Demo.env16,
     m_node_capacity (tree s) <= m_num_nodes (tree s) ->
     @posix_memalign_ok Demo.env16 (new_capacity (m_node_capacity (tree s))) = false ->
     allocateNode s = (inl AllocationError, s)) /\
  (forall (A B : Type) (m : @M Demo.env16 A) (f : A -> @M Demo.env16 B) s0 e0 s1,
     m s0 = (inl e0, s1) -> bind m f s0 = (inl e0, s1)).
Proof.
  apply (@buildTree_allocation_failure Demo.env16 OBBTree_new Demo.os9 Demo.cs9 0 9).
  - unfold inputs_ok, is_u32. simpl. lia.
  - exact (stopped_eq Demo.run9 AllocationError ltac:(vm_compute; reflexivity)).
Defined.

Lemma update_locality_witness :
  (exists t' n n',
     update (tree (snd Demo.run7)) 3 (Plane.cube 9 9) = inr t' /\
     nthZ (m_nodes (tree (snd Demo.run7))) 6 = Some n /\
     nthZ (m_nodes t') 6 = Some n' /\
     obb n' = Plane.cube 9 9 /\
     left n' = left n /\ right n' = right n /\ parent n' = parent n /\
     skip n' = skip n /\ particles n' = particles n /\
     num_particles n' = num_particles n /\
     (forall j, j <> 6 ->
        nthZ (m_nodes t') j = nthZ (m_nodes (tree (snd Demo.run7))) j) /\
     m_num_nodes t' = m_num_nodes (tree (snd Demo.run7)) /\
     m_root t' = m_root (tree (snd Demo.run7)) /\
     m_mapping t' = m_mapping (tree (snd Demo.run7))) /\
  update (tree (snd Demo.run7)) 7 (Plane.cube 9 9) = inl UnknownParticle /\
  (exists t' n n',
     update (tree (snd Demo.run9)) 0 (Plane.cube 9 9) = inr t' /\
     nthZ (m_nodes (tree (snd Demo.run9))) 9 = Some n /\
     nthZ (m_nodes t') 9 = Some n' /\
     obb n' = Plane.cube 9 9 /\
     left n' = left n /\ right n' = right n /\ parent n' = parent n /\
     skip n' = skip n /\ particles n' = particles n /\
     num_particles n' = num_particles n /\
     (forall j, j <> 9 ->
        nthZ (m_nodes t') j = nthZ (m_nodes (tree (snd Demo.run9))) j) /\
     m_num_nodes t' = m_num_nodes (tree (snd Demo.run9)) /\
     m_root t' = m_root (tree (snd Demo.run9)) /\
     m_mapping t' = m_mapping (tree (snd Demo.run9))) /\
  update (tree (snd Demo.run9)) 6 (Plane.cube 9 9) = inl UnknownParticle /\
  (exists p, 0 <= p < 9 /\
     nthZ (m_mapping (tree (snd Demo.run9))) p = Some OBB_INVALID_NODE /\
     update (tree (snd Demo.run9)) p (Plane.cube 9 9) = inl UnknownParticle).
Proof.
  destruct (@update_locality Demo.env2 OBBTree_new Demo.os7 Demo.cs7 0 7 (inr tt) _
              (Plane.cube 9 9)
              ltac:(unfold inputs_ok, is_u32; simpl; lia)
              (returned_eq Demo.run7 ltac:(vm_compute; reflexivity)))
    as (Hw7 & _ & Hr7 & _).
  destruct (@update_locality Demo.env16 OBBTree_new Demo.os9 Demo.cs9 0 9
              (inl AllocationError) _ (Plane.cube 9 9)
              ltac:(unfold inputs_ok, is_u32; simpl; lia)
              (stopped_eq Demo.run9 AllocationError ltac:(vm_compute; reflexivity)))
    as (Hw9 & Hf9 & _ & Hs9).
  split; [exact (Hw7 3 6 ltac:(vm_compute; reflexivity)
                    ltac:(unfold OBB_INVALID_NODE; lia)) |].
  split; [apply (Hr7 eq_refl 7); lia |].
  split; [exact (Hw9 0 9 ltac:(vm_compute; reflexivity)
                    ltac:(unfold OBB_INVALID_NODE; lia)) |].
  split; [apply (Hf9 6); left; vm_compute; reflexivity |].
  exact (Hs9 AllocationError eq_refl).
Defined.

(** * The further properties on the plane *)

Lemma height_counts_ancestors_witness :
  exists k anc,
    nthZ (m_mapping (tree (snd Demo.run7))) 3 = Some k /\
    3 ∈ leaf_particles (tree (snd Demo.run7)) k /\
    height (tree (snd Demo.run7)) 3 = inr (Z.of_nat (length anc)) /\
    StronglySorted Z.lt anc /\
    (forall a, a ∈ anc <->
               (0 <= a < m_num_nodes (tree (snd Demo.run7)) /\
                reach (m_nodes (tree (snd Demo.run7))) a k)) /\
    1 <= Z.of_nat (length anc) <= m_num_nodes (tree (snd Demo.run7)).
Proof.
  apply (@height_counts_ancestors Demo.env2 OBBTree_new Demo.os7 Demo.cs7 0 7).
  - unfold inputs_ok, is_u32. simpl. lia.
  - exact (returned_eq Demo.run7 ltac:(vm_compute; reflexivity)).
  - lia.
Defined.

Lemma buildTree_parent_links_witness :
  exists n, nthZ (m_nodes (tree (snd Demo.run7))) 4 = Some n /\
    ((4 = 0 /\ parent n = OBB_INVALID_NODE) \/
     (0 < 4 /\ 0 <= parent n < 4 /\
      exists m, nthZ (m_nodes (tree (snd Demo.run7))) (parent n) = Some m /\
                isNodeLeaf m = false /\ (left m = 4 \/ right m = 4))).
Proof.
  apply (@buildTree_parent_links Demo.env2 OBBTree_new Demo.os7 Demo.cs7 0 7).
  - unfold inputs_ok, is_u32. simpl. lia.
  - exact (returned_eq Demo.run7 ltac:(vm_compute; reflexivity)).
  - assert (E : m_num_nodes (tree (snd Demo.run7)) = 7) by (vm_compute; reflexivity).
    rewrite E. lia.
Defined.

Lemma query_reports_once_witness :
  exists c out,
    query (tree (snd Demo.run7)) [9] (Demo.brick 0 0) = inr (c, [9] ++ out) /\
    out `sublist_of` all_leaf_particles (tree (snd Demo.run7)) /\
    NoDup out /\
    forall p, p ∈ out -> 0 <= p < 7.
Proof.
  apply (@query_reports_once Demo.env2 OBBTree_new Demo.os7 Demo.cs7 0 7).
  - unfold inputs_ok, is_u32. simpl. lia.
  - exact (returned_eq Demo.run7 ltac:(vm_compute; reflexivity)).
Defined.

Lemma query_test_count_witness :
  exists c out,
    query (tree (snd Demo.run7)) [] (Demo.brick 0 0) = inr (c, [] ++ out) /\
    1 <= c <= m_num_nodes (tree (snd Demo.run7)) /\
    ((forall j n, nthZ (m_nodes (tree (snd Demo.run7))) j = Some n ->
                  overlap (obb n) (Demo.brick 0 0) = true) ->
     c = m_num_nodes (tree (snd Demo.run7)) /\
     out = all_leaf_particles (tree (snd Demo.run7))) /\
    (forall n, nthZ (m_nodes (tree (snd Demo.run7))) 0 = Some n ->
               overlap (obb n) (Demo.brick 0 0) = false ->
     c = 1 /\ out = []).
Proof.
  apply (@query_test_count Demo.env2 OBBTree_new Demo.os7 Demo.cs7 0 7).
  - unfold inputs_ok, is_u32. simpl. lia.
  - exact (returned_eq Demo.run7 ltac:(vm_compute; reflexivity)).
Defined.

Lemma allocateNode_contract_witness :
  match allocateNode Arena.fresh with
  | (inr k, s') =>
      allocated Arena.fresh s' k /\ arena_ok (tree s') /\
      (forall j, 0 <= j < k ->
         nthZ (m_nodes (tree s')) j = nthZ (m_nodes (tree Arena.fresh)) j) /\
      nthZ (m_nodes (tree s')) k = Some OBBNode_default /\
      m_node_capacity (tree s') =
        (if m_num_nodes (tree Arena.fresh) <? m_node_capacity (tree Arena.fresh)
         then m_node_capacity (tree Arena.fresh)
         else new_capacity (m_node_capacity (tree Arena.fresh)))
  | (inl e, s') =>
      s' = Arena.fresh /\
      m_node_capacity (tree Arena.fresh) = m_num_nodes (tree Arena.fresh) /\
      ((e = AllocationError /\
        @posix_memalign_ok Demo.env1 (new_capacity (m_node_capacity (tree Arena.fresh))) = false) \/
       (e = OutOfRange A_nodes /\ 2 ^ 31 <= m_node_capacity (tree Arena.fresh)))
  end.
Proof.
  apply (@allocateNode_contract Demo.env1 Arena.fresh).
  unfold arena_ok. simpl. lia.
Defined.

Lemma allocateNode_capacity_wraps_witness :
  arena_ok (tree Arena.full31) /\
  new_capacity (m_node_capacity (tree Arena.full31)) < m_num_nodes (tree Arena.full31) /\
  allocateNode Arena.full31 =
  (inl (if @posix_memalign_ok Demo.env1 (new_capacity (m_node_capacity (tree Arena.full31)))
        then OutOfRange A_nodes else AllocationError), Arena.full31).
Proof.
  split.
  - unfold arena_ok, Arena.full31. cbn [tree m_nodes m_num_nodes m_node_capacity].
    rewrite length_replicate. lia.
  - apply (@allocateNode_capacity_wraps Demo.env1 Arena.full31);
      unfold Arena.full31; cbn [tree m_num_nodes m_node_capacity]; lia.
Defined.

Lemma buildTree_obbs_corners_witness :
  (7 <= Z.of_nat (length Demo.os7) ->
   @buildTree_obbs Demo.env2 OBBTree_new Demo.os7 7 =
   @buildTree Demo.env2 OBBTree_new Demo.os7
     (map (@getCorners Demo.env2) (take (Z.to_nat 7) Demo.os7))
     (@OverlapReal_zero Demo.env2) 7) /\
  (Z.of_nat (length Demo.os7) < 7 ->
   fst (@buildTree_obbs Demo.env2 OBBTree_new Demo.os7 7) = inl (OutOfRange A_obbs)).
Proof. apply (@buildTree_obbs_corners Demo.env2 OBBTree_new Demo.os7 7). lia. Defined.

Lemma sweep_partitions_witness :
  exists sr s',
    @sweep Demo.env2 (Z.to_nat 7) (Demo.brick 0 0) 0 0 7 Arena.seven = (inr sr, s') /\
    0 <= sr <= 7 /\ tree s' = tree Arena.seven /\
    lockstep 0 (0 + 7) Arena.seven s' /\
    (forall j o, 0 <= j < 0 + sr -> nthZ (obbs s') j = Some o ->
                 @proj_negative Demo.env2 (Demo.brick 0 0) o = true) /\
    (forall j o, 0 + sr <= j < 0 + 7 -> nthZ (obbs s') j = Some o ->
                 @proj_negative Demo.env2 (Demo.brick 0 0) o = false).
Proof.
  apply (@sweep_partitions Demo.env2 (Demo.brick 0 0) 0 7 Arena.seven);
    try lia; vm_compute; discriminate.
Defined.

Lemma buildTree_rows_witness :
  exists order,
    order ≡ₚ seqZ 0 7 /\
    (@inr err unit tt = inr tt -> order = all_leaf_particles (tree (snd Demo.run7))) /\
    length (obbs (snd Demo.run7)) = length Demo.os7 /\
    length (internal_coordinates (snd Demo.run7)) = length Demo.cs7 /\
    (forall j, 0 <= j < 7 ->
       exists p, nthZ order j = Some p /\
         nthZ (obbs (snd Demo.run7)) j = nthZ Demo.os7 p /\
         nthZ (internal_coordinates (snd Demo.run7)) j = nthZ Demo.cs7 p) /\
    (forall j, 7 <= j ->
       nthZ (obbs (snd Demo.run7)) j = nthZ Demo.os7 j /\
       nthZ (internal_coordinates (snd Demo.run7)) j = nthZ Demo.cs7 j).
Proof.
  apply (@buildTree_rows Demo.env2 OBBTree_new Demo.os7 Demo.cs7 0 7).
  - unfold inputs_ok, is_u32. simpl. lia.
  - exact (returned_eq Demo.run7 ltac:(vm_compute; reflexivity)).
Defined.

Lemma buildTree_node_form_witness :
  exists n,
    nthZ (m_nodes (tree (snd Demo.run7))) 0 = Some n /\
    if isNodeLeaf n
    then right n = OBB_INVALID_NODE /\
         1 <= num_particles n <= @node_capacity Demo.env2 /\
         Z.of_nat (length (particles n)) = @node_capacity Demo.env2 /\
         below (tree (snd Demo.run7)) 0 = stored n
    else num_particles n = 0 /\
         @node_capacity Demo.env2 < Z.of_nat (length (below (tree (snd Demo.run7)) 0)) /\
         0 < left n < right n /\ right n < m_num_nodes (tree (snd Demo.run7)) /\
         below (tree (snd Demo.run7)) 0 =
           below (tree (snd Demo.run7)) (left n) ++
           below (tree (snd Demo.run7)) (right n) /\
         below (tree (snd Demo.run7)) (left n) <> [] /\
         below (tree (snd Demo.run7)) (right n) <> [].
Proof.
  apply (@buildTree_node_form Demo.env2 OBBTree_new Demo.os7 Demo.cs7 0 7).
  - unfold inputs_ok, is_u32. simpl. lia.
  - exact (returned_eq Demo.run7 ltac:(vm_compute; reflexivity)).
  - assert (E : m_num_nodes (tree (snd Demo.run7)) = 7) by (vm_compute; reflexivity).
    rewrite E. lia.
Defined.

Lemma buildTree_node_count_witness :
  1 <= m_num_nodes (tree (snd Demo.run7)) <= 2 * 7 - 1 /\
  3 <= m_num_nodes (tree (snd Demo.run7)) /\
  m_root (tree (snd Demo.run7)) = 0 /\
  exists n,
    nthZ (m_nodes (tree (snd Demo.run7))) 0 = Some n /\
    isNodeLeaf n = false /\ left n = 1 /\
    2 <= right n < m_num_nodes (tree (snd Demo.run7)) /\ num_particles n = 0.
Proof.
  destruct (@buildTree_node_count Demo.env2 OBBTree_new Demo.os7 Demo.cs7 0 7 _
              ltac:(unfold inputs_ok, is_u32; simpl; lia)
              (returned_eq Demo.run7 ltac:(vm_compute; reflexivity)))
    as (Hcount & _ & Hmany & Hroot & n & Hn & _ & Hinner).
  assert (Hcap : @node_capacity Demo.env2 < 7) by (simpl; lia).
  split; [exact Hcount |]. split; [exact (Hmany Hcap) |]. split; [exact Hroot |].
  exists n. split; [exact Hn | exact (Hinner Hcap)].
Defined.

Lemma buildTree_boxes_fitted_witness :
  exists n ps pts,
    nthZ (m_nodes (tree (snd Demo.run7))) 0 = Some n /\
    ps ≡ₚ below (tree (snd Demo.run7)) 0 /\
    (isNodeLeaf n = true -> ps = stored n) /\
    @verts Demo.env2 Demo.cs7 ps pts /\
    obb n = @compute_obb Demo.env2 pts 0.
Proof.
  apply (@buildTree_boxes_fitted Demo.env2 OBBTree_new Demo.os7 Demo.cs7 0 7).
  - unfold inputs_ok, is_u32. simpl. lia.
  - exact (returned_eq Demo.run7 ltac:(vm_compute; reflexivity)).
  - assert (E : m_num_nodes (tree (snd Demo.run7)) = 7) by (vm_compute; reflexivity).
    rewrite E. lia.
Defined.

Lemma buildTree_median_split_witness :
  exists n,
    nthZ (m_nodes (tree (snd Demo.run7))) 0 = Some n /\
    (isNodeLeaf n = false ->
     @split_ok Demo.env2 Demo.os7 (obb n) (below (tree (snd Demo.run7)) (left n))
              (below (tree (snd Demo.run7)) (right n))).
Proof.
  apply (@buildTree_median_split Demo.env2 OBBTree_new Demo.os7 Demo.cs7 0 7).
  - unfold inputs_ok, is_u32. simpl. lia.
  - exact (returned_eq Demo.run7 ltac:(vm_compute; reflexivity)).
  - assert (E : m_num_nodes (tree (snd Demo.run7)) = 7) by (vm_compute; reflexivity).
    rewrite E. lia.
Defined.



Lemma buildTree_arena_bound_witness :
  m_node_capacity (tree (snd Demo.run7)) = m_node_capacity (@OBBTree_new Demo.env2) \/
  m_node_capacity (tree (snd Demo.run7)) <=
    Z.max 16 (2 * (m_num_nodes (tree (snd Demo.run7)) - 1)).
Proof.
  apply (@buildTree_arena_bound Demo.env2 OBBTree_new Demo.os7 Demo.cs7 0 7 (inr tt)).
  - unfold inputs_ok, is_u32. simpl. lia.
  - exact (returned_eq Demo.run7 ltac:(vm_compute; reflexivity)).
Defined.

Lemma accessors_in_bounds_witness :
  exists n,
    getNode (tree (snd Demo.run7)) 2 = Some n /\
    getNodeOBB (tree (snd Demo.run7)) 2 = Some (obb n) /\
    getNodeSkip (tree (snd Demo.run7)) 2 = Some (skip n) /\
    getNodeLeft (tree (snd Demo.run7)) 2 = Some (left n) /\
    getNodeNumParticles (tree (snd Demo.run7)) 2 = Some (num_particles n) /\
    2 + skip n + 1 <= getNumNodes (tree (snd Demo.run7)) /\
    (isNodeLeaf n = true <-> 1 <= num_particles n) /\
    num_particles n <= @node_capacity Demo.env2 /\
    forall j, 0 <= j < num_particles n ->
      exists p, getNodeParticle (tree (snd Demo.run7)) 2 j = Some p /\
                0 <= p < 7 /\ nthZ (m_mapping (tree (snd Demo.run7))) p = Some 2.
Proof.
  apply (@accessors_in_bounds Demo.env2 OBBTree_new Demo.os7 Demo.cs7 0 7).
  - unfold inputs_ok, is_u32. simpl. lia.
  - exact (returned_eq Demo.run7 ltac:(vm_compute; reflexivity)).
  - assert (E : getNumNodes (tree (snd Demo.run7)) = 7) by (vm_compute; reflexivity).
    rewrite E. lia.
Defined.

Lemma query_visits_as_descent_witness :
  @query_tested Demo.env2 (tree (snd Demo.run7)) [] (Demo.brick 0 0) =
    inr (5, [0; 1], [0; 1; 2; 3; 4]) /\
  (forall t0 hits0 q0,
     untested (@query_tested Demo.env2 t0 hits0 q0) = query t0 hits0 q0) /\
  exists c out vs,
    query_tested (tree (snd Demo.run7)) [] (Demo.brick 0 0) = inr (c, [] ++ out, vs) /\
    query (tree (snd Demo.run7)) [] (Demo.brick 0 0) = inr (c, [] ++ out) /\
    c = Z.of_nat (length vs) /\ StronglySorted Z.lt vs /\ NoDup vs /\
    forall a, a ∈ vs <->
      (0 <= a < m_num_nodes (tree (snd Demo.run7)) /\
       forall b n, reach (m_nodes (tree (snd Demo.run7))) b a -> b <> a ->
                   nthZ (m_nodes (tree (snd Demo.run7))) b = Some n ->
                   overlap (obb n) (Demo.brick 0 0) = true).
Proof.
  split; [vm_compute; reflexivity |].
  apply (@query_visits_as_descent Demo.env2 OBBTree_new Demo.os7 Demo.cs7 0 7).
  - unfold inputs_ok, is_u32. simpl. lia.
  - exact (returned_eq Demo.run7 ltac:(vm_compute; reflexivity)).
Defined.

Lemma buildNode_leaves_alone_witness :
  (exists new,
     m_nodes (tree (snd (@buildNode Demo.env1 3 0 1 3 OBB_INVALID_NODE Demo.start5))) =
     m_nodes (tree Demo.start5) ++ new) /\
  m_root (tree (snd (@buildNode Demo.env1 3 0 1 3 OBB_INVALID_NODE Demo.start5))) =
    m_root (tree Demo.start5) /\
  lockstep 1 (1 + 3) Demo.start5
           (snd (@buildNode Demo.env1 3 0 1 3 OBB_INVALID_NODE Demo.start5)) /\
  (forall p, p ∉ segZ (idx Demo.start5) 1 3 ->
     nthZ (m_mapping (tree (snd (@buildNode Demo.env1 3 0 1 3 OBB_INVALID_NODE
                                   Demo.start5)))) p =
     nthZ (m_mapping (tree Demo.start5)) p) /\
  (3 <= @node_capacity Demo.env1 ->
   idx (snd (@buildNode Demo.env1 3 0 1 3 OBB_INVALID_NODE Demo.start5)) =
     idx Demo.start5 /\
   obbs (snd (@buildNode Demo.env1 3 0 1 3 OBB_INVALID_NODE Demo.start5)) =
     obbs Demo.start5 /\
   internal_coordinates (snd (@buildNode Demo.env1 3 0 1 3 OBB_INVALID_NODE
                                Demo.start5)) =
     internal_coordinates Demo.start5).
Proof.
  apply (@buildNode_leaves_alone Demo.env1 5 0 3%nat 1 3 OBB_INVALID_NODE Demo.start5).
  - unfold build_pre, arena_ok, scratch_ok. simpl.
    repeat split; try lia; reflexivity.
  - simpl. lia.
Defined.

Lemma minl_le (f : Z * Z -> Z) d (pts : list (Z * Z)) v :
  v ∈ pts -> Plane.minl d (map f pts) <= f v.
Proof.
  induction pts as [| y l IH]; intros Hx; [inversion Hx |].
  unfold Plane.minl in *. cbn [map foldr].
  apply elem_of_cons in Hx as [-> | Hx]; [lia |].
  specialize (IH Hx). lia.
Qed.

Lemma maxl_ge (f : Z * Z -> Z) d (pts : list (Z * Z)) v :
  v ∈ pts -> f v <= Plane.maxl d (map f pts).
Proof.
  induction pts as [| y l IH]; intros Hx; [inversion Hx |].
  unfold Plane.maxl in *. cbn [map foldr].
  apply elem_of_cons in Hx as [-> | Hx]; [lia |].
  specialize (IH Hx). lia.
Qed.

Lemma fit_holds pts v : v ∈ pts -> Arena.holds (Plane.fit pts 0) v = true.
Proof.
  intros Hv. destruct pts as [| [x0 y0] rest]; [inversion Hv |].
  pose proof (minl_le fst x0 _ v Hv).
  pose proof (maxl_ge fst x0 _ v Hv).
  pose proof (minl_le snd y0 _ v Hv).
  pose proof (maxl_ge snd y0 _ v Hv).
  pose proof (minl_le (fun p => fst p + snd p) (x0 + y0) _ v Hv).
  pose proof (maxl_ge (fun p => fst p + snd p) (x0 + y0) _ v Hv).
  pose proof (minl_le (fun p => fst p - snd p) (x0 - y0) _ v Hv).
  pose proof (maxl_ge (fun p => fst p - snd p) (x0 - y0) _ v Hv).
  unfold Plane.fit. cbv zeta.
  destruct (_ <? _); unfold Arena.holds; cbn [Plane.diag Plane.ulo Plane.uhi Plane.vlo
                                             Plane.vhi];
    rewrite !andb_true_iff, !Z.leb_le; cbv beta in *; lia.
Qed.

Lemma holds_overlap a b v :
  Arena.holds a v = true -> Arena.holds b v = true -> Plane.boxes_overlap a b = true.
Proof.
  unfold Arena.holds, Plane.boxes_overlap, Plane.spans.
  destruct (Plane.diag a), (Plane.diag b); simpl; unfold Plane.meet; simpl;
    rewrite !andb_true_iff, !Z.leb_le; lia.
Qed.

Lemma buildTree_boxes_hold_witness :
  exists n,
    nthZ (m_nodes (tree (snd Demo.run7))) 2 = Some n /\
    forall p c v, p ∈ below (tree (snd Demo.run7)) 2 -> nthZ Demo.cs7 p = Some c ->
                  v ∈ c -> Arena.holds (obb n) v = true.
Proof.
  apply (@buildTree_boxes_hold Demo.env2 Arena.holds OBBTree_new Demo.os7 Demo.cs7 0 7).
  - intros pts v. apply fit_holds.
  - unfold inputs_ok, is_u32. simpl. lia.
  - exact (returned_eq Demo.run7 ltac:(vm_compute; reflexivity)).
  - assert (E : m_num_nodes (tree (snd Demo.run7)) = 7) by (vm_compute; reflexivity).
    rewrite E. lia.
Defined.

Lemma query_finds_vertices_witness :
  exists c out,
    query (tree (snd Demo.run7)) [] (Demo.brick 20 0) = inr (c, [] ++ out) /\
    forall p cp v, 0 <= p < 7 -> nthZ Demo.cs7 p = Some cp -> v ∈ cp ->
                   Arena.holds (Demo.brick 20 0) v = true -> p ∈ out.
Proof.
  apply (@query_finds_vertices Demo.env2 Arena.holds OBBTree_new Demo.os7 Demo.cs7 0 7).
  - intros pts v. apply fit_holds.
  - intros a b v. apply holds_overlap.
  - unfold inputs_ok, is_u32. simpl. lia.
  - exact (returned_eq Demo.run7 ltac:(vm_compute; reflexivity)).
Defined.

Lemma buildTree_can_be_repeated_witness :
  @inputs_ok Demo.env16 (tree (snd Demo.run9)) (obbs (snd Demo.run9))
             (internal_coordinates (snd Demo.run9)) 9.
Proof.
  apply (@buildTree_can_be_repeated Demo.env16 OBBTree_new Demo.os9 Demo.cs9 0 9
           (inl AllocationError)).
  - unfold inputs_ok, is_u32. simpl. lia.
  - exact (stopped_eq Demo.run9 AllocationError ltac:(vm_compute; reflexivity)).
Defined.

Lemma query_after_failure_witness :
  query (tree (snd Demo.run9)) [7] (Plane.cube 0 0) =
  inr (m_num_nodes (tree (snd Demo.run9)),
       [7] ++ concat (map (leaf_particles (tree (snd Demo.run9)))
                          (overlapping_leaves (tree (snd Demo.run9)) (Plane.cube 0 0)))).
Proof.
  apply (@query_after_failure Demo.env16 OBBTree_new Demo.os9 Demo.cs9 0 9 AllocationError).
  - unfold inputs_ok, is_u32. simpl. lia.
  - exact (stopped_eq Demo.run9 AllocationError ltac:(vm_compute; reflexivity)).
Defined.
